(** * quick-alias: the profile provisioning engine and the generated
      git workflow, embedded in Rocq.

    The development follows the layout of the repository:
    - [JsString]: JavaScript strings as lists of UTF-16 code units, and the
      fragment of regular expressions the installer builds at run time;
    - [Fs]: the part of Node's [fs.promises] the installer calls;
    - [Installer]: lib/installer.js (profile detection, backup, detection
      and removal of function blocks, installation);
    - [Reload]: lib/reload.js;
    - [Detector], [Templates], [Tester]: the provider catalogue, the
      emitted shell functions and the headless test;
    - [Models]: lib/detector.js, detection of the providers and the models
      of a provider;
    - [Workflow]: the run-time behaviour of the emitted shell functions;
    - [Setup]: bin/index.js, the installation steps of the setup. *)

From Stdlib Require Import List NArith PeanoNat Lia Bool String Ascii.
From Stdlib Require Import Sorted Permutation.
From stdpp Require Import gmap.
Import ListNotations.

Local Open Scope N_scope.
Local Open Scope list_scope.

(* ===================================================================== *)
(** * JavaScript strings *)
(* ===================================================================== *)

Module JsString.

(** A JavaScript string is a sequence of UTF-16 code units. *)
Abbreviation cu := N.
Abbreviation jsstring := (list N).

Fixpoint bytes_of (s : string) : list N :=
  match s with
  | EmptyString => []
  | String a t => N_of_ascii a :: bytes_of t
  end.

(** The source files are UTF-8; a literal of this file holds the same
    bytes.  [utf8_decode] turns them into code points. *)
Fixpoint utf8_decode (bs : list N) : list N :=
  match bs with
  | [] => []
  | b :: t =>
      if b <? 128 then b :: utf8_decode t
      else if b <? 224 then
        match t with
        | c1 :: t1 => ((b - 192) * 64 + (c1 - 128)) :: utf8_decode t1
        | _ => []
        end
      else if b <? 240 then
        match t with
        | c1 :: c2 :: t2 =>
            ((b - 224) * 4096 + (c1 - 128) * 64 + (c2 - 128)) :: utf8_decode t2
        | _ => []
        end
      else
        match t with
        | c1 :: c2 :: c3 :: t3 =>
            ((b - 240) * 262144 + (c1 - 128) * 4096 + (c2 - 128) * 64 + (c3 - 128))
              :: utf8_decode t3
        | _ => []
        end
  end.

Definition utf16 (cp : N) : list cu :=
  if cp <? 65536 then [cp]
  else [55296 + (cp - 65536) / 1024; 56320 + (cp - 65536) mod 1024].

(** Literals.  A backquote never occurs inside the template literals of the
    source (it delimits them), so in the literals of this file a backquote
    stands for the double quote character (code unit 34). *)
Definition unquote (b : N) : N := if b =? 96 then 34 else b.

Definition lit (s : string) : jsstring :=
  flat_map utf16 (utf8_decode (map unquote (bytes_of s))).

Definition nl : cu := 10.
Definition hash : cu := 35.
Definition space : cu := 32.
Definition lparen : cu := 40.
Definition rparen : cu := 41.
Definition lbrace : cu := 123.
Definition rbrace : cu := 125.
Definition equals : cu := 61.

(** Decimal rendering of a number inside a template literal. *)
Definition digit (d : N) : cu := 48 + d.

Fixpoint decimal_fuel (fuel : nat) (n : N) (acc : jsstring) : jsstring :=
  match fuel with
  | O => acc
  | S f =>
      if n <? 10 then digit n :: acc
      else decimal_fuel f (n / 10) (digit (n mod 10) :: acc)
  end.

Definition decimal (n : N) : jsstring :=
  decimal_fuel (S (N.to_nat (N.log2 n))) n [].

(** [String.prototype.includes]. *)
Fixpoint starts_with (p s : jsstring) : bool :=
  match p, s with
  | [], _ => true
  | _ :: _, [] => false
  | a :: p', b :: s' => (a =? b) && starts_with p' s'
  end.

Fixpoint includes (s p : jsstring) : bool :=
  starts_with p s ||
  match s with
  | [] => false
  | _ :: t => includes t p
  end.

(** Character classes of ECMAScript regular expressions. *)
Definition isLineTerminator (c : cu) : bool :=
  (c =? 10) || (c =? 13) || (c =? 8232) || (c =? 8233).

(** [\s]: WhiteSpace and LineTerminator code points. *)
Definition isSpace (c : cu) : bool :=
  ((9 <=? c) && (c <=? 13)) || (c =? 32) || (c =? 160) || (c =? 5760)
  || ((8192 <=? c) && (c <=? 8202)) || (c =? 8232) || (c =? 8233)
  || (c =? 8239) || (c =? 8287) || (c =? 12288) || (c =? 65279).

Inductive cclass :=
  | Space            (* \s *)
  | Not (c : cu)     (* [^c] *)
  | AnyChar          (* [\s\S] *)
  | Only (c : cu).   (* a single character *)

Definition NotNL : cclass := Not 10.

Definition in_class (k : cclass) (c : cu) : bool :=
  match k with
  | Space => isSpace c
  | Not d => negb (c =? d)
  | AnyChar => true
  | Only d => c =? d
  end.

(** The regular expressions the installer builds are sequences of atoms:
    a literal character, a greedy repetition [k{n,}] of a class, a lazy
    repetition [k*?], or an optional character [c?]. *)
Inductive item :=
  | Chr (c : cu)
  | Greedy (n : nat) (k : cclass)
  | Lazy (k : cclass)
  | Opt (c : cu).

Definition cont := jsstring -> option jsstring.

(** Backtracking matcher in continuation style; a match returns the input
    left after it.  Greedy repetitions try the longest run first, lazy ones
    the shortest, as the ECMAScript semantics prescribes. *)
Definition chr (c : cu) (k : cont) : cont := fun s =>
  match s with
  | x :: t => if x =? c then k t else None
  | [] => None
  end.

Fixpoint star (cl : cclass) (k : cont) (s : jsstring) : option jsstring :=
  match s with
  | [] => k []
  | c :: t =>
      if in_class cl c then
        match star cl k t with
        | Some z => Some z
        | None => k s
        end
      else k s
  end.

Fixpoint exactly (n : nat) (cl : cclass) (k : cont) (s : jsstring)
  : option jsstring :=
  match n with
  | O => k s
  | S m =>
      match s with
      | c :: t => if in_class cl c then exactly m cl k t else None
      | [] => None
      end
  end.

Fixpoint lazy_star (cl : cclass) (k : cont) (s : jsstring) : option jsstring :=
  match k s with
  | Some z => Some z
  | None =>
      match s with
      | c :: t => if in_class cl c then lazy_star cl k t else None
      | [] => None
      end
  end.

Definition opt (c : cu) (k : cont) : cont := fun s =>
  match s with
  | x :: t =>
      if x =? c then
        match k t with
        | Some z => Some z
        | None => k s
        end
      else k s
  | [] => k []
  end.

Fixpoint mtch (r : list item) : cont :=
  match r with
  | [] => fun s => Some s
  | Chr c :: r' => chr c (mtch r')
  | Greedy n cl :: r' => exactly n cl (star cl (mtch r'))
  | Lazy cl :: r' => lazy_star cl (mtch r')
  | Opt c :: r' => opt c (mtch r')
  end.

(** A name interpolated into the source of a regular expression stands for
    itself when none of its characters is a syntax character.  The
    installer does not escape the names it interpolates: for a name with a
    syntax character the expression it builds is another one (or none),
    and [str] is not what the code matches with.  The statements below
    that depend on what an expression with a name in it matches are made
    for the names of [alias_name], which have no such character. *)
Definition str (s : jsstring) : list item := map Chr s.

(** A regular expression: an optional leading [^] (all the expressions of
    the installer that use [^] carry the [m] flag) and a body. *)
Record regex := { anchored : bool; body : list item }.

Definition at_bol (prev : option cu) : bool :=
  match prev with
  | None => true
  | Some c => isLineTerminator c
  end.

Definition match_at (re : regex) (prev : option cu) (s : jsstring)
  : option jsstring :=
  if anchored re && negb (at_bol prev) then None else mtch (body re) s.

(** [RegExp.prototype.test] for an expression without the [g] flag: is
    there a position at which the expression matches? *)
Fixpoint search (re : regex) (prev : option cu) (s : jsstring) : bool :=
  match match_at re prev s with
  | Some _ => true
  | None =>
      match s with
      | [] => false
      | c :: t => search re (Some c) t
      end
  end.

Definition test (re : regex) (s : jsstring) : bool := search re None s.

(** Number of positions at which the expression matches. *)
Fixpoint count_from (re : regex) (prev : option cu) (s : jsstring) : nat :=
  (match match_at re prev s with Some _ => 1 | None => 0 end +
   match s with
   | [] => 0
   | c :: t => count_from re (Some c) t
   end)%nat.

Definition count (re : regex) (s : jsstring) : nat := count_from re None s.

(** [String.prototype.replace] with a [g] expression and a constant
    replacement.  [skip] counts the characters of the current match that
    are still to be dropped; the scan resumes after the match.  An empty
    match inserts the replacement and copies one character. *)
Fixpoint replace_from (re : regex) (by_ : jsstring) (skip : nat)
    (prev : option cu) (s : jsstring) : jsstring :=
  match skip with
  | S k =>
      match s with
      | [] => []
      | c :: t => replace_from re by_ k (Some c) t
      end
  | O =>
      match match_at re prev s with
      | Some z =>
          match (length s - length z)%nat with
          | S k =>
              by_ ++ match s with
                     | [] => []
                     | c :: t => replace_from re by_ k (Some c) t
                     end
          | O =>
              by_ ++ match s with
                     | [] => []
                     | c :: t => c :: replace_from re by_ O (Some c) t
                     end
          end
      | None =>
          match s with
          | [] => []
          | c :: t => c :: replace_from re by_ O (Some c) t
          end
      end
  end.

Definition replace (re : regex) (by_ : jsstring) (s : jsstring) : jsstring :=
  replace_from re by_ O None s.

(** [s.trim()]: strip [\s] characters at both ends. *)
Fixpoint trim_start (s : jsstring) : jsstring :=
  match s with
  | c :: t => if isSpace c then trim_start t else s
  | [] => []
  end.

Definition trim (s : jsstring) : jsstring :=
  rev (trim_start (rev (trim_start s))).

End JsString.
Export JsString.


(* ===================================================================== *)
(** * The file system and the host *)
(* ===================================================================== *)

Module Fs.

Inductive fs_error := ENOENT | EACCES.

Inductive result (A : Type) :=
  | Ok (a : A)
  | Err (e : fs_error).
Arguments Ok {A} a.
Arguments Err {A} e.

(** The files that exist, with their contents, and the paths the process
    may not write to.  The installer reads and writes its files as UTF-8
    text; a content is the text that [readFile(p, 'utf-8')] returns, and
    the files are taken to be UTF-8 text, so that writing back the text
    that was read leaves the file as it was. *)
Record fs_state := {
  files : gmap jsstring jsstring;
  denied : jsstring -> bool
}.

Definition set_file (st : fs_state) (p data : jsstring) : fs_state :=
  {| files := <[p := data]> (files st); denied := denied st |}.

(** [fs.access(p)] with the default mode: does the file exist? *)
Definition access (st : fs_state) (p : jsstring) : result unit :=
  match files st !! p with
  | Some _ => Ok tt
  | None => Err ENOENT
  end.

Definition readFile (st : fs_state) (p : jsstring) : result jsstring :=
  match files st !! p with
  | Some d => Ok d
  | None => Err ENOENT
  end.

Definition writeFile (st : fs_state) (p data : jsstring) : result fs_state :=
  if denied st p then Err EACCES else Ok (set_file st p data).

(** [fs.appendFile] creates the file when it does not exist. *)
Definition appendFile (st : fs_state) (p data : jsstring) : result fs_state :=
  if denied st p then Err EACCES
  else Ok (set_file st p (default [] (files st !! p) ++ data)).

Definition copyFile (st : fs_state) (src dst : jsstring) : result fs_state :=
  match files st !! src with
  | None => Err ENOENT
  | Some d => if denied st dst then Err EACCES else Ok (set_file st dst d)
  end.

(** What the process reads from its environment: [process.env.SHELL],
    [os.homedir()] and [path.join]. *)
Record host := {
  env_SHELL : option jsstring;
  homedir : jsstring;
  path_join : jsstring -> jsstring -> jsstring
}.

(** The clock: [Date.now()] and [new Date().toISOString()]. *)
Record clock := {
  now : N;
  toISOString : jsstring
}.

(** [path.join] of a normalized directory and a file name. *)
Definition posix_join (dir file : jsstring) : jsstring :=
  dir ++ lit "/" ++ file.

End Fs.
Export Fs.

(* ===================================================================== *)
(** * lib/detector.js: the provider catalogue *)
(* ===================================================================== *)

Module Detector.

Record preset := {
  preset_name : jsstring;
  value : jsstring;
  description : jsstring
}.

Record CLI := {
  id : jsstring;
  name : jsstring;
  command : jsstring;
  headlessFlag : jsstring;
  modelFlag : option jsstring;
  permissionFlag : option jsstring;
  extraFlags : option jsstring;
  dynamicModels : bool;
  models : option (list preset);
  buildCommand : jsstring -> jsstring -> jsstring
}.

(** [prompt.replace(/"/g, '\\"')] *)
Definition escape_quotes (prompt : jsstring) : jsstring :=
  replace {| anchored := false; body := [Chr 34] |} (lit "\`") prompt.

Definition mk_preset (n v d : string) : preset :=
  {| preset_name := lit n; value := lit v; description := lit d |}.

Definition claude : CLI := {|
  id := lit "claude";
  name := lit "Claude Code";
  command := lit "claude";
  headlessFlag := lit "--print";
  modelFlag := Some (lit "--model");
  permissionFlag := Some (lit "--dangerously-skip-permissions");
  extraFlags := None;
  dynamicModels := false;
  models := Some [ mk_preset "haiku" "haiku" "fast, cheap";
                   mk_preset "sonnet" "sonnet" "balanced";
                   mk_preset "opus" "opus" "most capable" ];
  buildCommand := fun prompt model =>
    lit "claude --print --model " ++ model
    ++ lit " --dangerously-skip-permissions `" ++ escape_quotes prompt ++ lit "`"
|}.

Definition gemini : CLI := {|
  id := lit "gemini";
  name := lit "Gemini CLI";
  command := lit "gemini";
  headlessFlag := lit "--prompt";
  modelFlag := Some (lit "--model");
  permissionFlag := None;
  extraFlags := None;
  dynamicModels := false;
  models := Some [ mk_preset "gemini-3-flash" "gemini-3-flash" "fast, efficient";
                   mk_preset "gemini-3-pro" "gemini-3-pro" "advanced reasoning" ];
  buildCommand := fun prompt model =>
    lit "gemini --prompt `" ++ escape_quotes prompt ++ lit "` --model " ++ model
|}.

Definition copilot : CLI := {|
  id := lit "copilot";
  name := lit "GitHub Copilot CLI";
  command := lit "copilot";
  headlessFlag := lit "--prompt";
  modelFlag := None;
  permissionFlag := None;
  extraFlags := None;
  dynamicModels := false;
  models := None;
  buildCommand := fun prompt _ =>
    lit "copilot --prompt `" ++ escape_quotes prompt ++ lit "`"
|}.

Definition opencode : CLI := {|
  id := lit "opencode";
  name := lit "OpenCode";
  command := lit "opencode";
  headlessFlag := lit "run";
  modelFlag := Some (lit "--model");
  permissionFlag := None;
  extraFlags := None;
  dynamicModels := true;
  models := None;
  buildCommand := fun prompt model =>
    lit "opencode run `" ++ escape_quotes prompt ++ lit "` --model " ++ model
|}.

Definition aider : CLI := {|
  id := lit "aider";
  name := lit "Aider";
  command := lit "aider";
  headlessFlag := lit "--message";
  modelFlag := Some (lit "--model");
  permissionFlag := None;
  extraFlags := Some (lit "--yes-always --no-auto-commits");
  dynamicModels := false;
  models := Some [ mk_preset "claude-sonnet-4" "claude-sonnet-4" "balanced";
                   mk_preset "gpt-5" "gpt-5" "advanced";
                   mk_preset "claude-haiku-4" "claude-haiku-4" "fast, cheap" ];
  buildCommand := fun prompt model =>
    lit "aider --message `" ++ escape_quotes prompt ++ lit "` --model " ++ model
    ++ lit " --yes-always --no-auto-commits"
|}.

Definition CLI_INFO : list CLI := [claude; gemini; copilot; opencode; aider].

End Detector.
Export Detector.

(* ===================================================================== *)
(** * lib/detector.js: detection and the models of a provider *)
(* ===================================================================== *)

Module Models.

(** [detectCLIs]: the providers of the catalogue whose command is found,
    in the order of the catalogue.  [which] is the answer of
    [commandExists]. *)
Definition detectCLIs (which : jsstring -> bool) : list CLI :=
  List.filter (fun cli => which (command cli)) CLI_INFO.

(** [s.split(c)] for a separator of one character. *)
Fixpoint split_from (c : cu) (cur : jsstring) (s : jsstring) : list jsstring :=
  match s with
  | [] => [rev cur]
  | x :: t =>
      if x =? c then rev cur :: split_from c [] t
      else split_from c (x :: cur) t
  end.

Definition split (c : cu) (s : jsstring) : list jsstring := split_from c [] s.

Definition slash : cu := 47.

(** A line of [opencode models]; [name] is also the [value]. *)
Record entry := {
  name : jsstring;
  provider : jsstring;
  model : jsstring
}.

(** [const [provider, model] = line.includes('/') ? line.split('/')
    : ['opencode', line]]: the first two parts of the line. *)
Definition parse (line : jsstring) : entry :=
  if includes line [slash] then
    let parts := split slash line in
    {| name := line; provider := nth 0 parts []; model := nth 1 parts [] |}
  else
    {| name := line; provider := lit "opencode"; model := line |}.

Definition priority : list jsstring :=
  [lit "big-pickle"; lit "glm"; lit "gpt"; lit "grok"; lit "minimax"].

(** [l.findIndex(f)]; [None] is [-1]. *)
Fixpoint findIndex (f : jsstring -> bool) (l : list jsstring) : option N :=
  match l with
  | [] => None
  | p :: t =>
      if f p then Some 0
      else match findIndex f t with
           | Some i => Some (i + 1)
           | None => None
           end
  end.

Section Sorting.

(** [String.prototype.toLowerCase], a function of the host. *)
Variable toLowerCase : jsstring -> jsstring.

(** The key of the comparison function: [aIdx === -1 ? 999 : aIdx]. *)
Definition rank (m : entry) : N :=
  match findIndex (fun p => includes (toLowerCase (model m)) p) priority with
  | Some i => i
  | None => 999
  end.

(** [models.sort((a, b) => aPriority - bPriority)]: the sort of an array
    is stable, and the comparison function orders the entries by their
    key, so the result is the one of a stable insertion sort. *)
Fixpoint insert (x : entry) (l : list entry) : list entry :=
  match l with
  | [] => [x]
  | y :: t => if rank y <? rank x then y :: insert x t else x :: l
  end.

Definition sort (l : list entry) : list entry := fold_right insert [] l.

(** The description of the model at the index [idx]. *)
Definition describe (idx : nat) (m : entry) : preset :=
  let desc := provider m in
  let desc := if includes (model m) (lit "free")
              then desc ++ lit ", free tier" else desc in
  let desc := if includes (model m) (lit "flash")
              then desc ++ lit ", fast" else desc in
  let desc := if includes (model m) (lit "nano")
              then desc ++ lit ", lightweight" else desc in
  let desc := if Nat.eqb idx 0 then desc ++ lit " - recommended" else desc in
  {| preset_name := name m; value := name m; description := desc |}.

Fixpoint mapi_from {A B} (f : nat -> A -> B) (i : nat) (l : list A) : list B :=
  match l with
  | [] => []
  | a :: t => f i a :: mapi_from f (S i) t
  end.

(** The non-blank lines of what [opencode models] printed. *)
Definition model_lines (stdout : jsstring) : list jsstring :=
  List.filter (fun l => match trim l with [] => false | _ => true end)
    (split nl (trim stdout)).

(** Fetch available models for OpenCode.  [exec] is what
    [opencode models] printed, [None] when the command failed or timed
    out; the result [None] is [null]. *)
Definition fetchOpenCodeModels (exec : option jsstring)
  : option (list preset) :=
  match exec with
  | None => None
  | Some stdout =>
      match model_lines stdout with
      | [] => None
      | lines => Some (mapi_from describe 0 (sort (map parse lines)))
      end
  end.

(** Fallback if fetch fails. *)
Definition fallback : list preset :=
  [ mk_preset "opencode/big-pickle" "opencode/big-pickle" "stable, recommended";
    mk_preset "opencode/glm-4.7-free" "opencode/glm-4.7-free" "free tier";
    mk_preset "opencode/gpt-5-nano" "opencode/gpt-5-nano" "lightweight";
    mk_preset "opencode/grok-code" "opencode/grok-code" "coding focused" ].

(** Get models for a CLI (handles dynamic fetching for OpenCode). *)
Definition getModelsForCLI (exec : option jsstring) (cli : CLI)
  : option (list preset) :=
  if bool_decide (id cli = lit "opencode") && dynamicModels cli then
    match fetchOpenCodeModels exec with
    | Some (m :: l) => Some (m :: l)
    | _ => Some fallback
    end
  else models cli.

End Sorting.

End Models.

(* ===================================================================== *)
(** * templates/aliases.js: the emitted shell functions *)
(* ===================================================================== *)

Module Templates.

Definition jseq (a b : jsstring) : bool := bool_decide (a = b).

(** A JavaScript string is truthy when it is not empty. *)
Definition truthy (o : option jsstring) : bool :=
  match o with
  | Some (_ :: _) => true
  | _ => false
  end.

Definition buildCLICommand (cli : CLI) (model : jsstring) : jsstring :=
  if jseq (id cli) (lit "claude") then
    lit "claude --print --model " ++ model
    ++ lit " --dangerously-skip-permissions `$prompt`"
  else if jseq (id cli) (lit "gemini") then
    lit "gemini --prompt `$prompt` --model " ++ model
  else if jseq (id cli) (lit "copilot") then
    lit "copilot --prompt `$prompt`"
  else if jseq (id cli) (lit "opencode") then
    lit "opencode run `$prompt` --model " ++ model
  else if jseq (id cli) (lit "aider") then
    lit "aider --message `$prompt` --model " ++ model
    ++ lit " --yes-always --no-auto-commits"
  else
    command cli ++ lit " " ++ headlessFlag cli ++ lit " `$prompt` "
    ++ (if truthy (modelFlag cli)
        then default [] (modelFlag cli) ++ lit " " ++ model
        else []).

Definition gp_text0 : jsstring :=
  lit "# Git Push with AI Commit Message (".

Definition gp_text1 : jsstring :=
  lit " alias)
# Provider: ".

Definition gp_text2 : jsstring :=
  lit " | Model: ".

Definition gp_text3 : jsstring :=
  lit "
".

Definition gp_text4 : jsstring :=
  lit "() {
    local GREEN=$'\033[0;32m'
    local YELLOW=$'\033[1;33m'
    local BLUE=$'\033[0;34m'
    local RED=$'\033[0;31m'
    local NC=$'\033[0m'
    local BOLD=$'\033[1m'
    local DIM=$'\033[2m'
    
    local review_mode=false
    local user_message=``
    
    if [[ `$1` == `-r` ]]; then
        review_mode=true
        shift
        user_message=`$*`
    else
        user_message=`$*`
    fi

    if ! command -v git &> /dev/null; then
        echo `${RED}Error:${NC} git is not installed`
        return 1
    fi

    if ! git rev-parse --is-inside-work-tree > /dev/null 2>&1; then
        echo `${RED}Error:${NC} Not a git repository`
        return 1
    fi

    if git ls-files -u | grep -q .; then
        echo `${RED}Error:${NC} Unresolved merge conflicts`
        return 1
    fi

    local current_branch=$(git branch --show-current 2>/dev/null)
    if [ -z `$current_branch` ]; then
        echo `${RED}Error:${NC} Detached HEAD state`
        return 1
    fi

    local has_staged=false
    local has_unstaged=false
    local has_untracked=false
    
    ! git diff --cached --quiet && has_staged=true
    ! git diff --quiet && has_unstaged=true
    [ -n `$(git ls-files --others --exclude-standard 2>/dev/null)` ] && has_untracked=true

    if [ `$has_staged` = false ] && [ `$has_unstaged` = false ] && [ `$has_untracked` = false ]; then
        echo `${YELLOW}Nothing to commit${NC} - working tree clean`
        local unpushed=$(git log @{u}.. --oneline 2>/dev/null | wc -l | tr -d ' ')
        if [ `$unpushed` -gt 0 ] 2>/dev/null; then
            echo `${DIM}You have ${unpushed} unpushed commit(s)${NC}`
            echo -n `${YELLOW}Push existing commits? [Y/n]:${NC} `
            read push_only
            if [[ ! `$push_only` =~ ^[nN] ]]; then
                git push origin `$current_branch` 2>&1 && echo `${GREEN}✓ Pushed${NC}`
            fi
        fi
        return 0
    fi

    if ! git remote get-url origin > /dev/null 2>&1; then
        echo `${YELLOW}Warning:${NC} No remote 'origin' configured`
        local skip_push=true
    else
        local skip_push=false
    fi

    echo `${BOLD}${BLUE}━━━━━━━━━━━━━━━━━━━━━━━━━━━━━━━━━━━━━━━━━━━━━━━━━━━${NC}`
    echo `${BOLD}🚀 Git Push with AI Commit Message${NC}`
    echo `${BOLD}${BLUE}━━━━━━━━━━━━━━━━━━━━━━━━━━━━━━━━━━━━━━━━━━━━━━━━━━━${NC}`

    local commit_message=``
    
    if [ -n `$user_message` ]; then
        echo ``
        echo `${GREEN}✓${NC} Using provided commit message`
        commit_message=`$user_message`
    else
        if ! command -v ".

Definition gp_text5 : jsstring :=
  lit " &> /dev/null; then
            echo `${RED}Error:${NC} ".

Definition gp_text6 : jsstring :=
  lit " is not installed`
            return 1
        fi

        echo ``
        echo `${YELLOW}[1/4]${NC} 🔍 Analyzing git changes...`
    
        local staged_diff=$(git diff --cached 2>/dev/null | head -500)
        local unstaged_diff=$(git diff 2>/dev/null | head -500)
        local untracked_files=$(git ls-files --others --exclude-standard 2>/dev/null | head -50)
    
        local prompt=`Analyze the following git changes and generate a commit message following the Conventional Commits specification with bullet-point changelog style.

## Commit Message Format:
<type>(<scope>): <short summary>

- <bullet point describing a specific change>
- <bullet point describing another change>

## Types: feat, fix, docs, style, refactor, perf, test, build, ci, chore, revert

## Rules:
1. Subject line: max 50 chars, imperative mood, no period
2. Body uses bullet points (- ) to list specific changes
3. Each bullet should be concise and actionable

## Git Changes:

### Staged Changes:
${staged_diff:-\`(none)\`}

### Unstaged Changes:
${unstaged_diff:-\`(none)\`}

### Untracked Files:
${untracked_files:-\`(none)\`}

OUTPUT ONLY THE COMMIT MESSAGE, nothing else.`

        echo `${YELLOW}[2/4]${NC} 🤖 Generating commit message with ".

Definition gp_text7 : jsstring :=
  lit "...`
        echo `${DIM}     (this may take a few seconds...)${NC}`
    
        local temp_file=$(mktemp)
        local error_file=$(mktemp)
    
        ".

Definition gp_text8 : jsstring :=
  lit " > `$temp_file` 2> `$error_file`
        local exit_code=$?
    
        if [ $exit_code -ne 0 ] || [ ! -s `$temp_file` ]; then
            echo `${RED}Error:${NC} Failed to generate commit message`
            cat `$error_file` 2>/dev/null
            rm -f `$temp_file` `$error_file`
            return 1
        fi
    
        commit_message=$(cat `$temp_file`)
        rm -f `$temp_file` `$error_file`
    
        echo ``
        echo `${GREEN}Generated Commit Message:${NC}`
        echo `$commit_message`
    
        if [ `$review_mode` = true ]; then
            echo ``
            echo -n `${YELLOW}Proceed with this commit message? [Y/n/e(dit)]:${NC} `
            read confirm
    
            case `$confirm` in
                [nN]) echo `${YELLOW}Aborted.${NC}`; return 0 ;;
                [eE])
                    local edit_file=$(mktemp)
                    echo `$commit_message` > `$edit_file`
                    ${EDITOR:-vim} `$edit_file`
                    commit_message=$(cat `$edit_file`)
                    rm -f `$edit_file`
                    ;;
            esac
        fi
    fi

    echo ``
    echo `${YELLOW}[3/4]${NC} 📦 Staging and committing changes...`
    
    git add -A
    
    if git diff --cached --quiet; then
        echo `${YELLOW}Nothing to commit${NC}`
        return 0
    fi
    
    if ! git commit -m `$commit_message` 2>&1; then
        echo `${RED}Error:${NC} Failed to commit`
        return 1
    fi
    
    echo `${GREEN}✓${NC} Changes committed`

    if [ `$skip_push` = true ]; then
        echo `${YELLOW}Skipping push${NC} - no remote`
        echo `${BOLD}${GREEN}✨ Done!${NC}`
        return 0
    fi

    echo ``
    echo `${YELLOW}[4/4]${NC} 🚀 Pushing to remote...`
    
    local push_output
    push_output=$(git push origin `$current_branch` 2>&1)
    local push_exit=$?
    
    if [ $push_exit -eq 0 ]; then
        echo `${GREEN}✓ Pushed to origin/$current_branch${NC}`
        local mr_url=$(echo `$push_output` | grep -oE 'https?://[^ ]+' | grep -iE '(merge|pull)' | head -1)
        if [ -n `$mr_url` ]; then
            echo ``
            echo `${BLUE}📎 Create Merge Request:${NC}`
            echo `   ${BOLD}$mr_url${NC}`
        fi
    else
        if echo `$push_output` | grep -q `no upstream`; then
            git push --set-upstream origin `$current_branch` 2>&1 && echo `${GREEN}✓ Pushed${NC}`
        else
            echo `${RED}Error:${NC} Push failed`
            echo `${DIM}$push_output${NC}`
            return 1
        fi
    fi

    echo ``
    echo `${BOLD}${GREEN}━━━━━━━━━━━━━━━━━━━━━━━━━━━━━━━━━━━━━━━━━━━━━━━━━━━${NC}`
    echo `${BOLD}${GREEN}✨ Done!${NC}`
    echo `${BOLD}${GREEN}━━━━━━━━━━━━━━━━━━━━━━━━━━━━━━━━━━━━━━━━━━━━━━━━━━━${NC}`
}".

Definition generateGpAlias (aliasName : jsstring) (cli : CLI) (model : jsstring) : jsstring :=
  let cliCommand := buildCLICommand cli model in
  gp_text0
  ++ aliasName
  ++ gp_text1
  ++ name cli
  ++ gp_text2
  ++ model
  ++ gp_text3
  ++ aliasName
  ++ gp_text4
  ++ command cli
  ++ gp_text5
  ++ name cli
  ++ gp_text6
  ++ name cli
  ++ gp_text7
  ++ cliCommand
  ++ gp_text8.

Definition gc_text0 : jsstring :=
  lit "# Git Commit with AI Message (".

Definition gc_text1 : jsstring :=
  lit " alias)
# Provider: ".

Definition gc_text2 : jsstring :=
  lit " | Model: ".

Definition gc_text3 : jsstring :=
  lit "
".

Definition gc_text4 : jsstring :=
  lit "() {
    local GREEN=$'\033[0;32m'
    local YELLOW=$'\033[1;33m'
    local BLUE=$'\033[0;34m'
    local RED=$'\033[0;31m'
    local NC=$'\033[0m'
    local BOLD=$'\033[1m'
    local DIM=$'\033[2m'
    
    local review_mode=false
    local user_message=``
    
    if [[ `$1` == `-r` ]]; then
        review_mode=true
        shift
        user_message=`$*`
    else
        user_message=`$*`
    fi

    if ! command -v git &> /dev/null; then
        echo `${RED}Error:${NC} git is not installed`
        return 1
    fi

    if ! git rev-parse --is-inside-work-tree > /dev/null 2>&1; then
        echo `${RED}Error:${NC} Not a git repository`
        return 1
    fi

    if git diff --cached --quiet; then
        echo `${YELLOW}Nothing to commit${NC} - no staged changes`
        echo `${DIM}Stage changes first: git add <files>${NC}`
        return 0
    fi

    echo `${BOLD}${BLUE}━━━━━━━━━━━━━━━━━━━━━━━━━━━━━━━━━━━━━━━━━━━━━━━━━━━${NC}`
    echo `${BOLD}📝 Git Commit with AI Message${NC}`
    echo `${BOLD}${BLUE}━━━━━━━━━━━━━━━━━━━━━━━━━━━━━━━━━━━━━━━━━━━━━━━━━━━${NC}`

    local commit_message=``
    
    if [ -n `$user_message` ]; then
        echo ``
        echo `${GREEN}✓${NC} Using provided commit message`
        commit_message=`$user_message`
    else
        if ! command -v ".

Definition gc_text5 : jsstring :=
  lit " &> /dev/null; then
            echo `${RED}Error:${NC} ".

Definition gc_text6 : jsstring :=
  lit " is not installed`
            return 1
        fi

        echo ``
        echo `${YELLOW}[1/2]${NC} 🔍 Analyzing staged changes...`
    
        local staged_diff=$(git diff --cached 2>/dev/null | head -500)
    
        local prompt=`Analyze the following staged git changes and generate a commit message following the Conventional Commits specification with bullet-point changelog style.

## Commit Message Format:
<type>(<scope>): <short summary>

- <bullet point describing a specific change>
- <bullet point describing another change>

## Types: feat, fix, docs, style, refactor, perf, test, build, ci, chore, revert

## Rules:
1. Subject line: max 50 chars, imperative mood, no period
2. Body uses bullet points (- ) to list specific changes
3. Each bullet should be concise and actionable

## Staged Changes:
${staged_diff}

OUTPUT ONLY THE COMMIT MESSAGE, nothing else.`

        echo `${YELLOW}[2/2]${NC} 🤖 Generating commit message with ".

Definition gc_text7 : jsstring :=
  lit "...`
        echo `${DIM}     (this may take a few seconds...)${NC}`
    
        local temp_file=$(mktemp)
        local error_file=$(mktemp)
    
        ".

Definition gc_text8 : jsstring :=
  lit " > `$temp_file` 2> `$error_file`
        local exit_code=$?
    
        if [ $exit_code -ne 0 ] || [ ! -s `$temp_file` ]; then
            echo `${RED}Error:${NC} Failed to generate commit message`
            cat `$error_file` 2>/dev/null
            rm -f `$temp_file` `$error_file`
            return 1
        fi
    
        commit_message=$(cat `$temp_file`)
        rm -f `$temp_file` `$error_file`
    
        echo ``
        echo `${GREEN}Generated Commit Message:${NC}`
        echo `$commit_message`
    
        if [ `$review_mode` = true ]; then
            echo ``
            echo -n `${YELLOW}Proceed with this commit message? [Y/n/e(dit)]:${NC} `
            read confirm
    
            case `$confirm` in
                [nN]) echo `${YELLOW}Aborted.${NC}`; return 0 ;;
                [eE])
                    local edit_file=$(mktemp)
                    echo `$commit_message` > `$edit_file`
                    ${EDITOR:-vim} `$edit_file`
                    commit_message=$(cat `$edit_file`)
                    rm -f `$edit_file`
                    ;;
            esac
        fi
    fi

    echo ``
    echo `${YELLOW}📦 Committing...${NC}`
    
    if ! git commit -m `$commit_message` 2>&1; then
        echo `${RED}Error:${NC} Failed to commit`
        return 1
    fi

    echo ``
    echo `${BOLD}${GREEN}━━━━━━━━━━━━━━━━━━━━━━━━━━━━━━━━━━━━━━━━━━━━━━━━━━━${NC}`
    echo `${BOLD}${GREEN}✨ Done!${NC}`
    echo `${BOLD}${GREEN}━━━━━━━━━━━━━━━━━━━━━━━━━━━━━━━━━━━━━━━━━━━━━━━━━━━${NC}`
}".

Definition generateGcAlias (aliasName : jsstring) (cli : CLI) (model : jsstring) : jsstring :=
  let cliCommand := buildCLICommand cli model in
  gc_text0
  ++ aliasName
  ++ gc_text1
  ++ name cli
  ++ gc_text2
  ++ model
  ++ gc_text3
  ++ aliasName
  ++ gc_text4
  ++ command cli
  ++ gc_text5
  ++ name cli
  ++ gc_text6
  ++ name cli
  ++ gc_text7
  ++ cliCommand
  ++ gc_text8.

End Templates.
Export Templates.

(* ===================================================================== *)
(** * lib/installer.js *)
(* ===================================================================== *)

Module Installer.

Inductive shell_kind := Zsh | Bash.

(** Detect the user's shell and return the profile path. *)
Definition detectShellProfile (h : host) (st : fs_state)
  : shell_kind * jsstring :=
  let home := homedir h in
  let shell := default [] (env_SHELL h) in
  if includes shell (lit "zsh") then
    (Zsh, path_join h home (lit ".zshrc"))
  else
    let bashrc := path_join h home (lit ".bashrc") in
    let bashProfile := path_join h home (lit ".bash_profile") in
    match access st bashrc with
    | Ok _ => (Bash, bashrc)
    | Err _ =>
        match access st bashProfile with
        | Ok _ => (Bash, bashProfile)
        | Err _ => (Bash, bashrc)
        end
    end.

(** Backup the shell profile before modifying; [None] is [null]. *)
Definition backupProfile (clk : clock) (st : fs_state) (profilePath : jsstring)
  : fs_state * option jsstring :=
  let backupPath := profilePath ++ lit ".backup." ++ decimal (now clk) in
  match copyFile st profilePath backupPath with
  | Ok st' => (st', Some backupPath)
  | Err _ => (st, None)
  end.

(** [${aliasName}\s*\(\s*\)\s*\{], for a name without syntax characters
    (see [str]). *)
Definition header (aliasName : jsstring) : list item :=
  str aliasName
  ++ [Greedy 0 Space; Chr lparen; Greedy 0 Space; Chr rparen;
      Greedy 0 Space; Chr lbrace].

(** [[\s\S]*?\n\}\n?] *)
Definition block_end : list item :=
  [Lazy AnyChar; Chr nl; Chr rbrace; Opt nl].

(** [new RegExp(`^${aliasName}\\s*\\(\\s*\\)\\s*\\{`, 'm')] *)
Definition existsPattern (aliasName : jsstring) : regex :=
  {| anchored := true; body := header aliasName |}.

(** The pattern that matches the entire function block including the
    comment line before it: [# [^\n]*${aliasName}[^\n]*\n] followed by the
    block, for a name without syntax characters (see [str]). *)
Definition functionPattern (aliasName : jsstring) : regex :=
  {| anchored := false;
     body := [Chr hash; Chr space; Greedy 0 NotNL] ++ str aliasName
             ++ [Greedy 0 NotNL; Chr nl]
             ++ header aliasName ++ block_end |}.

(** The simpler pattern without comment. *)
Definition simplePattern (aliasName : jsstring) : regex :=
  {| anchored := false; body := header aliasName ++ block_end |}.

(** [/\n{3,}/g] *)
Definition blankLines : regex :=
  {| anchored := false; body := [Greedy 3 (Only nl)] |}.

(** Check if alias already exists in profile. *)
Definition aliasExists (st : fs_state) (profilePath aliasName : jsstring)
  : bool :=
  match readFile st profilePath with
  | Ok content => test (existsPattern aliasName) content
  | Err _ => false
  end.

(** What [checkExistingAliases] returns. *)
Record existing := {
  profile : jsstring;
  gpExists : bool;
  gcExists : bool;
  hasConflict : bool
}.

(** Check for existing aliases and return info. *)
Definition checkExistingAliases (h : host) (st : fs_state)
    (gpAlias gcAlias : jsstring) : existing :=
  let profile := snd (detectShellProfile h st) in
  let gpExists := aliasExists st profile gpAlias in
  let gcExists := aliasExists st profile gcAlias in
  {| profile := profile;
     gpExists := gpExists;
     gcExists := gcExists;
     hasConflict := gpExists || gcExists |}.

(** The three replacements of [removeExistingAlias], on the content. *)
Definition removeFromContent (aliasName content : jsstring) : jsstring :=
  let content := replace (functionPattern aliasName) [] content in
  let content := replace (simplePattern aliasName) [] content in
  replace blankLines [nl; nl] content.

(** Remove existing alias from profile. *)
Definition removeExistingAlias (st : fs_state) (profilePath aliasName : jsstring)
  : fs_state * bool :=
  match readFile st profilePath with
  | Ok content =>
      match writeFile st profilePath (removeFromContent aliasName content) with
      | Ok st' => (st', true)
      | Err _ => (st, false)
      end
  | Err _ => (st, false)
  end.

Record install_args := {
  gpAlias : jsstring;
  gcAlias : jsstring;
  cli : CLI;
  model : jsstring;
  overwrite : bool
}.

Inductive install_result :=
  | Success (shell : shell_kind) (profile : jsstring)
  | Conflict (existingAliases : list jsstring) (profile : jsstring)
  | Failure (error : fs_error).

Definition aliasContent (a : install_args) (timestamp : jsstring) : jsstring :=
  let gpContent := generateGpAlias (gpAlias a) (cli a) (model a) in
  let gcContent := generateGcAlias (gcAlias a) (cli a) (model a) in
  lit "
# ━━━━━━━━━━━━━━━━━━━━━━━━━━━━━━━━━━━━━━━━━━━━━━━━━━━
# AI Git Aliases - Added by @lvmk/git-alias
# Provider: "
    ++ name (cli a)
    ++ lit " | Model: "
    ++ model a
    ++ lit "
# Generated: "
    ++ timestamp
    ++ lit "
# ━━━━━━━━━━━━━━━━━━━━━━━━━━━━━━━━━━━━━━━━━━━━━━━━━━━

"
    ++ gpContent
    ++ lit "

"
    ++ gcContent
    ++ lit "
".

(** If overwriting, remove old aliases first. *)
Definition remove_old (st : fs_state) (profile : jsstring) (a : install_args)
    (gpExists gcExists : bool) : fs_state :=
  if overwrite a then
    let st :=
      if gpExists then fst (removeExistingAlias st profile (gpAlias a))
      else st in
    if gcExists then fst (removeExistingAlias st profile (gcAlias a))
    else st
  else st.

(** Install aliases to shell profile. *)
Definition installAliases (h : host) (clk : clock) (st : fs_state)
    (a : install_args) : fs_state * install_result :=
  let '(shell, profile) := detectShellProfile h st in
  let gpExists := aliasExists st profile (gpAlias a) in
  let gcExists := aliasExists st profile (gcAlias a) in
  if (gpExists || gcExists) && negb (overwrite a) then
    (st, Conflict ((if gpExists then [gpAlias a] else [])
                   ++ (if gcExists then [gcAlias a] else [])) profile)
  else
    let st := remove_old st profile a gpExists gcExists in
    let st := fst (backupProfile clk st profile) in
    match appendFile st profile (aliasContent a (toISOString clk)) with
    | Ok st' => (st', Success shell profile)
    | Err e => (st, Failure e)
    end.

End Installer.

(* ===================================================================== *)
(** * lib/reload.js *)
(* ===================================================================== *)

Module Reload.

Import Installer.

(** [new RegExp(`^alias\\s+${aliasName}=`, 'm')], for a name without syntax
    characters (see [str]). *)
Definition aliasPattern (aliasName : jsstring) : regex :=
  {| anchored := true;
     body := str (lit "alias") ++ [Greedy 1 Space] ++ str aliasName
             ++ [Chr equals] |}.

(** [new RegExp(`^${aliasName}\\s*\\(\\s*\\)\\s*\\{`, 'm')] *)
Definition funcPattern (aliasName : jsstring) : regex :=
  {| anchored := true; body := header aliasName |}.

(** Check if alias exists in profile: alias or function. *)
Definition aliasExists (st : fs_state) (profilePath aliasName : jsstring)
  : bool :=
  match readFile st profilePath with
  | Ok content =>
      test (aliasPattern aliasName) content
      || test (funcPattern aliasName) content
  | Err _ => false
  end.

(** [new RegExp(`^alias\\s+${aliasName}=[^\\n]*\\n?`, 'gm')], for a name
    without syntax characters (see [str]). *)
Definition aliasLinePattern (aliasName : jsstring) : regex :=
  {| anchored := true;
     body := str (lit "alias") ++ [Greedy 1 Space] ++ str aliasName
             ++ [Chr equals; Greedy 0 NotNL; Opt nl] |}.

Definition removeFromContent (aliasName content : jsstring) : jsstring :=
  (* Remove alias line *)
  let content := replace (aliasLinePattern aliasName) [] content in
  (* Clean up empty lines *)
  replace blankLines [nl; nl] content.

(** Remove existing alias from profile. *)
Definition removeExistingAlias (st : fs_state) (profilePath aliasName : jsstring)
  : fs_state * bool :=
  match readFile st profilePath with
  | Ok content =>
      match writeFile st profilePath (removeFromContent aliasName content) with
      | Ok st' => (st', true)
      | Err _ => (st, false)
      end
  | Err _ => (st, false)
  end.

Inductive reload_result :=
  | Success (shell : shell_kind) (profile : jsstring)
  | Conflict (profile : jsstring)
  | Failure (error : fs_error).

Definition aliasContent (aliasName profile timestamp : jsstring) : jsstring :=
  lit "
# ━━━━━━━━━━━━━━━━━━━━━━━━━━━━━━━━━━━━━━━━━━━━━━━━━━━
# Shell Reload Alias - Added by @lvmk/quick-alias
# Generated: "
    ++ timestamp
    ++ lit "
# ━━━━━━━━━━━━━━━━━━━━━━━━━━━━━━━━━━━━━━━━━━━━━━━━━━━
alias "
    ++ aliasName
    ++ lit "=`source "
    ++ profile
    ++ lit "`
".

(** Install shell reload alias. *)
Definition installReloadAlias (h : host) (clk : clock) (st : fs_state)
    (aliasName : jsstring) (overwrite : bool) : fs_state * reload_result :=
  let '(shell, profile) := detectShellProfile h st in
  let exists_ := aliasExists st profile aliasName in
  if exists_ && negb overwrite then (st, Conflict profile)
  else
    let st :=
      if exists_ && overwrite
      then fst (removeExistingAlias st profile aliasName)
      else st in
    match appendFile st profile
            (aliasContent aliasName profile (toISOString clk)) with
    | Ok st' => (st', Success shell profile)
    | Err e => (st, Failure e)
    end.

End Reload.

(* ===================================================================== *)
(** * lib/tester.js *)
(* ===================================================================== *)

Module Tester.

(** [toLowerCase] on the Basic Latin and Latin-1 ranges (other code units
    are left as they are). *)
Definition lower (c : cu) : cu :=
  if ((65 <=? c) && (c <=? 90))
     || ((192 <=? c) && (c <=? 222) && negb (c =? 215))
  then c + 32 else c.

Definition toLowerCase (s : jsstring) : jsstring := map lower s.

(** How the child process ended: the [close] event with the collected
    output and the exit code ([None] is [null], the child was killed by a
    signal), the manual timeout, or the [error] event. *)
Inductive child_end :=
  | Close (stdout stderr : jsstring) (code : option N)
  | Timeout
  | SpawnError (message : jsstring).

Inductive test_result :=
  | Passed (output : jsstring)
  | Failed (error : jsstring).

(** [a || b] on strings. *)
Definition or_else (a b : jsstring) : jsstring :=
  match a with
  | [] => b
  | _ => a
  end.

Definition show_code (code : option N) : jsstring :=
  match code with
  | Some n => decimal n
  | None => lit "null"
  end.

Definition on_close (stdout stderr : jsstring) (code : option N) : test_result :=
  let combinedOutput := trim (toLowerCase (stdout ++ stderr)) in
  (* If we got any output, consider it a success *)
  if (0 <? length combinedOutput)%nat then Passed (or_else stdout stderr)
  (* Exit code 0 but no output - might still be okay for some CLIs *)
  else if bool_decide (code = Some 0) then Passed (lit "CLI responded successfully")
  else Failed (or_else stderr (lit "CLI exited with code " ++ show_code code)).

Definition testHeadlessMode (e : child_end) : test_result :=
  match e with
  | Close stdout stderr code => on_close stdout stderr code
  | Timeout => Failed (lit "Command timed out after 60 seconds")
  | SpawnError message => Failed message
  end.

End Tester.

(* ===================================================================== *)
(** * The emitted shell functions at run time *)
(* ===================================================================== *)

Module Workflow.

(** What a run of an emitted function does to the outside: text written to
    the terminal and the commands that act on the repository, the provider
    or the editor. *)
Inductive event :=
  | Out (text : jsstring)
  | Provider (commandLine prompt : jsstring)
  | Editor (fileContent : jsstring)
  | GitAddAll
  | GitCommit (message : jsstring)
  | GitPush (branch : jsstring)
  | GitPushSetUpstream (branch : jsstring).

(** A shell function body: the events so far, and either a value to go on
    with or the status of a [return]. *)
Definition sh (A : Type) : Type := list event * (A + N).

Definition ret {A} (a : A) : sh A := ([], inl a).
Definition return_ {A} (status : N) : sh A := ([], inr status).
Definition bind {A B} (m : sh A) (f : A -> sh B) : sh B :=
  match m with
  | (t, inl a) => let '(t', r) := f a in (t ++ t', r)
  | (t, inr n) => (t, inr n)
  end.
Definition emit (ev : event) : sh unit := ([ev], inl tt).

Notation "x <- m ;; k" := (bind m (fun x => k))
  (at level 100, m at next level, right associativity).
Notation "m ;; k" := (bind m (fun _ => k))
  (at level 100, right associativity).

(** A line of output. *)
Definition line (s : jsstring) : event := Out (s ++ [nl]).

Definition echo (s : jsstring) : sh unit := emit (line s).
Definition echo_n (s : jsstring) : sh unit := emit (Out s).
Definition when (b : bool) (m : sh unit) : sh unit := if b then m else ret tt.

(** The status of a function that runs to its end is the status of its last
    command, here always an [echo]. *)
Definition run (m : sh unit) : list event * N :=
  match m with
  | (t, inl _) => (t, 0)
  | (t, inr n) => (t, n)
  end.

(** [$'\033[...m'] *)
Definition esc (s : string) : jsstring := 27 :: lit s.
Definition GREEN := esc "[0;32m".
Definition YELLOW := esc "[1;33m".
Definition BLUE := esc "[0;34m".
Definition RED := esc "[0;31m".
Definition NC := esc "[0m".
Definition BOLD := esc "[1m".
Definition DIM := esc "[2m".

Definition rule : jsstring :=
  lit "━━━━━━━━━━━━━━━━━━━━━━━━━━━━━━━━━━━━━━━━━━━━━━━━━━━".

(** Command substitution [$(...)] drops the trailing newlines. *)
Fixpoint drop_newlines (s : jsstring) : jsstring :=
  match s with
  | c :: t => if c =? nl then drop_newlines t else s
  | [] => []
  end.

Definition capture (s : jsstring) : jsstring := rev (drop_newlines (rev s)).

(** [head -n]: the first [n] lines. *)
Fixpoint head (s : jsstring) (n : nat) : jsstring :=
  match s with
  | [] => []
  | c :: t =>
      match n with
      | O => []
      | S m => if c =? nl then c :: head t m else c :: head t n
      end
  end.

(** [wc -l]: the number of newline characters. *)
Definition wc_l (s : jsstring) : nat :=
  length (List.filter (fun c => c =? nl) s).

(** [grep -q .]: does some line hold a character? *)
Definition grep_q_dot (s : jsstring) : bool := existsb (fun c => negb (c =? nl)) s.

Definition nonempty (s : jsstring) : bool :=
  match s with
  | [] => false
  | _ => true
  end.

(** [${var:-word}] *)
Definition or_default (v word : jsstring) : jsstring :=
  match v with
  | [] => word
  | _ => v
  end.

(** ["$*"] *)
Fixpoint join_args (args : list jsstring) : jsstring :=
  match args with
  | [] => []
  | [a] => a
  | a :: rest => a ++ space :: join_args rest
  end.

(** The first lines of both functions: a leading [-r] selects the review
    mode, the remaining arguments are the message of the user. *)
Definition parse_args (args : list jsstring) : bool * jsstring :=
  match args with
  | a :: rest =>
      if jseq a (lit "-r") then (true, join_args rest)
      else (false, join_args args)
  | [] => (false, [])
  end.

Fixpoint lines_from (cur : jsstring) (s : jsstring) : list jsstring :=
  match s with
  | [] => [rev cur]
  | c :: t => if c =? nl then rev cur :: lines_from [] t else lines_from (c :: cur) t
  end.

Definition lines (s : jsstring) : list jsstring := lines_from [] s.

(** [grep -oE 'https?://[^ ]+']: the matches of one line, left to right. *)
Definition url : regex :=
  {| anchored := false;
     body := str (lit "http") ++ [Opt 115] ++ str (lit "://")
             ++ [Greedy 1 (Not space)] |}.

Fixpoint matches_from (re : regex) (skip : nat) (prev : option cu)
    (s : jsstring) : list jsstring :=
  match s with
  | [] => []
  | c :: t =>
      match skip with
      | S k => matches_from re k (Some c) t
      | O =>
          match match_at re prev s with
          | Some z =>
              match (length s - length z)%nat with
              | S k => firstn (S k) s :: matches_from re k (Some c) t
              | O => matches_from re O (Some c) t
              end
          | None => matches_from re O (Some c) t
          end
      end
  end.

Definition ascii_lower (c : cu) : cu :=
  if (65 <=? c) && (c <=? 90) then c + 32 else c.

(** [grep -iE '(merge|pull)'] *)
Definition is_merge_url (l : jsstring) : bool :=
  let l := map ascii_lower l in
  includes l (lit "merge") || includes l (lit "pull").

(** [echo "$push_output" | grep -oE 'https?://[^ ]+' | grep -iE '(merge|pull)' | head -1] *)
Definition find_mr_url (push_output : jsstring) : jsstring :=
  let found := flat_map (matches_from url O None) (lines push_output) in
  match List.filter is_merge_url found with
  | u :: _ => u
  | [] => []
  end.

(** The review step shared by both functions:
    [case "$confirm" in [nN]) ...; [eE]) ...; esac]. *)
Definition review (confirm edited commit_message : jsstring) : sh jsstring :=
  echo [] ;;
  echo_n (YELLOW ++ lit "Proceed with this commit message? [Y/n/e(dit)]:" ++ NC ++ lit " ") ;;
  if jseq confirm (lit "n") || jseq confirm (lit "N") then
    echo (YELLOW ++ lit "Aborted." ++ NC) ;; return_ 0
  else if jseq confirm (lit "e") || jseq confirm (lit "E") then
    emit (Editor (commit_message ++ [nl])) ;;
    ret (capture edited)
  else ret commit_message.

(** ** The commit-only function *)

Module Gc.

(** The answers of the outside world, one per command of the script. *)
Record env := {
  git_installed : bool;        (* command -v git *)
  inside_work_tree : bool;     (* git rev-parse --is-inside-work-tree *)
  diff_cached_quiet : bool;    (* git diff --cached --quiet *)
  cli_installed : bool;        (* command -v ${cli.command} *)
  diff_cached : jsstring;      (* git diff --cached *)
  ai_exit : N;                 (* status of the provider *)
  ai_stdout : jsstring;        (* what it wrote to $temp_file *)
  ai_stderr : jsstring;        (* what it wrote to $error_file *)
  confirm : jsstring;          (* read confirm *)
  edited : jsstring;           (* $edit_file after the editor *)
  commit_ok : bool;            (* git commit -m "$commit_message" *)
  commit_output : jsstring
}.

Definition prompt (staged_diff : jsstring) : jsstring :=
  lit "Analyze the following staged git changes and generate a commit message following the Conventional Commits specification with bullet-point changelog style.

## Commit Message Format:
<type>(<scope>): <short summary>

- <bullet point describing a specific change>
- <bullet point describing another change>

## Types: feat, fix, docs, style, refactor, perf, test, build, ci, chore, revert

## Rules:
1. Subject line: max 50 chars, imperative mood, no period
2. Body uses bullet points (- ) to list specific changes
3. Each bullet should be concise and actionable

## Staged Changes:
"
  ++ staged_diff
  ++ lit "

OUTPUT ONLY THE COMMIT MESSAGE, nothing else.".

Definition message_source (cli : CLI) (cliCommand : jsstring) (e : env)
    (review_mode : bool) (user_message : jsstring) : sh jsstring :=
  if nonempty user_message then
    echo [] ;;
    echo (GREEN ++ lit "✓" ++ NC ++ lit " Using provided commit message") ;;
    ret user_message
  else
    when (negb (cli_installed e))
      (echo (RED ++ lit "Error:" ++ NC ++ lit " " ++ name cli ++ lit " is not installed") ;;
       return_ 1) ;;
    echo [] ;;
    echo (YELLOW ++ lit "[1/2]" ++ NC ++ lit " 🔍 Analyzing staged changes...") ;;
    let staged_diff := capture (head (diff_cached e) 500) in
    echo (YELLOW ++ lit "[2/2]" ++ NC ++ lit " 🤖 Generating commit message with "
          ++ name cli ++ lit "...") ;;
    echo (DIM ++ lit "     (this may take a few seconds...)" ++ NC) ;;
    emit (Provider cliCommand (prompt staged_diff)) ;;
    when (negb (ai_exit e =? 0) || negb (nonempty (ai_stdout e)))
      (echo (RED ++ lit "Error:" ++ NC ++ lit " Failed to generate commit message") ;;
       echo_n (ai_stderr e) ;;
       return_ 1) ;;
    let commit_message := capture (ai_stdout e) in
    echo [] ;;
    echo (GREEN ++ lit "Generated Commit Message:" ++ NC) ;;
    echo commit_message ;;
    if review_mode then review (confirm e) (edited e) commit_message
    else ret commit_message.

Definition gc (cli : CLI) (model : jsstring) (e : env) (args : list jsstring)
  : sh unit :=
  let cliCommand := buildCLICommand cli model in
  let '(review_mode, user_message) := parse_args args in
  when (negb (git_installed e))
    (echo (RED ++ lit "Error:" ++ NC ++ lit " git is not installed") ;; return_ 1) ;;
  when (negb (inside_work_tree e))
    (echo (RED ++ lit "Error:" ++ NC ++ lit " Not a git repository") ;; return_ 1) ;;
  when (diff_cached_quiet e)
    (echo (YELLOW ++ lit "Nothing to commit" ++ NC ++ lit " - no staged changes") ;;
     echo (DIM ++ lit "Stage changes first: git add <files>" ++ NC) ;;
     return_ 0) ;;
  echo (BOLD ++ BLUE ++ rule ++ NC) ;;
  echo (BOLD ++ lit "📝 Git Commit with AI Message" ++ NC) ;;
  echo (BOLD ++ BLUE ++ rule ++ NC) ;;
  commit_message <- message_source cli cliCommand e review_mode user_message ;;
  echo [] ;;
  echo (YELLOW ++ lit "📦 Committing..." ++ NC) ;;
  emit (GitCommit commit_message) ;;
  echo_n (commit_output e) ;;
  when (negb (commit_ok e))
    (echo (RED ++ lit "Error:" ++ NC ++ lit " Failed to commit") ;; return_ 1) ;;
  echo [] ;;
  echo (BOLD ++ GREEN ++ rule ++ NC) ;;
  echo (BOLD ++ GREEN ++ lit "✨ Done!" ++ NC) ;;
  echo (BOLD ++ GREEN ++ rule ++ NC).

End Gc.

(** ** The push function *)

Module Gp.

Record env := {
  git_installed : bool;        (* command -v git *)
  inside_work_tree : bool;     (* git rev-parse --is-inside-work-tree *)
  unmerged : jsstring;         (* git ls-files -u *)
  branch : jsstring;           (* git branch --show-current *)
  diff_cached_quiet : bool;    (* git diff --cached --quiet *)
  diff_quiet : bool;           (* git diff --quiet *)
  others : jsstring;           (* git ls-files --others --exclude-standard *)
  unpushed_log : jsstring;     (* git log @{u}.. --oneline *)
  push_only : jsstring;        (* read push_only *)
  push_existing_ok : bool;     (* git push origin "$current_branch", no-op path *)
  push_existing_output : jsstring;
  has_origin : bool;           (* git remote get-url origin *)
  cli_installed : bool;        (* command -v ${cli.command} *)
  diff_cached : jsstring;      (* git diff --cached *)
  diff_worktree : jsstring;    (* git diff *)
  others_again : jsstring;     (* git ls-files --others --exclude-standard *)
  ai_exit : N;
  ai_stdout : jsstring;
  ai_stderr : jsstring;
  confirm : jsstring;
  edited : jsstring;
  staged_after_add_quiet : bool; (* git diff --cached --quiet, after git add -A *)
  commit_ok : bool;
  commit_output : jsstring;
  push_exit : N;               (* git push origin "$current_branch" *)
  push_out : jsstring;
  retry_ok : bool;             (* git push --set-upstream origin "$current_branch" *)
  retry_output : jsstring
}.

Definition none_word : jsstring := lit "`(none)`".

Definition prompt (staged_diff unstaged_diff untracked_files : jsstring)
  : jsstring :=
  lit "Analyze the following git changes and generate a commit message following the Conventional Commits specification with bullet-point changelog style.

## Commit Message Format:
<type>(<scope>): <short summary>

- <bullet point describing a specific change>
- <bullet point describing another change>

## Types: feat, fix, docs, style, refactor, perf, test, build, ci, chore, revert

## Rules:
1. Subject line: max 50 chars, imperative mood, no period
2. Body uses bullet points (- ) to list specific changes
3. Each bullet should be concise and actionable

## Git Changes:

### Staged Changes:
"
  ++ or_default staged_diff none_word
  ++ lit "

### Unstaged Changes:
"
  ++ or_default unstaged_diff none_word
  ++ lit "

### Untracked Files:
"
  ++ or_default untracked_files none_word
  ++ lit "

OUTPUT ONLY THE COMMIT MESSAGE, nothing else.".

(** [[[ ! "$push_only" =~ ^[nN] ]]] *)
Definition declines (answer : jsstring) : bool :=
  match answer with
  | c :: _ => (c =? 110) || (c =? 78)
  | [] => false
  end.

Definition preconditions (e : env) : sh jsstring :=
  when (negb (git_installed e))
    (echo (RED ++ lit "Error:" ++ NC ++ lit " git is not installed") ;; return_ 1) ;;
  when (negb (inside_work_tree e))
    (echo (RED ++ lit "Error:" ++ NC ++ lit " Not a git repository") ;; return_ 1) ;;
  when (grep_q_dot (unmerged e))
    (echo (RED ++ lit "Error:" ++ NC ++ lit " Unresolved merge conflicts") ;; return_ 1) ;;
  let current_branch := capture (branch e) in
  when (negb (nonempty current_branch))
    (echo (RED ++ lit "Error:" ++ NC ++ lit " Detached HEAD state") ;; return_ 1) ;;
  ret current_branch.

Definition noop_check (e : env) (current_branch : jsstring) : sh unit :=
  let has_staged := negb (diff_cached_quiet e) in
  let has_unstaged := negb (diff_quiet e) in
  let has_untracked := nonempty (capture (others e)) in
  when (negb has_staged && negb has_unstaged && negb has_untracked)
    (echo (YELLOW ++ lit "Nothing to commit" ++ NC ++ lit " - working tree clean") ;;
     let unpushed := wc_l (unpushed_log e) in
     when (0 <? unpushed)%nat
       (echo (DIM ++ lit "You have " ++ decimal (N.of_nat unpushed)
              ++ lit " unpushed commit(s)" ++ NC) ;;
        echo_n (YELLOW ++ lit "Push existing commits? [Y/n]:" ++ NC ++ lit " ") ;;
        when (negb (declines (push_only e)))
          (emit (GitPush current_branch) ;;
           echo_n (push_existing_output e) ;;
           when (push_existing_ok e) (echo (GREEN ++ lit "✓ Pushed" ++ NC)))) ;;
     return_ 0).

Definition remote_check (e : env) : sh bool :=
  if negb (has_origin e) then
    echo (YELLOW ++ lit "Warning:" ++ NC ++ lit " No remote 'origin' configured") ;;
    ret true
  else ret false.

Definition message_source (cli : CLI) (cliCommand : jsstring) (e : env)
    (review_mode : bool) (user_message : jsstring) : sh jsstring :=
  if nonempty user_message then
    echo [] ;;
    echo (GREEN ++ lit "✓" ++ NC ++ lit " Using provided commit message") ;;
    ret user_message
  else
    when (negb (cli_installed e))
      (echo (RED ++ lit "Error:" ++ NC ++ lit " " ++ name cli ++ lit " is not installed") ;;
       return_ 1) ;;
    echo [] ;;
    echo (YELLOW ++ lit "[1/4]" ++ NC ++ lit " 🔍 Analyzing git changes...") ;;
    let staged_diff := capture (head (diff_cached e) 500) in
    let unstaged_diff := capture (head (diff_worktree e) 500) in
    let untracked_files := capture (head (others_again e) 50) in
    echo (YELLOW ++ lit "[2/4]" ++ NC ++ lit " 🤖 Generating commit message with "
          ++ name cli ++ lit "...") ;;
    echo (DIM ++ lit "     (this may take a few seconds...)" ++ NC) ;;
    emit (Provider cliCommand (prompt staged_diff unstaged_diff untracked_files)) ;;
    when (negb (ai_exit e =? 0) || negb (nonempty (ai_stdout e)))
      (echo (RED ++ lit "Error:" ++ NC ++ lit " Failed to generate commit message") ;;
       echo_n (ai_stderr e) ;;
       return_ 1) ;;
    let commit_message := capture (ai_stdout e) in
    echo [] ;;
    echo (GREEN ++ lit "Generated Commit Message:" ++ NC) ;;
    echo commit_message ;;
    if review_mode then review (confirm e) (edited e) commit_message
    else ret commit_message.

Definition stage_and_commit (e : env) (commit_message : jsstring) : sh unit :=
  echo [] ;;
  echo (YELLOW ++ lit "[3/4]" ++ NC ++ lit " 📦 Staging and committing changes...") ;;
  emit GitAddAll ;;
  when (staged_after_add_quiet e)
    (echo (YELLOW ++ lit "Nothing to commit" ++ NC) ;; return_ 0) ;;
  emit (GitCommit commit_message) ;;
  echo_n (commit_output e) ;;
  when (negb (commit_ok e))
    (echo (RED ++ lit "Error:" ++ NC ++ lit " Failed to commit") ;; return_ 1) ;;
  echo (GREEN ++ lit "✓" ++ NC ++ lit " Changes committed").

Definition push (e : env) (current_branch : jsstring) : sh unit :=
  echo [] ;;
  echo (YELLOW ++ lit "[4/4]" ++ NC ++ lit " 🚀 Pushing to remote...") ;;
  emit (GitPush current_branch) ;;
  let push_output := capture (push_out e) in
  if push_exit e =? 0 then
    echo (GREEN ++ lit "✓ Pushed to origin/" ++ current_branch ++ NC) ;;
    let mr_url := capture (find_mr_url (push_output ++ [nl])) in
    when (nonempty mr_url)
      (echo [] ;;
       echo (BLUE ++ lit "📎 Create Merge Request:" ++ NC) ;;
       echo (lit "   " ++ BOLD ++ mr_url ++ NC))
  else if includes push_output (lit "no upstream") then
    emit (GitPushSetUpstream current_branch) ;;
    echo_n (retry_output e) ;;
    when (retry_ok e) (echo (GREEN ++ lit "✓ Pushed" ++ NC))
  else
    echo (RED ++ lit "Error:" ++ NC ++ lit " Push failed") ;;
    echo (DIM ++ push_output ++ NC) ;;
    return_ 1.

(** Everything the function does before it reaches the push. *)
Definition before_push (cli : CLI) (model : jsstring) (e : env)
    (args : list jsstring) : sh jsstring :=
  let cliCommand := buildCLICommand cli model in
  let '(review_mode, user_message) := parse_args args in
  current_branch <- preconditions e ;;
  noop_check e current_branch ;;
  skip_push <- remote_check e ;;
  echo (BOLD ++ BLUE ++ rule ++ NC) ;;
  echo (BOLD ++ lit "🚀 Git Push with AI Commit Message" ++ NC) ;;
  echo (BOLD ++ BLUE ++ rule ++ NC) ;;
  commit_message <- message_source cli cliCommand e review_mode user_message ;;
  stage_and_commit e commit_message ;;
  when skip_push
    (echo (YELLOW ++ lit "Skipping push" ++ NC ++ lit " - no remote") ;;
     echo (BOLD ++ GREEN ++ lit "✨ Done!" ++ NC) ;;
     return_ 0) ;;
  ret current_branch.

Definition gp (cli : CLI) (model : jsstring) (e : env) (args : list jsstring)
  : sh unit :=
  current_branch <- before_push cli model e args ;;
  push e current_branch ;;
  echo [] ;;
  echo (BOLD ++ GREEN ++ rule ++ NC) ;;
  echo (BOLD ++ GREEN ++ lit "✨ Done!" ++ NC) ;;
  echo (BOLD ++ GREEN ++ rule ++ NC).

End Gp.

End Workflow.

(* ===================================================================== *)
(** * bin/index.js: the installation steps of the setup *)
(* ===================================================================== *)

Module Setup.

Import Installer.

(** The answers to the prompt of the conflict loop; [Rename] carries the
    answers to the two prompts for the new names. *)
Inductive action :=
  | Override
  | Rename (gpAlias gcAlias : jsstring)
  | Cancel.

(** How the installation step of [setupGitAliases] ends: the aliases are
    installed under the current names, the function returns false after a
    cancel or after a failure, or it waits for an answer. *)
Inductive outcome :=
  | Installed (profile currentGpAlias currentGcAlias : jsstring)
  | Cancelled
  | Failed (error : fs_error)
  | Waiting.

(** The loop [while (installResult.conflict)].  Each answer comes with the
    clock of the installation that follows it. *)
Fixpoint conflictLoop (h : host) (selectedCLI : CLI) (selectedModel : jsstring)
    (answers : list (action * clock)) (st : fs_state)
    (currentGpAlias currentGcAlias : jsstring)
    (installResult : install_result) : fs_state * outcome :=
  match installResult with
  | Conflict _ _ =>
      match answers with
      | [] => (st, Waiting)
      | (Cancel, _) :: _ => (st, Cancelled)
      | (Override, clk) :: rest =>
          let '(st, installResult) :=
            installAliases h clk st
              {| gpAlias := currentGpAlias; gcAlias := currentGcAlias;
                 cli := selectedCLI; model := selectedModel;
                 overwrite := true |} in
          conflictLoop h selectedCLI selectedModel rest st
            currentGpAlias currentGcAlias installResult
      | (Rename gp gc, clk) :: rest =>
          let '(st, installResult) :=
            installAliases h clk st
              {| gpAlias := gp; gcAlias := gc;
                 cli := selectedCLI; model := selectedModel;
                 overwrite := false |} in
          conflictLoop h selectedCLI selectedModel rest st gp gc installResult
      end
  | Success _ profile =>
      (st, Installed profile currentGpAlias currentGcAlias)
  | Failure error => (st, Failed error)
  end.

(** [setupGitAliases] from the first call of [installAliases] on. *)
Definition installStep (h : host) (clk : clock) (st : fs_state)
    (gpAlias gcAlias : jsstring) (selectedCLI : CLI) (selectedModel : jsstring)
    (answers : list (action * clock)) : fs_state * outcome :=
  let '(st, installResult) :=
    installAliases h clk st
      {| gpAlias := gpAlias; gcAlias := gcAlias;
         cli := selectedCLI; model := selectedModel; overwrite := false |} in
  conflictLoop h selectedCLI selectedModel answers st gpAlias gcAlias
    installResult.

(** How the installation step of [setupShellReload] ends; the error of a
    result without one is [None]. *)
Inductive reload_outcome :=
  | ReloadInstalled (profile : jsstring)
  | ReloadCancelled
  | ReloadFailed (error : option fs_error)
  | ReloadWaiting.

(** [setupShellReload] from the call of [installReloadAlias] on.  The
    answer to the prompt is [true] for the override, with the clock of the
    second installation. *)
Definition reloadStep (h : host) (clk : clock) (st : fs_state)
    (finalAlias : jsstring) (answer : option (bool * clock))
  : fs_state * reload_outcome :=
  let '(st, result) := Reload.installReloadAlias h clk st finalAlias false in
  match result with
  | Reload.Conflict profile =>
      match answer with
      | None => (st, ReloadWaiting)
      | Some (false, _) => (st, ReloadCancelled)
      | Some (true, clk') =>
          let '(st, overrideResult) :=
            Reload.installReloadAlias h clk' st finalAlias true in
          match overrideResult with
          | Reload.Success _ _ => (st, ReloadInstalled profile)
          | Reload.Failure error => (st, ReloadFailed (Some error))
          | Reload.Conflict _ => (st, ReloadFailed None)
          end
      end
  | Reload.Failure error => (st, ReloadFailed (Some error))
  | Reload.Success _ profile => (st, ReloadInstalled profile)
  end.

End Setup.

(* ===================================================================== *)
(** * Properties *)
(* ===================================================================== *)

(** ** Strings *)

Section StringFacts.

Lemma trim_start_nil (s : jsstring) :
  trim_start s = [] <-> forallb isSpace s = true.
Proof.
  induction s as [|c t IH]; simpl.
  - tauto.
  - destruct (isSpace c); simpl.
    + exact IH.
    + split; discriminate.
Qed.

Lemma trim_start_suffix (s : jsstring) :
  exists p, s = p ++ trim_start s /\ forallb isSpace p = true.
Proof.
  induction s as [|c t [p [Hp Hs]]]; simpl.
  - now exists [].
  - destruct (isSpace c) eqn:E.
    + exists (c :: p). simpl. rewrite E, Hs. split; [now f_equal | reflexivity].
    + now exists [].
Qed.

Lemma forallb_rev {A} (f : A -> bool) (l : list A) :
  forallb f (rev l) = forallb f l.
Proof.
  induction l as [|a l IH]; simpl; [reflexivity|].
  rewrite forallb_app, IH. simpl. rewrite andb_true_r. apply andb_comm.
Qed.

Lemma trim_nil (s : jsstring) :
  trim s = [] <-> forallb isSpace s = true.
Proof.
  unfold trim. split.
  - intros H.
    assert (H1 : trim_start (rev (trim_start s)) = []).
    { destruct (trim_start (rev (trim_start s))) as [|x l]; [reflexivity|].
      simpl in H. now destruct (rev l). }
    apply trim_start_nil in H1. rewrite forallb_rev in H1.
    destruct (trim_start_suffix s) as [p [Hp Hs]].
    rewrite Hp, forallb_app, Hs, H1. reflexivity.
  - intros H. apply trim_start_nil in H. now rewrite H.
Qed.

Lemma isSpace_letters (c : cu) :
  33 <= c <= 159 \/ 161 <= c <= 5759 -> isSpace c = false.
Proof.
  intros H. unfold isSpace.
  replace (c <=? 13) with false by (symmetry; apply N.leb_gt; lia).
  replace (8192 <=? c) with false by (symmetry; apply N.leb_gt; lia).
  repeat match goal with
         | |- context [c =? ?b] =>
             replace (c =? b) with false by (symmetry; apply N.eqb_neq; lia)
         end.
  now rewrite andb_false_r.
Qed.

Lemma isSpace_lower (c : cu) : isSpace (Tester.lower c) = isSpace c.
Proof.
  unfold Tester.lower.
  destruct ((65 <=? c) && (c <=? 90) || (192 <=? c) && (c <=? 222) && negb (c =? 215))
    eqn:E; [|reflexivity].
  assert (R : 65 <= c <= 90 \/ 192 <= c <= 222).
  { apply orb_true_iff in E. destruct E as [E|E].
    - apply andb_true_iff in E. destruct E as [E1 E2].
      apply N.leb_le in E1, E2. lia.
    - apply andb_true_iff in E. destruct E as [E _].
      apply andb_true_iff in E. destruct E as [E1 E2].
      apply N.leb_le in E1, E2. lia. }
  rewrite !isSpace_letters by lia. reflexivity.
Qed.

Lemma forallb_isSpace_toLowerCase (s : jsstring) :
  forallb isSpace (Tester.toLowerCase s) = forallb isSpace s.
Proof.
  induction s as [|c t IH]; simpl; [reflexivity|].
  now rewrite isSpace_lower, IH.
Qed.

End StringFacts.

(** ** The profile locator *)

Section Locator.

Import Installer.

Definition file_exists (st : fs_state) (p : jsstring) : bool :=
  bool_decide (is_Some (files st !! p)).

Lemma access_file_exists (st : fs_state) (p : jsstring) :
  access st p = if file_exists st p then Ok tt else Err ENOENT.
Proof.
  unfold access, file_exists.
  destruct (files st !! p) eqn:E.
  - rewrite bool_decide_eq_true_2; [reflexivity | eauto].
  - rewrite bool_decide_eq_false_2; [reflexivity | ].
    intros [x Hx]. discriminate.
Qed.

(** C9.  [detectShellProfile] always returns a value, chosen by a fixed
    fallback order: when the SHELL variable contains "zsh" the answer is
    zsh with [.zshrc] in the home directory, whatever the file system holds;
    otherwise the answer is bash, with [.bashrc] if that file is accessible,
    else [.bash_profile] if that file is accessible, else [.bashrc]. *)
Theorem detectShellProfile_fallback_order (h : host) (st : fs_state) :
  let shell := default [] (env_SHELL h) in
  let zshrc := path_join h (homedir h) (lit ".zshrc") in
  let bashrc := path_join h (homedir h) (lit ".bashrc") in
  let bashProfile := path_join h (homedir h) (lit ".bash_profile") in
  (includes shell (lit "zsh") = true ->
     forall st', detectShellProfile h st' = (Zsh, zshrc))
  /\ (includes shell (lit "zsh") = false ->
      detectShellProfile h st =
        (Bash, if file_exists st bashrc then bashrc
               else if file_exists st bashProfile then bashProfile
               else bashrc)).
Proof.
  cbv zeta. unfold detectShellProfile. split.
  - intros Hz st'. now rewrite Hz.
  - intros Hz. rewrite Hz, !access_file_exists.
    destruct (file_exists st _); [reflexivity|].
    destruct (file_exists st _); reflexivity.
Qed.

Definition zsh_host : host :=
  {| env_SHELL := Some (lit "/bin/zsh"); homedir := lit "/home/u";
     path_join := posix_join |}.

Definition bash_host : host :=
  {| env_SHELL := Some (lit "/bin/bash"); homedir := lit "/home/u";
     path_join := posix_join |}.

Definition only_bash_profile : fs_state :=
  {| files := {[ lit "/home/u/.bash_profile" := lit "export A=1" ]};
     denied := fun _ => false |}.

Lemma detectShellProfile_fallback_order_witness :
  detectShellProfile zsh_host only_bash_profile = (Zsh, lit "/home/u/.zshrc")
  /\ detectShellProfile bash_host only_bash_profile
     = (Bash, lit "/home/u/.bash_profile").
Proof.
  split.
  - apply (proj1 (detectShellProfile_fallback_order zsh_host only_bash_profile)).
    reflexivity.
  - apply (proj2 (detectShellProfile_fallback_order bash_host only_bash_profile)).
    reflexivity.
Defined.

End Locator.

(** ** The command builder *)

Section CommandBuilder.

(** Number of positions of [s] at which [p] occurs. *)
Fixpoint occurrences (p s : jsstring) : nat :=
  ((if starts_with p s then 1 else 0) +
   match s with
   | [] => 0
   | _ :: t => occurrences p t
   end)%nat.

Definition preset_values (c : CLI) : list jsstring :=
  match models c with
  | Some l => map value l
  | None => []
  end.

(** C7.  For every provider of the catalogue: when its configuration has
    no model flag, the command rendered by [buildCLICommand] is the binary,
    the headless flag and the quoted prompt variable and nothing else: it
    does not depend on the model, holds no [--model] and no empty flag; when
    the configuration has extra flags, the command is the usual invocation
    with the model followed by one space and those flags verbatim, and for
    each preset model the flags occur in it exactly once. *)
Theorem buildCLICommand_optional_segments (c : CLI) (model : jsstring) :
  In c CLI_INFO ->
  (modelFlag c = None ->
     buildCLICommand c model
       = command c ++ lit " " ++ headlessFlag c ++ lit " `$prompt`"
     /\ includes (buildCLICommand c model) (lit "--model") = false)
  /\ (forall flags, extraFlags c = Some flags ->
        buildCLICommand c model
          = command c ++ lit " " ++ headlessFlag c ++ lit " `$prompt` "
            ++ default [] (modelFlag c) ++ lit " " ++ model ++ lit " " ++ flags
        /\ Forall (fun m => occurrences flags (buildCLICommand c m) = 1%nat)
             (preset_values c)).
Proof.
  intros Hin. simpl in Hin.
  destruct Hin as [<-|[<-|[<-|[<-|[<-|[]]]]]]; split;
    try (intros H; discriminate H);
    try (intros flags H; discriminate H).
  - intros _. split; vm_compute; reflexivity.
  - intros flags H.
    assert (E : flags = lit "--yes-always --no-auto-commits").
    { unfold aider in H. cbn [extraFlags] in H. congruence. }
    subst flags. split.
    + vm_compute. reflexivity.
    + change (preset_values aider)
        with [lit "claude-sonnet-4"; lit "gpt-5"; lit "claude-haiku-4"].
      repeat (apply List.Forall_cons; [vm_compute; reflexivity|]).
      apply List.Forall_nil.
Qed.

Lemma buildCLICommand_optional_segments_witness :
  buildCLICommand copilot (lit "gpt-5") = lit "copilot --prompt `$prompt`"
  /\ buildCLICommand aider (lit "gpt-5")
     = lit "aider --message `$prompt` --model gpt-5 --yes-always --no-auto-commits".
Proof.
  split.
  - destruct (buildCLICommand_optional_segments copilot (lit "gpt-5")) as [H _].
    + simpl. tauto.
    + destruct (H eq_refl) as [-> _]. vm_compute. reflexivity.
  - destruct (buildCLICommand_optional_segments aider (lit "gpt-5")) as [_ H].
    + simpl. tauto.
    + destruct (H _ eq_refl) as [-> _]. vm_compute. reflexivity.
Defined.

End CommandBuilder.

(** ** The headless test *)

Section HeadlessTest.

Import Tester.

(** The first criterion as the specification words it: any combined output
    of non-zero length. *)
Definition any_output (stdout stderr : jsstring) : bool :=
  (0 <? length (stdout ++ stderr))%nat.

(** Output that consists of white space only has non-zero length and is
    not a success when the exit code is not zero. *)
Lemma on_close_blank_output_fails :
  any_output [nl] [] = true
  /\ testHeadlessMode (Close [nl] [] (Some 1))
     = Failed (lit "CLI exited with code 1").
Proof. split; reflexivity. Qed.

Definition blank (s : jsstring) : bool := forallb isSpace s.

Lemma combinedOutput_empty (stdout stderr : jsstring) :
  (0 <? length (trim (toLowerCase (stdout ++ stderr))))%nat
  = negb (blank (stdout ++ stderr)).
Proof.
  unfold blank. rewrite <- forallb_isSpace_toLowerCase.
  destruct (forallb isSpace (toLowerCase (stdout ++ stderr))) eqn:E.
  - apply trim_nil in E. now rewrite E.
  - destruct (trim (toLowerCase (stdout ++ stderr))) eqn:T; [|reflexivity].
    apply trim_nil in T. congruence.
Qed.

(** C6 (amended).  A child that closes is classified in this order:
    (1) when the combined output holds a character that is not white space,
    the test passes with stdout, or with stderr when stdout is empty;
    (2) otherwise, when the exit code is zero, the test passes with the
    message "CLI responded successfully"; (3) otherwise it fails with
    stderr, or with "CLI exited with code <code>" when stderr is empty. *)
Theorem testHeadlessMode_classification
    (stdout stderr : jsstring) (code : option N) :
  testHeadlessMode (Close stdout stderr code) =
    if negb (blank (stdout ++ stderr)) then Passed (or_else stdout stderr)
    else if bool_decide (code = Some 0)
         then Passed (lit "CLI responded successfully")
         else Failed (or_else stderr
                        (lit "CLI exited with code " ++ show_code code)).
Proof.
  simpl. unfold on_close. now rewrite combinedOutput_empty.
Qed.

End HeadlessTest.

(** ** The emitted functions at run time *)

Section CommitOnly.

Import Workflow Workflow.Gc.

(** A repository with nothing staged. *)
Definition nothing_staged : env :=
  {| git_installed := true; inside_work_tree := true;
     diff_cached_quiet := true; cli_installed := true;
     diff_cached := []; ai_exit := 0; ai_stdout := []; ai_stderr := [];
     confirm := []; edited := []; commit_ok := true; commit_output := [] |}.

(** With nothing staged the commit-only function returns the status 0. *)
Lemma gc_nothing_staged_returns_zero :
  git_installed nothing_staged = true
  /\ inside_work_tree nothing_staged = true
  /\ diff_cached_quiet nothing_staged = true
  /\ ~ snd (run (gc aider (lit "gpt-5") nothing_staged [])) <> 0.
Proof.
  repeat split. intros H. apply H. vm_compute. reflexivity.
Qed.

(** C1 (amended).  In a repository where nothing is staged, the
    commit-only function prints its two notices and returns at once with
    the status 0: it runs no provider, no editor and no commit, and offers
    nothing else. *)
Theorem gc_nothing_staged_stops
    (c : CLI) (model : jsstring) (e : env) (args : list jsstring) :
  git_installed e = true ->
  inside_work_tree e = true ->
  diff_cached_quiet e = true ->
  run (gc c model e args)
  = ([line (YELLOW ++ lit "Nothing to commit" ++ NC
            ++ lit " - no staged changes");
      line (DIM ++ lit "Stage changes first: git add <files>" ++ NC)],
     0).
Proof.
  intros Hg Hw Hq. unfold gc.
  destruct (parse_args args) as [review_mode user_message].
  rewrite Hg, Hw, Hq. reflexivity.
Qed.

Lemma gc_nothing_staged_stops_witness :
  snd (run (gc aider (lit "gpt-5") nothing_staged [lit "-r"])) = 0.
Proof.
  rewrite (gc_nothing_staged_stops aider (lit "gpt-5") nothing_staged [lit "-r"]);
    reflexivity.
Defined.

End CommitOnly.

Section PushWorkflow.

Import Workflow Workflow.Gp.

Lemma fst_bind {A B} (m : sh A) (f : A -> sh B) :
  fst (bind m f)
  = fst m ++ match snd m with
             | inl a => fst (f a)
             | inr _ => []
             end.
Proof.
  destruct m as [t [a|n]]; simpl.
  - now destruct (f a).
  - now rewrite app_nil_r.
Qed.

Lemma fst_run (m : sh unit) : fst (run m) = fst m.
Proof. now destruct m as [t [a|n]]. Qed.

(** The prompts handed to the provider during a run. *)
Definition provider_prompts (t : list event) : list jsstring :=
  flat_map (fun ev => match ev with
                      | Provider _ p => [p]
                      | _ => []
                      end) t.

Lemma provider_prompts_app (a b : list event) :
  provider_prompts (a ++ b) = provider_prompts a ++ provider_prompts b.
Proof. apply flat_map_app. Qed.

Definition pp {A} (m : sh A) : list jsstring := provider_prompts (fst m).

Lemma pp_bind {A B} (m : sh A) (f : A -> sh B) :
  pp (bind m f)
  = pp m ++ match snd m with
            | inl a => pp (f a)
            | inr _ => []
            end.
Proof.
  unfold pp. rewrite fst_bind, provider_prompts_app.
  now destruct (snd m).
Qed.

(** A part of the script that never calls the provider. *)
Definition silent {A} (m : sh A) : Prop := pp m = [].

Lemma silent_bind {A B} (m : sh A) (f : A -> sh B) :
  silent m -> (forall a, silent (f a)) -> silent (bind m f).
Proof.
  unfold silent. intros Hm Hf. rewrite pp_bind, Hm.
  destruct (snd m); [apply Hf | reflexivity].
Qed.

Lemma silent_when (b : bool) (m : sh unit) : silent m -> silent (when b m).
Proof. destruct b; [trivial | reflexivity]. Qed.

Lemma silent_echo (s : jsstring) : silent (echo s).
Proof. reflexivity. Qed.

Lemma silent_echo_n (s : jsstring) : silent (echo_n s).
Proof. reflexivity. Qed.

Lemma silent_ret {A} (a : A) : silent (ret a).
Proof. reflexivity. Qed.

Lemma silent_return {A} (n : N) : silent (@return_ A n).
Proof. reflexivity. Qed.

Lemma silent_if {A} (b : bool) (m1 m2 : sh A) :
  silent m1 -> silent m2 -> silent (if b then m1 else m2).
Proof. now destruct b. Qed.

Ltac silence :=
  repeat first
    [ apply silent_echo | apply silent_echo_n | apply silent_ret
    | apply silent_return | reflexivity
    | apply silent_when | apply silent_if
    | apply silent_bind; [|intros ?] ].

Lemma silent_preconditions (e : env) : silent (preconditions e).
Proof. unfold preconditions. silence. Qed.

Lemma silent_noop_check (e : env) (b : jsstring) : silent (noop_check e b).
Proof. unfold noop_check. silence. Qed.

Lemma silent_remote_check (e : env) : silent (remote_check e).
Proof. unfold remote_check. silence. Qed.

Lemma silent_review (confirm edited m : jsstring) :
  silent (review confirm edited m).
Proof. unfold review. silence. Qed.

Lemma silent_stage_and_commit (e : env) (m : jsstring) :
  silent (stage_and_commit e m).
Proof. unfold stage_and_commit. silence. Qed.

Lemma silent_push (e : env) (b : jsstring) : silent (push e b).
Proof. unfold push. silence. Qed.

(** [head s n] is the longest prefix of [s] with at most [n] lines. *)
Lemma head_spec (s : jsstring) (n : nat) :
  exists rest,
    s = head s n ++ rest
    /\ (wc_l (head s n) <= n)%nat
    /\ (rest <> [] -> wc_l (head s n) = n).
Proof.
  unfold wc_l. revert n. induction s as [|c t IH]; intros n.
  - exists []. destruct n; simpl; repeat split; solve [lia | congruence].
  - destruct n as [|m].
    + exists (c :: t). simpl. repeat split; lia.
    + simpl. destruct (c =? nl) eqn:E.
      * destruct (IH m) as [rest [H1 [H2 H3]]]. exists rest.
        simpl. rewrite E. simpl.
        repeat split; [now f_equal | lia | intros H; f_equal; auto].
      * destruct (IH (S m)) as [rest [H1 [H2 H3]]]. exists rest.
        simpl. rewrite E.
        repeat split; [now f_equal | lia | auto].
Qed.

(** A repository with 51 untracked files and nothing else. *)
Definition many_untracked : env :=
  {| git_installed := true; inside_work_tree := true; unmerged := [];
     branch := lit "main"; diff_cached_quiet := true; diff_quiet := true;
     others := concat (repeat (lit "f" ++ [nl]) 51);
     unpushed_log := []; push_only := [];
     push_existing_ok := true; push_existing_output := [];
     has_origin := true; cli_installed := true;
     diff_cached := []; diff_worktree := [];
     others_again := concat (repeat (lit "f" ++ [nl]) 51);
     ai_exit := 0; ai_stdout := lit "chore: add files"; ai_stderr := [];
     confirm := []; edited := [];
     staged_after_add_quiet := false;
     commit_ok := true; commit_output := [];
     push_exit := 0; push_out := []; retry_ok := true; retry_output := [] |}.

(** The prompt as the specification describes it: 500 lines of each of the
    three sections. *)
Definition prompt_500_each (e : env) : jsstring :=
  prompt (capture (head (diff_cached e) 500))
         (capture (head (diff_worktree e) 500))
         (capture (head (others_again e) 500)).

(** With 51 untracked files, fewer than 500, the prompt the provider gets
    is not the one that lists them all. *)
Lemma gp_untracked_list_cut_short :
  (wc_l (others_again many_untracked) <= 500)%nat
  /\ provider_prompts (fst (run (gp aider (lit "gpt-5") many_untracked [])))
     <> [prompt_500_each many_untracked].
Proof.
  split.
  - vm_compute. lia.
  - intros H. apply (f_equal (fun l => length (concat l))) in H.
    vm_compute in H. discriminate H.
Qed.

(** C4 (amended).  When the push function generates the message (the
    preconditions hold, something is to be committed, no message was given
    and the provider is installed), the provider is called once, with the
    prompt template filled with the first 500 lines of the staged diff, the
    first 500 lines of the unstaged diff and the first 50 lines of the list
    of untracked files. *)
Theorem gp_prompt_truncation
    (c : CLI) (model : jsstring) (e : env) (args : list jsstring)
    (b : jsstring) :
  preconditions e = ([], inl b) ->
  diff_cached_quiet e && diff_quiet e && negb (nonempty (capture (others e)))
    = false ->
  snd (parse_args args) = [] ->
  cli_installed e = true ->
  provider_prompts (fst (run (gp c model e args)))
  = [prompt (capture (head (diff_cached e) 500))
            (capture (head (diff_worktree e) 500))
            (capture (head (others_again e) 50))]
  /\ (wc_l (head (diff_cached e) 500) <= 500)%nat
  /\ (wc_l (head (diff_worktree e) 500) <= 500)%nat
  /\ (wc_l (head (others_again e) 50) <= 50)%nat.
Proof.
  intros Hpre Hsome Hmsg Hcli. split.
  2: { repeat split.
       - destruct (head_spec (diff_cached e) 500) as [r [_ [H _]]]. exact H.
       - destruct (head_spec (diff_worktree e) 500) as [r [_ [H _]]]. exact H.
       - destruct (head_spec (others_again e) 50) as [r [_ [H _]]]. exact H. }
  rewrite fst_run. fold (pp (gp c model e args)).
  unfold gp. rewrite pp_bind.
  assert (Hrest : forall a : jsstring,
             pp (push e a ;; echo [] ;; echo (BOLD ++ GREEN ++ rule ++ NC) ;;
                 echo (BOLD ++ GREEN ++ lit "✨ Done!" ++ NC) ;;
                 echo (BOLD ++ GREEN ++ rule ++ NC)) = []).
  { intros a. apply silent_bind; [apply silent_push|]. intros _. silence. }
  replace (match snd (before_push c model e args) with
           | inl a => _
           | inr _ => []
           end) with (@nil jsstring)
    by (destruct (snd (before_push c model e args)); [now rewrite Hrest | reflexivity]).
  rewrite app_nil_r.
  unfold before_push. destruct (parse_args args) as [review_mode user_message].
  simpl in Hmsg. subst user_message.
  rewrite pp_bind, Hpre. cbn [pp fst snd provider_prompts flat_map app].
  assert (Hn : noop_check e b = ([], inl tt)).
  { unfold noop_check. rewrite !negb_involutive.
    replace (diff_cached_quiet e && diff_quiet e
             && negb (nonempty (capture (others e)))) with false.
    reflexivity. }
  rewrite pp_bind, Hn. cbn [pp fst snd provider_prompts flat_map app].
  rewrite pp_bind, (silent_remote_check e). cbn [app].
  destruct (snd (remote_check e)) as [skip|n1] eqn:Hr.
  2: { unfold remote_check in Hr. destruct (negb (has_origin e)); discriminate Hr. }
  do 3 (rewrite pp_bind, silent_echo; cbn [app echo emit snd]).
  rewrite pp_bind.
  assert (Hms : pp (message_source c (buildCLICommand c model) e review_mode [])
                = [prompt (capture (head (diff_cached e) 500))
                          (capture (head (diff_worktree e) 500))
                          (capture (head (others_again e) 50))]).
  { unfold message_source. cbn [nonempty]. rewrite Hcli. cbn [negb when].
    do 6 (rewrite pp_bind; cbn [pp ret echo emit line fst snd provider_prompts flat_map app]).
    match goal with
    | |- _ :: ?x = _ => assert (Hx : x = []); [|now rewrite Hx]
    end.
    rewrite pp_bind, silent_when by silence. cbn [app].
    destruct (snd (when _ _)); [|reflexivity].
    do 3 (rewrite pp_bind, silent_echo; cbn [app echo emit snd]).
    destruct review_mode; [apply silent_review | reflexivity]. }
  rewrite Hms. cbn [app]. f_equal.
  destruct (snd (message_source _ _ _ _ _)) as [m|]; [|reflexivity].
  rewrite pp_bind, silent_stage_and_commit. cbn [app].
  destruct (snd (stage_and_commit e m)); [|reflexivity].
  rewrite pp_bind, silent_when by silence. cbn [app].
  destruct (snd (when _ _)); reflexivity.
Qed.

Lemma gp_prompt_truncation_witness :
  provider_prompts (fst (run (gp aider (lit "gpt-5") many_untracked [])))
  = [prompt (capture (head (diff_cached many_untracked) 500))
            (capture (head (diff_worktree many_untracked) 500))
            (capture (head (others_again many_untracked) 50))].
Proof.
  apply (gp_prompt_truncation aider (lit "gpt-5") many_untracked []
           (lit "main")); vm_compute; reflexivity.
Defined.

(** The events of the push state when the first push fails. *)
Definition push_failed_events (e : env) (b : jsstring) : list event :=
  [line [];
   line (YELLOW ++ lit "[4/4]" ++ NC ++ lit " 🚀 Pushing to remote...");
   GitPush b].

Definition done_events : list event :=
  [line [];
   line (BOLD ++ GREEN ++ rule ++ NC);
   line (BOLD ++ GREEN ++ lit "✨ Done!" ++ NC);
   line (BOLD ++ GREEN ++ rule ++ NC)].

(** How often a run pushes with [--set-upstream]. *)
Definition retries (t : list event) : nat :=
  length (List.filter (fun ev => match ev with
                                 | GitPushSetUpstream _ => true
                                 | _ => false
                                 end) t).

(** C5.  When the function reaches the push and the first push fails:
    if the captured output contains "no upstream", the push is repeated
    once with [--set-upstream] and the function goes on to its end; with
    any other output there is no second push, the function prints
    "Push failed" and the captured output as it is, and returns 1. *)
Theorem gp_push_retry_policy
    (c : CLI) (model : jsstring) (e : env) (args : list jsstring)
    (t : list event) (b : jsstring) :
  before_push c model e args = (t, inl b) ->
  (push_exit e =? 0) = false ->
  let push_output := capture (push_out e) in
  (includes push_output (lit "no upstream") = true ->
     run (gp c model e args)
     = (t ++ push_failed_events e b
          ++ [GitPushSetUpstream b; Out (retry_output e)]
          ++ (if retry_ok e then [line (GREEN ++ lit "✓ Pushed" ++ NC)] else [])
          ++ done_events, 0)
     /\ retries (fst (push e b)) = 1%nat)
  /\ (includes push_output (lit "no upstream") = false ->
      run (gp c model e args)
      = (t ++ push_failed_events e b
           ++ [line (RED ++ lit "Error:" ++ NC ++ lit " Push failed");
               line (DIM ++ push_output ++ NC)], 1)
      /\ retries (fst (push e b)) = 0%nat).
Proof.
  intros Hb Hx. cbv zeta. unfold gp, push. rewrite Hb, Hx.
  split; intros Hu; rewrite Hu.
  - split; [|now destruct (retry_ok e)].
    destruct (retry_ok e); reflexivity.
  - split; reflexivity.
Qed.

(** The first push is rejected because the branch has no upstream. *)
Definition no_upstream : env :=
  {| git_installed := true; inside_work_tree := true; unmerged := [];
     branch := lit "topic"; diff_cached_quiet := false; diff_quiet := true;
     others := []; unpushed_log := []; push_only := [];
     push_existing_ok := true; push_existing_output := [];
     has_origin := true; cli_installed := true;
     diff_cached := []; diff_worktree := []; others_again := [];
     ai_exit := 0; ai_stdout := []; ai_stderr := [];
     confirm := []; edited := [];
     staged_after_add_quiet := false;
     commit_ok := true; commit_output := [];
     push_exit := 128;
     push_out := lit "fatal: The current branch topic has no upstream branch.";
     retry_ok := true; retry_output := [] |}.

(** The first push is rejected for another reason. *)
Definition rejected : env :=
  {| git_installed := true; inside_work_tree := true; unmerged := [];
     branch := lit "topic"; diff_cached_quiet := false; diff_quiet := true;
     others := []; unpushed_log := []; push_only := [];
     push_existing_ok := true; push_existing_output := [];
     has_origin := true; cli_installed := true;
     diff_cached := []; diff_worktree := []; others_again := [];
     ai_exit := 0; ai_stdout := []; ai_stderr := [];
     confirm := []; edited := [];
     staged_after_add_quiet := false;
     commit_ok := true; commit_output := [];
     push_exit := 1;
     push_out := lit "! [rejected] topic -> topic (fetch first)";
     retry_ok := true; retry_output := [] |}.

Lemma gp_push_retry_policy_witness :
  (snd (run (gp aider (lit "gpt-5") no_upstream [lit "fix typo"])) = 0
   /\ retries (fst (run (gp aider (lit "gpt-5") no_upstream [lit "fix typo"])))
      = 1%nat)
  /\ (snd (run (gp aider (lit "gpt-5") rejected [lit "fix typo"])) = 1
      /\ retries (fst (run (gp aider (lit "gpt-5") rejected [lit "fix typo"])))
         = 0%nat).
Proof.
  split.
  - destruct (gp_push_retry_policy aider (lit "gpt-5") no_upstream
                [lit "fix typo"]
                (fst (before_push aider (lit "gpt-5") no_upstream [lit "fix typo"]))
                (lit "topic")) as [H _];
      [vm_compute; reflexivity | vm_compute; reflexivity |].
    destruct H as [-> _]; [vm_compute; reflexivity|].
    split; vm_compute; reflexivity.
  - destruct (gp_push_retry_policy aider (lit "gpt-5") rejected
                [lit "fix typo"]
                (fst (before_push aider (lit "gpt-5") rejected [lit "fix typo"]))
                (lit "topic")) as [_ H];
      [vm_compute; reflexivity | vm_compute; reflexivity |].
    destruct H as [-> _]; [vm_compute; reflexivity|].
    split; vm_compute; reflexivity.
Defined.

End PushWorkflow.

(** ** Backups *)

Section Backup.

Import Installer.

Lemma app_neq_self {A} (p x : list A) : x <> [] -> p ++ x <> p.
Proof.
  intros Hx H. apply (f_equal (@length A)) in H.
  rewrite length_app in H. destruct x; [congruence | simpl in H; lia].
Qed.

Lemma decimal_fuel_nonempty (f : nat) (n : N) (acc : jsstring) :
  acc <> [] -> decimal_fuel f n acc <> [].
Proof.
  revert n acc. induction f as [|f IH]; intros n acc H; simpl; [exact H|].
  destruct (n <? 10); [discriminate|]. apply IH. discriminate.
Qed.

Lemma decimal_nonempty (n : N) : decimal n <> [].
Proof.
  unfold decimal. simpl. destruct (n <? 10); [discriminate|].
  apply decimal_fuel_nonempty. discriminate.
Qed.

Definition backupPath (clk : clock) (profilePath : jsstring) : jsstring :=
  profilePath ++ lit ".backup." ++ decimal (now clk).

Lemma backupPath_fresh (clk : clock) (p : jsstring) : backupPath clk p <> p.
Proof.
  apply app_neq_self. intros H. apply app_eq_nil in H. destruct H as [H _].
  vm_compute in H. discriminate H.
Qed.

(** The backup leaves the profile and the permissions as they are. *)
Lemma backupProfile_frame (clk : clock) (st : fs_state) (p : jsstring) :
  files (fst (backupProfile clk st p)) !! p = files st !! p
  /\ denied (fst (backupProfile clk st p)) = denied st.
Proof.
  unfold backupProfile, copyFile. fold (backupPath clk p).
  destruct (files st !! p) eqn:E; simpl; [|auto].
  destruct (denied st (backupPath clk p)); simpl; [auto|].
  split; [|reflexivity].
  rewrite lookup_insert_ne; [exact E | apply backupPath_fresh].
Qed.

Lemma removeExistingAlias_denied (st : fs_state) (p n : jsstring) :
  denied (fst (removeExistingAlias st p n)) = denied st.
Proof.
  unfold removeExistingAlias, readFile, writeFile.
  destruct (files st !! p); [|reflexivity].
  destruct (denied st p); reflexivity.
Qed.

Lemma remove_old_denied (st : fs_state) (p : jsstring) (a : install_args)
    (gp gc : bool) :
  denied (remove_old st p a gp gc) = denied st.
Proof.
  unfold remove_old. destruct (overwrite a); [|reflexivity].
  destruct gp, gc; now rewrite ?removeExistingAlias_denied.
Qed.

(** No profile yet. *)
Definition no_profile : fs_state :=
  {| files := ∅; denied := fun _ => false |}.

Definition defaults : install_args :=
  {| gpAlias := lit "gp"; gcAlias := lit "gc"; cli := aider;
     model := lit "gpt-5"; overwrite := false |}.

Definition noon : clock :=
  {| now := 1762160400000; toISOString := lit "2025-11-03T09:00:00.000Z" |}.

End Backup.

(** ** The matcher *)

Section Matcher.

Import Installer.

(** Greedy repetition followed by a character outside the class never
    backtracks: it skips the run and expects the character. *)
Fixpoint skip (cl : cclass) (s : jsstring) : jsstring :=
  match s with
  | c :: t => if in_class cl c then skip cl t else s
  | [] => []
  end.

Definition expect (c : cu) (s : jsstring) : option jsstring :=
  match s with
  | x :: t => if x =? c then Some t else None
  | [] => None
  end.

Fixpoint strip (n s : jsstring) : option jsstring :=
  match n with
  | [] => Some s
  | c :: n' =>
      match expect c s with
      | Some t => strip n' t
      | None => None
      end
  end.

Lemma chr_expect (c : cu) (k : cont) (s : jsstring) :
  chr c k s = match expect c s with
              | Some t => k t
              | None => None
              end.
Proof. destruct s as [|x t]; simpl; [reflexivity|]. now destruct (x =? c). Qed.

Lemma star_skip (cl : cclass) (c : cu) (k : cont) (s : jsstring) :
  in_class cl c = false ->
  star cl (chr c k) s = chr c k (skip cl s).
Proof.
  intros Hc. induction s as [|x t IH]; simpl; [reflexivity|].
  destruct (in_class cl x) eqn:E; [|reflexivity].
  rewrite IH. destruct (chr c k (skip cl t)); [reflexivity|].
  destruct (N.eqb_spec x c) as [->|Hne]; [congruence | reflexivity].
Qed.

Lemma star_Some (cl : cclass) (s : jsstring) :
  star cl Some s = Some (skip cl s).
Proof.
  induction s as [|x t IH]; simpl; [reflexivity|].
  destruct (in_class cl x); [now rewrite IH | reflexivity].
Qed.

Lemma mtch_str (n : jsstring) (r : list item) (s : jsstring) :
  mtch (str n ++ r) s
  = match strip n s with
    | Some t => mtch r t
    | None => None
    end.
Proof.
  revert s. induction n as [|c n IH]; intros s; simpl; [reflexivity|].
  rewrite chr_expect. destruct (expect c s); [apply IH | reflexivity].
Qed.

(** [\s*\(\s*\)\s*\{] as a scanner. *)
Definition tail_scan (s : jsstring) : option jsstring :=
  match expect lparen (skip Space s) with
  | Some s1 =>
      match expect rparen (skip Space s1) with
      | Some s2 => expect lbrace (skip Space s2)
      | None => None
      end
  | None => None
  end.

(** [name\s*\(\s*\)\s*\{] as a scanner. *)
Definition hscan (n s : jsstring) : option jsstring :=
  match strip n s with
  | Some t => tail_scan t
  | None => None
  end.

Lemma mtch_header (n : jsstring) (r : list item) (s : jsstring) :
  mtch (header n ++ r) s
  = match hscan n s with
    | Some z => mtch r z
    | None => None
    end.
Proof.
  unfold header, hscan. rewrite <- app_assoc, mtch_str.
  destruct (strip n s) as [t|]; [|reflexivity].
  unfold tail_scan. cbn [app mtch exactly].
  rewrite star_skip, chr_expect by reflexivity.
  destruct (expect lparen (skip Space t)) as [s1|]; [|reflexivity].
  rewrite star_skip, chr_expect by reflexivity.
  destruct (expect rparen (skip Space s1)) as [s2|]; [|reflexivity].
  rewrite star_skip, chr_expect by reflexivity.
  reflexivity.
Qed.

Lemma mtch_header_only (n s : jsstring) : mtch (header n) s = hscan n s.
Proof.
  rewrite <- (app_nil_r (header n)), mtch_header.
  now destruct (hscan n s).
Qed.

(** The character before the position reached after [U]. *)
Definition prev_after (prev : option cu) (U : jsstring) : option cu :=
  fold_left (fun _ c => Some c) U prev.

Lemma prev_after_app (prev : option cu) (U V : jsstring) :
  prev_after prev (U ++ V) = prev_after (prev_after prev U) V.
Proof. apply fold_left_app. Qed.

(** No match starts inside [U] when [V] follows. *)
Definition NoMatch (re : regex) (U V : jsstring) : Prop :=
  forall a b prev, U = a ++ b -> b <> [] -> match_at re prev (b ++ V) = None.

Lemma NoMatch_tail (re : regex) (c : cu) (U V : jsstring) :
  NoMatch re (c :: U) V -> NoMatch re U V.
Proof. intros H a b prev -> Hb. now apply (H (c :: a) b prev). Qed.

Lemma NoMatch_head (re : regex) (c : cu) (U V : jsstring) (prev : option cu) :
  NoMatch re (c :: U) V -> match_at re prev (c :: U ++ V) = None.
Proof. intros H. apply (H [] (c :: U) prev eq_refl). discriminate. Qed.

Lemma NoMatch_app (re : regex) (U1 U2 V : jsstring) :
  NoMatch re U1 (U2 ++ V) -> NoMatch re U2 V -> NoMatch re (U1 ++ U2) V.
Proof.
  revert U2 V. induction U1 as [|c U1 IH]; intros U2 V H1 H2; [exact H2|].
  intros a b prev Hab Hb. destruct a as [|x a].
  - simpl in Hab. subst b.
    change ((c :: U1 ++ U2) ++ V) with (((c :: U1) ++ U2) ++ V).
    rewrite <- app_assoc. now apply (H1 [] (c :: U1) prev).
  - injection Hab as Hc Hab.
    apply (IH U2 V (NoMatch_tail _ _ _ _ H1) H2 a b prev Hab Hb).
Qed.

Lemma replace_skip (re : regex) (by_ U V : jsstring) (prev : option cu) :
  NoMatch re U V ->
  replace_from re by_ O prev (U ++ V)
  = U ++ replace_from re by_ O (prev_after prev U) V.
Proof.
  revert prev. induction U as [|c U IH]; intros prev H; [reflexivity|].
  cbn [app replace_from]. rewrite (NoMatch_head _ _ _ _ prev H).
  f_equal. apply IH. eapply NoMatch_tail, H.
Qed.

Lemma count_skip (re : regex) (U V : jsstring) (prev : option cu) :
  NoMatch re U V ->
  count_from re prev (U ++ V) = count_from re (prev_after prev U) V.
Proof.
  revert prev. induction U as [|c U IH]; intros prev H; [reflexivity|].
  cbn [app count_from]. rewrite (NoMatch_head _ _ _ _ prev H).
  apply IH. eapply NoMatch_tail, H.
Qed.

Lemma search_skip (re : regex) (U V : jsstring) (prev : option cu) :
  NoMatch re U V ->
  search re prev (U ++ V) = search re (prev_after prev U) V.
Proof.
  revert prev. induction U as [|c U IH]; intros prev H; [reflexivity|].
  cbn [app search]. rewrite (NoMatch_head _ _ _ _ prev H).
  apply IH. eapply NoMatch_tail, H.
Qed.

Lemma replace_drop (re : regex) (by_ B V : jsstring) (prev : option cu) :
  replace_from re by_ (length B) prev (B ++ V)
  = replace_from re by_ O (prev_after prev B) V.
Proof.
  revert prev. induction B as [|c B IH]; intros prev; [reflexivity|].
  cbn [app length replace_from]. apply IH.
Qed.

Lemma replace_match (re : regex) (by_ B V : jsstring) (prev : option cu) :
  B <> [] ->
  match_at re prev (B ++ V) = Some V ->
  replace_from re by_ O prev (B ++ V)
  = by_ ++ replace_from re by_ O (prev_after prev B) V.
Proof.
  intros HB Hm. destruct B as [|c B]; [congruence|].
  cbn [app replace_from]. cbn [app] in Hm. rewrite Hm.
  replace (length (c :: B ++ V) - length V)%nat with (S (length B))
    by (cbn [length]; rewrite length_app; lia).
  f_equal. now rewrite replace_drop.
Qed.

Lemma replace_nil (re : regex) (by_ : jsstring) (prev : option cu) :
  match_at re prev [] = None -> replace_from re by_ O prev [] = [].
Proof. intros H. simpl. now rewrite H. Qed.

(** A scan that finds nothing returns the string. *)
Lemma replace_id (re re' : regex) (by_ s : jsstring) (prev : option cu) :
  (forall p b, match_at re' p b = None -> match_at re p b = None) ->
  search re' prev s = false ->
  replace_from re by_ O prev s = s.
Proof.
  intros Hre. revert prev. induction s as [|c t IH]; intros prev Hs.
  - simpl in Hs. destruct (match_at re' prev []) eqn:E; [discriminate|].
    simpl. now rewrite (Hre _ _ E).
  - cbn [search] in Hs. destruct (match_at re' prev (c :: t)) eqn:E; [discriminate|].
    cbn [replace_from]. rewrite (Hre _ _ E). f_equal. now apply IH.
Qed.

Lemma search_false (re : regex) (s : jsstring) (prev : option cu) :
  search re prev s = false ->
  forall a b, s = a ++ b -> match_at re (prev_after prev a) b = None.
Proof.
  revert prev. induction s as [|c t IH]; intros prev Hs a b Hab.
  - destruct a; [|discriminate]. simpl in Hab. subst b. simpl in *.
    now destruct (match_at re prev []).
  - cbn [search] in Hs. destruct (match_at re prev (c :: t)) eqn:E; [discriminate|].
    destruct a as [|x a].
    + simpl in Hab. now subst b.
    + injection Hab as Hc Hab. subst x. now apply (IH (Some c) Hs a b).
Qed.

Lemma search_true_at (re : regex) (a b : jsstring) (prev : option cu) :
  match_at re (prev_after prev a) b <> None -> search re prev (a ++ b) = true.
Proof.
  revert prev. induction a as [|x a IH]; intros prev H.
  - simpl in *. destruct b; simpl; now destruct (match_at re prev _).
  - cbn [app search]. destruct (match_at re prev _); [reflexivity|].
    now apply IH.
Qed.

End Matcher.

(** ** Blank lines *)

Section BlankLines.

Import Installer.

(** [content.replace(/\n{3,}/g, '\n\n')] *)
Definition collapse (s : jsstring) : jsstring := replace blankLines [nl; nl] s.

(** The same as a scan that counts the newlines of the current run. *)
Definition flush (k : nat) : jsstring :=
  if (3 <=? k)%nat then [nl; nl] else repeat nl k.

Fixpoint squeeze (k : nat) (s : jsstring) : jsstring :=
  match s with
  | [] => flush k
  | c :: t =>
      if c =? nl then squeeze (S k) t
      else flush k ++ c :: squeeze O t
  end.

Definition no_nl_head (s : jsstring) : Prop :=
  match s with
  | c :: _ => (c =? nl) = false
  | [] => True
  end.

Lemma skip_run (k : nat) (rest : jsstring) :
  no_nl_head rest -> skip (Only nl) (repeat nl k ++ rest) = rest.
Proof.
  intros H. induction k as [|k IH]; simpl.
  - destruct rest as [|c t]; [reflexivity|]. simpl in *. now rewrite H.
  - exact IH.
Qed.

Lemma blank_match (k : nat) (rest : jsstring) (prev : option cu) :
  no_nl_head rest ->
  match_at blankLines prev (repeat nl k ++ rest)
  = if (3 <=? k)%nat then Some rest else None.
Proof.
  intros H. unfold match_at, blankLines. cbn [anchored body andb mtch].
  destruct k as [|[|[|k]]]; cbn [repeat app exactly in_class Nat.leb].
  - destruct rest as [|c t]; [reflexivity|]. simpl in H. now rewrite H.
  - rewrite N.eqb_refl.
    destruct rest as [|c t]; [reflexivity|]. simpl in H. now rewrite H.
  - rewrite !N.eqb_refl.
    destruct rest as [|c t]; [reflexivity|]. simpl in H. now rewrite H.
  - rewrite !N.eqb_refl.
    change (star (Only nl) (mtch [])) with (star (Only nl) Some).
    rewrite star_Some. now rewrite skip_run.
Qed.

Lemma replace_run (k : nat) (rest : jsstring) (prev : option cu) :
  no_nl_head rest ->
  exists p,
    replace_from blankLines [nl; nl] O prev (repeat nl k ++ rest)
    = flush k ++ replace_from blankLines [nl; nl] O p rest.
Proof.
  intros H. unfold flush. destruct (3 <=? k)%nat eqn:E.
  - eexists. rewrite replace_match; [reflexivity | |].
    + destruct k; [discriminate | discriminate].
    + now rewrite blank_match, E.
  - apply Nat.leb_gt in E.
    assert (Hk : k = 0%nat \/ k = 1%nat \/ k = 2%nat) by lia.
    destruct Hk as [-> | [-> | ->]]; cbn [repeat app].
    + now eexists.
    + eexists. cbn [replace_from].
      pose proof (blank_match 1 rest prev H) as E1.
      cbn [repeat app Nat.leb] in E1. rewrite E1. reflexivity.
    + eexists. cbn [replace_from].
      pose proof (blank_match 2 rest prev H) as E2.
      cbn [repeat app Nat.leb] in E2. rewrite E2. f_equal.
      cbn [replace_from].
      pose proof (blank_match 1 rest (Some nl) H) as E1.
      cbn [repeat app Nat.leb] in E1. rewrite E1. reflexivity.
Qed.

Lemma repeat_snoc (k : nat) (t : jsstring) :
  repeat nl k ++ nl :: t = repeat nl (S k) ++ t.
Proof. induction k as [|k IH]; simpl; [reflexivity | now rewrite IH]. Qed.

Lemma replace_squeeze (s : jsstring) (k : nat) (prev : option cu) :
  replace_from blankLines [nl; nl] O prev (repeat nl k ++ s) = squeeze k s.
Proof.
  revert k prev. induction s as [|c t IH]; intros k prev.
  - destruct (replace_run k [] prev I) as [p ->]. simpl. apply app_nil_r.
  - cbn [squeeze]. destruct (c =? nl) eqn:E.
    + apply N.eqb_eq in E. subst c. rewrite repeat_snoc. apply IH.
    + destruct (replace_run k (c :: t) prev E) as [p ->]. f_equal.
      cbn [replace_from].
      pose proof (blank_match 0 (c :: t) p E) as E0.
      cbn [repeat app Nat.leb] in E0. rewrite E0. f_equal.
      apply (IH 0%nat).
Qed.

Lemma collapse_squeeze (s : jsstring) : collapse s = squeeze 0 s.
Proof. apply (replace_squeeze s 0 None). Qed.

Lemma squeeze_split (X Y : jsstring) (c : cu) (k : nat) :
  (c =? nl) = false ->
  squeeze k (X ++ c :: Y) = squeeze k X ++ c :: squeeze 0 Y.
Proof.
  intros Hc. revert k. induction X as [|x X IH]; intros k; cbn [app squeeze].
  - now rewrite Hc.
  - destruct (x =? nl); [apply IH|].
    rewrite IH, <- app_assoc. reflexivity.
Qed.

(** Blank lines are collapsed on each side of a character that is not a
    newline, independently. *)
Lemma collapse_split (X Y : jsstring) (c : cu) :
  (c =? nl) = false ->
  collapse (X ++ c :: Y) = collapse X ++ c :: collapse Y.
Proof. intros H. rewrite !collapse_squeeze. now apply squeeze_split. Qed.

(** Without three newlines in a row nothing changes. *)
Fixpoint calm (k : nat) (s : jsstring) : bool :=
  match s with
  | [] => true
  | c :: t =>
      if c =? nl then (S k <? 3)%nat && calm (S k) t
      else calm O t
  end.

Lemma squeeze_calm (s : jsstring) (k : nat) :
  (k <? 3)%nat = true -> calm k s = true -> squeeze k s = repeat nl k ++ s.
Proof.
  revert k. induction s as [|c t IH]; intros k Hk Hs; cbn [squeeze calm] in *.
  - unfold flush. apply Nat.ltb_lt in Hk.
    replace (3 <=? k)%nat with false by (symmetry; apply Nat.leb_gt; lia).
    now rewrite app_nil_r.
  - destruct (c =? nl) eqn:E.
    + apply andb_true_iff in Hs. destruct Hs as [H1 H2].
      rewrite (IH _ H1 H2). apply N.eqb_eq in E. subst c.
      now rewrite repeat_snoc.
    + unfold flush. apply Nat.ltb_lt in Hk.
      replace (3 <=? k)%nat with false by (symmetry; apply Nat.leb_gt; lia).
      now rewrite (IH 0%nat eq_refl Hs).
Qed.

Lemma collapse_calm (s : jsstring) : calm 0 s = true -> collapse s = s.
Proof. intros H. rewrite collapse_squeeze. now apply (squeeze_calm s 0). Qed.

(** Two strings that differ only in the lengths of their runs of
    newlines. *)
Inductive nleq : jsstring -> jsstring -> Prop :=
  | nleq_nil : nleq [] []
  | nleq_keep c s s' : nleq s s' -> nleq (c :: s) (c :: s')
  | nleq_dropl s s' : nleq (nl :: s) s' -> nleq (nl :: nl :: s) s'
  | nleq_dropr s s' : nleq s (nl :: s') -> nleq s (nl :: nl :: s').

Lemma nleq_refl (s : jsstring) : nleq s s.
Proof. induction s; now constructor. Qed.

Lemma nleq_sym (s s' : jsstring) : nleq s s' -> nleq s' s.
Proof. induction 1; now constructor. Qed.

Lemma nleq_app (a a' b b' : jsstring) :
  nleq a a' -> nleq b b' -> nleq (a ++ b) (a' ++ b').
Proof.
  intros Ha Hb. induction Ha; simpl in *; [assumption | | |]; now constructor.
Qed.

Lemma nleq_flush (k : nat) : nleq (repeat nl k) (flush k).
Proof.
  unfold flush. destruct (3 <=? k)%nat eqn:E; [|apply nleq_refl].
  apply Nat.leb_le in E.
  destruct k as [|[|k]]; [lia | lia |].
  induction k as [|k IH]; [lia|].
  destruct k as [|k].
  - simpl. apply nleq_dropl, nleq_refl.
  - cbn [repeat]. apply nleq_dropl. apply IH. lia.
Qed.

Lemma nleq_squeeze (s : jsstring) (k : nat) :
  nleq (repeat nl k ++ s) (squeeze k s).
Proof.
  revert k. induction s as [|c t IH]; intros k; cbn [squeeze].
  - rewrite app_nil_r. apply nleq_flush.
  - destruct (c =? nl) eqn:E.
    + apply N.eqb_eq in E. subst c. rewrite repeat_snoc. apply IH.
    + apply nleq_app; [apply nleq_flush|]. constructor. apply (IH 0%nat).
Qed.

Lemma nleq_collapse (s : jsstring) : nleq s (collapse s).
Proof. rewrite collapse_squeeze. apply (nleq_squeeze s 0). Qed.

Lemma nleq_cons_inv (c : cu) (t s' : jsstring) :
  (c =? nl) = false -> nleq (c :: t) s' ->
  exists t', s' = c :: t' /\ nleq t t'.
Proof.
  intros Hc H. remember (c :: t) as s eqn:Es. revert c t Hc Es.
  induction H as [|x s s' H IH|s s' H IH|s s' H IH]; intros c t Hc Es.
  - discriminate.
  - injection Es as -> ->. eauto.
  - injection Es as Ec _. subst c. discriminate Hc.
  - destruct (IH c t Hc Es) as [t' [E _]]. injection E as Ec _. subst c.
    discriminate Hc.
Qed.

Lemma nleq_nl_head (t s' : jsstring) :
  nleq (nl :: t) s' -> exists t', s' = nl :: t'.
Proof.
  intros H. remember (nl :: t) as s eqn:Es. revert t Es.
  induction H as [|x s s' H IH|s s' H IH|s s' H IH]; intros t Es.
  - discriminate.
  - injection Es as -> ->. eauto.
  - eapply IH. reflexivity.
  - eauto.
Qed.

Lemma nleq_nil_inv (s' : jsstring) : nleq [] s' -> s' = [].
Proof.
  intros H. remember (@nil N) as s eqn:Es in H.
  induction H as [|x s s' H IH|s s' H IH|s s' H IH]; try discriminate Es.
  - reflexivity.
  - specialize (IH Es). discriminate IH.
Qed.

End BlankLines.

(** ** Alias names *)

Section Names.

Import Installer.

(** The syntax characters of a regular expression. *)
Definition syntax_char (c : cu) : bool :=
  existsb (N.eqb c) [92; 94; 36; 46; 124; 63; 42; 43; 40; 41; 91; 93; 123; 125].

Definition name_char (c : cu) : bool :=
  negb (isSpace c) && negb (syntax_char c) && negb (c =? hash).

(** A name that can be the name of a shell function and stands for itself
    in a regular expression: not empty, no white space, no syntax
    character, no [#]. *)
Definition alias_name (n : jsstring) : bool :=
  match n with
  | [] => false
  | _ => forallb name_char n
  end.

Lemma name_char_space (c : cu) : name_char c = true -> isSpace c = false.
Proof.
  unfold name_char. intros H.
  apply andb_true_iff in H. destruct H as [H _].
  apply andb_true_iff in H. destruct H as [H _].
  now apply negb_true_iff in H.
Qed.

Lemma isSpace_not (c d : cu) : isSpace c = false -> isSpace d = true -> (c =? d) = false.
Proof.
  intros Hc Hd. destruct (N.eqb_spec c d) as [->|]; [congruence | reflexivity].
Qed.

Lemma name_char_nl (c : cu) : name_char c = true -> (c =? nl) = false.
Proof. intros H. apply (isSpace_not c nl); [now apply name_char_space | reflexivity]. Qed.

Lemma name_char_lparen (c : cu) : name_char c = true -> (c =? lparen) = false.
Proof.
  unfold name_char, syntax_char. intros H.
  apply andb_true_iff in H. destruct H as [H _].
  apply andb_true_iff in H. destruct H as [_ H].
  apply negb_true_iff in H. simpl in H.
  repeat (apply orb_false_iff in H; destruct H as [? H]). assumption.
Qed.

Lemma alias_name_inv (n : jsstring) :
  alias_name n = true ->
  exists c t, n = c :: t /\ name_char c = true /\ forallb name_char t = true.
Proof.
  destruct n as [|c t]; [discriminate|]. simpl. intros H.
  apply andb_true_iff in H. destruct H. eauto.
Qed.

Lemma alias_name_chars (n : jsstring) :
  alias_name n = true -> forallb name_char n = true.
Proof. destruct n; [discriminate | trivial]. Qed.

Lemma strip_name_space (n : jsstring) (c : cu) (t : jsstring) :
  alias_name n = true -> isSpace c = true -> strip n (c :: t) = None.
Proof.
  intros Hn Hc. destruct (alias_name_inv n Hn) as [x [n' [-> [Hx _]]]].
  simpl. destruct (N.eqb_spec c x) as [->|]; [|reflexivity].
  apply name_char_space in Hx. congruence.
Qed.

Lemma hscan_space (n : jsstring) (c : cu) (t : jsstring) :
  alias_name n = true -> isSpace c = true -> hscan n (c :: t) = None.
Proof. intros Hn Hc. unfold hscan. now rewrite strip_name_space. Qed.

Lemma hscan_nil (n : jsstring) : hscan n [] = None.
Proof.
  unfold hscan. destruct (strip n []) as [t|] eqn:E; [|reflexivity].
  assert (t = []) as ->.
  { revert E. induction n as [|c n IH]; simpl; [congruence | discriminate]. }
  reflexivity.
Qed.

(** *** Runs of newlines do not matter to the header *)

Lemma expect_nleq (c : cu) (s s' t : jsstring) :
  (c =? nl) = false -> nleq s s' -> expect c s = Some t ->
  exists t', expect c s' = Some t' /\ nleq t t'.
Proof.
  intros Hc H E. destruct s as [|x u]; [discriminate|]. simpl in E.
  destruct (N.eqb_spec x c) as [->|]; [|discriminate]. injection E as ->.
  destruct (nleq_cons_inv c t s' Hc H) as [t' [-> Ht]].
  exists t'. simpl. now rewrite N.eqb_refl.
Qed.

Lemma strip_nleq (n s s' t : jsstring) :
  forallb name_char n = true -> nleq s s' -> strip n s = Some t ->
  exists t', strip n s' = Some t' /\ nleq t t'.
Proof.
  revert s s'. induction n as [|c n IH]; intros s s' Hn H E; simpl in *.
  - injection E as ->. eauto.
  - apply andb_true_iff in Hn. destruct Hn as [Hc Hn].
    destruct (expect c s) as [u|] eqn:Eu; [|discriminate].
    destruct (expect_nleq c s s' u (name_char_nl c Hc) H Eu) as [u' [-> Hu]].
    eapply IH; eauto.
Qed.

Lemma skip_space_nleq (s s' : jsstring) :
  nleq s s' -> nleq (skip Space s) (skip Space s').
Proof.
  induction 1 as [|c s s' H IH|s s' H IH|s s' H IH].
  - constructor.
  - cbn [skip]. destruct (in_class Space c); [exact IH | now constructor].
  - exact IH.
  - exact IH.
Qed.

Lemma tail_scan_nleq (s s' z : jsstring) :
  nleq s s' -> tail_scan s = Some z ->
  exists z', tail_scan s' = Some z' /\ nleq z z'.
Proof.
  intros H E. unfold tail_scan in *.
  destruct (expect lparen (skip Space s)) as [s1|] eqn:E1; [|discriminate].
  destruct (expect_nleq lparen _ _ s1 eq_refl (skip_space_nleq _ _ H) E1)
    as [s1' [-> H1]].
  destruct (expect rparen (skip Space s1)) as [s2|] eqn:E2; [|discriminate].
  destruct (expect_nleq rparen _ _ s2 eq_refl (skip_space_nleq _ _ H1) E2)
    as [s2' [-> H2]].
  apply (expect_nleq lbrace _ _ z eq_refl (skip_space_nleq _ _ H2) E).
Qed.

Lemma hscan_nleq (n s s' z : jsstring) :
  forallb name_char n = true -> nleq s s' -> hscan n s = Some z ->
  exists z', hscan n s' = Some z' /\ nleq z z'.
Proof.
  intros Hn H E. unfold hscan in *.
  destruct (strip n s) as [t|] eqn:Et; [|discriminate].
  destruct (strip_nleq n s s' t Hn H Et) as [t' [-> Ht]].
  eapply tail_scan_nleq; eauto.
Qed.

(** An expression that is the header of [n], anchored or not. *)
Definition header_regex (re : regex) (n : jsstring) : Prop := body re = header n.

Lemma match_at_header (re : regex) (n : jsstring) (prev : option cu) (s : jsstring) :
  header_regex re n ->
  match_at re prev s
  = if anchored re && negb (at_bol prev) then None else hscan n s.
Proof. intros H. unfold match_at. now rewrite H, mtch_header_only. Qed.

Lemma search_nl_head (re : regex) (n : jsstring) (prev : option cu) (t : jsstring) :
  header_regex re n -> alias_name n = true ->
  search re prev (nl :: t) = search re (Some nl) t.
Proof.
  intros Hre Hn. cbn [search]. rewrite (match_at_header re n) by assumption.
  rewrite hscan_space by (assumption || reflexivity).
  now destruct (anchored re && negb (at_bol prev)).
Qed.

Lemma search_nleq (re : regex) (n s s' : jsstring) :
  header_regex re n -> alias_name n = true -> nleq s s' ->
  forall prev, search re prev s = true -> search re prev s' = true.
Proof.
  intros Hre Hn H.
  induction H as [|c s s' H IH|s s' H IH|s s' H IH]; intros prev Hs.
  - exact Hs.
  - cbn [search] in *. rewrite (match_at_header re n) in * by assumption.
    destruct (anchored re && negb (at_bol prev)).
    + now apply IH.
    + destruct (hscan n (c :: s)) as [z|] eqn:E.
      * destruct (hscan_nleq n (c :: s) (c :: s') z (alias_name_chars n Hn)
                    (nleq_keep c s s' H) E) as [z' [-> _]]. reflexivity.
      * destruct (hscan n (c :: s')); [reflexivity | now apply IH].
  - rewrite (search_nl_head re n) in Hs by assumption.
    destruct (nleq_nl_head s s' H) as [t' ->].
    rewrite (search_nl_head re n) by assumption.
    specialize (IH (Some nl) Hs).
    now rewrite (search_nl_head re n) in IH by assumption.
  - do 2 rewrite (search_nl_head re n) by assumption.
    specialize (IH prev Hs).
    now rewrite (search_nl_head re n) in IH by assumption.
Qed.

(** *** Text added after a match does not undo it *)

Lemma skip_app (cl : cclass) (t x : jsstring) (c : cu) (u : jsstring) :
  skip cl t = c :: u -> skip cl (t ++ x) = c :: u ++ x.
Proof.
  induction t as [|y t IH]; simpl; [discriminate|].
  destruct (in_class cl y); [exact IH|].
  intros E. injection E as -> ->. reflexivity.
Qed.

Lemma expect_app (c : cu) (s x t : jsstring) :
  expect c s = Some t -> expect c (s ++ x) = Some (t ++ x).
Proof.
  destruct s as [|y s]; simpl; [discriminate|].
  destruct (y =? c); [|discriminate]. now intros [= ->].
Qed.

Lemma expect_skip_app (cl : cclass) (c : cu) (s x t : jsstring) :
  expect c (skip cl s) = Some t -> expect c (skip cl (s ++ x)) = Some (t ++ x).
Proof.
  destruct (skip cl s) as [|y u] eqn:E; [discriminate|].
  rewrite (skip_app cl s x y u E). intros H.
  now apply (expect_app c (y :: u) x t).
Qed.

Lemma strip_app (n s x t : jsstring) :
  strip n s = Some t -> strip n (s ++ x) = Some (t ++ x).
Proof.
  revert s. induction n as [|c n IH]; intros s; simpl.
  - now intros [= ->].
  - destruct (expect c s) as [u|] eqn:E; [|discriminate].
    rewrite (expect_app c s x u E). apply IH.
Qed.

Lemma tail_scan_app (s x z : jsstring) :
  tail_scan s = Some z -> tail_scan (s ++ x) = Some (z ++ x).
Proof.
  unfold tail_scan.
  destruct (expect lparen (skip Space s)) as [s1|] eqn:E1; [|discriminate].
  rewrite (expect_skip_app Space lparen s x s1 E1).
  destruct (expect rparen (skip Space s1)) as [s2|] eqn:E2; [|discriminate].
  rewrite (expect_skip_app Space rparen s1 x s2 E2).
  apply expect_skip_app.
Qed.

Lemma hscan_app (n s x z : jsstring) :
  hscan n s = Some z -> hscan n (s ++ x) = Some (z ++ x).
Proof.
  unfold hscan. destruct (strip n s) as [t|] eqn:E; [|discriminate].
  rewrite (strip_app n s x t E). apply tail_scan_app.
Qed.

Lemma search_app (re : regex) (n s x : jsstring) (prev : option cu) :
  header_regex re n ->
  search re prev s = true -> search re prev (s ++ x) = true.
Proof.
  intros Hre. revert prev. induction s as [|c s IH]; intros prev Hs.
  - simpl in Hs. rewrite (match_at_header re n) in Hs by assumption.
    rewrite hscan_nil in Hs. now destruct (anchored re && negb (at_bol prev)).
  - cbn [app search] in *. rewrite (match_at_header re n) in * by assumption.
    destruct (anchored re && negb (at_bol prev)); [now apply IH|].
    destruct (hscan n (c :: s)) as [z|] eqn:E.
    + pose proof (hscan_app n (c :: s) x z E) as E'. cbn [app] in E'.
      now rewrite E'.
    + destruct (hscan n (c :: s ++ x)); [reflexivity | now apply IH].
Qed.

End Names.

(** ** The reload alias *)

Section ReloadAlias.

Import Installer.

(** A continuation that fails more often makes the whole match fail more
    often. *)
Definition fails_more (k1 k2 : cont) : Prop :=
  forall s, k1 s = None -> k2 s = None.

Lemma chr_mono (c : cu) (k1 k2 : cont) :
  fails_more k1 k2 -> fails_more (chr c k1) (chr c k2).
Proof.
  intros H s. destruct s as [|x t]; simpl; [trivial|].
  destruct (x =? c); [apply H | trivial].
Qed.

Lemma star_mono (cl : cclass) (k1 k2 : cont) :
  fails_more k1 k2 -> fails_more (star cl k1) (star cl k2).
Proof.
  intros H s. induction s as [|x t IH]; simpl; [apply H|].
  destruct (in_class cl x); [|apply H].
  destruct (star cl k1 t); [discriminate|].
  intros E. rewrite (IH eq_refl). now apply H.
Qed.

Lemma exactly_mono (n : nat) (cl : cclass) (k1 k2 : cont) :
  fails_more k1 k2 -> fails_more (exactly n cl k1) (exactly n cl k2).
Proof.
  intros H. induction n as [|n IH]; intros s; simpl; [apply H|].
  destruct s as [|x t]; [trivial|]. destruct (in_class cl x); [apply IH | trivial].
Qed.

Lemma lazy_mono (cl : cclass) (k1 k2 : cont) :
  fails_more k1 k2 -> fails_more (lazy_star cl k1) (lazy_star cl k2).
Proof.
  intros H s. induction s as [|x t IH]; simpl.
  - destruct (k1 []) eqn:E; [discriminate|]. now rewrite (H _ E).
  - destruct (k1 (x :: t)) eqn:E; [discriminate|]. rewrite (H _ E).
    destruct (in_class cl x); [exact IH | trivial].
Qed.

Lemma opt_mono (c : cu) (k1 k2 : cont) :
  fails_more k1 k2 -> fails_more (opt c k1) (opt c k2).
Proof.
  intros H s. destruct s as [|x t]; simpl; [apply H|].
  destruct (x =? c); [|apply H].
  destruct (k1 t) eqn:E; [discriminate|]. rewrite (H _ E). apply H.
Qed.

Lemma mtch_app_mono (r r1 r2 : list item) :
  fails_more (mtch r1) (mtch r2) -> fails_more (mtch (r ++ r1)) (mtch (r ++ r2)).
Proof.
  intros H. induction r as [|i r IH]; [exact H|].
  destruct i; cbn [app mtch].
  - now apply chr_mono.
  - now apply exactly_mono, star_mono.
  - now apply lazy_mono.
  - now apply opt_mono.
Qed.

(** Where [alias name=] does not match, the line pattern of the removal
    does not match either. *)
Lemma aliasLine_none (name : jsstring) (p : option cu) (b : jsstring) :
  match_at (Reload.aliasPattern name) p b = None ->
  match_at (Reload.aliasLinePattern name) p b = None.
Proof.
  unfold match_at, Reload.aliasPattern, Reload.aliasLinePattern.
  cbn [anchored body]. destruct (true && negb (at_bol p)); [trivial|].
  rewrite !app_assoc. apply mtch_app_mono.
  intros s. cbn [mtch]. apply chr_mono. discriminate.
Qed.

Lemma strip_self (n x : jsstring) : strip n (n ++ x) = Some x.
Proof.
  induction n as [|c n IH]; simpl; [reflexivity|]. now rewrite N.eqb_refl.
Qed.

(** The line the installation writes is an alias line of the name. *)
Lemma alias_line_matches (name rest : jsstring) :
  alias_name name = true ->
  mtch (body (Reload.aliasPattern name))
       (lit "alias " ++ name ++ equals :: rest) = Some rest.
Proof.
  intros Hn. unfold Reload.aliasPattern. cbn [body].
  rewrite mtch_str.
  replace (strip (lit "alias") (lit "alias " ++ name ++ equals :: rest))
    with (Some (space :: name ++ equals :: rest)) by (vm_compute; reflexivity).
  destruct (alias_name_inv name Hn) as [c [t [-> [Hc Ht]]]].
  cbn [app mtch exactly in_class]. change (isSpace space) with true. cbv iota.
  cbn [star in_class]. rewrite (name_char_space c Hc).
  change (chr c (mtch (str t ++ [Chr equals])))
    with (mtch (str (c :: t) ++ [Chr equals])).
  rewrite mtch_str.
  change (c :: t ++ equals :: rest) with ((c :: t) ++ equals :: rest).
  rewrite strip_self. cbn [mtch chr]. now rewrite N.eqb_refl.
Qed.

Lemma set_file_lookup (st : fs_state) (p d : jsstring) :
  files (set_file st p d) !! p = Some d.
Proof. apply lookup_insert_eq. Qed.

(** C10.  The reload alias is detected in either form and removed in one.
    When the profile defines the name as a function only, the detection
    reports it, the removal excises nothing (it only collapses blank
    lines) and the function header is still there; the installation with
    overwrite then succeeds and appends the alias line, after which both
    the function header and the alias line of the name are in the
    profile. *)
Theorem reload_overwrite_keeps_function
    (h : host) (clk : clock) (st : fs_state) (name content : jsstring) :
  alias_name name = true ->
  let profile := snd (detectShellProfile h st) in
  let added := Reload.aliasContent name profile (toISOString clk) in
  files st !! profile = Some content ->
  denied st profile = false ->
  test (Reload.aliasPattern name) content = false ->
  test (Reload.funcPattern name) content = true ->
  Reload.aliasExists st profile name = true
  /\ Reload.removeFromContent name content = collapse content
  /\ test (Reload.funcPattern name) (collapse content) = true
  /\ exists st',
       Reload.installReloadAlias h clk st name true
       = (st', Reload.Success (fst (detectShellProfile h st)) profile)
       /\ files st' !! profile = Some (collapse content ++ added)
       /\ test (Reload.funcPattern name) (collapse content ++ added) = true
       /\ test (Reload.aliasPattern name) (collapse content ++ added) = true.
Proof.
  intros Hn profile added Hf Hd Ha Hfn.
  assert (Hex : Reload.aliasExists st profile name = true).
  { unfold Reload.aliasExists, readFile. now rewrite Hf, Ha, Hfn. }
  assert (Hrm : Reload.removeFromContent name content = collapse content).
  { unfold Reload.removeFromContent, collapse. f_equal.
    apply (replace_id _ (Reload.aliasPattern name)); [|exact Ha].
    intros p b. apply aliasLine_none. }
  assert (Hkeep : test (Reload.funcPattern name) (collapse content) = true).
  { apply (search_nleq _ name content); try assumption; try reflexivity.
    apply nleq_collapse. }
  split; [exact Hex|]. split; [exact Hrm|]. split; [exact Hkeep|].
  unfold Reload.installReloadAlias.
  destruct (detectShellProfile h st) as [shell prof] eqn:Ed.
  cbn [fst snd] in *. subst profile.
  rewrite Hex. cbn [andb negb].
  unfold Reload.removeExistingAlias, readFile, writeFile.
  rewrite Hf, Hd. cbn [fst]. unfold appendFile. cbn [denied set_file].
  rewrite Hd, set_file_lookup. cbn [default].
  rewrite Hrm. eexists. split; [reflexivity|]. split; [apply set_file_lookup|].
  split.
  - now apply (search_app _ name).
  - unfold test, added, Reload.aliasContent.
    replace (lit "
# ━━━━━━━━━━━━━━━━━━━━━━━━━━━━━━━━━━━━━━━━━━━━━━━━━━━
alias ") with (lit "
# ━━━━━━━━━━━━━━━━━━━━━━━━━━━━━━━━━━━━━━━━━━━━━━━━━━━
" ++ lit "alias ") by (vm_compute; reflexivity).
    rewrite <- !app_assoc.
    match goal with
    | |- search _ None (?a ++ ?b ++ ?c ++ ?d ++ ?rest) = true =>
        rewrite (app_assoc a), (app_assoc (a ++ b)), (app_assoc ((a ++ b) ++ c));
        apply search_true_at
    end.
    unfold match_at. cbn [anchored Reload.aliasPattern andb].
    rewrite !prev_after_app.
    replace (at_bol _) with true by (vm_compute; reflexivity).
    cbn [negb].
    change (lit "=`source " ++ prof ++ lit "`
") with (equals :: (lit "`source " ++ prof ++ lit "`
")).
    fold (Reload.aliasPattern name).
    now rewrite (alias_line_matches name _ Hn).
Qed.

(** A profile that defines [rl] as a function. *)
Definition rl_function : fs_state :=
  {| files := {[ lit "/home/u/.zshrc" := lit "rl() {
  source ~/.zshrc
}
" ]};
     denied := fun _ => false |}.

Lemma reload_overwrite_keeps_function_witness :
  exists st',
    Reload.installReloadAlias zsh_host noon rl_function (lit "rl") true
    = (st', Reload.Success Zsh (lit "/home/u/.zshrc"))
    /\ Reload.aliasExists st' (lit "/home/u/.zshrc") (lit "rl") = true
    /\ count (Reload.funcPattern (lit "rl"))
         (default [] (files st' !! lit "/home/u/.zshrc")) = 1%nat
    /\ count (Reload.aliasPattern (lit "rl"))
         (default [] (files st' !! lit "/home/u/.zshrc")) = 1%nat.
Proof.
  destruct (reload_overwrite_keeps_function zsh_host noon rl_function (lit "rl")
              (lit "rl() {
  source ~/.zshrc
}
")) as [_ [_ [_ [st' [H1 [H2 _]]]]]]; try (vm_compute; reflexivity).
  exists st'. split; [exact H1|].
  unfold Reload.aliasExists, readFile.
  change (snd (detectShellProfile zsh_host rl_function))
    with (lit "/home/u/.zshrc") in H2.
  rewrite H2. cbn [default]. repeat split; vm_compute; reflexivity.
Defined.

End ReloadAlias.

(** ** Where a header can match *)

Section Headers.

Import Installer.

(** [name\s*\(\s*\)\s*\{] with no anchor: the header as the removal
    looks for it. *)
Definition headerPattern (n : jsstring) : regex :=
  {| anchored := false; body := header n |}.

Lemma headerPattern_regex (n : jsstring) : header_regex (headerPattern n) n.
Proof. reflexivity. Qed.

Lemma existsPattern_regex (n : jsstring) : header_regex (existsPattern n) n.
Proof. reflexivity. Qed.

(** No header of [n] starts inside [X] when [V] follows. *)
Definition hfree (n X V : jsstring) : Prop :=
  forall a b, X = a ++ b -> b <> [] -> hscan n (b ++ V) = None.

Lemma hfree_NoMatch (re : regex) (n X V : jsstring) :
  header_regex re n -> hfree n X V -> NoMatch re X V.
Proof.
  intros Hre H a b prev Hab Hb. rewrite (match_at_header re n) by assumption.
  rewrite (H a b Hab Hb). now destruct (anchored re && negb (at_bol prev)).
Qed.

Lemma NoMatch_hfree (n X V : jsstring) :
  NoMatch (headerPattern n) X V -> hfree n X V.
Proof.
  intros H a b Hab Hb. specialize (H a b None Hab Hb).
  now rewrite (match_at_header _ n) in H by reflexivity.
Qed.

Lemma hfree_app (n X Y V : jsstring) :
  hfree n X (Y ++ V) -> hfree n Y V -> hfree n (X ++ Y) V.
Proof.
  intros H1 H2. apply NoMatch_hfree, NoMatch_app;
    now apply (hfree_NoMatch _ n).
Qed.

Lemma hfree_nil (n V : jsstring) : hfree n [] V.
Proof. intros a b Hab Hb. destruct a, b; try discriminate. congruence. Qed.

Lemma simple_NoMatch (n X V : jsstring) :
  hfree n X V -> NoMatch (simplePattern n) X V.
Proof.
  intros H a b prev Hab Hb. unfold match_at, simplePattern. cbn [anchored body andb].
  now rewrite mtch_header, (H a b Hab Hb).
Qed.

Lemma search_hfree (n s : jsstring) :
  test (headerPattern n) s = false -> forall V, V = [] -> hfree n s V.
Proof.
  intros H V -> a b Hab Hb. rewrite app_nil_r.
  pose proof (search_false _ _ _ H a b Hab) as E.
  now rewrite (match_at_header _ n) in E by reflexivity.
Qed.

(** *** Splitting *)

Lemma strip_split (n b V t : jsstring) :
  strip n (b ++ V) = Some t ->
  (exists b1, b = n ++ b1 /\ t = b1 ++ V)
  \/ (exists n2, n2 <> [] /\ n = b ++ n2 /\ strip n2 V = Some t).
Proof.
  revert b. induction n as [|c n IH]; intros b E.
  - left. exists b. simpl in E. injection E as <-. now split.
  - destruct b as [|y b].
    + right. exists (c :: n). repeat split; [discriminate | exact E].
    + cbn [app strip expect] in E.
      destruct (N.eqb_spec y c) as [->|]; [|discriminate].
      destruct (IH b E) as [[b1 [-> ->]]|[n2 [Hn2 [-> E2]]]].
      * left. now exists b1.
      * right. now exists n2.
Qed.

Lemma skip_spaces_split (s : jsstring) :
  exists w, s = w ++ skip Space s /\ forallb isSpace w = true.
Proof.
  induction s as [|c t [w [Hw Hs]]]; [now exists []|].
  cbn [skip in_class]. destruct (isSpace c) eqn:E.
  - exists (c :: w). simpl. rewrite E, Hs. split; [now f_equal | reflexivity].
  - now exists [].
Qed.

Lemma expect_inv (c : cu) (s t : jsstring) : expect c s = Some t -> s = c :: t.
Proof.
  destruct s as [|x u]; [discriminate|]. simpl.
  destruct (N.eqb_spec x c) as [->|]; [|discriminate]. now intros [= ->].
Qed.

Lemma skip_idem (cl : cclass) (s : jsstring) : skip cl (skip cl s) = skip cl s.
Proof.
  induction s as [|c t IH]; [reflexivity|]. simpl.
  destruct (in_class cl c) eqn:E; [exact IH|]. simpl. now rewrite E.
Qed.

Lemma tail_scan_skip (s : jsstring) : tail_scan (skip Space s) = tail_scan s.
Proof. unfold tail_scan. now rewrite skip_idem. Qed.

(** A tail that matches starts, after white space, at a parenthesis. *)
Lemma tail_scan_lparen (s z : jsstring) :
  tail_scan s = Some z ->
  exists w u, s = w ++ lparen :: u /\ forallb isSpace w = true
              /\ tail_scan (lparen :: u) = Some z.
Proof.
  intros E. destruct (skip_spaces_split s) as [w [Hs Hw]].
  rewrite <- tail_scan_skip in E.
  destruct (skip Space s) as [|c u] eqn:Es; [discriminate|].
  assert (c = lparen) as ->.
  { unfold tail_scan in E.
    destruct (expect lparen (skip Space (c :: u))) as [s1|] eqn:E1; [|discriminate].
    assert (Hsk : skip Space (c :: u) = c :: u).
    { rewrite <- Es. apply skip_idem. }
    rewrite Hsk in E1. now apply expect_inv in E1 as [= ->]. }
  exists w, u. now repeat split.
Qed.


Lemma last_suffix (a b : jsstring) (c : cu) :
  b <> [] -> List.last (a ++ b) c = List.last b c.
Proof.
  intros Hb. induction a as [|x a IH]; [reflexivity|].
  cbn [app]. remember (a ++ b) as s eqn:E. destruct s as [|y s].
  - destruct a, b; try discriminate. congruence.
  - exact IH.
Qed.

Lemma forallb_last (f : cu -> bool) (l : jsstring) (d : cu) :
  forallb f l = true -> l <> [] -> f (List.last l d) = true.
Proof.
  induction l as [|x l IH]; [congruence|]. intros H _.
  simpl in H. apply andb_true_iff in H. destruct H as [Hx Hl].
  destruct l as [|y l]; [exact Hx|]. apply IH; [exact Hl | discriminate].
Qed.

(** *** Text that ends every attempt *)

(** A text before which a header cannot be continued: it starts with a
    character that is not part of a name and, after white space, does not
    go on with a parenthesis or a brace. *)
Definition blocking (x : jsstring) : bool :=
  match x with
  | [] => true
  | c :: _ => negb (name_char c)
  end
  && match skip Space x with
     | [] => true
     | c :: _ => negb (c =? lparen) && negb (c =? rparen) && negb (c =? lbrace)
     end.

Lemma blocking_expect (x : jsstring) (c : cu) :
  blocking x = true -> c = lparen \/ c = rparen \/ c = lbrace ->
  expect c (skip Space x) = None.
Proof.
  unfold blocking. intros H Hc. apply andb_true_iff in H. destruct H as [_ H].
  destruct (skip Space x) as [|d u]; [reflexivity|]. simpl.
  apply andb_true_iff in H. destruct H as [H H3].
  apply andb_true_iff in H. destruct H as [H1 H2].
  apply negb_true_iff in H1, H2, H3.
  destruct Hc as [-> | [-> | ->]]; now rewrite ?H1, ?H2, ?H3.
Qed.

Lemma strip_cut (n s x t : jsstring) :
  forallb name_char n = true -> blocking x = true ->
  strip n (s ++ x) = Some t ->
  exists t', strip n s = Some t' /\ t = t' ++ x.
Proof.
  intros Hn Hx. revert s. induction n as [|c n IH]; intros s E.
  - simpl in E. injection E as <-. now exists s.
  - simpl in Hn. apply andb_true_iff in Hn. destruct Hn as [Hc Hn].
    destruct s as [|y s].
    + exfalso. cbn [app strip] in E. destruct x as [|d x]; [discriminate|].
      simpl in E. destruct (N.eqb_spec d c) as [->|]; [|discriminate].
      unfold blocking in Hx. rewrite Hc in Hx. discriminate.
    + cbn [app strip expect] in *. destruct (y =? c); [|discriminate].
      now apply IH.
Qed.

Lemma expect_skip_cut (c : cu) (s x u : jsstring) :
  isSpace c = false -> expect c (skip Space x) = None ->
  expect c (skip Space (s ++ x)) = Some u ->
  exists u', expect c (skip Space s) = Some u' /\ u = u' ++ x.
Proof.
  intros Hc Hx. induction s as [|y s IH]; intros E.
  - simpl in E. congruence.
  - cbn [app skip in_class] in *. destruct (isSpace y); [now apply IH|].
    simpl in *. destruct (y =? c); [|discriminate].
    injection E as <-. now exists s.
Qed.

Lemma tail_scan_cut (s x z : jsstring) :
  blocking x = true -> tail_scan (s ++ x) = Some z ->
  exists z', tail_scan s = Some z' /\ z = z' ++ x.
Proof.
  intros Hx E. unfold tail_scan in *.
  destruct (expect lparen (skip Space (s ++ x))) as [s1|] eqn:E1; [|discriminate].
  destruct (expect_skip_cut lparen s x s1 eq_refl
              (blocking_expect x lparen Hx (or_introl eq_refl)) E1) as [s1' [-> ->]].
  destruct (expect rparen (skip Space (s1' ++ x))) as [s2|] eqn:E2; [|discriminate].
  destruct (expect_skip_cut rparen s1' x s2 eq_refl
              (blocking_expect x rparen Hx (or_intror (or_introl eq_refl))) E2)
    as [s2' [-> ->]].
  apply (expect_skip_cut lbrace s2' x z eq_refl
           (blocking_expect x lbrace Hx (or_intror (or_intror eq_refl))) E).
Qed.

Lemma hscan_cut (n s x z : jsstring) :
  forallb name_char n = true -> blocking x = true ->
  hscan n (s ++ x) = Some z -> exists z', hscan n s = Some z'.
Proof.
  intros Hn Hx E. unfold hscan in *.
  destruct (strip n (s ++ x)) as [t|] eqn:Et; [|discriminate].
  destruct (strip_cut n s x t Hn Hx Et) as [t' [-> ->]].
  destruct (tail_scan_cut t' x z Hx E) as [z' [-> _]]. eauto.
Qed.

(** A text without the header stays without it when a blocking text
    follows. *)
Lemma hfree_blocking (n P x : jsstring) :
  alias_name n = true -> hfree n P [] -> blocking x = true -> hfree n P x.
Proof.
  intros Hn HP Hx a b Hab Hb.
  destruct (hscan n (b ++ x)) as [z|] eqn:E; [|reflexivity].
  destruct (hscan_cut n b x z (alias_name_chars n Hn) Hx E) as [z' E'].
  pose proof (HP a b Hab Hb) as E0.
  rewrite app_nil_r in E0. congruence.
Qed.

Lemma hfree_test (n P : jsstring) :
  hfree n P [] -> test (headerPattern n) P = false.
Proof.
  intros H. unfold test. rewrite <- (app_nil_r P).
  rewrite search_skip by now apply (hfree_NoMatch _ n).
  cbn [search]. rewrite (match_at_header _ n) by reflexivity.
  cbn [anchored headerPattern andb]. now rewrite hscan_nil.
Qed.

(** Header-freeness does not depend on the lengths of the runs of
    newlines. *)
Lemma hfree_nleq (n P Q : jsstring) :
  alias_name n = true -> nleq P Q -> hfree n P [] -> hfree n Q [].
Proof.
  intros Hn HPQ HP. apply search_hfree; [|reflexivity].
  destruct (test (headerPattern n) Q) eqn:E; [|reflexivity].
  pose proof (search_nleq (headerPattern n) n Q P eq_refl Hn
                (nleq_sym _ _ HPQ) None E) as E'.
  pose proof (hfree_test n P HP) as E0. unfold test in E0. congruence.
Qed.

(** *** Quiet text *)

(** No parenthesis of [X] opens a header tail, whatever follows [X]. *)
Definition quiet (X : jsstring) : Prop :=
  forall a u V, X = a ++ lparen :: u -> tail_scan (lparen :: u ++ V) = None.

Lemma quiet_app (X Y : jsstring) : quiet X -> quiet Y -> quiet (X ++ Y).
Proof.
  intros HX HY a u V E. apply app_eq_app in E.
  destruct E as [l [[-> E]|[-> E]]].
  - destruct l as [|c l].
    + simpl in E. subst Y. now apply (HY [] u V).
    + injection E as <- ->. rewrite <- app_assoc. now apply (HX a l (Y ++ V)).
  - apply (HY l u V). exact E.
Qed.

Lemma quiet_nil : quiet [].
Proof. intros a u V E. now destruct a. Qed.

Definition no_lparen (X : jsstring) : bool :=
  forallb (fun c => negb (c =? lparen)) X.

Lemma quiet_no_lparen (X : jsstring) : no_lparen X = true -> quiet X.
Proof.
  intros H a u V ->. unfold no_lparen in H.
  rewrite forallb_app in H. apply andb_true_iff in H. destruct H as [_ H].
  simpl in H. discriminate.
Qed.

Lemma name_no_lparen (n : jsstring) :
  forallb name_char n = true -> no_lparen n = true.
Proof.
  unfold no_lparen. induction n as [|c n IH]; [reflexivity|]. simpl.
  intros H. apply andb_true_iff in H. destruct H as [Hc Hn].
  now rewrite (name_char_lparen c Hc), IH.
Qed.

Lemma name_char_rparen (c : cu) : name_char c = true -> (c =? rparen) = false.
Proof.
  unfold name_char, syntax_char. intros H.
  apply andb_true_iff in H. destruct H as [H _].
  apply andb_true_iff in H. destruct H as [_ H].
  apply negb_true_iff in H. simpl in H.
  repeat (apply orb_false_iff in H; destruct H as [? H]). assumption.
Qed.

(** *** Regions *)

(** After white space, [V] does not go on with a parenthesis. *)
Definition no_open (V : jsstring) : bool :=
  match skip Space V with
  | c :: _ => negb (c =? lparen)
  | [] => true
  end.

(** A quiet region that ends with a newline holds no header of any name,
    when the text after it does not open a parameter list. *)
Lemma hfree_region (n R V : jsstring) :
  alias_name n = true -> quiet R ->
  List.last R nl = nl -> no_open V = true ->
  hfree n R V.
Proof.
  intros Hn HQ HR HV a b Hab Hb.
  destruct (hscan n (b ++ V)) as [z|] eqn:E; [exfalso|reflexivity].
  unfold hscan in E.
  destruct (strip n (b ++ V)) as [t|] eqn:Et; [|discriminate].
  destruct (strip_split n b V t Et) as [[b1 [-> ->]]|[n2 [Hn2 [Hnb E2]]]].
  - destruct (tail_scan_lparen _ _ E) as [w [u [Hs [Hw Hu]]]].
    apply app_eq_app in Hs. destruct Hs as [l [[-> Hl]|[-> Hl]]].
    + destruct l as [|c l].
      * simpl in Hl. subst V. unfold no_open in HV. simpl in HV.
        discriminate.
      * injection Hl as <- ->.
        rewrite (HQ (a ++ n ++ w) l V) in Hu; [discriminate|].
        rewrite Hab, <- !app_assoc. reflexivity.
    + subst V. unfold no_open in HV.
      rewrite forallb_app in Hw. apply andb_true_iff in Hw. destruct Hw as [_ Hw].
      assert (Hs : skip Space (l ++ lparen :: u) = lparen :: u).
      { clear - Hw. induction l as [|c l IH]; [reflexivity|]. simpl in *.
        apply andb_true_iff in Hw. destruct Hw as [-> Hw]. now apply IH. }
      rewrite Hs in HV. discriminate.
  - subst R. rewrite (last_suffix a b nl Hb) in HR.
    assert (Hc : forallb name_char b = true).
    { pose proof (alias_name_chars n Hn) as H. rewrite Hnb, forallb_app in H.
      now apply andb_true_iff in H. }
    pose proof (forallb_last name_char b nl Hc Hb) as H. rewrite HR in H.
    discriminate.
Qed.

Lemma no_open_name (n rest : jsstring) :
  alias_name n = true -> no_open (n ++ rest) = true.
Proof.
  intros Hn. destruct (alias_name_inv n Hn) as [c [t [-> [Hc _]]]].
  unfold no_open. cbn [app skip in_class]. rewrite (name_char_space c Hc).
  now rewrite (name_char_lparen c Hc).
Qed.

Lemma blocking_name (n rest : jsstring) :
  alias_name n = true -> blocking (nl :: n ++ rest) = true.
Proof.
  intros Hn. destruct (alias_name_inv n Hn) as [c [t [-> [Hc _]]]].
  unfold blocking. cbn [app skip in_class negb andb].
  change (isSpace nl) with true. cbv iota. cbn [skip in_class].
  rewrite (name_char_space c Hc), (name_char_lparen c Hc), (name_char_rparen c Hc).
  apply andb_true_iff in Hc. destruct Hc as [Hc _].
  apply andb_true_iff in Hc. destruct Hc as [_ Hc].
  apply negb_true_iff in Hc. simpl in Hc.
  repeat (apply orb_false_iff in Hc; destruct Hc as [? Hc]).
  replace (c =? lbrace) with false by (symmetry; assumption). reflexivity.
Qed.

Lemma hfree_char (n : jsstring) (c : cu) (V : jsstring) :
  alias_name n = true -> name_char c = false -> hfree n [c] V.
Proof.
  intros Hn Hc a b Hab Hb.
  destruct a as [|x a].
  - simpl in Hab. subst b. cbn [app]. unfold hscan.
    destruct (alias_name_inv n Hn) as [d [t [-> [Hd _]]]].
    cbn [strip expect]. destruct (N.eqb_spec c d) as [->|]; [congruence | reflexivity].
  - injection Hab as _ Hab. destruct a, b; try discriminate. congruence.
Qed.

(** The name of another block is no header of [n] unless it ends with
    [n]. *)
Lemma hfree_name (n m rest : jsstring) :
  alias_name n = true -> forallb name_char m = true ->
  (forall x, m <> x ++ n) ->
  hfree n m (lparen :: rest).
Proof.
  intros Hn Hm Hsuf a b Hab Hb.
  destruct (hscan n (b ++ lparen :: rest)) as [z|] eqn:E; [exfalso|reflexivity].
  unfold hscan in E.
  destruct (strip n (b ++ lparen :: rest)) as [t|] eqn:Et; [|discriminate].
  assert (Hbc : forallb name_char b = true).
  { rewrite Hab, forallb_app in Hm. now apply andb_true_iff in Hm. }
  destruct (strip_split n b _ t Et) as [[b1 [-> ->]]|[n2 [Hn2 [Hnb E2]]]].
  - destruct b1 as [|c b1].
    + apply (Hsuf a). now rewrite app_nil_r in Hab.
    + rewrite forallb_app in Hbc. apply andb_true_iff in Hbc. destruct Hbc as [_ Hc].
      simpl in Hc. apply andb_true_iff in Hc. destruct Hc as [Hc _].
      unfold tail_scan in E. cbn [app skip in_class] in E.
      rewrite (name_char_space c Hc) in E. cbn [expect] in E.
      now rewrite (name_char_lparen c Hc) in E.
  - destruct n2 as [|c n2]; [congruence|].
    cbn [strip expect] in E2.
    destruct (N.eqb_spec lparen c) as [<-|]; [|discriminate].
    pose proof (alias_name_chars n Hn) as H. rewrite Hnb, forallb_app in H.
    apply andb_true_iff in H. destruct H as [_ H]. simpl in H. discriminate.
Qed.

Lemma hscan_site (n hb V : jsstring) :
  alias_name n = true -> tail_scan hb = Some [] ->
  hscan n (n ++ hb ++ V) = Some V.
Proof.
  intros Hn Hhb. unfold hscan. rewrite strip_self.
  now rewrite (tail_scan_app hb V [] Hhb).
Qed.


(** A quiet region, the name of another function, and what follows its
    parenthesis. *)
Lemma hfree_site (n R m T V : jsstring) :
  alias_name n = true -> quiet R -> List.last R nl = nl ->
  alias_name m = true -> (forall x, m <> x ++ n) ->
  hfree n T V ->
  hfree n (R ++ m ++ lparen :: T) V.
Proof.
  intros Hn HR Hl Hm Hmn HT.
  apply hfree_app.
  - apply hfree_region; try assumption. rewrite <- app_assoc. now apply no_open_name.
  - apply hfree_app.
    + apply (hfree_name n m); [assumption | now apply alias_name_chars | assumption].
    + change (lparen :: T) with ([lparen] ++ T). apply hfree_app; [|assumption].
      now apply hfree_char.
Qed.

(** The rest of the name of a function, after its first character. *)
Lemma hfree_own_name (n : jsstring) (c : cu) (t T V : jsstring) :
  alias_name n = true -> n = c :: t ->
  hfree n T V -> hfree n (t ++ lparen :: T) V.
Proof.
  intros Hn En HT. apply hfree_app.
  - apply (hfree_name n t).
    + assumption.
    + pose proof (alias_name_chars n Hn) as H. rewrite En in H. simpl in H.
      now apply andb_true_iff in H.
    + intros x E. apply (f_equal (@length N)) in E. rewrite length_app, En in E.
      simpl in E. lia.
  - change (lparen :: T) with ([lparen] ++ T). apply hfree_app; [|assumption].
    now apply hfree_char.
Qed.

End Headers.

(* ===================================================================== *)
(** * Removal of one function block *)
(* ===================================================================== *)

Section Removal.
Import Installer.

(** A function block as the installer writes it: the name, the header,
    the body, and a closing brace on a line of its own. *)
Definition function_block (name hb inner : jsstring) : jsstring :=
  name ++ hb ++ inner ++ [nl; rbrace; nl].

Lemma hfree_suffix (n a b V : jsstring) : hfree n (a ++ b) V -> hfree n b V.
Proof.
  intros H x y Hxy Hy. apply (H (a ++ x) y); [|exact Hy].
  now rewrite Hxy, app_assoc.
Qed.

Lemma hfree_cons (n : jsstring) (c : cu) (U V : jsstring) :
  hscan n (c :: U ++ V) = None -> hfree n U V -> hfree n (c :: U) V.
Proof.
  intros Hc HU a b Hab Hb. destruct a as [|x a].
  - simpl in Hab. subst b. exact Hc.
  - injection Hab as _ Hab. now apply (HU a b).
Qed.

Lemma count_header (n : jsstring) (prev : option cu) (s : jsstring) :
  count_from (headerPattern n) prev s
  = ((match hscan n s with Some _ => 1 | None => 0 end)
     + match s with
       | [] => 0
       | c :: t => count_from (headerPattern n) (Some c) t
       end)%nat.
Proof.
  destruct s as [|c t]; cbn [count_from];
    now rewrite (match_at_header _ n) by reflexivity.
Qed.

Lemma count_zero_hfree (n : jsstring) (prev : option cu) (s : jsstring) :
  count_from (headerPattern n) prev s = 0%nat -> hfree n s [].
Proof.
  revert prev. induction s as [|c t IH]; intros prev H; [apply hfree_nil|].
  rewrite count_header in H.
  destruct (hscan n (c :: t)) eqn:E; [discriminate|].
  apply hfree_cons; [now rewrite app_nil_r | now apply (IH (Some c))].
Qed.

Lemma count_site_pos (n a b z : jsstring) (prev : option cu) :
  hscan n b = Some z -> (1 <= count_from (headerPattern n) prev (a ++ b))%nat.
Proof.
  intros Hb. revert prev. induction a as [|x a IH]; intros prev.
  - rewrite count_header. cbn [app]. rewrite Hb. lia.
  - rewrite count_header. cbn [app]. specialize (IH (Some x)). lia.
Qed.

(** When the header occurs once and the place is known, it occurs nowhere
    before and nowhere after. *)
Lemma count_one_site (n a c t z : jsstring) (x : cu) (prev : option cu) :
  c = x :: t -> hscan n c = Some z ->
  count_from (headerPattern n) prev (a ++ c) = 1%nat ->
  hfree n a c /\ hfree n t [].
Proof.
  intros -> Hz. revert prev. induction a as [|y a IH]; intros prev H.
  - split; [apply hfree_nil|]. rewrite count_header in H. cbn [app] in H.
    rewrite Hz in H. apply (count_zero_hfree n (Some x)). lia.
  - rewrite count_header in H. cbn [app] in H.
    pose proof (count_site_pos n a (x :: t) z (Some y) Hz) as Hp.
    destruct (hscan n (y :: a ++ x :: t)) eqn:E; [lia|].
    destruct (IH (Some y)) as [H1 H2]; [lia|].
    split; [now apply hfree_cons | exact H2].
Qed.

(** *** The end of the block *)

Lemma block_end_first (inner post : jsstring) :
  includes inner [nl; rbrace] = false ->
  mtch block_end (inner ++ nl :: rbrace :: nl :: post) = Some post.
Proof.
  unfold block_end. cbn [mtch]. induction inner as [|c t IH]; intros H.
  - cbn [app lazy_star chr]. rewrite !N.eqb_refl. cbn [opt].
    now rewrite N.eqb_refl.
  - cbn [includes] in H. apply orb_false_iff in H. destruct H as [Hc Ht].
    cbn [app lazy_star in_class].
    assert (E : chr nl (chr rbrace (opt nl (fun s => Some s)))
                  (c :: t ++ nl :: rbrace :: nl :: post) = None).
    { cbn [chr]. destruct (N.eqb_spec c nl) as [->|]; [|reflexivity].
      destruct t as [|d u]; [reflexivity|]. cbn [app chr].
      cbn [starts_with] in Hc. rewrite N.eqb_refl in Hc. cbn [andb] in Hc.
      rewrite andb_true_r in Hc. rewrite N.eqb_sym in Hc. now rewrite Hc. }
    rewrite E. now apply IH.
Qed.

Lemma simple_at_block (name hb inner post : jsstring) (prev : option cu) :
  alias_name name = true -> tail_scan hb = Some [] ->
  includes inner [nl; rbrace] = false ->
  match_at (simplePattern name) prev (function_block name hb inner ++ post)
  = Some post.
Proof.
  intros Hn Hhb Hbody. unfold match_at, simplePattern, function_block.
  cbn [anchored body andb]. rewrite mtch_header.
  rewrite <- !app_assoc. rewrite (hscan_site name hb _ Hn Hhb).
  now apply block_end_first.
Qed.

Lemma simple_nil (name : jsstring) (prev : option cu) :
  match_at (simplePattern name) prev [] = None.
Proof.
  unfold match_at, simplePattern. cbn [anchored body andb].
  now rewrite mtch_header, hscan_nil.
Qed.

(** The second replacement removes the block and nothing else when no
    other header of the name is in the text. *)
Lemma replace_simple_block (name hb inner pre post : jsstring) (prev : option cu) :
  alias_name name = true -> tail_scan hb = Some [] ->
  includes inner [nl; rbrace] = false ->
  hfree name pre (function_block name hb inner ++ post) ->
  hfree name post [] ->
  replace_from (simplePattern name) [] O prev
    (pre ++ function_block name hb inner ++ post)
  = pre ++ post.
Proof.
  intros Hn Hhb Hbody Hpre Hpost.
  rewrite replace_skip by now apply simple_NoMatch.
  rewrite replace_match.
  - cbn [app]. f_equal.
    rewrite <- (app_nil_r post) at 1.
    rewrite replace_skip by now apply simple_NoMatch.
    rewrite replace_nil by apply simple_nil. apply app_nil_r.
  - unfold function_block. destruct (alias_name_inv name Hn) as [c [t [-> _]]].
    discriminate.
  - now apply simple_at_block.
Qed.

(** *** Blank lines around a block that stays *)

Lemma squeeze_nl_head (k : nat) (s : jsstring) :
  exists s', squeeze (S k) s = nl :: s' /\ nleq (repeat nl k ++ s) s'.
Proof.
  revert k. induction s as [|c t IH]; intros k.
  - cbn [squeeze]. unfold flush. destruct (3 <=? S k)%nat eqn:E.
    + exists [nl]. split; [reflexivity|]. rewrite app_nil_r.
      apply Nat.leb_le in E. destruct k as [|[|k]]; [lia | lia |].
      clear E. induction k as [|k IHk].
      * cbn. apply nleq_dropl, nleq_refl.
      * cbn [repeat] in *. now apply nleq_dropl.
    + exists (repeat nl k). split; [reflexivity|]. rewrite app_nil_r. apply nleq_refl.
  - cbn [squeeze]. destruct (c =? nl) eqn:E.
    + apply N.eqb_eq in E. subst c. destruct (IH (S k)) as [s' [-> Hs]].
      exists s'. split; [reflexivity|]. now rewrite repeat_snoc.
    + pose proof (nleq_squeeze (c :: t) (S k)) as Hs. cbn [squeeze] in Hs.
      rewrite E in Hs.
      unfold flush in *. destruct (3 <=? S k)%nat eqn:E3.
      * exists (nl :: c :: squeeze 0 t). split; [reflexivity|].
        apply Nat.leb_le in E3. destruct k as [|[|k]]; [lia | lia |].
        clear E3 Hs. induction k as [|k IHk].
        -- cbn. apply nleq_dropl, nleq_keep, nleq_keep, (nleq_squeeze t 0).
        -- cbn [repeat app] in *. now apply nleq_dropl.
      * exists (repeat nl k ++ c :: squeeze 0 t). split; [reflexivity|].
        apply nleq_app; [apply nleq_refl|]. apply nleq_keep, (nleq_squeeze t 0).
Qed.

(** A block without three newlines in a row comes through the last
    replacement unchanged, whatever is around it. *)
Lemma collapse_keeps_block (a c : jsstring) (m hb inner : jsstring) :
  alias_name m = true ->
  calm 0 (function_block m hb inner) = true ->
  exists a' c',
    collapse (a ++ function_block m hb inner ++ c)
    = a' ++ function_block m hb inner ++ c'
    /\ nleq a a' /\ nleq c c'.
Proof.
  intros Hm Hcalm. destruct (alias_name_inv m Hm) as [x [t [-> [Hx _]]]].
  pose proof (name_char_nl x Hx) as Hnl.
  unfold function_block in *.
  set (B := t ++ hb ++ inner ++ [nl]).
  assert (EB : (x :: t) ++ hb ++ inner ++ [nl; rbrace; nl] = x :: B ++ [rbrace; nl]).
  { unfold B. cbn [app]. now rewrite <- !app_assoc. }
  rewrite EB in *. clear EB.
  assert (HB : calm 0 B = true /\ True).
  { split; [|exact I]. cbn [calm] in Hcalm. rewrite Hnl in Hcalm.
    clear - Hcalm. revert Hcalm. generalize 0%nat at 1 2.
    induction B as [|y B IH]; intros k H; [reflexivity|].
    cbn [app calm] in *. destruct (y =? nl).
    - apply andb_true_iff in H. destruct H as [-> H]. now apply IH.
    - now apply IH. }
  destruct HB as [HB _].
  cbn [app]. rewrite <- app_assoc. cbn [app].
  rewrite (collapse_split a _ x Hnl).
  rewrite (collapse_squeeze (B ++ _)).
  rewrite (squeeze_split B (nl :: c) rbrace 0 eq_refl).
  rewrite (squeeze_calm B 0 eq_refl HB). cbn [repeat app squeeze].
  change (nl =? nl) with true. cbv iota.
  destruct (squeeze_nl_head 0 c) as [c' [-> Hc]].
  exists (collapse a), c'. split; [|split].
  - cbn [app]. rewrite <- app_assoc. reflexivity.
  - apply nleq_collapse.
  - exact Hc.
Qed.

(** *** The claim *)

Definition with_profile (content : jsstring) : fs_state :=
  {| files := {[ lit "/home/u/.zshrc" := content ]};
     denied := fun _ => false |}.

(** Two blocks, the name of the first ending with the name of the
    second. *)
Definition mygp_gp : jsstring := lit "mygp() {
  echo a
}
gp() {
  echo b
}
".

(** Two blank lines between a block and a line of the user, far from the
    block that is removed. *)
Definition foo_gp : jsstring := lit "foo() {
  echo a
}


x=1
gp() {
  echo b
}
".


(** A profile with a comment, the block of [foo], a blank line and the
    block of [bar]. *)
Definition foo_bar_pre : jsstring := lit "# my functions
".

Definition foo_bar_post : jsstring := lit "
bar() {
  echo b
}
".

End Removal.

(* ===================================================================== *)
(** * The pattern with the comment line *)
(* ===================================================================== *)

Section CommentPattern.
Import Installer.

Lemma star_sound (cl : cclass) (k : cont) (s z : jsstring) :
  star cl k s = Some z ->
  exists w r, s = w ++ r /\ forallb (in_class cl) w = true /\ k r = Some z.
Proof.
  induction s as [|c t IH]; simpl; intros H.
  - now exists [], [].
  - destruct (in_class cl c) eqn:E; [|now exists [], (c :: t)].
    destruct (star cl k t) as [z'|] eqn:Es; [|now exists [], (c :: t)].
    injection H as ->. destruct (IH eq_refl) as [w [r [-> [Hw Hk]]]].
    exists (c :: w), r. simpl. now rewrite E.
Qed.

Lemma star_complete (cl : cclass) (k : cont) (w r : jsstring) :
  forallb (in_class cl) w = true -> k r <> None -> star cl k (w ++ r) <> None.
Proof.
  intros Hw Hk. induction w as [|c w IH]; cbn [app].
  - destruct r as [|c t]; simpl; [assumption|].
    destruct (in_class cl c); [|assumption].
    now destruct (star cl k t).
  - simpl in Hw. apply andb_true_iff in Hw. destruct Hw as [Hc Hw].
    simpl. rewrite Hc. specialize (IH Hw).
    now destruct (star cl k (w ++ r)).
Qed.

Lemma strip_sound (n s t : jsstring) : strip n s = Some t -> s = n ++ t.
Proof.
  revert s. induction n as [|c n IH]; intros s H.
  - simpl in H. now injection H as ->.
  - destruct s as [|x s]; [discriminate|]. cbn [strip expect] in H.
    destruct (N.eqb_spec x c) as [->|]; [|discriminate].
    cbn [app]. f_equal. now apply IH.
Qed.

Lemma starts_with_app (p x : jsstring) : starts_with p (p ++ x) = true.
Proof. induction p as [|c p IH]; [reflexivity|]. simpl. now rewrite N.eqb_refl. Qed.

Lemma starts_with_inv (p s : jsstring) :
  starts_with p s = true -> exists x, s = p ++ x.
Proof.
  revert s. induction p as [|c p IH]; intros s H; [now exists s|].
  destruct s as [|d s]; [discriminate|]. simpl in H.
  apply andb_true_iff in H. destruct H as [Hc H].
  apply N.eqb_eq in Hc. subst d. destruct (IH s H) as [x ->]. now exists x.
Qed.

Lemma includes_head (s p : jsstring) : starts_with p s = true -> includes s p = true.
Proof. intros H. destruct s; simpl; now rewrite H. Qed.

Lemma includes_suffix (a t p : jsstring) :
  includes t p = true -> includes (a ++ t) p = true.
Proof.
  intros H. induction a as [|c a IH]; [exact H|].
  cbn [app includes]. rewrite IH. apply orb_true_r.
Qed.

Lemma includes_mid (w n w2 : jsstring) : includes (w ++ n ++ w2) n = true.
Proof. apply includes_suffix, includes_head, starts_with_app. Qed.

Lemma includes_inv (l n : jsstring) :
  includes l n = true -> exists w w2, l = w ++ n ++ w2.
Proof.
  induction l as [|c t IH]; cbn [includes]; intros H.
  - rewrite orb_false_r in H. destruct (starts_with_inv _ _ H) as [x E].
    now exists [], x.
  - apply orb_true_iff in H. destruct H as [H|H].
    + destruct (starts_with_inv _ _ H) as [x E]. now exists [], x.
    + destruct (IH H) as [w [w2 ->]]. now exists (c :: w), w2.
Qed.

Lemma name_not_nl (n : jsstring) :
  forallb name_char n = true -> forallb (in_class NotNL) n = true.
Proof.
  induction n as [|c n IH]; [reflexivity|]. simpl. intros H.
  apply andb_true_iff in H. destruct H as [Hc Hn].
  pose proof (name_char_nl c Hc) as E. unfold nl in E. now rewrite E, IH.
Qed.

(** The first newline of a text is where it is. *)
Lemma first_nl_unique (l l' r r' : jsstring) :
  forallb (in_class NotNL) l = true -> forallb (in_class NotNL) l' = true ->
  l ++ nl :: r = l' ++ nl :: r' -> l = l' /\ r = r'.
Proof.
  revert l'. induction l as [|c l IH]; intros [|c' l'] Hl Hl' E.
  - now injection E as ->.
  - injection E as <- _. simpl in Hl'. discriminate Hl'.
  - injection E as -> _. unfold nl in Hl. simpl in Hl. discriminate Hl.
  - injection E as <- E. simpl in Hl, Hl'.
    apply andb_true_iff in Hl, Hl'. destruct Hl as [_ Hl], Hl' as [_ Hl'].
    destruct (IH l' Hl Hl' E) as [-> ->]. now split.
Qed.

(** What a match of [functionPattern] looks like: a comment that names the
    alias, on one line, and the block on the next line. *)
Lemma fp_inv (n s z : jsstring) (prev : option cu) :
  alias_name n = true ->
  match_at (functionPattern n) prev s = Some z ->
  exists l r,
    s = hash :: space :: l ++ nl :: r
    /\ forallb (in_class NotNL) l = true
    /\ includes l n = true
    /\ mtch (header n ++ block_end) r = Some z.
Proof.
  intros Hn H. unfold match_at, functionPattern in H.
  cbn [anchored body andb app mtch exactly] in H.
  destruct s as [|c0 s]; [discriminate|]. cbn [chr] in H.
  destruct (N.eqb_spec c0 hash) as [->|]; [|discriminate].
  destruct s as [|c1 s]; [discriminate|]. cbn [chr] in H.
  destruct (N.eqb_spec c1 space) as [->|]; [|discriminate].
  apply star_sound in H. destruct H as [w [r1 [-> [Hw H]]]].
  rewrite mtch_str in H.
  destruct (strip n r1) as [t|] eqn:Et; [|discriminate].
  apply strip_sound in Et. subst r1.
  cbn [app mtch exactly] in H.
  apply star_sound in H. destruct H as [w2 [r2 [-> [Hw2 H]]]].
  destruct r2 as [|c2 r]; [discriminate|]. cbn [chr] in H.
  destruct (N.eqb_spec c2 nl) as [->|]; [|discriminate].
  exists (w ++ n ++ w2), r. repeat split.
  - now rewrite <- !app_assoc.
  - rewrite !forallb_app, Hw, Hw2, name_not_nl; [reflexivity|].
    now apply alias_name_chars.
  - apply includes_mid.
  - exact H.
Qed.

Lemma fp_at_comment (n cl S z : jsstring) (prev : option cu) :
  alias_name n = true ->
  forallb (in_class NotNL) cl = true -> includes cl n = true ->
  mtch (header n ++ block_end) S = Some z ->
  match_at (functionPattern n) prev (hash :: space :: cl ++ nl :: S) = Some z.
Proof.
  intros Hn Hcl Hin HS.
  destruct (match_at (functionPattern n) prev (hash :: space :: cl ++ nl :: S))
    as [z'|] eqn:E.
  - destruct (fp_inv n _ z' prev Hn E) as [l [r [Es [Hl [_ Hr]]]]].
    injection Es as Es.
    destruct (first_nl_unique cl l S r Hcl Hl Es) as [-> ->]. congruence.
  - exfalso. revert E. unfold match_at, functionPattern.
    cbn [anchored body andb app mtch exactly chr].
    rewrite !N.eqb_refl.
    destruct (includes_inv cl n Hin) as [w [w2 Ecl]]. subst cl.
    rewrite !forallb_app in Hcl.
    apply andb_true_iff in Hcl. destruct Hcl as [Hw Hcl].
    apply andb_true_iff in Hcl. destruct Hcl as [_ Hw2].
    rewrite <- !app_assoc. apply star_complete; [exact Hw|].
    rewrite mtch_str, strip_self. cbn [app mtch exactly].
    apply star_complete; [exact Hw2|].
    cbn [chr]. rewrite N.eqb_refl. congruence.
Qed.

Lemma block_rest_nonempty (n r z : jsstring) :
  mtch (header n ++ block_end) r = Some z -> hscan n r <> None /\ r <> [].
Proof.
  rewrite mtch_header. intros H.
  destruct (hscan n r) eqn:E; [|discriminate]. split; [discriminate|].
  intros ->. now rewrite hscan_nil in E.
Qed.

(** No comment match starts in a text that holds no header after its
    first character. *)
Lemma fp_NoMatch_tail (n : jsstring) (c : cu) (S : jsstring) :
  alias_name n = true -> hfree n S [] -> NoMatch (functionPattern n) (c :: S) [].
Proof.
  intros Hn HS a b prev Hab Hb. rewrite app_nil_r.
  destruct (match_at (functionPattern n) prev b) as [z|] eqn:E; [exfalso|reflexivity].
  destruct (fp_inv n b z prev Hn E) as [l [r [-> [_ [_ Hr]]]]].
  destruct (block_rest_nonempty n r z Hr) as [Hh Hne].
  destruct a as [|x a].
  - injection Hab as _ ->.
    apply Hh. rewrite <- (app_nil_r r).
    apply (HS (space :: l ++ [nl]) r); [|assumption].
    cbn [app]. now rewrite <- app_assoc.
  - injection Hab as _ ->.
    apply Hh. rewrite <- (app_nil_r r).
    apply (HS (a ++ hash :: space :: l ++ [nl]) r); [|assumption].
    rewrite <- !app_assoc. cbn [app]. now rewrite <- app_assoc.
Qed.

Lemma fp_NoMatch_hfree (n X : jsstring) :
  alias_name n = true -> hfree n X [] -> NoMatch (functionPattern n) X [].
Proof.
  intros Hn HX. destruct X as [|c S].
  - intros a b prev Hab Hb. destruct a, b; try discriminate. congruence.
  - apply fp_NoMatch_tail; [assumption|]. now apply (hfree_suffix n [c]).
Qed.

(** Where the text before ends a line and no header follows it, no comment
    match starts in it. *)
Lemma fp_NoMatch_line (n X V : jsstring) :
  alias_name n = true -> hfree n X V -> List.last X nl = nl ->
  hscan n V = None -> NoMatch (functionPattern n) X V.
Proof.
  intros Hn HX Hl HV a b prev Hab Hb.
  destruct (match_at (functionPattern n) prev (b ++ V)) as [z|] eqn:E;
    [exfalso|reflexivity].
  destruct (fp_inv n _ z prev Hn E) as [l [r [Es [Hnl [_ Hr]]]]].
  destruct (block_rest_nonempty n r z Hr) as [Hh Hne].
  change (hash :: space :: l ++ nl :: r)
    with ((hash :: space :: l) ++ nl :: r) in Es.
  assert (Hq : forallb (in_class NotNL) (hash :: space :: l) = true)
    by (simpl; exact Hnl).
  revert Es Hq. generalize (hash :: space :: l). intros q Es Hq.
  assert (Hbl : List.last b nl = nl).
  { rewrite <- (last_suffix a b nl Hb), <- Hab. exact Hl. }
  destruct (@exists_last _ b Hb) as [b' [x Eb]]. subst b.
  rewrite last_last in Hbl. subst x.
  rewrite <- app_assoc in Es. cbn [app] in Es.
  (* the first newline of [q ++ nl :: r] is the one after [q] *)
  assert (Hsplit : exists b1 b2, b' = b1 ++ b2 /\
             (b2 = [] /\ r = V \/ exists b3, r = b3 ++ V /\ b3 <> []
                                          /\ b' ++ [nl] = b1 ++ b3)).
  { clear - Es Hq. revert q Es Hq. induction b' as [|y b' IH]; intros q Es Hq.
    - exists [], []. split; [reflexivity|]. left. split; [reflexivity|].
      destruct q as [|c q].
      + now injection Es as ->.
      + injection Es as <- _. discriminate Hq.
    - destruct q as [|c q].
      + injection Es as -> Es. exists [nl], b'. split; [reflexivity|].
        right. exists (b' ++ [nl]). split; [|split].
        * now rewrite <- app_assoc.
        * now destruct b'.
        * reflexivity.
      + injection Es as <- Es. simpl in Hq.
        apply andb_true_iff in Hq. destruct Hq as [_ Hq].
        destruct (IH q Es Hq) as [b1 [b2 [-> H]]].
        exists (y :: b1), b2. split; [reflexivity|].
        destruct H as [H|[b3 [H1 [H2 H3]]]]; [now left|].
        right. exists b3. repeat split; try assumption.
        cbn [app]. now rewrite H3. }
  destruct Hsplit as [b1 [b2 [-> [[-> ->]|[b3 [-> [Hb3 E3]]]]]]].
  - now apply Hh.
  - apply Hh. apply (HX (a ++ b1) b3); [|assumption].
    rewrite Hab, E3. now rewrite app_assoc.
Qed.

Lemma fp_nil (n : jsstring) (prev : option cu) :
  match_at (functionPattern n) prev [] = None.
Proof. reflexivity. Qed.

Lemma replace_none (re : regex) (by_ W : jsstring) (prev : option cu) :
  NoMatch re W [] -> (forall p, match_at re p [] = None) ->
  replace_from re by_ O prev W = W.
Proof.
  intros H Hnil. rewrite <- (app_nil_r W) at 1.
  rewrite replace_skip by assumption.
  rewrite replace_nil by apply Hnil. apply app_nil_r.
Qed.

Lemma hfree_prefix (n a b V : jsstring) : hfree n (a ++ b) V -> hfree n a (b ++ V).
Proof.
  intros H x y Hxy Hy. rewrite app_assoc. apply (H x (y ++ b)).
  - now rewrite Hxy, app_assoc.
  - destruct y; [congruence | discriminate].
Qed.

(** The comment line does not name the alias: no comment match starts in
    it. *)
Lemma fp_NoMatch_comment (n cl S : jsstring) :
  alias_name n = true -> forallb (in_class NotNL) cl = true ->
  includes cl n = false ->
  NoMatch (functionPattern n) (hash :: space :: cl ++ [nl]) S.
Proof.
  intros Hn Hcl Hin a b prev Hab Hb.
  destruct (match_at (functionPattern n) prev (b ++ S)) as [z|] eqn:E;
    [exfalso|reflexivity].
  destruct (fp_inv n _ z prev Hn E) as [l [r [Es [Hnl [Hl Hr]]]]].
  destruct (@exists_last _ b Hb) as [b' [x Eb]]. subst b.
  change (hash :: space :: cl ++ [nl]) with ((hash :: space :: cl) ++ [nl]) in Hab.
  rewrite app_assoc in Hab. apply app_inj_tail in Hab. destruct Hab as [Hab <-].
  rewrite <- app_assoc in Es. cbn [app] in Es.
  change (hash :: space :: l ++ nl :: r) with ((hash :: space :: l) ++ nl :: r) in Es.
  assert (Hb' : forallb (in_class NotNL) b' = true).
  { assert (H : forallb (in_class NotNL) (hash :: space :: cl) = true)
      by (simpl; exact Hcl).
    rewrite Hab, forallb_app in H. now apply andb_true_iff in H. }
  destruct (first_nl_unique b' (hash :: space :: l) S r Hb') as [-> _];
    [simpl; exact Hnl | exact Es |].
  assert (includes cl n = true); [|congruence].
  destruct a as [|x0 a].
  - injection Hab as <-. exact Hl.
  - injection Hab as _ Hab. destruct a as [|x1 a].
    + injection Hab as Hx _. discriminate Hx.
    + injection Hab as _ ->. apply includes_suffix.
      apply (includes_suffix [hash; space]). exact Hl.
Qed.

(** The two replacements on a text that holds the block of [n] once, a
    one-line comment before it. *)
Lemma replace_commented_block (n PN cl hb inner Z : jsstring) :
  alias_name n = true -> tail_scan hb = Some [] ->
  includes inner [nl; rbrace] = false ->
  List.last PN nl = nl -> forallb (in_class NotNL) cl = true ->
  hfree n (PN ++ hash :: space :: cl ++ [nl]) (function_block n hb inner ++ Z) ->
  hfree n (List.tl (function_block n hb inner ++ Z)) [] ->
  hfree n (PN ++ (if includes cl n then [] else hash :: space :: cl ++ [nl])) Z ->
  replace (simplePattern n) []
    (replace (functionPattern n) []
       (PN ++ (hash :: space :: cl ++ [nl]) ++ function_block n hb inner ++ Z))
  = PN ++ (if includes cl n then [] else hash :: space :: cl ++ [nl]) ++ Z.
Proof.
  intros Hn Hhb Hin Hl Hcl Hpre Htl Hres.
  set (Cm := hash :: space :: cl ++ [nl]) in *.
  set (FB := function_block n hb inner) in *.
  assert (HZ : hfree n Z []).
  { assert (Etl : List.tl (FB ++ Z)
                   = (List.tl n ++ hb ++ inner ++ [nl; rbrace; nl]) ++ Z).
    { unfold FB, function_block. destruct n; [discriminate Hn | reflexivity]. }
    rewrite Etl in Htl. now apply hfree_suffix in Htl. }
  assert (Hsite : forall p, match_at (simplePattern n) p (FB ++ Z) = Some Z).
  { intros p. now apply simple_at_block. }
  assert (HPN : NoMatch (functionPattern n) PN (Cm ++ FB ++ Z)).
  { apply fp_NoMatch_line; try assumption.
    - now apply hfree_prefix.
    - apply (Hpre PN Cm eq_refl). discriminate. }
  destruct (includes cl n) eqn:Ei.
  - unfold replace at 2. rewrite replace_skip by exact HPN.
    rewrite app_assoc. rewrite replace_match.
    + cbn [app]. rewrite (replace_none _ _ Z);
        [|now apply fp_NoMatch_hfree | apply fp_nil].
      unfold replace. apply replace_none; [|apply simple_nil].
      apply simple_NoMatch. apply hfree_app; [|exact HZ].
      rewrite app_nil_r in Hres. rewrite app_nil_r. exact Hres.
    + discriminate.
    + rewrite <- app_assoc. unfold Cm. cbn [app]. rewrite <- app_assoc. cbn [app].
      apply fp_at_comment; try assumption.
      specialize (Hsite None). unfold match_at, simplePattern in Hsite.
      exact Hsite.
  - unfold replace at 2. rewrite replace_none; [| |apply fp_nil].
    + rewrite app_assoc. unfold replace, FB.
      rewrite replace_simple_block; try assumption.
      now rewrite <- app_assoc.
    + apply NoMatch_app; [now rewrite app_nil_r|].
      apply NoMatch_app.
      * rewrite app_nil_r. now apply fp_NoMatch_comment.
      * destruct (FB ++ Z) as [|c S] eqn:ES.
        -- intros a b prev Hab Hb. destruct a, b; try discriminate. congruence.
        -- apply fp_NoMatch_tail; assumption.
Qed.

End CommentPattern.

(* ===================================================================== *)
(** * Rendered templates *)
(* ===================================================================== *)

Section Pieces.

(** An interpolated value that stays on its line and opens no
    parenthesis. *)
Definition plain (v : jsstring) : bool :=
  forallb (fun c => negb (c =? nl) && negb (c =? lparen)) v.

(** A template literal after interpolation: the text of the template, the
    interpolated values, and the interpolated alias names. *)
Inductive piece :=
  | Lit (s : jsstring)
  | Var (v : jsstring)
  | Name (n : jsstring).

Definition piece_text (p : piece) : jsstring :=
  match p with
  | Lit s => s
  | Var v => v
  | Name n => n
  end.

Definition render (ps : list piece) : jsstring := flat_map piece_text ps.

Lemma render_app (ps qs : list piece) : render (ps ++ qs) = render ps ++ render qs.
Proof. apply flat_map_app. Qed.

Fixpoint vars_ok (ps : list piece) : Prop :=
  match ps with
  | [] => True
  | Lit _ :: r => vars_ok r
  | Var v :: r => plain v = true /\ vars_ok r
  | Name n :: r => alias_name n = true /\ vars_ok r
  end.

Lemma vars_ok_app (ps qs : list piece) :
  vars_ok ps -> vars_ok qs -> vars_ok (ps ++ qs).
Proof.
  intros Hp Hq. induction ps as [|[s|v|n] ps IH]; cbn [app vars_ok] in *;
    [assumption | now apply IH | |]; destruct Hp; split; auto.
Qed.

Lemma plain_inv (c : cu) (v : jsstring) :
  plain (c :: v) = true -> (c =? nl) = false /\ (c =? lparen) = false /\ plain v = true.
Proof.
  unfold plain. simpl. intros H.
  apply andb_true_iff in H. destruct H as [H Hv].
  apply andb_true_iff in H. destruct H as [H1 H2].
  apply negb_true_iff in H1, H2. auto.
Qed.

Lemma alias_name_plain (n : jsstring) : alias_name n = true -> plain n = true.
Proof.
  intros Hn. apply alias_name_chars in Hn. unfold plain.
  induction n as [|c n IH]; [reflexivity|]. simpl in *.
  apply andb_true_iff in Hn. destruct Hn as [Hc Hn].
  now rewrite (name_char_nl c Hc), (name_char_lparen c Hc), IH.
Qed.

Lemma plain_no_lparen (v : jsstring) : plain v = true -> no_lparen v = true.
Proof.
  unfold no_lparen. induction v as [|c v IH]; [reflexivity|]. intros H.
  apply plain_inv in H. destruct H as [_ [H Hv]]. simpl. now rewrite H, IH.
Qed.

(** *** Runs of newlines *)

Fixpoint run_end (k : nat) (s : jsstring) : nat :=
  match s with
  | [] => k
  | c :: t => if c =? nl then run_end (S k) t else run_end O t
  end.

Lemma calm_app (k : nat) (s Y : jsstring) :
  calm k (s ++ Y) = calm k s && calm (run_end k s) Y.
Proof.
  revert k. induction s as [|c t IH]; intros k; [reflexivity|].
  cbn [app calm run_end]. destruct (c =? nl); [|apply IH].
  rewrite IH. now rewrite andb_assoc.
Qed.

Lemma calm_mono (k k' : nat) (s : jsstring) :
  (k' <= k)%nat -> calm k s = true -> calm k' s = true.
Proof.
  revert k k'. induction s as [|c t IH]; intros k k' Hk H; [reflexivity|].
  cbn [calm] in *. destruct (c =? nl); [|exact H].
  apply andb_true_iff in H. destruct H as [H1 H2].
  apply Nat.ltb_lt in H1. apply andb_true_iff. split.
  - apply Nat.ltb_lt. lia.
  - apply (IH (S k)); [lia | exact H2].
Qed.

Lemma calm_plain (k : nat) (v Y : jsstring) :
  plain v = true -> calm k Y = true -> calm k (v ++ Y) = true.
Proof.
  revert k. induction v as [|c v IH]; intros k Hv HY; [exact HY|].
  apply plain_inv in Hv. destruct Hv as [Hc [_ Hv]].
  cbn [app calm]. rewrite Hc. apply IH; [exact Hv|].
  apply (calm_mono k); [lia | exact HY].
Qed.

Fixpoint calm_ps (k : nat) (ps : list piece) : bool :=
  match ps with
  | [] => true
  | Lit s :: r => calm k s && calm_ps (run_end k s) r
  | _ :: r => calm_ps k r
  end.

Lemma calm_render (ps : list piece) (k : nat) :
  vars_ok ps -> calm_ps k ps = true -> calm k (render ps) = true.
Proof.
  revert k. induction ps as [|[s|v|n] ps IH]; intros k Hv H;
    cbn [render flat_map piece_text vars_ok calm_ps] in *.
  - reflexivity.
  - apply andb_true_iff in H. destruct H as [H1 H2].
    rewrite calm_app, H1. now apply IH.
  - destruct Hv as [Hv Hr]. apply calm_plain; [exact Hv | now apply IH].
  - destruct Hv as [Hn Hr].
    apply calm_plain; [now apply alias_name_plain | now apply IH].
Qed.

(** *** Closing braces *)

(** No closing brace at the start of a line; [p] tells whether the text
    starts a line. *)
Fixpoint close_free (p : bool) (s : jsstring) : bool :=
  match s with
  | [] => true
  | c :: t => negb (p && (c =? rbrace)) && close_free (c =? nl) t
  end.

Fixpoint close_end (p : bool) (s : jsstring) : bool :=
  match s with
  | [] => p
  | c :: t => close_end (c =? nl) t
  end.

Lemma close_free_spec (p : bool) (s : jsstring) :
  close_free p s
  = negb (p && starts_with [rbrace] s) && negb (includes s [nl; rbrace]).
Proof.
  revert p. induction s as [|c t IH]; intros p.
  - cbn. now rewrite andb_false_r.
  - cbn [close_free includes starts_with]. rewrite IH.
    rewrite (N.eqb_sym rbrace c), (N.eqb_sym nl c), andb_true_r.
    rewrite negb_orb. destruct t; reflexivity.
Qed.

Lemma close_free_app (p : bool) (s Y : jsstring) :
  close_free p (s ++ Y) = close_free p s && close_free (close_end p s) Y.
Proof.
  revert p. induction s as [|c t IH]; intros p; [reflexivity|].
  cbn [app close_free close_end]. rewrite IH. now rewrite andb_assoc.
Qed.

Lemma close_free_plain (v Y : jsstring) :
  plain v = true -> close_free false Y = true -> close_free false (v ++ Y) = true.
Proof.
  induction v as [|c v IH]; intros Hv HY; [exact HY|].
  apply plain_inv in Hv. destruct Hv as [Hc [_ Hv]].
  cbn [app close_free andb negb]. rewrite Hc. now apply IH.
Qed.

Fixpoint close_ps (p : bool) (ps : list piece) : bool :=
  match ps with
  | [] => true
  | Lit s :: r => close_free p s && close_ps (close_end p s) r
  | _ :: r => negb p && close_ps false r
  end.

Lemma close_render (ps : list piece) (p : bool) :
  vars_ok ps -> close_ps p ps = true -> close_free p (render ps) = true.
Proof.
  revert p. induction ps as [|[s|v|n] ps IH]; intros p Hv H;
    cbn [render flat_map piece_text vars_ok close_ps] in *.
  - reflexivity.
  - apply andb_true_iff in H. destruct H as [H1 H2].
    rewrite close_free_app, H1. now apply IH.
  - destruct Hv as [Hv Hr]. apply andb_true_iff in H. destruct H as [Hp H].
    apply negb_true_iff in Hp. subst p.
    apply close_free_plain; [exact Hv | now apply IH].
  - destruct Hv as [Hn Hr]. apply andb_true_iff in H. destruct H as [Hp H].
    apply negb_true_iff in Hp. subst p.
    apply close_free_plain; [now apply alias_name_plain | now apply IH].
Qed.

Lemma no_close_render (ps : list piece) :
  vars_ok ps -> close_ps false ps = true ->
  includes (render ps) [nl; rbrace] = false.
Proof.
  intros Hv H. pose proof (close_render ps false Hv H) as E.
  rewrite close_free_spec in E. cbn [andb negb] in E.
  now apply negb_true_iff in E.
Qed.

(** *** Parentheses *)

(** After the parenthesis, the text itself decides that no header tail
    follows; [f] tells that an alias name comes after the text. *)
Definition tail_dead (f : bool) (u : jsstring) : bool :=
  match skip Space u with
  | [] => f
  | c :: u1 =>
      if c =? rparen then
        match skip Space u1 with
        | [] => f
        | d :: _ => negb (d =? lbrace)
        end
      else true
  end.

Fixpoint quiet_text (f : bool) (X : jsstring) : bool :=
  match X with
  | [] => true
  | c :: t => (negb (c =? lparen) || tail_dead f t) && quiet_text f t
  end.

Definition name_start (Y : jsstring) : Prop :=
  match Y with
  | c :: _ => name_char c = true
  | [] => False
  end.

Lemma skip_all (cl : cclass) (u W : jsstring) :
  skip cl u = [] -> skip cl (u ++ W) = skip cl W.
Proof.
  induction u as [|c u IH]; [reflexivity|]. simpl.
  destruct (in_class cl c); [exact IH | discriminate].
Qed.

Lemma name_start_skip (Y : jsstring) :
  name_start Y -> exists c t, skip Space Y = c :: t /\ name_char c = true.
Proof.
  destruct Y as [|c t]; [contradiction|]. simpl. intros Hc.
  exists c, t. now rewrite (name_char_space c Hc).
Qed.

Lemma name_char_lbrace (c : cu) : name_char c = true -> (c =? lbrace) = false.
Proof.
  unfold name_char, syntax_char. intros H.
  apply andb_true_iff in H. destruct H as [H _].
  apply andb_true_iff in H. destruct H as [_ H].
  apply negb_true_iff in H. simpl in H.
  repeat (apply orb_false_iff in H; destruct H as [? H]). assumption.
Qed.

Lemma tail_dead_sound (f : bool) (u Y : jsstring) :
  tail_dead f u = true -> (f = true -> name_start Y) ->
  tail_scan (lparen :: u ++ Y) = None.
Proof.
  unfold tail_dead, tail_scan. intros H HY.
  cbn [skip in_class]. change (isSpace lparen) with false. cbv iota.
  cbn [expect]. rewrite N.eqb_refl.
  destruct (skip Space u) as [|c u1] eqn:E.
  - rewrite (skip_all Space u Y E).
    destruct (name_start_skip Y (HY H)) as [d [t [-> Hd]]].
    cbn [expect]. now rewrite (name_char_rparen d Hd).
  - rewrite (skip_app Space u Y c u1 E). cbn [expect].
    destruct (c =? rparen); [|reflexivity].
    destruct (skip Space u1) as [|d u2] eqn:E2.
    + rewrite (skip_all Space u1 Y E2).
      destruct (name_start_skip Y (HY H)) as [d [t [-> Hd]]].
      cbn [expect]. now rewrite (name_char_lbrace d Hd).
    + rewrite (skip_app Space u1 Y d u2 E2). cbn [expect].
      apply negb_true_iff in H. now rewrite H.
Qed.

Lemma quiet_text_sound (f : bool) (X Y : jsstring) :
  quiet_text f X = true -> (f = true -> name_start Y) -> quiet Y ->
  quiet (X ++ Y).
Proof.
  intros HX Hf HY. induction X as [|c t IH]; [exact HY|].
  simpl in HX. apply andb_true_iff in HX. destruct HX as [Hc Ht].
  intros a u V E. destruct a as [|x a].
  - cbn [app] in E. injection E as -> <-. simpl in Hc.
    rewrite <- app_assoc. apply (tail_dead_sound f); [exact Hc|].
    intros Hf'. specialize (Hf Hf'). destruct Y; [contradiction | exact Hf].
  - cbn [app] in E. injection E as _ E. now apply (IH Ht a u V).
Qed.

Definition name_next (r : list piece) : bool :=
  match r with
  | Name _ :: _ => true
  | _ => false
  end.

Fixpoint quiet_ps (ps : list piece) : bool :=
  match ps with
  | [] => true
  | Lit s :: r => quiet_text (name_next r) s && quiet_ps r
  | _ :: r => quiet_ps r
  end.

Lemma quiet_render (ps : list piece) :
  vars_ok ps -> quiet_ps ps = true -> quiet (render ps).
Proof.
  induction ps as [|[s|v|n] ps IH]; intros Hv H;
    cbn [render flat_map piece_text vars_ok quiet_ps] in *.
  - apply quiet_nil.
  - apply andb_true_iff in H. destruct H as [H1 H2].
    apply (quiet_text_sound (name_next ps)); [exact H1 | | now apply IH].
    intros Hn. destruct ps as [|[s'|v'|n'] ps]; try discriminate.
    cbn [vars_ok] in Hv. destruct Hv as [Hn' _].
    destruct (alias_name_inv n' Hn') as [c [t [-> [Hc _]]]]. exact Hc.
  - destruct Hv as [Hv Hr]. apply quiet_app; [|now apply IH].
    now apply quiet_no_lparen, plain_no_lparen.
  - destruct Hv as [Hn Hr]. apply quiet_app; [|now apply IH].
    now apply quiet_no_lparen, name_no_lparen, alias_name_chars.
Qed.

(** *** The last character *)

Definition ends_nl_ps (ps : list piece) : bool :=
  match rev ps with
  | Lit s :: _ => List.last s 0 =? nl
  | _ => false
  end.

Lemma last_default (s : jsstring) (d d' : cu) :
  s <> [] -> List.last s d = List.last s d'.
Proof.
  induction s as [|c s IH]; [congruence|]. intros _.
  destruct s as [|e s]; [reflexivity|]. cbn [List.last] in *. now apply IH.
Qed.

Lemma ends_nl_suffix (ps : list piece) (U : jsstring) :
  ends_nl_ps ps = true -> List.last (U ++ render ps) nl = nl.
Proof.
  unfold ends_nl_ps. destruct (rev ps) as [|[s|v|n] l] eqn:E; try discriminate.
  intros H. apply N.eqb_eq in H.
  rewrite <- (rev_involutive ps), E. cbn [rev]. rewrite render_app.
  cbn [render flat_map piece_text]. rewrite app_nil_r, app_assoc.
  destruct s as [|c s]; [discriminate H|].
  rewrite last_suffix by discriminate.
  rewrite <- H at 2. now apply last_default.
Qed.

Lemma ends_nl_render (ps : list piece) :
  ends_nl_ps ps = true -> List.last (render ps) nl = nl.
Proof. apply (ends_nl_suffix ps []). Qed.

(** The region before a block: quiet, and ending a line. *)
Definition region_ok (ps : list piece) : bool := quiet_ps ps && ends_nl_ps ps.

Lemma hfree_render (n : jsstring) (ps : list piece) (V : jsstring) :
  alias_name n = true -> vars_ok ps -> region_ok ps = true ->
  no_open V = true -> hfree n (render ps) V.
Proof.
  intros Hn Hv H HV. apply andb_true_iff in H. destruct H as [Hq He].
  apply hfree_region; try assumption.
  - now apply quiet_render.
  - now apply ends_nl_render.
Qed.

(** *** The last replacement on a profile that ends with the rest of an
    installation *)

Lemma repeat_nl_snoc (k : nat) : repeat nl (S k) = repeat nl k ++ [nl].
Proof. induction k as [|k IH]; [reflexivity|]. cbn [repeat app] in *. now rewrite <- IH. Qed.

Lemma nleq_run (k : nat) : nleq (repeat nl (S (S k))) [nl].
Proof.
  induction k as [|k IH]; cbn [repeat] in *.
  - apply nleq_dropl, nleq_refl.
  - now apply nleq_dropl.
Qed.

Lemma squeeze_snoc_nl (P : jsstring) (k : nat) :
  exists Q, squeeze k (P ++ [nl]) = Q ++ [nl] /\ nleq (repeat nl k ++ P) Q.
Proof.
  revert k. induction P as [|c t IH]; intros k.
  - cbn [app squeeze]. change (nl =? nl) with true. cbv iota.
    unfold flush. destruct (3 <=? S k)%nat eqn:E.
    + exists [nl]. split; [reflexivity|]. rewrite app_nil_r.
      apply Nat.leb_le in E. destruct k as [|[|k]]; [lia | lia |].
      apply nleq_run.
    + exists (repeat nl k). split; [apply repeat_nl_snoc|].
      rewrite app_nil_r. apply nleq_refl.
  - cbn [app squeeze]. destruct (c =? nl) eqn:E.
    + apply N.eqb_eq in E. subst c. destruct (IH (S k)) as [Q [-> HQ]].
      exists Q. split; [reflexivity|]. now rewrite repeat_snoc.
    + destruct (IH O) as [Q [-> HQ]].
      exists (flush k ++ c :: Q). split.
      * now rewrite <- app_assoc.
      * apply nleq_app; [apply nleq_flush | now apply nleq_keep].
Qed.

Lemma collapse_user (U X : jsstring) :
  calm 0 X = true ->
  exists Q, nleq U Q
            /\ collapse (U ++ nl :: hash :: X) = Q ++ nl :: hash :: X.
Proof.
  intros HX. destruct (squeeze_snoc_nl U 0) as [Q [E HQ]].
  exists Q. split; [exact HQ|].
  change (U ++ nl :: hash :: X) with (U ++ [nl] ++ hash :: X).
  rewrite app_assoc, (collapse_split (U ++ [nl]) X hash eq_refl).
  rewrite collapse_squeeze, E, (collapse_calm X HX).
  now rewrite <- app_assoc.
Qed.


(** *** A profile of the user, then what the tool wrote *)

Definition starts_comment (ps : list piece) : bool :=
  match ps with
  | Lit (a :: b :: _) :: _ => (a =? nl) && (b =? hash)
  | _ => false
  end.

Lemma starts_comment_text (ps : list piece) :
  starts_comment ps = true -> exists r, render ps = nl :: hash :: r.
Proof.
  destruct ps as [|[[|a [|b s]]|v|n] ps]; try discriminate. cbn [starts_comment].
  intros H. apply andb_true_iff in H. destruct H as [Ha Hb].
  apply N.eqb_eq in Ha, Hb. subst a b.
  now exists (s ++ render ps).
Qed.

Lemma blocking_nl_hash (r : jsstring) : blocking (nl :: hash :: r) = true.
Proof. reflexivity. Qed.

Lemma hfree_user_region (n U : jsstring) (ps : list piece) (V : jsstring) :
  alias_name n = true -> hfree n U [] -> vars_ok ps ->
  starts_comment ps && region_ok ps = true -> no_open V = true ->
  hfree n (U ++ render ps) V.
Proof.
  intros Hn HU Hv H HV. apply andb_true_iff in H. destruct H as [Hs Hr].
  apply hfree_app; [|now apply hfree_render].
  apply hfree_blocking; [assumption | assumption |].
  destruct (starts_comment_text ps Hs) as [r ->]. apply blocking_nl_hash.
Qed.

Lemma tl_app (n X : jsstring) : n <> [] -> List.tl (n ++ X) = List.tl n ++ X.
Proof. destruct n; [congruence | reflexivity]. Qed.

Lemma alias_name_nonempty (n : jsstring) : alias_name n = true -> n <> [].
Proof. intros H ->. discriminate H. Qed.

(** The rest of a block of [n], after the first character of its name. *)
Lemma hfree_own_block (n T V : jsstring) :
  alias_name n = true -> hfree n T V -> hfree n (List.tl n ++ lparen :: T) V.
Proof.
  intros Hn HT. destruct (alias_name_inv n Hn) as [c [t [E _]]].
  rewrite E at 2. cbn [List.tl]. now apply (hfree_own_name n c).
Qed.

Lemma no_open_space (c : cu) (X : jsstring) :
  isSpace c = true -> no_open (c :: X) = no_open X.
Proof. intros H. unfold no_open. cbn [skip in_class]. now rewrite H. Qed.

(** A text that goes on, after white space, with something else than a
    parenthesis. *)
Definition solid (X : jsstring) : bool :=
  match skip Space X with
  | c :: _ => negb (c =? lparen)
  | [] => false
  end.

Lemma no_open_lit (X Y : jsstring) : solid X = true -> no_open (X ++ Y) = true.
Proof.
  unfold solid, no_open. destruct (skip Space X) as [|c u] eqn:E; [discriminate|].
  now rewrite (skip_app Space X Y c u E).
Qed.

Lemma prev_after_last (pre : jsstring) (p : option cu) (d : cu) :
  pre <> [] -> prev_after p pre = Some (List.last pre d).
Proof.
  unfold prev_after. revert p. induction pre as [|c pre IH]; intros p H; [congruence|].
  destruct pre as [|e pre]; [reflexivity|].
  cbn [fold_left List.last]. apply (IH (Some c)). intros E. discriminate E.
Qed.

Lemma at_bol_last (pre : jsstring) :
  List.last pre nl = nl -> at_bol (prev_after None pre) = true.
Proof.
  intros H. destruct pre as [|c pre]; [reflexivity|].
  rewrite (prev_after_last _ None nl) by discriminate. now rewrite H.
Qed.

Lemma count_zero (re : regex) (n X : jsstring) (p : option cu) :
  header_regex re n -> hfree n X [] -> count_from re p X = 0%nat.
Proof.
  intros Hre HX. rewrite <- (app_nil_r X).
  rewrite count_skip by now apply (hfree_NoMatch re n).
  cbn [count_from]. rewrite (match_at_header re n) by assumption.
  rewrite hscan_nil. now destruct (anchored re && negb (at_bol _)).
Qed.

(** One block of [n], at the start of a line, and no header of [n]
    anywhere else: the detection pattern counts one. *)
Lemma count_site (n pre hd W : jsstring) :
  alias_name n = true -> tail_scan hd = Some [] ->
  hfree n pre (n ++ hd ++ W) -> List.last pre nl = nl ->
  hfree n (List.tl n ++ hd ++ W) [] ->
  count (Installer.existsPattern n) (pre ++ n ++ hd ++ W) = 1%nat.
Proof.
  intros Hn Hhd Hpre Hl Htl. unfold count.
  rewrite count_skip by now apply (hfree_NoMatch _ n).
  pose proof (hscan_site n hd W Hn Hhd) as Hs.
  destruct (alias_name_inv n Hn) as [c [t [E _]]].
  rewrite E in Htl at 2. cbn [List.tl] in Htl.
  revert Hs. rewrite E at 2 4. cbn [app]. intros Hs.
  cbn [count_from]. rewrite (match_at_header _ n) by reflexivity.
  cbn [anchored Installer.existsPattern]. rewrite (at_bol_last pre Hl).
  cbn [negb andb]. rewrite Hs.
  now rewrite (count_zero _ n) by (reflexivity || assumption).
Qed.

Lemma count_test (re : regex) (s : jsstring) (p : option cu) :
  count_from re p s <> 0%nat -> search re p s = true.
Proof.
  revert p. induction s as [|c t IH]; intros p H; cbn [count_from search] in *.
  - destruct (match_at re p []); [reflexivity | now rewrite Nat.add_0_r in H].
  - destruct (match_at re p (c :: t)); [reflexivity|]. apply IH. exact H.
Qed.


Lemma hfree_site_ps (n : jsstring) (ps : list piece) (m T V : jsstring) :
  alias_name n = true -> vars_ok ps -> region_ok ps = true ->
  alias_name m = true -> (forall x, m <> x ++ n) -> hfree n T V ->
  hfree n (render ps ++ m ++ lparen :: T) V.
Proof.
  intros Hn Hv H Hm Hmn HT. apply andb_true_iff in H. destruct H as [Hq He].
  apply hfree_site; try assumption.
  - now apply quiet_render.
  - now apply ends_nl_render.
Qed.

Lemma ends_nl_after (ps : list piece) (A : jsstring) (c : cu) :
  ends_nl_ps ps = true -> List.last (A ++ c :: render ps) nl = nl.
Proof.
  intros H. change (A ++ c :: render ps) with (A ++ [c] ++ render ps).
  rewrite app_assoc. now apply ends_nl_suffix.
Qed.

Lemma removeFromContent_eq (n s : jsstring) :
  Installer.removeFromContent n s
  = collapse (replace (Installer.simplePattern n) []
                (replace (Installer.functionPattern n) [] s)).
Proof. reflexivity. Qed.

End Pieces.

(* ===================================================================== *)
(** * The text of an installation *)
(* ===================================================================== *)

Section Layout.
Import Installer.

(** The texts of the template literal of [installAliases]. *)
Definition install_text0 : jsstring := lit "
# ━━━━━━━━━━━━━━━━━━━━━━━━━━━━━━━━━━━━━━━━━━━━━━━━━━━
# AI Git Aliases - Added by @lvmk/git-alias
# Provider: ".

Definition install_text1 : jsstring := lit " | Model: ".

Definition install_text2 : jsstring := lit "
# Generated: ".

Definition install_text3 : jsstring := lit "
# ━━━━━━━━━━━━━━━━━━━━━━━━━━━━━━━━━━━━━━━━━━━━━━━━━━━

".

(** The header as the templates write it: [() {]. *)
Definition hb : jsstring := [lparen; rparen; space; lbrace].

(** The texts of the templates, cut where the proofs need it: after the
    first two characters of the banner, between the title and the comment
    line, after the header and before the closing brace. *)
Definition install_rest0 : jsstring := skipn 2 install_text0.
Definition alias_close : jsstring := firstn 8 gp_text1.
Definition provider : jsstring := skipn 10 gp_text1.
Definition gp_body4 : jsstring := skipn 4 gp_text4.
Definition gc_body4 : jsstring := skipn 4 gc_text4.
Definition gp_body8 : jsstring := removelast (removelast gp_text8).
Definition gc_body8 : jsstring := removelast (removelast gc_text8).

Lemma install_text0_cut : install_text0 = nl :: hash :: install_rest0.
Proof. vm_compute. reflexivity. Qed.

Lemma gp_text1_cut : gp_text1 = alias_close ++ hash :: space :: provider.
Proof. vm_compute. reflexivity. Qed.

Lemma gc_text1_same : gc_text1 = gp_text1.
Proof. vm_compute. reflexivity. Qed.

Lemma gc_text2_same : gc_text2 = gp_text2.
Proof. vm_compute. reflexivity. Qed.

Lemma gp_text3_cut : gp_text3 = [nl].
Proof. vm_compute. reflexivity. Qed.

Lemma gc_text3_cut : gc_text3 = [nl].
Proof. vm_compute. reflexivity. Qed.

Lemma gp_text4_cut : gp_text4 = hb ++ gp_body4.
Proof. vm_compute. reflexivity. Qed.

Lemma gc_text4_cut : gc_text4 = hb ++ gc_body4.
Proof. vm_compute. reflexivity. Qed.

Lemma gp_text8_cut : gp_text8 = gp_body8 ++ [nl; rbrace].
Proof. vm_compute. reflexivity. Qed.

Lemma gc_text8_cut : gc_text8 = gc_body8 ++ [nl; rbrace].
Proof. vm_compute. reflexivity. Qed.

Lemma tail_scan_hb : tail_scan hb = Some [].
Proof. reflexivity. Qed.

Lemma blocking_comment (r : jsstring) : blocking (nl :: hash :: r) = true.
Proof. reflexivity. Qed.

Lemma no_open_comment (r : jsstring) : no_open (nl :: hash :: r) = true.
Proof. reflexivity. Qed.

(** The names, the provider, its command, the model. *)
Variables gp gc cn cmd cc md : jsstring.
Hypothesis Hgp : alias_name gp = true.
Hypothesis Hgc : alias_name gc = true.
Hypothesis Hgp_gc : forall x, gp <> x ++ gc.
Hypothesis Hgc_gp : forall x, gc <> x ++ gp.
Hypothesis Hcn : plain cn = true.
Hypothesis Hcmd : plain cmd = true.
Hypothesis Hcc : plain cc = true.
Hypothesis Hmd : plain md = true.

Definition gp_content : jsstring :=
  gp_text0 ++ gp ++ gp_text1 ++ cn ++ gp_text2 ++ md ++ gp_text3 ++ gp
  ++ gp_text4 ++ cmd ++ gp_text5 ++ cn ++ gp_text6 ++ cn ++ gp_text7 ++ cc
  ++ gp_text8.

Definition gc_content : jsstring :=
  gc_text0 ++ gc ++ gc_text1 ++ cn ++ gc_text2 ++ md ++ gc_text3 ++ gc
  ++ gc_text4 ++ cmd ++ gc_text5 ++ cn ++ gc_text6 ++ cn ++ gc_text7 ++ cc
  ++ gc_text8.

(** What one installation appends. *)
Definition content (ts : jsstring) : jsstring :=
  install_text0 ++ cn ++ install_text1 ++ md ++ install_text2 ++ ts
  ++ install_text3 ++ gp_content ++ [nl; nl] ++ gc_content ++ [nl].

(** The same text in pieces. *)
Definition banner_ps (ts : jsstring) : list piece :=
  [Lit install_rest0; Var cn; Lit install_text1; Var md; Lit install_text2;
   Var ts; Lit install_text3].

Definition title_ps (t0 n : jsstring) : list piece :=
  [Lit t0; Name n; Lit alias_close].

Definition comment_ps : list piece :=
  [Lit [hash; space]; Lit provider; Var cn; Lit gp_text2; Var md; Lit [nl]].

(** The comment line before a block, after [# ]. *)
Definition cl : jsstring := provider ++ cn ++ gp_text2 ++ md.

Definition inner_ps (b4 t5 t6 t7 b8 : jsstring) : list piece :=
  [Lit b4; Var cmd; Lit t5; Var cn; Lit t6; Var cn; Lit t7; Var cc; Lit b8].

(** A block after its parenthesis. *)
Definition rest_ps (b4 t5 t6 t7 b8 : jsstring) : list piece :=
  [Lit [rparen; space; lbrace]] ++ inner_ps b4 t5 t6 t7 b8
  ++ [Lit [nl; rbrace; nl]].

Definition gp_inner_ps : list piece :=
  inner_ps gp_body4 gp_text5 gp_text6 gp_text7 gp_body8.

Definition gc_inner_ps : list piece :=
  inner_ps gc_body4 gc_text5 gc_text6 gc_text7 gc_body8.

Definition gp_rest_ps : list piece :=
  rest_ps gp_body4 gp_text5 gp_text6 gp_text7 gp_body8.

Definition gc_rest_ps : list piece :=
  rest_ps gc_body4 gc_text5 gc_text6 gc_text7 gc_body8.

Definition gp_block : jsstring := function_block gp hb (render gp_inner_ps).
Definition gc_block : jsstring := function_block gc hb (render gc_inner_ps).

(** From the banner to the title of the first block. *)
Definition head_ps (ts : jsstring) : list piece :=
  [Lit [nl; hash]] ++ banner_ps ts ++ title_ps gp_text0 gp.

(** Between the blocks: a blank line and the title of the second block. *)
Definition mid_ps : list piece := [Lit [nl]] ++ title_ps gc_text0 gc.

(** The comment line of a block stays when it does not name the alias. *)
Definition kept (n : jsstring) : list piece :=
  if includes cl n then [] else comment_ps.

Definition gc_block_ps : list piece :=
  [Name gc; Lit hb] ++ gc_inner_ps ++ [Lit [nl; rbrace; nl]].

(** What is left of an installation after the block of [gp] is
    removed, up to the block of [gc]. *)
Definition after_gp_ps (ts : jsstring) : list piece :=
  head_ps ts ++ kept gp ++ mid_ps ++ comment_ps.

(** What is left of an installation after both blocks are removed. *)
Definition resid_ps (ts : jsstring) : list piece :=
  head_ps ts ++ kept gp ++ mid_ps ++ kept gc.

(** The closing line of a block. *)
Definition closing_ps : list piece := [Lit [nl; rbrace; nl]].

(** Both sides of an equation between texts, as flat concatenations.
    The cuts are made by rewriting: reducing [++] on a text with a literal
    inside would make the kernel evaluate the literal. *)
Ltac flat :=
  cbv beta delta [function_block content gp_content gc_content banner_ps
                  title_ps comment_ps cl inner_ps rest_ps gp_inner_ps
                  gc_inner_ps gp_rest_ps gc_rest_ps gp_block gc_block
                  head_ps mid_ps gc_block_ps after_gp_ps resid_ps closing_ps];
  rewrite ?render_app;
  cbn [render flat_map piece_text];
  rewrite ?gc_text1_same, ?gc_text2_same, ?gp_text3_cut, ?gc_text3_cut,
    ?gp_text4_cut, ?gc_text4_cut, ?gp_text8_cut, ?gc_text8_cut,
    ?gp_text1_cut, ?install_text0_cut;
  cbv delta [hb];
  repeat (progress (rewrite <- ?app_assoc, <- ?app_comm_cons, ?app_nil_l,
                      ?app_nil_r));
  reflexivity.

Ltac vars :=
  cbv beta iota delta [vars_ok app banner_ps title_ps comment_ps inner_ps
                       rest_ps gp_inner_ps gc_inner_ps gp_rest_ps gc_rest_ps
                       head_ps mid_ps gc_block_ps after_gp_ps resid_ps
                       closing_ps];
  repeat split; assumption.

(** The comment line of a block is there or not. *)
Ltac cases :=
  unfold kept;
  try destruct (includes cl gp); try destruct (includes cl gc); cbv iota.

Ltac check := cases; vm_compute; reflexivity.

Lemma comment_text : render comment_ps = hash :: space :: cl ++ [nl].
Proof. flat. Qed.

Lemma cl_one_line : forallb (in_class NotNL) cl = true.
Proof.
  assert (H : forall v, plain v = true -> forallb (in_class NotNL) v = true).
  { intros v. induction v as [|c v IH]; [reflexivity|]. intros Hv.
    apply plain_inv in Hv. destruct Hv as [Hc [_ Hv]]. simpl.
    unfold nl in Hc. now rewrite Hc, IH. }
  unfold cl. rewrite !forallb_app, (H cn Hcn), (H md Hmd).
  now vm_compute.
Qed.

Lemma no_open_mid (ps : list piece) (Y : jsstring) :
  no_open (render (mid_ps ++ ps) ++ Y) = true.
Proof.
  assert (E : render (mid_ps ++ ps) ++ Y
              = (nl :: gc_text0) ++ gc ++ alias_close ++ render ps ++ Y) by flat.
  rewrite E. apply no_open_lit. vm_compute. reflexivity.
Qed.

Lemma gp_inner_no_close : includes (render gp_inner_ps) [nl; rbrace] = false.
Proof. apply no_close_render; [vars | vm_compute; reflexivity]. Qed.

Lemma gc_inner_no_close : includes (render gc_inner_ps) [nl; rbrace] = false.
Proof. apply no_close_render; [vars | vm_compute; reflexivity]. Qed.

(** The first view: the block of [gp], the comment line before it, and
    the rest. *)
Lemma content_gp_view (U ts : jsstring) :
  U ++ content ts
  = (U ++ render (head_ps ts)) ++ (hash :: space :: cl ++ [nl])
    ++ gp_block ++ (render (mid_ps ++ comment_ps) ++ gc_block).
Proof. flat. Qed.

(** The block of [gp] and what follows, after the first character. *)
Lemma gp_block_tail :
  hfree gp (List.tl (gp_block ++ render (mid_ps ++ comment_ps) ++ gc_block)) [].
Proof.
  assert (E : gp_block ++ render (mid_ps ++ comment_ps) ++ gc_block
              = gp ++ lparen :: render (gp_rest_ps ++ mid_ps ++ comment_ps)
                ++ gc ++ lparen :: render gc_rest_ps) by flat.
  rewrite E, tl_app by now apply alias_name_nonempty.
  apply hfree_own_block; [exact Hgp|].
  apply hfree_site_ps; try assumption; [vars | check |].
  apply hfree_render; [exact Hgp | vars | check | reflexivity].
Qed.

Lemma gc_block_tail : hfree gc (List.tl (gc_block ++ [])) [].
Proof.
  assert (E : gc_block ++ [] = gc ++ lparen :: render gc_rest_ps) by flat.
  rewrite E, tl_app by now apply alias_name_nonempty.
  apply hfree_own_block; [exact Hgc|].
  apply hfree_render; [exact Hgc | vars | check | reflexivity].
Qed.

(** Removing [gp] from a profile that ends with an installation. *)
Lemma remove_gp (U ts : jsstring) :
  hfree gp U [] -> plain ts = true ->
  exists Q, nleq U Q
    /\ removeFromContent gp (U ++ content ts)
       = Q ++ render (after_gp_ps ts) ++ gc_block.
Proof.
  intros HU Hts. rewrite removeFromContent_eq, content_gp_view.
  unfold gp_block at 1.
  rewrite replace_commented_block.
  - assert (E : (U ++ render (head_ps ts))
                ++ (if includes cl gp then [] else hash :: space :: cl ++ [nl])
                ++ render (mid_ps ++ comment_ps) ++ gc_block
                = U ++ nl :: hash
                  :: render (banner_ps ts ++ title_ps gp_text0 gp ++ kept gp
                             ++ mid_ps ++ comment_ps ++ gc_block_ps)).
    { cases; flat. }
    rewrite E.
    destruct (collapse_user U
                (render (banner_ps ts ++ title_ps gp_text0 gp ++ kept gp
                         ++ mid_ps ++ comment_ps ++ gc_block_ps)))
      as [Q [HQ EQ]].
    { apply calm_render; [cases; vars | check]. }
    exists Q. split; [exact HQ|]. rewrite EQ. unfold after_gp_ps. cases; flat.
  - exact Hgp.
  - exact tail_scan_hb.
  - exact gp_inner_no_close.
  - apply ends_nl_suffix. check.
  - exact cl_one_line.
  - assert (E : (U ++ render (head_ps ts)) ++ hash :: space :: cl ++ [nl]
                = U ++ render (head_ps ts ++ comment_ps)) by flat.
    rewrite E. apply hfree_user_region; try assumption; [vars | check |].
    unfold function_block. rewrite <- app_assoc. now apply no_open_name.
  - exact gp_block_tail.
  - assert (E : (U ++ render (head_ps ts))
                ++ (if includes cl gp then [] else hash :: space :: cl ++ [nl])
                = U ++ render (head_ps ts ++ kept gp)).
    { cases; flat. }
    rewrite E. apply hfree_user_region; try assumption;
      [cases; vars | check | apply no_open_mid].
Qed.

(** Removing [gc] after [gp]. *)
Lemma remove_gc (Q ts : jsstring) :
  hfree gc Q [] -> plain ts = true ->
  exists Q', nleq Q Q'
    /\ removeFromContent gc (Q ++ render (after_gp_ps ts) ++ gc_block)
       = Q' ++ render (resid_ps ts).
Proof.
  intros HQ Hts. rewrite removeFromContent_eq.
  assert (View : Q ++ render (after_gp_ps ts) ++ gc_block
                 = (Q ++ render (head_ps ts ++ kept gp ++ mid_ps))
                   ++ (hash :: space :: cl ++ [nl])
                   ++ function_block gc hb (render gc_inner_ps) ++ []).
  { unfold after_gp_ps. cases; flat. }
  rewrite View. rewrite replace_commented_block.
  - assert (E : (Q ++ render (head_ps ts ++ kept gp ++ mid_ps))
                ++ (if includes cl gc then [] else hash :: space :: cl ++ [nl])
                ++ []
                = Q ++ nl :: hash
                  :: render (banner_ps ts ++ title_ps gp_text0 gp ++ kept gp
                             ++ mid_ps ++ kept gc)).
    { cases; flat. }
    rewrite E.
    destruct (collapse_user Q
                (render (banner_ps ts ++ title_ps gp_text0 gp ++ kept gp
                         ++ mid_ps ++ kept gc)))
      as [Q' [HQ' EQ]].
    { apply calm_render; [cases; vars | check]. }
    exists Q'. split; [exact HQ'|]. rewrite EQ. unfold resid_ps. cases; flat.
  - exact Hgc.
  - exact tail_scan_hb.
  - exact gc_inner_no_close.
  - apply ends_nl_suffix. check.
  - exact cl_one_line.
  - assert (E : (Q ++ render (head_ps ts ++ kept gp ++ mid_ps))
                ++ hash :: space :: cl ++ [nl]
                = Q ++ render (after_gp_ps ts)).
    { unfold after_gp_ps. cases; flat. }
    rewrite E. apply hfree_user_region; try assumption;
      [unfold after_gp_ps; cases; vars | unfold after_gp_ps; check |].
    unfold function_block. rewrite <- app_assoc. now apply no_open_name.
  - exact gc_block_tail.
  - assert (E : (Q ++ render (head_ps ts ++ kept gp ++ mid_ps))
                ++ (if includes cl gc then [] else hash :: space :: cl ++ [nl])
                = Q ++ render (resid_ps ts)).
    { unfold resid_ps. cases; flat. }
    rewrite E. apply hfree_user_region; try assumption;
      [unfold resid_ps; cases; vars | unfold resid_ps; check | reflexivity].
Qed.

(** What two removals leave holds no header. *)
Lemma resid_free (n Q ts : jsstring) :
  alias_name n = true -> hfree n Q [] -> plain ts = true ->
  hfree n (Q ++ render (resid_ps ts)) [].
Proof.
  intros Hn HQ Hts. apply hfree_user_region; try assumption;
    [unfold resid_ps; cases; vars | unfold resid_ps; check | reflexivity].
Qed.

(** After an installation onto a profile without headers, the detection
    pattern finds each block once. *)
Lemma count_gp (U ts : jsstring) :
  hfree gp U [] -> plain ts = true ->
  count (existsPattern gp) (U ++ content ts) = 1%nat.
Proof.
  intros HU Hts.
  assert (View : U ++ content ts
                 = (U ++ render (head_ps ts ++ comment_ps)) ++ gp ++ hb
                   ++ render (gp_inner_ps ++ closing_ps ++ mid_ps ++ comment_ps)
                   ++ gc_block) by flat.
  rewrite View. apply count_site.
  - exact Hgp.
  - exact tail_scan_hb.
  - apply hfree_user_region; try assumption; [vars | check |].
    now apply no_open_name.
  - apply ends_nl_suffix. check.
  - assert (E : hb ++ render (gp_inner_ps ++ closing_ps ++ mid_ps ++ comment_ps)
                ++ gc_block
                = lparen :: render (gp_rest_ps ++ mid_ps ++ comment_ps)
                  ++ gc ++ lparen :: render gc_rest_ps) by flat.
    rewrite E. apply hfree_own_block; [exact Hgp|].
    apply hfree_site_ps; try assumption; [vars | check |].
    apply hfree_render; [exact Hgp | vars | check | reflexivity].
Qed.

Lemma count_gc (U ts : jsstring) :
  hfree gc U [] -> plain ts = true ->
  count (existsPattern gc) (U ++ content ts) = 1%nat.
Proof.
  intros HU Hts.
  assert (View : U ++ content ts
                 = (U ++ render (head_ps ts ++ comment_ps) ++ gp
                    ++ lparen :: render (gp_rest_ps ++ mid_ps ++ comment_ps))
                   ++ gc ++ hb ++ render (gc_inner_ps ++ closing_ps)) by flat.
  rewrite View. apply count_site.
  - exact Hgc.
  - exact tail_scan_hb.
  - apply hfree_app.
    + apply hfree_blocking; [exact Hgc | exact HU |].
      destruct (starts_comment_text (head_ps ts ++ comment_ps)) as [r ->];
        [vm_compute; reflexivity|].
      apply blocking_nl_hash.
    + apply hfree_site_ps; try assumption; [vars | check |].
      apply hfree_render; [exact Hgc | vars | check |].
      now apply no_open_name.
  - rewrite (app_assoc U). rewrite (app_assoc (U ++ _) gp).
    apply ends_nl_after. check.
  - assert (E : hb ++ render (gc_inner_ps ++ closing_ps)
                = lparen :: render gc_rest_ps) by flat.
    rewrite E. apply hfree_own_block; [exact Hgc|].
    apply hfree_render; [exact Hgc | vars | check | reflexivity].
Qed.

(** Install, then install again with [overwrite]: what the second
    installation finds, removes and leaves. *)
Lemma install_again (U ts1 ts2 : jsstring) :
  hfree gp U [] -> hfree gc U [] ->
  plain ts1 = true -> plain ts2 = true ->
  test (existsPattern gp) (U ++ content ts1) = true
  /\ test (existsPattern gc) (U ++ content ts1) = true
  /\ count (existsPattern gp)
       (removeFromContent gc (removeFromContent gp (U ++ content ts1))
        ++ content ts2) = 1%nat
  /\ count (existsPattern gc)
       (removeFromContent gc (removeFromContent gp (U ++ content ts1))
        ++ content ts2) = 1%nat.
Proof.
  intros HUp HUc H1 H2. split; [|split].
  - apply count_test. unfold test. fold (count (existsPattern gp) (U ++ content ts1)).
    now rewrite count_gp.
  - apply count_test. fold (count (existsPattern gc) (U ++ content ts1)).
    now rewrite count_gc.
  - destruct (remove_gp U ts1 HUp H1) as [Q [HQ ->]].
    destruct (remove_gc Q ts1 (hfree_nleq gc U Q Hgc HQ HUc) H1) as [Q' [HQ' ->]].
    split.
    + apply count_gp; [|exact H2]. apply resid_free; try assumption.
      apply (hfree_nleq gp Q Q' Hgp HQ'). now apply (hfree_nleq gp U Q).
    + apply count_gc; [|exact H2]. apply resid_free; try assumption.
      apply (hfree_nleq gc Q Q' Hgc HQ'). now apply (hfree_nleq gc U Q).
Qed.

(** Whatever the profile held before, what an installation appends holds
    the header of each name at the start of a line. *)
Lemma detected_gp (U ts : jsstring) :
  test (existsPattern gp) (U ++ content ts) = true.
Proof.
  assert (View : U ++ content ts
                 = (U ++ render (head_ps ts ++ comment_ps)) ++ gp ++ hb
                   ++ render (gp_inner_ps ++ closing_ps ++ mid_ps ++ comment_ps)
                   ++ gc_block) by flat.
  rewrite View. unfold test. apply search_true_at.
  rewrite (match_at_header _ gp) by reflexivity.
  cbn [anchored existsPattern].
  rewrite at_bol_last by (apply ends_nl_suffix; check).
  cbn [negb andb]. rewrite hscan_site by (exact Hgp || exact tail_scan_hb).
  discriminate.
Qed.

Lemma detected_gc (U ts : jsstring) :
  test (existsPattern gc) (U ++ content ts) = true.
Proof.
  assert (View : U ++ content ts
                 = (U ++ render (head_ps ts ++ comment_ps) ++ gp
                    ++ lparen :: render (gp_rest_ps ++ mid_ps ++ comment_ps))
                   ++ gc ++ hb ++ render (gc_inner_ps ++ closing_ps)) by flat.
  rewrite View. unfold test. apply search_true_at.
  rewrite (match_at_header _ gc) by reflexivity.
  cbn [anchored existsPattern].
  rewrite at_bol_last.
  - cbn [negb andb]. rewrite hscan_site by (exact Hgc || exact tail_scan_hb).
    discriminate.
  - rewrite (app_assoc U). rewrite (app_assoc (U ++ _) gp).
    apply ends_nl_after. check.
Qed.

End Layout.

(* ===================================================================== *)
(** * Installing twice *)
(* ===================================================================== *)

Section InstallTwice.
Import Installer.

(** Without a conflict, and with a profile that can be written, the
    installation appends the rendered blocks to what the removal step
    left. *)
Lemma installAliases_appends
    (h : host) (clk : clock) (st : fs_state) (a : install_args) :
  let shell := fst (detectShellProfile h st) in
  let profile := snd (detectShellProfile h st) in
  let gpExists := aliasExists st profile (gpAlias a) in
  let gcExists := aliasExists st profile (gcAlias a) in
  let st1 := remove_old st profile a gpExists gcExists in
  (gpExists || gcExists) && negb (overwrite a) = false ->
  denied st profile = false ->
  installAliases h clk st a
  = (set_file (fst (backupProfile clk st1 profile)) profile
       (default [] (files st1 !! profile)
        ++ aliasContent a (toISOString clk)),
     Success shell profile).
Proof.
  cbv zeta. intros Hc Hw. unfold installAliases.
  destruct (detectShellProfile h st) as [shell profile]. cbn [fst snd] in *.
  rewrite Hc. unfold appendFile. cbv zeta.
  destruct (backupProfile_frame clk
              (remove_old st profile a (aliasExists st profile (gpAlias a))
                 (aliasExists st profile (gcAlias a))) profile) as [Hf Hd].
  rewrite Hd, remove_old_denied, Hw, Hf. reflexivity.
Qed.

Lemma plain_app (x y : jsstring) : plain (x ++ y) = plain x && plain y.
Proof. apply forallb_app. Qed.

(** The providers of the catalogue write nothing into the templates that
    breaks a line or opens a parenthesis. *)
Lemma cli_plain (c : CLI) (md : jsstring) :
  In c CLI_INFO -> plain md = true ->
  plain (name c) = true /\ plain (command c) = true
  /\ plain (buildCLICommand c md) = true.
Proof.
  intros Hin Hmd. simpl in Hin.
  destruct Hin as [<-|[<-|[<-|[<-|[<-|[]]]]]];
    (split; [vm_compute; reflexivity|]); (split; [vm_compute; reflexivity|]).
  - assert (E : buildCLICommand claude md
                = lit "claude --print --model " ++ md
                  ++ lit " --dangerously-skip-permissions `$prompt`")
      by (vm_compute; reflexivity).
    rewrite E, !plain_app, Hmd. vm_compute. reflexivity.
  - assert (E : buildCLICommand gemini md
                = lit "gemini --prompt `$prompt` --model " ++ md)
      by (vm_compute; reflexivity).
    rewrite E, !plain_app, Hmd. vm_compute. reflexivity.
  - vm_compute. reflexivity.
  - assert (E : buildCLICommand opencode md
                = lit "opencode run `$prompt` --model " ++ md)
      by (vm_compute; reflexivity).
    rewrite E, !plain_app, Hmd. vm_compute. reflexivity.
  - assert (E : buildCLICommand aider md
                = lit "aider --message `$prompt` --model " ++ md
                  ++ lit " --yes-always --no-auto-commits")
      by (vm_compute; reflexivity).
    rewrite E, !plain_app, Hmd. vm_compute. reflexivity.
Qed.

(** What [installAliases] appends, in the terms of the layout. *)
Lemma aliasContent_content (a : install_args) (ts : jsstring) :
  aliasContent a ts
  = content (gpAlias a) (gcAlias a) (name (cli a)) (command (cli a))
      (buildCLICommand (cli a) (model a)) (model a) ts.
Proof. vm_compute. reflexivity. Qed.

(** [String.prototype.endsWith] *)
Definition ends_with (s p : jsstring) : bool := starts_with (rev p) (rev s).

Lemma ends_with_false (s p : jsstring) :
  ends_with s p = false -> forall x, s <> x ++ p.
Proof.
  unfold ends_with. intros H x ->. rewrite rev_app_distr in H.
  now rewrite starts_with_app in H.
Qed.

(** The second installation, with [overwrite]. *)
Definition again (a : install_args) : install_args :=
  {| gpAlias := gpAlias a; gcAlias := gcAlias a; cli := cli a;
     model := model a; overwrite := true |}.

Lemma aliasExists_file (st : fs_state) (p n d : jsstring) :
  files st !! p = Some d -> aliasExists st p n = test (existsPattern n) d.
Proof. intros H. unfold aliasExists, readFile. now rewrite H. Qed.

Lemma aliasExists_free (st : fs_state) (p n : jsstring) :
  test (headerPattern n) (default [] (files st !! p)) = false ->
  aliasExists st p n = false.
Proof.
  intros H. unfold aliasExists, readFile.
  destruct (files st !! p) as [d|]; [|reflexivity]. cbn [default] in H.
  unfold test. rewrite <- (app_nil_r d).
  rewrite search_skip.
  - cbn [search]. rewrite (match_at_header _ n) by reflexivity.
    rewrite hscan_nil. now destruct (anchored _ && negb (at_bol _)).
  - apply (hfree_NoMatch _ n); [reflexivity|]. now apply search_hfree.
Qed.

Lemma removeExistingAlias_writes (st : fs_state) (p n d : jsstring) :
  files st !! p = Some d -> denied st p = false ->
  removeExistingAlias st p n = (set_file st p (removeFromContent n d), true).
Proof.
  intros Hf Hd. unfold removeExistingAlias, readFile, writeFile.
  now rewrite Hf, Hd.
Qed.

(** The installation does not change which profile is detected. *)
Lemma detect_after_install
    (h : host) (clk : clock) (st : fs_state) (X : jsstring) :
  path_join h = posix_join ->
  let profile := snd (detectShellProfile h st) in
  detectShellProfile h
    (set_file (fst (backupProfile clk st profile)) profile X)
  = detectShellProfile h st.
Proof.
  intros Hj. cbv zeta. unfold detectShellProfile. rewrite Hj. cbv zeta.
  destruct (includes (default [] (env_SHELL h)) (lit "zsh")); [reflexivity|].
  set (bashrc := posix_join (homedir h) (lit ".bashrc")).
  set (bashProfile := posix_join (homedir h) (lit ".bash_profile")).
  assert (Hne : bashProfile <> bashrc).
  { unfold bashProfile, bashrc, posix_join. intros E.
    apply app_inv_head in E. apply app_inv_head in E.
    vm_compute in E. discriminate E. }
  assert (Hbk : forall p, bashrc <> bashProfile ++ lit ".backup." ++ p).
  { intros p. unfold bashProfile, bashrc, posix_join. intros E.
    rewrite <- !app_assoc in E.
    apply app_inv_head in E. apply app_inv_head in E.
    revert E. generalize (lit ".backup." ++ p). intros q E.
    vm_compute in E. discriminate E. }
  unfold access, backupProfile, copyFile, set_file. cbn [files fst snd].
  destruct (files st !! bashrc) as [d|] eqn:E1; cbn [snd].
  - now rewrite lookup_insert_eq.
  - destruct (files st !! bashProfile) as [d|] eqn:E2; cbn [snd].
    + rewrite E2. destruct (denied st _); cbn [fst files].
      * rewrite lookup_insert_ne by exact Hne. rewrite E1.
        now rewrite lookup_insert_eq.
      * rewrite lookup_insert_ne by exact Hne.
        rewrite lookup_insert_ne by (intros E; symmetry in E; now apply Hbk in E).
        rewrite E1. now rewrite lookup_insert_eq.
    + now rewrite lookup_insert_eq.
Qed.

Lemma again_content (a : install_args) (ts : jsstring) :
  aliasContent (again a) ts = aliasContent a ts.
Proof. rewrite !aliasContent_content. reflexivity. Qed.

(** X1.  Installing onto a profile that does not hold the text of a
    header of either name, then installing again with [overwrite]: both
    installations succeed, the first one is detected, and in the final
    profile the detection pattern of each name finds one block.  The names
    are plain shell names, neither the end of the other; the provider is
    one of the catalogue; the model and the time stamps stay on one line and
    hold no parenthesis. *)
Theorem install_twice_one_block
    (h : host) (clk1 clk2 : clock) (st : fs_state) (a : install_args) :
  let shell := fst (detectShellProfile h st) in
  let profile := snd (detectShellProfile h st) in
  path_join h = posix_join ->
  alias_name (gpAlias a) = true -> alias_name (gcAlias a) = true ->
  ends_with (gpAlias a) (gcAlias a) = false ->
  ends_with (gcAlias a) (gpAlias a) = false ->
  In (cli a) CLI_INFO ->
  plain (model a) = true ->
  plain (toISOString clk1) = true -> plain (toISOString clk2) = true ->
  test (headerPattern (gpAlias a)) (default [] (files st !! profile)) = false ->
  test (headerPattern (gcAlias a)) (default [] (files st !! profile)) = false ->
  denied st profile = false ->
  exists st1 st2 final,
    installAliases h clk1 st a = (st1, Success shell profile)
    /\ aliasExists st1 profile (gpAlias a) = true
    /\ aliasExists st1 profile (gcAlias a) = true
    /\ installAliases h clk2 st1 (again a) = (st2, Success shell profile)
    /\ files st2 !! profile = Some final
    /\ count (existsPattern (gpAlias a)) final = 1%nat
    /\ count (existsPattern (gcAlias a)) final = 1%nat.
Proof.
  cbv zeta. intros Hj Hgp Hgc Hs1 Hs2 Hc Hmd Ht1 Ht2 Hfp Hfc Hd.
  set (profile := snd (detectShellProfile h st)) in *.
  set (shell := fst (detectShellProfile h st)) in *.
  set (P0 := default [] (files st !! profile)) in *.
  destruct (cli_plain (cli a) (model a) Hc Hmd) as [Hcn [Hcmd Hcc]].
  destruct (install_again (gpAlias a) (gcAlias a) (name (cli a))
              (command (cli a)) (buildCLICommand (cli a) (model a)) (model a)
              Hgp Hgc (ends_with_false _ _ Hs1) (ends_with_false _ _ Hs2)
              Hcn Hcmd Hcc Hmd P0 (toISOString clk1) (toISOString clk2)
              (search_hfree _ _ Hfp [] eq_refl) (search_hfree _ _ Hfc [] eq_refl)
              Ht1 Ht2) as [Hx1 [Hx2 [Hc1 Hc2]]].
  rewrite <- !aliasContent_content in *.
  set (A1 := aliasContent a (toISOString clk1)) in *.
  set (A2 := aliasContent a (toISOString clk2)) in *.
  (* the first installation *)
  set (st1 := set_file (fst (backupProfile clk1 st profile)) profile (P0 ++ A1)).
  assert (E1 : installAliases h clk1 st a = (st1, Success shell profile)).
  { pose proof (installAliases_appends h clk1 st a) as H. cbv zeta in H.
    fold profile shell in H.
    rewrite (aliasExists_free st profile _ Hfp),
      (aliasExists_free st profile _ Hfc) in H.
    assert (Hr : remove_old st profile a false false = st)
      by (unfold remove_old; destruct (overwrite a); reflexivity).
    rewrite Hr in H. exact (H eq_refl Hd). }
  assert (Hf1 : files st1 !! profile = Some (P0 ++ A1))
    by apply set_file_lookup.
  assert (Hd1 : denied st1 profile = false).
  { unfold st1, set_file. cbn [denied].
    destruct (backupProfile_frame clk1 st profile) as [_ ->]. exact Hd. }
  assert (Hdet : detectShellProfile h st1 = detectShellProfile h st)
    by apply (detect_after_install h clk1 st (P0 ++ A1) Hj).
  (* the second installation *)
  set (R1 := removeFromContent (gpAlias a) (P0 ++ A1)) in *.
  set (R2 := removeFromContent (gcAlias a) R1) in *.
  set (st1' := set_file st1 profile R1).
  set (str := set_file st1' profile R2).
  assert (Hrm : remove_old st1 profile (again a) true true = str).
  { unfold remove_old. cbn [overwrite again gpAlias gcAlias].
    rewrite (removeExistingAlias_writes st1 profile _ _ Hf1 Hd1). cbn [fst].
    fold R1. fold st1'.
    rewrite (removeExistingAlias_writes st1' profile _ R1);
      [reflexivity | apply set_file_lookup | exact Hd1]. }
  assert (E2 : installAliases h clk2 st1 (again a)
               = (set_file (fst (backupProfile clk2 str profile)) profile
                    (R2 ++ A2), Success shell profile)).
  { pose proof (installAliases_appends h clk2 st1 (again a)) as H. cbv zeta in H.
    rewrite Hdet in H. fold profile shell in H.
    cbn [gpAlias gcAlias overwrite again] in H.
    rewrite (aliasExists_file st1 profile _ _ Hf1), Hx1 in H.
    rewrite (aliasExists_file st1 profile _ _ Hf1), Hx2 in H.
    rewrite Hrm in H.
    assert (Hfr : files str !! profile = Some R2) by apply set_file_lookup.
    rewrite Hfr, again_content in H. cbn [default] in H.
    exact (H eq_refl Hd1). }
  exists st1, (set_file (fst (backupProfile clk2 str profile)) profile (R2 ++ A2)),
    (R2 ++ A2).
  repeat split.
  - exact E1.
  - now rewrite (aliasExists_file st1 profile _ _ Hf1).
  - now rewrite (aliasExists_file st1 profile _ _ Hf1).
  - exact E2.
  - apply set_file_lookup.
  - exact Hc1.
  - exact Hc2.
Qed.

Definition later : clock :=
  {| now := 1762160460000; toISOString := lit "2025-11-03T09:01:00.000Z" |}.

Lemma install_twice_one_block_witness :
  let shell := fst (detectShellProfile bash_host only_bash_profile) in
  let profile := snd (detectShellProfile bash_host only_bash_profile) in
  exists st1 st2 final,
    installAliases bash_host noon only_bash_profile defaults
    = (st1, Success shell profile)
    /\ aliasExists st1 profile (lit "gp") = true
    /\ aliasExists st1 profile (lit "gc") = true
    /\ installAliases bash_host later st1 (again defaults)
       = (st2, Success shell profile)
    /\ files st2 !! profile = Some final
    /\ count (existsPattern (lit "gp")) final = 1%nat
    /\ count (existsPattern (lit "gc")) final = 1%nat.
Proof.
  apply (install_twice_one_block bash_host noon later only_bash_profile
           defaults);
    [reflexivity | vm_compute; reflexivity | vm_compute; reflexivity
    | vm_compute; reflexivity | vm_compute; reflexivity
    | do 4 right; left; reflexivity
    | vm_compute; reflexivity | vm_compute; reflexivity
    | vm_compute; reflexivity | vm_compute; reflexivity
    | vm_compute; reflexivity | reflexivity].
Defined.

End InstallTwice.

(* ===================================================================== *)
(** * Removal of a block and of the comment before it *)
(* ===================================================================== *)

Section RemovalFrame.
Import Installer.

Lemma search_true_inv (re : regex) (s : jsstring) (prev : option cu) :
  search re prev s = true ->
  exists a b, s = a ++ b /\ match_at re (prev_after prev a) b <> None.
Proof.
  revert prev. induction s as [|c t IH]; intros prev H.
  - exists [], []. split; [reflexivity|]. cbn [search] in H.
    cbn [prev_after fold_left]. destruct (match_at re prev []); [discriminate|].
    discriminate H.
  - cbn [search] in H. destruct (match_at re prev (c :: t)) eqn:E.
    + exists [], (c :: t). split; [reflexivity|].
      cbn [prev_after fold_left]. rewrite E. discriminate.
    + destruct (IH (Some c) H) as [a [b [-> Hb]]].
      exists (c :: a), b. split; [reflexivity | exact Hb].
Qed.

(** The text up to the last newline, and the line after it. *)
Lemma last_line_split (a : jsstring) :
  exists PN l, a = PN ++ l /\ List.last PN nl = nl
               /\ forallb (in_class NotNL) l = true.
Proof.
  induction a as [|c a [PN [l [-> [HP Hl]]]]].
  - exists [], []. repeat split.
  - destruct PN as [|p PN].
    + destruct (N.eqb_spec c nl) as [->|Hc].
      * exists [nl], l. repeat split. exact Hl.
      * exists [], (c :: l). repeat split. cbn [forallb in_class NotNL].
        apply N.eqb_neq in Hc. unfold nl in Hc. now rewrite Hc, Hl.
    + exists (c :: p :: PN), l. repeat split; assumption.
Qed.

(** The first [# ] of a line that holds one. *)
Lemma first_comment (n l1' l : jsstring) :
  includes l n = true ->
  exists l1 cl,
    l1' ++ hash :: space :: l = l1 ++ hash :: space :: cl
    /\ includes l1 [hash; space] = false
    /\ includes cl n = true.
Proof.
  intros Hl. induction l1' as [|c t [l1 [cl [E [H1 Hc]]]]].
  - exists [], l. repeat split. exact Hl.
  - destruct (starts_with [hash; space] (c :: l1)) eqn:Es.
    + destruct (starts_with_inv _ _ Es) as [x Ex]. injection Ex as -> ->.
      exists [], (x ++ hash :: space :: cl). split; [|split].
      * cbn [app]. rewrite E. cbn [app]. reflexivity.
      * reflexivity.
      * apply includes_suffix. apply (includes_suffix [hash; space]). exact Hc.
    + exists (c :: l1), cl. split; [|split].
      * cbn [app]. now rewrite E.
      * cbn [includes]. cbn [includes] in H1. rewrite Es.
        destruct l1; cbn [includes] in *; exact H1.
      * exact Hc.
Qed.

(** The shape of the text before a block that the first replacement takes
    with it: the last line before the block holds [# ], for the first time
    after [l1], and after it the name. *)
Definition commented (name pre PN l1 cl : jsstring) : Prop :=
  pre = PN ++ l1 ++ hash :: space :: cl ++ [nl]
  /\ List.last PN nl = nl
  /\ forallb (in_class NotNL) l1 = true
  /\ includes l1 [hash; space] = false
  /\ forallb (in_class NotNL) cl = true
  /\ includes cl name = true.

(** No comment match starts before the first [# ] of the line. *)
Lemma fp_NoMatch_inline (n l1 S : jsstring) :
  alias_name n = true ->
  includes l1 [hash; space] = false ->
  NoMatch (functionPattern n) l1 (hash :: S).
Proof.
  intros Hn H1 a b prev Hab Hb.
  destruct (match_at (functionPattern n) prev (b ++ hash :: S)) as [z|] eqn:E;
    [exfalso|reflexivity].
  destruct (fp_inv n _ z prev Hn E) as [l [r [Es _]]].
  destruct b as [|b0 [|b1 b]]; [congruence| |].
  - cbn [app] in Es. injection Es as _ Es. discriminate Es.
  - cbn [app] in Es. injection Es as -> -> _.
    subst l1. rewrite (includes_suffix a _ [hash; space]) in H1;
      [discriminate H1|].
    apply includes_head. reflexivity.
Qed.

(** ** The block

    The block of a name, up to its closing brace: the name, the header,
    the body, and a closing brace at the beginning of a line. *)
Definition closed (name hb inner : jsstring) : jsstring :=
  name ++ hb ++ inner ++ [nl; rbrace].

(** The newline after the closing brace belongs to the block when there is
    one: [eol] is that newline, or nothing where no newline follows. *)
Definition line_end (eol post : jsstring) : Prop :=
  eol = [nl] \/ (eol = [] /\ starts_with [nl] post = false).

Lemma block_end_any (inner eol post : jsstring) :
  includes inner [nl; rbrace] = false -> line_end eol post ->
  mtch block_end (inner ++ [nl; rbrace] ++ eol ++ post) = Some post.
Proof.
  intros Hin [->|[-> Hp]]; [now apply block_end_first|].
  unfold block_end. cbn [mtch]. cbn [app].
  induction inner as [|c t IH].
  - cbn [app lazy_star chr]. rewrite !N.eqb_refl.
    destruct post as [|p post]; [reflexivity|].
    cbn [starts_with] in Hp. rewrite andb_true_r in Hp.
    cbn [opt]. rewrite N.eqb_sym, Hp. reflexivity.
  - cbn [includes] in Hin. apply orb_false_iff in Hin. destruct Hin as [Hc Ht].
    cbn [app lazy_star in_class].
    assert (E : chr nl (chr rbrace (opt nl (fun s => Some s)))
                  (c :: t ++ nl :: rbrace :: post) = None).
    { cbn [chr]. destruct (N.eqb_spec c nl) as [->|]; [|reflexivity].
      destruct t as [|d u]; [reflexivity|]. cbn [app chr].
      cbn [starts_with] in Hc. rewrite N.eqb_refl in Hc. cbn [andb] in Hc.
      rewrite andb_true_r in Hc. rewrite N.eqb_sym in Hc. now rewrite Hc. }
    rewrite E. now apply IH.
Qed.

Lemma block_at (name hb inner eol post : jsstring) :
  alias_name name = true -> tail_scan hb = Some [] ->
  includes inner [nl; rbrace] = false -> line_end eol post ->
  mtch (header name ++ block_end) ((closed name hb inner ++ eol) ++ post)
  = Some post.
Proof.
  intros Hn Hhb Hin He. rewrite mtch_header. unfold closed.
  rewrite <- !app_assoc. rewrite (hscan_site name hb _ Hn Hhb).
  now apply block_end_any.
Qed.

Lemma closed_nonempty (name hb inner eol : jsstring) :
  closed name hb inner ++ eol <> [].
Proof.
  unfold closed. intros E. apply app_eq_nil in E. destruct E as [E _].
  apply app_eq_nil in E. destruct E as [_ E].
  apply app_eq_nil in E. destruct E as [_ E].
  apply app_eq_nil in E. destruct E as [_ E]. discriminate E.
Qed.

(** The second replacement removes the block and nothing else when no
    other header of the name is in the text. *)
Lemma replace_simple_closed
    (name hb inner eol pre post : jsstring) (prev : option cu) :
  alias_name name = true -> tail_scan hb = Some [] ->
  includes inner [nl; rbrace] = false -> line_end eol post ->
  hfree name pre ((closed name hb inner ++ eol) ++ post) ->
  hfree name post [] ->
  replace_from (simplePattern name) [] O prev
    (pre ++ (closed name hb inner ++ eol) ++ post)
  = pre ++ post.
Proof.
  intros Hn Hhb Hin He Hpre Hpost.
  rewrite replace_skip by now apply simple_NoMatch.
  rewrite replace_match.
  - cbn [app]. f_equal.
    rewrite <- (app_nil_r post) at 1.
    rewrite replace_skip by now apply simple_NoMatch.
    rewrite replace_nil by apply simple_nil. apply app_nil_r.
  - apply closed_nonempty.
  - unfold match_at, simplePattern. cbn [anchored body andb].
    now apply block_at.
Qed.

(** The first replacement takes the comment from its [# ] on and the
    block. *)
Lemma replace_inline_comment (n PN l1 cl hb inner eol Z : jsstring) :
  alias_name n = true -> tail_scan hb = Some [] ->
  includes inner [nl; rbrace] = false -> line_end eol Z ->
  commented n (PN ++ l1 ++ hash :: space :: cl ++ [nl]) PN l1 cl ->
  hfree n (PN ++ l1 ++ hash :: space :: cl ++ [nl])
    ((closed n hb inner ++ eol) ++ Z) ->
  hfree n Z [] ->
  replace (functionPattern n) []
    ((PN ++ l1 ++ hash :: space :: cl ++ [nl])
     ++ (closed n hb inner ++ eol) ++ Z)
  = PN ++ l1 ++ Z.
Proof.
  intros Hn Hhb Hin He [_ [Hl [Hl1 [Hfirst [Hcl Hcn]]]]] Hpre HZ.
  set (Cm := hash :: space :: cl ++ [nl]) in *.
  pose proof (block_at n hb inner eol Z Hn Hhb Hin He) as Hsite.
  pose proof (closed_nonempty n hb inner eol) as Hne.
  set (FB := closed n hb inner ++ eol) in *.
  assert (E : (PN ++ l1 ++ Cm) ++ FB ++ Z = (PN ++ l1) ++ (Cm ++ FB) ++ Z)
    by now rewrite <- !app_assoc.
  rewrite E. unfold replace.
  rewrite replace_skip.
  - rewrite replace_match.
    + cbn [app]. rewrite (replace_none _ _ Z);
        [|now apply fp_NoMatch_hfree | apply fp_nil].
      now rewrite <- app_assoc.
    + discriminate.
    + rewrite <- app_assoc. unfold Cm. cbn [app]. rewrite <- app_assoc.
      cbn [app]. now apply fp_at_comment.
  - apply NoMatch_app.
    + apply fp_NoMatch_line; try assumption.
      * rewrite <- !app_assoc. rewrite (app_assoc l1 Cm).
        apply hfree_prefix. exact Hpre.
      * rewrite <- !app_assoc.
        rewrite (app_assoc l1 Cm). apply (Hpre PN (l1 ++ Cm)); [reflexivity|].
        unfold Cm. destruct l1; discriminate.
    + rewrite <- app_assoc. unfold Cm. cbn [app]. now apply fp_NoMatch_inline.
Qed.

(** Where a comment match is found, the text before the block has the
    shape of [commented]. *)
Lemma commented_exists (n pre W : jsstring) :
  alias_name n = true ->
  hfree n pre W ->
  hfree n (List.tl W) [] ->
  test (functionPattern n) (pre ++ W) = true ->
  exists PN l1 cl, commented n pre PN l1 cl.
Proof.
  intros Hn Hpre Htl Ht.
  destruct (search_true_inv _ _ _ Ht) as [a [b [E Hm]]].
  destruct (match_at (functionPattern n) (prev_after None a) b) as [z|] eqn:Em;
    [clear Hm | congruence].
  destruct (fp_inv n b z _ Hn Em) as [l [r [-> [Hl [Hln Hr]]]]].
  destruct (block_rest_nonempty n r z Hr) as [Hh Hne].
  assert (Epre : pre = a ++ hash :: space :: l ++ [nl]).
  { assert (E' : pre ++ W = (a ++ hash :: space :: l ++ [nl]) ++ r).
    { rewrite E, <- !app_assoc. cbn [app]. rewrite <- app_assoc. reflexivity. }
    apply app_eq_app in E'. destruct E' as [k [[E1 E2]|[E1 E2]]].
    - destruct k as [|k0 k]; [now rewrite app_nil_r in E1|].
      exfalso. apply Hh. rewrite E2. apply (Hpre _ (k0 :: k) E1). discriminate.
    - destruct k as [|k0 k]; [now rewrite app_nil_r in E1|].
      exfalso. apply Hh. rewrite <- (app_nil_r r).
      apply (Htl k r); [|exact Hne]. rewrite E2. reflexivity. }
  destruct (last_line_split a) as [PN [l1' [-> [HP Hl1']]]].
  destruct (first_comment n l1' l Hln) as [l1 [cl [Ec [H1 Hc]]]].
  assert (Hline : forallb (in_class NotNL) (l1 ++ hash :: space :: cl) = true).
  { rewrite <- Ec, forallb_app, Hl1'. cbn [forallb andb]. exact Hl. }
  rewrite forallb_app in Hline. apply andb_true_iff in Hline.
  destruct Hline as [Hn1 Hn2]. cbn [forallb] in Hn2.
  exists PN, l1, cl. repeat split; try assumption.
  rewrite Epre, <- !app_assoc.
  change (hash :: space :: l ++ [nl]) with ((hash :: space :: l) ++ [nl]).
  change (hash :: space :: cl ++ [nl]) with ((hash :: space :: cl) ++ [nl]).
  rewrite !app_assoc. f_equal. rewrite <- !app_assoc. f_equal. exact Ec.
Qed.

(** A text without three newlines in a row that neither begins nor ends
    with a newline comes through the last replacement unchanged, whatever
    is around it. *)
Lemma collapse_keeps_closed (a c : jsstring) (m hb inner : jsstring) :
  starts_with [nl] (closed m hb inner) = false ->
  calm 0 (closed m hb inner) = true ->
  exists a' c',
    collapse (a ++ closed m hb inner ++ c) = a' ++ closed m hb inner ++ c'
    /\ nleq a a' /\ nleq c c'.
Proof.
  intros Hhead Hcalm.
  assert (EB : closed m hb inner = (m ++ hb ++ inner ++ [nl]) ++ [rbrace])
    by (unfold closed; now rewrite <- !app_assoc).
  rewrite EB in *. clear EB.
  destruct (m ++ hb ++ inner ++ [nl]) as [|x B] eqn:EX.
  { exfalso. apply app_eq_nil in EX. destruct EX as [_ EX].
    apply app_eq_nil in EX. destruct EX as [_ EX].
    apply app_eq_nil in EX. destruct EX as [_ EX]. discriminate EX. }
  cbn [app starts_with] in Hhead. rewrite andb_true_r in Hhead.
  assert (Hx : (x =? nl) = false) by (rewrite N.eqb_sym; exact Hhead).
  assert (HB : calm 0 B = true).
  { cbn [app calm] in Hcalm. rewrite Hx in Hcalm.
    clear - Hcalm. revert Hcalm. generalize 0%nat.
    induction B as [|y B IH]; intros k H; [reflexivity|].
    cbn [app calm] in *. destruct (y =? nl).
    - apply andb_true_iff in H. destruct H as [-> H]. now apply IH.
    - now apply IH. }
  cbn [app]. rewrite <- app_assoc. cbn [app].
  rewrite (collapse_split a _ x Hx).
  rewrite (collapse_squeeze (B ++ _)).
  rewrite (squeeze_split B c rbrace 0 eq_refl).
  rewrite (squeeze_calm B 0 eq_refl HB). cbn [repeat app].
  exists (collapse a), (squeeze 0 c). split; [|split].
  - cbn [app]. rewrite <- app_assoc. reflexivity.
  - apply nleq_collapse.
  - apply (nleq_squeeze c 0).
Qed.


(** A profile in which a comment that names [gp] stands before the block
    of [gp]. *)
Definition gp_commented_pre : jsstring := lit "export A=1
# gp: push with a message
".

(** What an installation with the default names and a model of the gpt
    family appends: the line before the block of [gp] names the model. *)
Definition own_profile : jsstring := aliasContent defaults (toISOString noon).

Definition own_head : jsstring :=
  render (head_ps (lit "gp") (name aider) (lit "gpt-5") (toISOString noon)).

Definition own_comment : jsstring := cl (name aider) (lit "gpt-5").

Definition own_inner : jsstring :=
  render (gp_inner_ps (name aider) (command aider)
            (buildCLICommand aider (lit "gpt-5"))).

Definition own_rest : jsstring :=
  render (mid_ps (lit "gc") ++ comment_ps (name aider) (lit "gpt-5"))
  ++ gc_block (lit "gc") (name aider) (command aider)
       (buildCLICommand aider (lit "gpt-5")).

(** A block that ends the file, no newline after its closing brace. *)
Definition gp_at_end : jsstring := lit "export A=1

gp() {
  git push
}".


End RemovalFrame.

(* ===================================================================== *)
(** * The backup and the installation *)
(* ===================================================================== *)

Section BackupInstall.
Import Installer.

(** What [installAliases] renders ends with the two generated functions,
    the push function first, a blank line between them. *)
Lemma aliasContent_blocks (a : install_args) (ts : jsstring) :
  aliasContent a ts
  = (install_text0 ++ name (cli a) ++ install_text1 ++ model a
     ++ install_text2 ++ ts ++ install_text3)
    ++ generateGpAlias (gpAlias a) (cli a) (model a) ++ [nl; nl]
    ++ generateGcAlias (gcAlias a) (cli a) (model a) ++ [nl].
Proof. rewrite <- !app_assoc. vm_compute. reflexivity. Qed.

(** C8.  [backupProfile] never throws: it returns the backup path when the
    copy succeeds and null when the profile is missing or the copy is
    refused, leaving the file system as it was.  [installAliases] does not
    look at that result: whenever there is no conflict and the profile can
    be written, it succeeds, whether the backup was made or not, and the
    profile is what the removals of an overwrite left, followed by the
    rendered text; for plain shell names both functions are then detected
    in the profile.  The rendered text is a banner followed by the two
    generated functions, the push function first. *)
Theorem backup_never_blocks_install
    (h : host) (clk : clock) (st : fs_state) (a : install_args) :
  let shell := fst (detectShellProfile h st) in
  let profile := snd (detectShellProfile h st) in
  let gpExists := aliasExists st profile (gpAlias a) in
  let gcExists := aliasExists st profile (gcAlias a) in
  let st1 :=
    if overwrite a then
      let st0 := if gpExists
                 then fst (removeExistingAlias st profile (gpAlias a))
                 else st in
      if gcExists then fst (removeExistingAlias st0 profile (gcAlias a))
      else st0
    else st in
  let bp := profile ++ lit ".backup." ++ decimal (now clk) in
  let st' := set_file (fst (backupProfile clk st1 profile)) profile
               (default [] (files st1 !! profile)
                ++ aliasContent a (toISOString clk)) in
  (forall d, files st1 !! profile = Some d -> denied st1 bp = false ->
     backupProfile clk st1 profile = (set_file st1 bp d, Some bp))
  /\ (files st1 !! profile = None \/ denied st1 bp = true ->
      backupProfile clk st1 profile = (st1, None))
  /\ ((gpExists || gcExists) && negb (overwrite a) = false ->
      denied st profile = false ->
      installAliases h clk st a = (st', Success shell profile)
      /\ (alias_name (gpAlias a) = true -> alias_name (gcAlias a) = true ->
          aliasExists st' profile (gpAlias a) = true
          /\ aliasExists st' profile (gcAlias a) = true))
  /\ (exists banner,
        aliasContent a (toISOString clk)
        = banner ++ generateGpAlias (gpAlias a) (cli a) (model a) ++ [nl; nl]
          ++ generateGcAlias (gcAlias a) (cli a) (model a) ++ [nl]).
Proof.
  cbv zeta. split; [|split; [|split]].
  - intros d Hd Hw. unfold backupProfile, copyFile. now rewrite Hd, Hw.
  - intros H. unfold backupProfile, copyFile.
    destruct (files _ !! _) eqn:E; [|reflexivity].
    destruct H as [H|H]; [discriminate H | now rewrite H].
  - intros Hc Hw. split; [now apply (installAliases_appends h clk st a)|].
    intros Hgp Hgc.
    split; rewrite (aliasExists_file _ _ _ _ (set_file_lookup _ _ _)),
             aliasContent_content.
    + now apply detected_gp.
    + now apply detected_gc.
  - eexists. apply aliasContent_blocks.
Qed.

(** No profile yet: the backup fails, the installation goes through, and
    the new profile defines both functions. *)
Lemma backup_never_blocks_install_witness :
  let profile := lit "/home/u/.zshrc" in
  let st' := set_file no_profile profile
               (aliasContent defaults (toISOString noon)) in
  backupProfile noon no_profile profile = (no_profile, None)
  /\ installAliases zsh_host noon no_profile defaults
     = (st', Success Zsh profile)
  /\ aliasExists st' profile (lit "gp") = true
  /\ aliasExists st' profile (lit "gc") = true.
Proof.
  cbv zeta.
  destruct (backup_never_blocks_install zsh_host noon no_profile defaults)
    as [_ [H1 [H2 _]]].
  destruct H2 as [H2 H3]; [reflexivity | reflexivity |].
  split; [apply H1; left; reflexivity|].
  split.
  - rewrite H2. rewrite H1; [|left; reflexivity].
    vm_compute. reflexivity.
  - destruct H3 as [G1 G2]; [vm_compute; reflexivity | vm_compute; reflexivity|].
    revert G1 G2. vm_compute. intros G1 G2. split; assumption.
Defined.

End BackupInstall.

(* ===================================================================== *)
(** * Overwriting a function written on one line *)
(* ===================================================================== *)

Section OneLineFunction.
Import Installer.

(** A profile in which the user defines [gp] on one line. *)
Definition one_line_gp : fs_state := with_profile (lit "gp() { git push; }
").

(** C2.  The profile defines [gp] on one line.  The first installation is
    refused, since the name is detected; the installation with [overwrite]
    that follows succeeds, and the profile then holds two headers of [gp]
    at the beginning of a line, the one of the user and the new one: the
    removal looks for a closing brace at the beginning of a line, finds
    none, and removes nothing.  The other name is there once. *)
Theorem overwrite_keeps_one_line_function :
  let profile := lit "/home/u/.zshrc" in
  let st' := fst (installAliases zsh_host later one_line_gp (again defaults)) in
  aliasExists one_line_gp profile (lit "gp") = true
  /\ installAliases zsh_host noon one_line_gp defaults
     = (one_line_gp, Conflict [lit "gp"] profile)
  /\ fst (removeExistingAlias one_line_gp profile (lit "gp")) = one_line_gp
  /\ snd (installAliases zsh_host later one_line_gp (again defaults))
     = Success Zsh profile
  /\ option_map (count (existsPattern (lit "gp"))) (files st' !! profile)
     = Some 2%nat
  /\ option_map (count (existsPattern (lit "gc"))) (files st' !! profile)
     = Some 1%nat.
Proof. cbv zeta. repeat split; vm_compute; reflexivity. Qed.

End OneLineFunction.

(* ===================================================================== *)
(** * The installer as a whole *)
(* ===================================================================== *)

Section InstallerFacts.
Import Installer.

(** ** What the steps leave alone *)

Lemma removeExistingAlias_other (st : fs_state) (p n q : jsstring) :
  q <> p -> files (fst (removeExistingAlias st p n)) !! q = files st !! q.
Proof.
  intros Hq. unfold removeExistingAlias, readFile, writeFile.
  destruct (files st !! p); [|reflexivity].
  destruct (denied st p); [reflexivity|]. cbn [fst set_file files].
  apply lookup_insert_ne. congruence.
Qed.

Lemma set_file_exists (st : fs_state) (p d q : jsstring) :
  is_Some (files st !! q) -> is_Some (files (set_file st p d) !! q).
Proof.
  intros H. unfold set_file. cbn [files].
  destruct (decide (p = q)) as [->|Hne].
  - rewrite lookup_insert_eq. eauto.
  - now rewrite lookup_insert_ne.
Qed.

Lemma removeExistingAlias_exists (st : fs_state) (p n q : jsstring) :
  is_Some (files st !! q) ->
  is_Some (files (fst (removeExistingAlias st p n)) !! q).
Proof.
  intros H. unfold removeExistingAlias, readFile, writeFile.
  destruct (files st !! p); [|exact H].
  destruct (denied st p); [exact H|]. cbn [fst]. now apply set_file_exists.
Qed.

Lemma remove_old_other (st : fs_state) (p : jsstring) (a : install_args)
    (x y : bool) (q : jsstring) :
  q <> p -> files (remove_old st p a x y) !! q = files st !! q.
Proof.
  intros Hq. unfold remove_old. destruct (overwrite a); [|reflexivity].
  destruct x, y; rewrite ?removeExistingAlias_other by exact Hq; reflexivity.
Qed.

Lemma remove_old_exists (st : fs_state) (p : jsstring) (a : install_args)
    (x y : bool) (q : jsstring) :
  is_Some (files st !! q) -> is_Some (files (remove_old st p a x y) !! q).
Proof.
  intros H. unfold remove_old. destruct (overwrite a); [|exact H].
  destruct x, y; auto using removeExistingAlias_exists.
Qed.

Lemma remove_old_refused (st : fs_state) (p : jsstring) (a : install_args)
    (x y : bool) :
  denied st p = true -> remove_old st p a x y = st.
Proof.
  intros Hd.
  assert (E : forall n, fst (removeExistingAlias st p n) = st).
  { intros n. unfold removeExistingAlias, readFile, writeFile.
    destruct (files st !! p); [|reflexivity]. now rewrite Hd. }
  unfold remove_old. destruct (overwrite a); [|reflexivity].
  destruct x, y; rewrite ?E; reflexivity.
Qed.

Lemma backupProfile_other (clk : clock) (st : fs_state) (p q : jsstring) :
  q <> backupPath clk p ->
  files (fst (backupProfile clk st p)) !! q = files st !! q.
Proof.
  intros Hq. unfold backupProfile, copyFile. fold (backupPath clk p).
  destruct (files st !! p); [|reflexivity].
  destruct (denied st (backupPath clk p)); [reflexivity|].
  cbn [fst set_file files]. apply lookup_insert_ne. congruence.
Qed.

Lemma backupProfile_exists (clk : clock) (st : fs_state) (p q : jsstring) :
  is_Some (files st !! q) -> is_Some (files (fst (backupProfile clk st p)) !! q).
Proof.
  intros H. unfold backupProfile, copyFile.
  destruct (files st !! p); [|exact H].
  destruct (denied st _); [exact H|]. cbn [fst]. now apply set_file_exists.
Qed.

(** The installation, step by step, when it is not refused. *)
Lemma installAliases_steps
    (h : host) (clk : clock) (st : fs_state) (a : install_args) :
  let shell := fst (detectShellProfile h st) in
  let profile := snd (detectShellProfile h st) in
  let gpExists := aliasExists st profile (gpAlias a) in
  let gcExists := aliasExists st profile (gcAlias a) in
  let st1 := remove_old st profile a gpExists gcExists in
  let st2 := fst (backupProfile clk st1 profile) in
  (gpExists || gcExists) && negb (overwrite a) = false ->
  installAliases h clk st a
  = if denied st profile then (st2, Failure EACCES)
    else (set_file st2 profile
            (default [] (files st1 !! profile)
             ++ aliasContent a (toISOString clk)),
          Success shell profile).
Proof.
  cbv zeta. intros Hc. unfold installAliases.
  destruct (detectShellProfile h st) as [shell profile]. cbn [fst snd] in *.
  rewrite Hc. unfold appendFile. cbv zeta.
  destruct (backupProfile_frame clk
              (remove_old st profile a (aliasExists st profile (gpAlias a))
                 (aliasExists st profile (gcAlias a))) profile) as [Hf Hd].
  rewrite Hd, remove_old_denied, Hf.
  now destruct (denied st profile).
Qed.

Lemma installAliases_refuses
    (h : host) (clk : clock) (st : fs_state) (a : install_args) :
  let profile := snd (detectShellProfile h st) in
  let gpExists := aliasExists st profile (gpAlias a) in
  let gcExists := aliasExists st profile (gcAlias a) in
  (gpExists || gcExists) && negb (overwrite a) = true ->
  installAliases h clk st a
  = (st, Conflict ((if gpExists then [gpAlias a] else [])
                   ++ (if gcExists then [gcAlias a] else [])) profile).
Proof.
  cbv zeta. intros Hc. unfold installAliases.
  destruct (detectShellProfile h st) as [shell profile]. cbn [fst snd] in *.
  now rewrite Hc.
Qed.

(** ** The conflict check *)

(** X2.  [installAliases] refuses exactly when [checkExistingAliases]
    reports a conflict and [overwrite] is not set.  It then names the
    aliases the check found, the push alias first, and leaves the file
    system as it was.  In every other case the result is no conflict. *)
Theorem installAliases_conflict_as_checked
    (h : host) (clk : clock) (st : fs_state) (a : install_args) :
  let c := checkExistingAliases h st (gpAlias a) (gcAlias a) in
  let names := (if gpExists c then [gpAlias a] else [])
               ++ (if gcExists c then [gcAlias a] else []) in
  (hasConflict c && negb (overwrite a) = true ->
     installAliases h clk st a = (st, Conflict names (profile c))
     /\ names <> [])
  /\ (hasConflict c && negb (overwrite a) = false ->
      forall l p, snd (installAliases h clk st a) <> Conflict l p).
Proof.
  cbv zeta. unfold checkExistingAliases.
  cbn [profile gpExists gcExists hasConflict]. split; intros Hc.
  - split; [now apply installAliases_refuses|].
    destruct (aliasExists st _ (gpAlias a)); [discriminate|].
    destruct (aliasExists st _ (gcAlias a)); [discriminate|].
    discriminate Hc.
  - intros l p. rewrite (installAliases_steps h clk st a Hc).
    destruct (denied st _); discriminate.
Qed.

(** ** A profile that cannot be written *)

(** X3.  When the profile cannot be written and the installation is not
    refused for a conflict, it fails with the error of the append, and the
    profile is as before: the removals of an overwrite fail silently.  The
    backup is not undone: if the profile exists and the backup file can be
    written, the copy is there after the failure. *)
Theorem installAliases_profile_denied
    (h : host) (clk : clock) (st : fs_state) (a : install_args) :
  let profile := snd (detectShellProfile h st) in
  let st' := fst (installAliases h clk st a) in
  denied st profile = true ->
  (aliasExists st profile (gpAlias a) || aliasExists st profile (gcAlias a))
    && negb (overwrite a) = false ->
  snd (installAliases h clk st a) = Failure EACCES
  /\ files st' !! profile = files st !! profile
  /\ (forall d, files st !! profile = Some d ->
        denied st (backupPath clk profile) = false ->
        files st' !! backupPath clk profile = Some d).
Proof.
  cbv zeta. intros Hd Hc.
  rewrite (installAliases_steps h clk st a Hc), Hd. cbn [fst snd].
  rewrite remove_old_refused by exact Hd.
  split; [reflexivity|]. split.
  - apply backupProfile_frame.
  - intros d Hf Hb. unfold backupProfile, copyFile.
    fold (backupPath clk (snd (detectShellProfile h st))).
    rewrite Hf, Hb. cbn [fst]. apply set_file_lookup.
Qed.

(** ** The frame of an installation *)

Lemma installAliases_frame_paths
    (h : host) (clk : clock) (st : fs_state) (a : install_args)
    (q : jsstring) :
  let profile := snd (detectShellProfile h st) in
  let st' := fst (installAliases h clk st a) in
  (q <> profile -> q <> backupPath clk profile ->
     files st' !! q = files st !! q)
  /\ (is_Some (files st !! q) -> is_Some (files st' !! q))
  /\ denied st' = denied st.
Proof.
  cbv zeta.
  destruct ((aliasExists st (snd (detectShellProfile h st)) (gpAlias a)
             || aliasExists st (snd (detectShellProfile h st)) (gcAlias a))
            && negb (overwrite a)) eqn:Hc.
  - rewrite (installAliases_refuses h clk st a Hc). cbn [fst]. auto.
  - rewrite (installAliases_steps h clk st a Hc).
    set (p := snd (detectShellProfile h st)).
    set (st1 := remove_old st p a _ _).
    assert (Hden : denied (fst (backupProfile clk st1 p)) = denied st).
    { destruct (backupProfile_frame clk st1 p) as [_ ->].
      apply remove_old_denied. }
    destruct (denied st p); cbn [fst].
    + split; [|split].
      * intros Hq Hb. rewrite backupProfile_other by exact Hb.
        now apply remove_old_other.
      * intros H. apply backupProfile_exists. now apply remove_old_exists.
      * exact Hden.
    + split; [|split].
      * intros Hq Hb. unfold set_file. cbn [files].
        rewrite lookup_insert_ne by congruence.
        rewrite backupProfile_other by exact Hb. now apply remove_old_other.
      * intros H. apply set_file_exists, backupProfile_exists.
        now apply remove_old_exists.
      * exact Hden.
Qed.

(** X4.  Whatever its outcome, [installAliases] touches two paths at most:
    the profile and the backup file of this run.  Every other file is as
    before, no file is deleted, and the permissions are as before. *)
Theorem installAliases_touches_two_paths
    (h : host) (clk : clock) (st : fs_state) (a : install_args)
    (q : jsstring) :
  let profile := snd (detectShellProfile h st) in
  let st' := fst (installAliases h clk st a) in
  (q <> profile -> q <> backupPath clk profile ->
     files st' !! q = files st !! q)
  /\ (is_Some (files st !! q) -> is_Some (files st' !! q))
  /\ denied st' = denied st.
Proof. apply installAliases_frame_paths. Qed.

(** ** The detected profile *)

Lemma file_exists_Some (st : fs_state) (q : jsstring) :
  file_exists st q = true <-> is_Some (files st !! q).
Proof. unfold file_exists. apply bool_decide_eq_true. Qed.

Lemma file_exists_None (st : fs_state) (q : jsstring) :
  file_exists st q = false <-> files st !! q = None.
Proof.
  unfold file_exists. rewrite bool_decide_eq_false.
  rewrite <- eq_None_not_Some. reflexivity.
Qed.

Lemma bash_paths (home : jsstring) (clk : clock) :
  let bashrc := posix_join home (lit ".bashrc") in
  let bashProfile := posix_join home (lit ".bash_profile") in
  bashProfile <> bashrc
  /\ bashrc <> backupPath clk bashProfile
  /\ bashProfile <> backupPath clk bashrc.
Proof.
  cbv zeta. unfold backupPath, posix_join. repeat split; intros E.
  - apply app_inv_head in E. apply app_inv_head in E.
    vm_compute in E. discriminate E.
  - rewrite <- !app_assoc in E.
    apply app_inv_head in E. apply app_inv_head in E.
    revert E. generalize (lit ".backup." ++ decimal (now clk)). intros q E.
    vm_compute in E. discriminate E.
  - rewrite <- !app_assoc in E.
    apply app_inv_head in E. apply app_inv_head in E.
    revert E. generalize (lit ".backup." ++ decimal (now clk)). intros q E.
    vm_compute in E. discriminate E.
Qed.

Lemma installAliases_same_profile
    (h : host) (clk : clock) (st : fs_state) (a : install_args) :
  path_join h = posix_join ->
  detectShellProfile h (fst (installAliases h clk st a))
  = detectShellProfile h st.
Proof.
  intros Hj.
  pose proof (installAliases_frame_paths h clk st a) as F. cbv zeta in F.
  revert F. generalize (fst (installAliases h clk st a)). intros st' F.
  unfold detectShellProfile in *. rewrite Hj in *. cbv zeta in *.
  destruct (includes (default [] (env_SHELL h)) (lit "zsh")); [reflexivity|].
  rewrite !access_file_exists in *.
  destruct (bash_paths (homedir h) clk) as [N1 [N2 N3]]. cbv zeta in *.
  set (bashrc := posix_join (homedir h) (lit ".bashrc")) in *.
  set (bashProfile := posix_join (homedir h) (lit ".bash_profile")) in *.
  destruct (file_exists st bashrc) eqn:E1; cbn [snd] in F.
  - destruct (F bashrc) as [_ [M _]].
    apply file_exists_Some in E1. apply M, file_exists_Some in E1.
    now rewrite E1.
  - destruct (file_exists st bashProfile) eqn:E2; cbn [snd] in F.
    + destruct (F bashrc) as [Fr _]. destruct (F bashProfile) as [_ [M _]].
      apply file_exists_None in E1. rewrite <- Fr in E1 by (congruence || exact N2).
      apply file_exists_None in E1. rewrite E1.
      apply file_exists_Some in E2. apply M, file_exists_Some in E2.
      now rewrite E2.
    + destruct (file_exists st' bashrc); [reflexivity|].
      destruct (F bashProfile) as [Fr _].
      apply file_exists_None in E2. rewrite <- Fr in E2 by (exact N1 || exact N3).
      apply file_exists_None in E2. now rewrite E2.
Qed.

(** X5.  With POSIX paths, an installation does not change which profile
    is detected, whatever its outcome: the next run of the installer works
    on the same file. *)
Theorem installAliases_keeps_detection
    (h : host) (clk : clock) (st : fs_state) (a : install_args) :
  path_join h = posix_join ->
  detectShellProfile h (fst (installAliases h clk st a))
  = detectShellProfile h st.
Proof. apply installAliases_same_profile. Qed.

(** ** Install, then ask again *)

(** The same request without [overwrite]. *)
Definition once (a : install_args) : install_args :=
  {| gpAlias := gpAlias a; gcAlias := gcAlias a; cli := cli a;
     model := model a; overwrite := false |}.

Lemma installAliases_success
    (h : host) (clk : clock) (st st' : fs_state) (a : install_args)
    (sh : shell_kind) (p : jsstring) :
  installAliases h clk st a = (st', Success sh p) ->
  p = snd (detectShellProfile h st)
  /\ exists X, files st' !! p = Some (X ++ aliasContent a (toISOString clk)).
Proof.
  intros H.
  destruct ((aliasExists st (snd (detectShellProfile h st)) (gpAlias a)
             || aliasExists st (snd (detectShellProfile h st)) (gcAlias a))
            && negb (overwrite a)) eqn:Hc.
  - rewrite (installAliases_refuses h clk st a Hc) in H. discriminate H.
  - rewrite (installAliases_steps h clk st a Hc) in H.
    destruct (denied st _); [discriminate H|].
    injection H as <- _ <-. split; [reflexivity|].
    eexists. apply set_file_lookup.
Qed.

(** X6.  For plain shell names (not empty; no white space, no syntax
    character of regular expressions, no [#]): after an installation that
    succeeded, whatever the profile held and whatever the provider, the
    model and the time stamp are, both names are detected in the profile;
    with POSIX paths, the same request without [overwrite] is then refused
    with both names, and writes nothing. *)
Theorem install_then_refused
    (h : host) (clk clk' : clock) (st st' : fs_state) (a : install_args)
    (sh : shell_kind) (p : jsstring) :
  path_join h = posix_join ->
  alias_name (gpAlias a) = true -> alias_name (gcAlias a) = true ->
  installAliases h clk st a = (st', Success sh p) ->
  aliasExists st' p (gpAlias a) = true
  /\ aliasExists st' p (gcAlias a) = true
  /\ installAliases h clk' st' (once a)
     = (st', Conflict [gpAlias a; gcAlias a] p).
Proof.
  intros Hj Hgp Hgc H.
  destruct (installAliases_success h clk st st' a sh p H) as [Hp [X HX]].
  assert (E1 : aliasExists st' p (gpAlias a) = true).
  { rewrite (aliasExists_file st' p _ _ HX), aliasContent_content.
    now apply detected_gp. }
  assert (E2 : aliasExists st' p (gcAlias a) = true).
  { rewrite (aliasExists_file st' p _ _ HX), aliasContent_content.
    now apply detected_gc. }
  split; [exact E1|]. split; [exact E2|].
  assert (Hdet : snd (detectShellProfile h st') = p).
  { pose proof (installAliases_same_profile h clk st a Hj) as D.
    rewrite H in D. cbn [fst] in D. now rewrite D. }
  pose proof (installAliases_refuses h clk' st' (once a)) as R. cbv zeta in R.
  rewrite Hdet in R. cbn [gpAlias gcAlias overwrite once] in R.
  rewrite E1, E2 in R. now apply R.
Qed.

(** ** The backup of an overwriting installation *)

Lemma remove_old_content (st : fs_state) (p : jsstring) (a : install_args)
    (x y : bool) (d : jsstring) :
  overwrite a = true -> files st !! p = Some d -> denied st p = false ->
  files (remove_old st p a x y) !! p
  = Some (let d1 := if x then removeFromContent (gpAlias a) d else d in
          if y then removeFromContent (gcAlias a) d1 else d1).
Proof.
  intros Ho Hf Hd. unfold remove_old. rewrite Ho. cbv zeta.
  destruct x.
  - rewrite (removeExistingAlias_writes st p _ d Hf Hd). cbn [fst].
    destruct y.
    + rewrite (removeExistingAlias_writes _ p _ _ (set_file_lookup _ _ _) Hd).
      cbn [fst]. apply set_file_lookup.
    + apply set_file_lookup.
  - destruct y.
    + rewrite (removeExistingAlias_writes st p _ d Hf Hd). cbn [fst].
      apply set_file_lookup.
    + exact Hf.
Qed.


(** ** What a removal writes *)

Lemma calm_flush_cons (k : nat) (c : cu) (X : jsstring) :
  (c =? nl) = false -> calm 0 X = true -> calm 0 (flush k ++ c :: X) = true.
Proof.
  intros Hc HX. unfold flush.
  destruct k as [|[|[|k]]]; cbn; rewrite Hc; exact HX.
Qed.

Lemma squeeze_is_calm (s : jsstring) (k : nat) : calm 0 (squeeze k s) = true.
Proof.
  revert k. induction s as [|c t IH]; intros k; cbn [squeeze].
  - unfold flush. destruct k as [|[|[|k]]]; reflexivity.
  - destruct (c =? nl) eqn:E; [apply IH|]. now apply calm_flush_cons.
Qed.

Lemma starts_with_run (j : nat) (s : jsstring) :
  starts_with (repeat nl (S j)) s = true -> starts_with (repeat nl j) s = true.
Proof.
  revert s. induction j as [|j IH]; intros s H; [reflexivity|].
  destruct s as [|c t]; [discriminate H|].
  cbn [repeat starts_with] in *. apply andb_true_iff in H. destruct H as [-> H].
  cbn [andb]. now apply IH.
Qed.

Lemma starts_with_cons (a : cu) (p : jsstring) (b : cu) (s : jsstring) :
  starts_with (a :: p) (b :: s) = (a =? b) && starts_with p s.
Proof. reflexivity. Qed.

Lemma includes_cons (c : cu) (t p : jsstring) :
  includes (c :: t) p = starts_with p (c :: t) || includes t p.
Proof. reflexivity. Qed.

Lemma includes_starts (t p : jsstring) :
  includes t p = false -> starts_with p t = false.
Proof.
  destruct t as [|c t]; cbn [includes]; intros H;
    now apply orb_false_iff in H.
Qed.

(** [calm] is the absence of three newline characters in a row. *)
Lemma calm_spec (s : jsstring) (k : nat) :
  (k <= 2)%nat ->
  calm k s = negb (starts_with (repeat nl (3 - k)) s)
             && negb (includes s [nl; nl; nl]).
Proof.
  revert k. induction s as [|c t IH]; intros k Hk.
  - destruct k as [|[|[|k]]]; try reflexivity. lia.
  - cbn [calm]. rewrite includes_cons, (N.eqb_sym c nl).
    assert (K : (k = 0 \/ k = 1 \/ k = 2)%nat) by lia.
    pose proof (includes_starts t [nl; nl; nl]) as HC.
    pose proof (starts_with_run 2 t) as H32.
    pose proof (starts_with_run 1 t) as H21. cbn [repeat] in H32, H21.
    assert (H0 : starts_with [] t = true) by reflexivity.
    destruct K as [-> | [-> | ->]]; cbn [Nat.sub repeat Nat.ltb Nat.leb];
      rewrite ?(IH 0%nat), ?(IH 1%nat), ?(IH 2%nat) by lia;
      cbn [Nat.sub repeat]; rewrite !starts_with_cons;
      rewrite ?H0; destruct (nl =? c); cbn [andb orb negb];
      destruct (includes t [nl; nl; nl]), (starts_with [nl; nl; nl] t),
        (starts_with [nl; nl] t), (starts_with [nl] t);
      cbn [andb orb negb]; try reflexivity;
      solve [ discriminate (HC eq_refl) | discriminate (H32 eq_refl)
            | discriminate (H21 eq_refl) ].
Qed.

Lemma calm_includes (s : jsstring) :
  calm 0 s = negb (includes s [nl; nl; nl]).
Proof.
  rewrite calm_spec by lia. cbn [Nat.sub repeat].
  destruct s as [|c t]; [reflexivity|]. cbn [includes].
  now destruct (starts_with [nl; nl; nl] (c :: t)).
Qed.

(** X8.  A removal that succeeds writes a profile without three newline
    characters in a row, whatever the profile held and whether or not a
    block of the name was found. *)
Theorem removeExistingAlias_no_blank_runs
    (st st' : fs_state) (p n : jsstring) :
  removeExistingAlias st p n = (st', true) ->
  exists d, files st' !! p = Some d /\ includes d [nl; nl; nl] = false.
Proof.
  unfold removeExistingAlias, readFile, writeFile. intros H.
  destruct (files st !! p) as [d|]; [|discriminate H].
  destruct (denied st p); [discriminate H|].
  injection H as <-. eexists. split; [apply set_file_lookup|].
  unfold removeFromContent. fold (collapse (replace (simplePattern n) []
    (replace (functionPattern n) [] d))).
  rewrite collapse_squeeze.
  pose proof (squeeze_is_calm (replace (simplePattern n) []
                 (replace (functionPattern n) [] d)) 0) as C.
  rewrite calm_includes in C. now apply negb_true_iff in C.
Qed.

(** X9.  Removing a plain shell name of which the profile holds no
    header, anywhere, only collapses the runs of newline characters; when
    the text of the profile has no three newline characters in a row, the
    text that was read is written back and no other file is touched: the
    files, held as the texts they decode to, are as they were. *)
Theorem removeExistingAlias_absent_name
    (st : fs_state) (p n d : jsstring) :
  alias_name n = true ->
  files st !! p = Some d -> denied st p = false ->
  test (headerPattern n) d = false ->
  removeExistingAlias st p n = (set_file st p (collapse d), true)
  /\ (includes d [nl; nl; nl] = false -> removeExistingAlias st p n = (st, true)).
Proof.
  intros Hn Hf Hd Ht.
  assert (Hfree : hfree n d []) by now apply search_hfree.
  assert (E : removeFromContent n d = collapse d).
  { rewrite removeFromContent_eq. f_equal. unfold replace.
    rewrite (replace_none (functionPattern n)).
    - apply replace_none; [now apply simple_NoMatch | apply simple_nil].
    - now apply fp_NoMatch_hfree.
    - apply fp_nil. }
  rewrite (removeExistingAlias_writes st p n d Hf Hd), E.
  split; [reflexivity|]. intros Hc.
  rewrite collapse_calm by (rewrite calm_includes, Hc; reflexivity).
  f_equal. destruct st as [fs dn]. unfold set_file. cbn [files Fs.denied] in *.
  f_equal. now apply insert_id.
Qed.

(** ** Examples *)

Ltac decided := refine (bool_decide_unpack _ _); vm_compute; exact I.

(** A profile in which the user defines [gp]. *)
Definition own_gp : fs_state :=
  with_profile (lit "gp() {
  git push
}
").

(** A profile the process may read and not write. *)
Definition read_only : fs_state :=
  {| files := {[ lit "/home/u/.zshrc" := lit "export A=1
" ]};
     denied := fun p => bool_decide (p = lit "/home/u/.zshrc") |}.

(** The file system after a first installation. *)
Definition installed : fs_state :=
  fst (installAliases zsh_host noon no_profile defaults).

Definition blank_lines : fs_state :=
  with_profile (lit "export A=1



export B=2
").

Lemma installAliases_conflict_as_checked_witness :
  installAliases zsh_host noon own_gp defaults
  = (own_gp, Conflict [lit "gp"] (lit "/home/u/.zshrc"))
  /\ forall l p,
       snd (installAliases zsh_host noon own_gp (again defaults))
       <> Conflict l p.
Proof.
  split.
  - pose proof (installAliases_conflict_as_checked zsh_host noon own_gp
                  defaults) as H. cbv zeta in H.
    destruct H as [H _]. destruct H as [H _]; [vm_compute; reflexivity|].
    rewrite H. vm_compute. reflexivity.
  - pose proof (installAliases_conflict_as_checked zsh_host noon own_gp
                  (again defaults)) as H. cbv zeta in H.
    destruct H as [_ H]. apply H. vm_compute. reflexivity.
Defined.

Lemma installAliases_profile_denied_witness :
  let profile := snd (detectShellProfile zsh_host read_only) in
  let st' := fst (installAliases zsh_host noon read_only defaults) in
  snd (installAliases zsh_host noon read_only defaults) = Failure EACCES
  /\ files st' !! profile = files read_only !! profile
  /\ files st' !! backupPath noon profile = Some (lit "export A=1
").
Proof.
  pose proof (installAliases_profile_denied zsh_host noon read_only defaults)
    as H. cbv zeta in *.
  destruct H as [H1 [H2 H3]];
    [vm_compute; reflexivity | vm_compute; reflexivity |].
  split; [exact H1|]. split; [exact H2|].
  apply H3; vm_compute; reflexivity.
Defined.

Lemma installAliases_touches_two_paths_witness :
  let st' := fst (installAliases bash_host noon only_bash_profile defaults) in
  files st' !! lit "/home/u/.vimrc"
  = files only_bash_profile !! lit "/home/u/.vimrc"
  /\ is_Some (files st' !! lit "/home/u/.bash_profile").
Proof.
  cbv zeta. split.
  - apply (proj1 (installAliases_touches_two_paths bash_host noon
                    only_bash_profile defaults (lit "/home/u/.vimrc")));
      decided.
  - apply (proj1 (proj2 (installAliases_touches_two_paths bash_host noon
                           only_bash_profile defaults
                           (lit "/home/u/.bash_profile")))).
    decided.
Defined.

Lemma installAliases_keeps_detection_witness :
  detectShellProfile bash_host
    (fst (installAliases bash_host noon only_bash_profile defaults))
  = detectShellProfile bash_host only_bash_profile.
Proof.
  apply (installAliases_keeps_detection bash_host noon only_bash_profile
           defaults).
  reflexivity.
Defined.

Lemma install_then_refused_witness :
  installAliases zsh_host later installed (once defaults)
  = (installed, Conflict [lit "gp"; lit "gc"] (lit "/home/u/.zshrc")).
Proof.
  destruct (install_then_refused zsh_host noon later no_profile installed
              defaults Zsh (lit "/home/u/.zshrc")) as [_ [_ H]];
    [reflexivity | vm_compute; reflexivity | vm_compute; reflexivity
    | vm_compute; reflexivity | exact H].
Defined.


Lemma removeExistingAlias_no_blank_runs_witness :
  exists d,
    files (fst (removeExistingAlias blank_lines (lit "/home/u/.zshrc")
                  (lit "gp"))) !! lit "/home/u/.zshrc" = Some d
    /\ includes d [nl; nl; nl] = false.
Proof.
  apply (removeExistingAlias_no_blank_runs blank_lines _
           (lit "/home/u/.zshrc") (lit "gp")).
  vm_compute. reflexivity.
Defined.

Lemma removeExistingAlias_absent_name_witness :
  removeExistingAlias only_bash_profile (lit "/home/u/.bash_profile")
    (lit "gp")
  = (only_bash_profile, true).
Proof.
  destruct (removeExistingAlias_absent_name only_bash_profile
              (lit "/home/u/.bash_profile") (lit "gp") (lit "export A=1"))
    as [_ H];
    [vm_compute; reflexivity | vm_compute; reflexivity | reflexivity
    | vm_compute; reflexivity |].
  apply H. vm_compute. reflexivity.
Defined.

End InstallerFacts.

(* ===================================================================== *)
(** * The reload alias as a whole *)
(* ===================================================================== *)

Section ReloadFacts.
Import Installer.

Lemma reload_remove_other (st : fs_state) (p n q : jsstring) :
  q <> p -> files (fst (Reload.removeExistingAlias st p n)) !! q = files st !! q.
Proof.
  intros Hq. unfold Reload.removeExistingAlias, readFile, writeFile.
  destruct (files st !! p); [|reflexivity].
  destruct (denied st p); [reflexivity|]. cbn [fst set_file files].
  apply lookup_insert_ne. congruence.
Qed.

Lemma reload_remove_exists (st : fs_state) (p n q : jsstring) :
  is_Some (files st !! q) ->
  is_Some (files (fst (Reload.removeExistingAlias st p n)) !! q).
Proof.
  intros H. unfold Reload.removeExistingAlias, readFile, writeFile.
  destruct (files st !! p); [|exact H].
  destruct (denied st p); [exact H|]. cbn [fst]. now apply set_file_exists.
Qed.

Lemma reload_remove_denied (st : fs_state) (p n : jsstring) :
  denied (fst (Reload.removeExistingAlias st p n)) = denied st.
Proof.
  unfold Reload.removeExistingAlias, readFile, writeFile.
  destruct (files st !! p); [|reflexivity].
  destruct (denied st p); reflexivity.
Qed.

(** The installation of the reload alias, step by step, when it is not
    refused. *)
Lemma installReloadAlias_steps
    (h : host) (clk : clock) (st : fs_state) (name : jsstring) (ov : bool) :
  let shell := fst (detectShellProfile h st) in
  let profile := snd (detectShellProfile h st) in
  let exists_ := Reload.aliasExists st profile name in
  let st1 := if exists_ && ov
             then fst (Reload.removeExistingAlias st profile name) else st in
  exists_ && negb ov = false ->
  Reload.installReloadAlias h clk st name ov
  = if denied st profile then (st1, Reload.Failure EACCES)
    else (set_file st1 profile
            (default [] (files st1 !! profile)
             ++ Reload.aliasContent name profile (toISOString clk)),
          Reload.Success shell profile).
Proof.
  cbv zeta. intros Hc. unfold Reload.installReloadAlias.
  destruct (detectShellProfile h st) as [shell profile]. cbn [fst snd] in *.
  rewrite Hc. unfold appendFile.
  assert (Hd : denied (if Reload.aliasExists st profile name && ov
                       then fst (Reload.removeExistingAlias st profile name)
                       else st) = denied st).
  { destruct (_ && ov); [apply reload_remove_denied | reflexivity]. }
  rewrite Hd. now destruct (denied st profile).
Qed.

Lemma installReloadAlias_refuses
    (h : host) (clk : clock) (st : fs_state) (name : jsstring) (ov : bool) :
  let profile := snd (detectShellProfile h st) in
  Reload.aliasExists st profile name && negb ov = true ->
  Reload.installReloadAlias h clk st name ov = (st, Reload.Conflict profile).
Proof.
  cbv zeta. intros Hc. unfold Reload.installReloadAlias.
  destruct (detectShellProfile h st) as [shell profile]. cbn [fst snd] in *.
  now rewrite Hc.
Qed.

Lemma installReloadAlias_frame_paths
    (h : host) (clk : clock) (st : fs_state) (name : jsstring) (ov : bool)
    (q : jsstring) :
  let profile := snd (detectShellProfile h st) in
  let st' := fst (Reload.installReloadAlias h clk st name ov) in
  (q <> profile -> files st' !! q = files st !! q)
  /\ (is_Some (files st !! q) -> is_Some (files st' !! q))
  /\ denied st' = denied st.
Proof.
  cbv zeta.
  destruct (Reload.aliasExists st (snd (detectShellProfile h st)) name
            && negb ov) eqn:Hc.
  - rewrite (installReloadAlias_refuses h clk st name ov Hc). cbn [fst]. auto.
  - rewrite (installReloadAlias_steps h clk st name ov Hc).
    set (p := snd (detectShellProfile h st)).
    set (st1 := if _ && ov then _ else st).
    assert (H1 : forall q, q <> p -> files st1 !! q = files st !! q).
    { intros q' Hq. unfold st1. destruct (_ && ov); [|reflexivity].
      now apply reload_remove_other. }
    assert (H2 : is_Some (files st !! q) -> is_Some (files st1 !! q)).
    { intros H. unfold st1. destruct (_ && ov); [|exact H].
      now apply reload_remove_exists. }
    assert (H3 : denied st1 = denied st).
    { unfold st1. destruct (_ && ov); [apply reload_remove_denied | reflexivity]. }
    destruct (denied st p); cbn [fst].
    + auto.
    + split; [|split].
      * intros Hq. unfold set_file. cbn [files].
        rewrite lookup_insert_ne by congruence. now apply H1.
      * intros H. now apply set_file_exists, H2.
      * exact H3.
Qed.

(** X10.  Whatever its outcome, [installReloadAlias] changes the profile
    only: every other file is as before (it makes no backup), no file is
    deleted, and the permissions are as before. *)
Theorem installReloadAlias_touches_profile_only
    (h : host) (clk : clock) (st : fs_state) (name : jsstring) (ov : bool)
    (q : jsstring) :
  let profile := snd (detectShellProfile h st) in
  let st' := fst (Reload.installReloadAlias h clk st name ov) in
  (q <> profile -> files st' !! q = files st !! q)
  /\ (is_Some (files st !! q) -> is_Some (files st' !! q))
  /\ denied st' = denied st.
Proof. apply installReloadAlias_frame_paths. Qed.

Lemma installReloadAlias_same_profile
    (h : host) (clk : clock) (st : fs_state) (name : jsstring) (ov : bool) :
  path_join h = posix_join ->
  detectShellProfile h (fst (Reload.installReloadAlias h clk st name ov))
  = detectShellProfile h st.
Proof.
  intros Hj.
  pose proof (installReloadAlias_frame_paths h clk st name ov) as F.
  cbv zeta in F.
  revert F. generalize (fst (Reload.installReloadAlias h clk st name ov)).
  intros st' F.
  unfold detectShellProfile in *. rewrite Hj in *. cbv zeta in *.
  destruct (includes (default [] (env_SHELL h)) (lit "zsh")); [reflexivity|].
  rewrite !access_file_exists in *.
  destruct (bash_paths (homedir h) clk) as [N1 _]. cbv zeta in *.
  set (bashrc := posix_join (homedir h) (lit ".bashrc")) in *.
  set (bashProfile := posix_join (homedir h) (lit ".bash_profile")) in *.
  destruct (file_exists st bashrc) eqn:E1; cbn [snd] in F.
  - destruct (F bashrc) as [_ [M _]].
    apply file_exists_Some in E1. apply M, file_exists_Some in E1.
    now rewrite E1.
  - destruct (file_exists st bashProfile) eqn:E2; cbn [snd] in F.
    + destruct (F bashrc) as [Fr _]. destruct (F bashProfile) as [_ [M _]].
      apply file_exists_None in E1. rewrite <- Fr in E1 by congruence.
      apply file_exists_None in E1. rewrite E1.
      apply file_exists_Some in E2. apply M, file_exists_Some in E2.
      now rewrite E2.
    + destruct (file_exists st' bashrc); [reflexivity|].
      destruct (F bashProfile) as [Fr _].
      apply file_exists_None in E2. rewrite <- Fr in E2 by exact N1.
      apply file_exists_None in E2. now rewrite E2.
Qed.

(** What the installation appends holds the alias line at the start of a
    line. *)
Lemma alias_line_detected (X name prof ts : jsstring) :
  alias_name name = true ->
  test (Reload.aliasPattern name) (X ++ Reload.aliasContent name prof ts) = true.
Proof.
  intros Hn. unfold test, Reload.aliasContent.
  replace (lit "
# ━━━━━━━━━━━━━━━━━━━━━━━━━━━━━━━━━━━━━━━━━━━━━━━━━━━
alias ") with (lit "
# ━━━━━━━━━━━━━━━━━━━━━━━━━━━━━━━━━━━━━━━━━━━━━━━━━━━
" ++ lit "alias ") by (vm_compute; reflexivity).
  rewrite <- !app_assoc.
  match goal with
  | |- search _ None (?a ++ ?b ++ ?c ++ ?d ++ ?rest) = true =>
      rewrite (app_assoc a), (app_assoc (a ++ b)), (app_assoc ((a ++ b) ++ c));
      apply search_true_at
  end.
  unfold match_at. cbn [anchored Reload.aliasPattern andb].
  rewrite !prev_after_app.
  replace (at_bol _) with true by (vm_compute; reflexivity).
  cbn [negb].
  change (lit "=`source " ++ prof ++ lit "`
") with (equals :: (lit "`source " ++ prof ++ lit "`
")).
  fold (Reload.aliasPattern name).
  now rewrite (alias_line_matches name _ Hn).
Qed.

(** X11.  For a plain shell name (not empty; no white space, no syntax
    character of regular expressions, no [#]): after an installation of the
    reload alias that succeeded, whatever the profile held, the name is
    detected in the profile; with POSIX paths, the same request without
    overwrite is then refused and writes nothing. *)
Theorem reload_then_refused
    (h : host) (clk clk' : clock) (st st' : fs_state) (name : jsstring)
    (ov : bool) (sh : shell_kind) (p : jsstring) :
  path_join h = posix_join ->
  alias_name name = true ->
  Reload.installReloadAlias h clk st name ov = (st', Reload.Success sh p) ->
  Reload.aliasExists st' p name = true
  /\ Reload.installReloadAlias h clk' st' name false
     = (st', Reload.Conflict p).
Proof.
  intros Hj Hn H.
  assert (S : p = snd (detectShellProfile h st)
              /\ exists X, files st' !! p
                           = Some (X ++ Reload.aliasContent name p (toISOString clk))).
  { destruct (Reload.aliasExists st (snd (detectShellProfile h st)) name
              && negb ov) eqn:Hc.
    - rewrite (installReloadAlias_refuses h clk st name ov Hc) in H.
      discriminate H.
    - rewrite (installReloadAlias_steps h clk st name ov Hc) in H.
      destruct (denied st _); [discriminate H|].
      injection H as <- _ <-. split; [reflexivity|].
      eexists. apply set_file_lookup. }
  destruct S as [Hp [X HX]].
  assert (E : Reload.aliasExists st' p name = true).
  { unfold Reload.aliasExists, readFile. rewrite HX.
    now rewrite alias_line_detected. }
  split; [exact E|].
  assert (Hdet : snd (detectShellProfile h st') = p).
  { pose proof (installReloadAlias_same_profile h clk st name ov Hj) as D.
    rewrite H in D. cbn [fst] in D. now rewrite D. }
  pose proof (installReloadAlias_refuses h clk' st' name false) as R.
  cbv zeta in R. rewrite Hdet, E in R. now apply R.
Qed.

(** ** Examples *)

Ltac decided := refine (bool_decide_unpack _ _); vm_compute; exact I.

Lemma installReloadAlias_touches_profile_only_witness :
  let st' := fst (Reload.installReloadAlias bash_host noon only_bash_profile
                    (lit "rl") false) in
  files st' !! lit "/home/u/.vimrc"
  = files only_bash_profile !! lit "/home/u/.vimrc"
  /\ is_Some (files st' !! lit "/home/u/.bash_profile").
Proof.
  cbv zeta. split.
  - apply (proj1 (installReloadAlias_touches_profile_only bash_host noon
                    only_bash_profile (lit "rl") false (lit "/home/u/.vimrc"))).
    decided.
  - apply (proj1 (proj2 (installReloadAlias_touches_profile_only bash_host
                           noon only_bash_profile (lit "rl") false
                           (lit "/home/u/.bash_profile")))).
    decided.
Defined.

Lemma reload_then_refused_witness :
  let st' := fst (Reload.installReloadAlias zsh_host noon rl_function
                    (lit "rl") true) in
  Reload.installReloadAlias zsh_host later st' (lit "rl") false
  = (st', Reload.Conflict (lit "/home/u/.zshrc")).
Proof.
  cbv zeta.
  destruct (reload_then_refused zsh_host noon later rl_function
              (fst (Reload.installReloadAlias zsh_host noon rl_function
                      (lit "rl") true))
              (lit "rl") true Zsh (lit "/home/u/.zshrc")) as [_ H];
    [reflexivity | vm_compute; reflexivity | vm_compute; reflexivity
    | exact H].
Defined.

End ReloadFacts.

(* ===================================================================== *)
(** * What the emitted functions do to the repository *)
(* ===================================================================== *)

Section Traces.
Import Workflow.

Lemma snd_bind {A B} (m : sh A) (f : A -> sh B) :
  snd (bind m f)
  = match snd m with
    | inl a => snd (f a)
    | inr n => inr n
    end.
Proof. destruct m as [t [a|n]]; simpl; [now destruct (f a) | reflexivity]. Qed.

Lemma in_bind {A B} (m : sh A) (f : A -> sh B) (ev : event) :
  In ev (fst (bind m f)) ->
  In ev (fst m) \/ exists a, snd m = inl a /\ In ev (fst (f a)).
Proof.
  rewrite fst_bind. intros H. apply in_app_or in H. destruct H as [H|H].
  - now left.
  - destruct (snd m) as [a|n]; [right; now exists a | destruct H].
Qed.

Lemma in_bind_l {A B} (m : sh A) (f : A -> sh B) (ev : event) :
  In ev (fst m) -> In ev (fst (bind m f)).
Proof. intros H. rewrite fst_bind. apply in_or_app. now left. Qed.

Lemma in_bind_r {A B} (m : sh A) (f : A -> sh B) (ev : event) (a : A) :
  snd m = inl a -> In ev (fst (f a)) -> In ev (fst (bind m f)).
Proof. intros E H. rewrite fst_bind, E. apply in_or_app. now right. Qed.

(** A part of a script in which no event of a kind occurs. *)
Definition never (P : event -> bool) {A} (m : sh A) : Prop :=
  existsb P (fst m) = false.

Lemma never_bind (P : event -> bool) {A B} (m : sh A) (f : A -> sh B) :
  never P m -> (forall a, never P (f a)) -> never P (bind m f).
Proof.
  unfold never. intros Hm Hf. rewrite fst_bind, existsb_app, Hm.
  destruct (snd m); [apply Hf | reflexivity].
Qed.

Lemma never_when (P : event -> bool) (b : bool) (m : sh unit) :
  never P m -> never P (when b m).
Proof. destruct b; [trivial | reflexivity]. Qed.

Lemma never_if (P : event -> bool) {A} (b : bool) (m1 m2 : sh A) :
  never P m1 -> never P m2 -> never P (if b then m1 else m2).
Proof. now destruct b. Qed.

Lemma never_run (P : event -> bool) (m : sh unit) :
  never P m -> existsb P (fst (run m)) = false.
Proof. now rewrite fst_run. Qed.

Lemma never_in (P : event -> bool) {A} (m : sh A) (ev : event) :
  never P m -> In ev (fst m) -> P ev = false.
Proof.
  unfold never. intros H Hin. destruct (P ev) eqn:E; [|reflexivity].
  assert (X : existsb P (fst m) = true) by (apply existsb_exists; eauto).
  congruence.
Qed.

Ltac hush :=
  repeat first
    [ apply never_bind; [|intros ?]
    | apply never_when | apply never_if
    | reflexivity ].

(** ** The kinds of events *)

Definition stages_or_pushes (ev : event) : bool :=
  match ev with
  | GitAddAll | GitPush _ | GitPushSetUpstream _ => true
  | _ => false
  end.

Definition pushes (ev : event) : bool :=
  match ev with
  | GitPush _ | GitPushSetUpstream _ => true
  | _ => false
  end.

Definition commits (ev : event) : bool :=
  match ev with
  | GitCommit _ => true
  | _ => false
  end.

(** The commands of a run that act on the repository, the provider or the
    editor: everything that is not output. *)
Definition actions (t : list event) : list event :=
  List.filter (fun ev => match ev with
                         | Out _ => false
                         | _ => true
                         end) t.

Lemma actions_app (a b : list event) : actions (a ++ b) = actions a ++ actions b.
Proof. apply List.filter_app. Qed.

(** ** The commit-only function *)

(** X12.  The commit-only function never stages and never pushes: in
    every run, whatever the repository, the provider and the user answer,
    no [git add] and no [git push] is issued. *)
Theorem gc_never_stages_or_pushes
    (c : CLI) (model : jsstring) (e : Gc.env) (args : list jsstring) :
  existsb stages_or_pushes (fst (run (Gc.gc c model e args))) = false.
Proof.
  apply never_run. unfold Gc.gc.
  destruct (parse_args args) as [review_mode user_message].
  cbv zeta. hush.
Qed.

(** ** The push function *)

Import Workflow.Gp.

(** X13.  The push function fails fast: when git is missing, the
    directory is no repository, the index has unmerged entries or no
    branch is checked out, it prints one error line and returns 1;
    nothing is staged, committed, pushed or sent to the provider. *)
Theorem gp_fails_fast
    (c : CLI) (model : jsstring) (e : env) (args : list jsstring) :
  git_installed e && inside_work_tree e && negb (grep_q_dot (unmerged e))
    && nonempty (capture (branch e)) = false ->
  snd (run (gp c model e args)) = 1
  /\ exists msg,
       fst (run (gp c model e args))
       = [line (RED ++ lit "Error:" ++ NC ++ msg)].
Proof.
  intros H. unfold gp, before_push.
  destruct (parse_args args) as [review_mode user_message].
  unfold preconditions.
  destruct (git_installed e);
    [|split; [reflexivity | exists (lit " git is not installed"); reflexivity]].
  destruct (inside_work_tree e);
    [|split; [reflexivity | exists (lit " Not a git repository"); reflexivity]].
  destruct (grep_q_dot (unmerged e));
    [split; [reflexivity | exists (lit " Unresolved merge conflicts"); reflexivity]|].
  cbn [andb negb] in H. rewrite H.
  split; [reflexivity | exists (lit " Detached HEAD state"); reflexivity].
Qed.

Ltac split_in H :=
  apply in_bind in H; destruct H as [H | [? [? H]]].

Ltac absurd_in P H :=
  apply (never_in P) in H; [discriminate H | hush].

Lemma review_value (confirm edited m x : jsstring) :
  snd (review confirm edited m) = inl x ->
  jseq confirm (lit "n") || jseq confirm (lit "N") = false
  /\ x = if jseq confirm (lit "e") || jseq confirm (lit "E")
         then capture edited else m.
Proof.
  unfold review. rewrite ?snd_bind. cbn [snd echo echo_n emit].
  destruct (jseq confirm (lit "n") || jseq confirm (lit "N")).
  - rewrite snd_bind. cbn [snd echo emit return_]. discriminate.
  - destruct (jseq confirm (lit "e") || jseq confirm (lit "E")).
    + rewrite snd_bind. cbn [snd emit ret]. intros H. injection H as <-. auto.
    + cbn [snd ret]. intros H. injection H as <-. auto.
Qed.

Lemma when_value (b : bool) (m : sh unit) (x : unit) :
  snd (when b m) = inl x -> b = false \/ snd m = inl x.
Proof. destruct b; [now right | now left]. Qed.

(** The message [message_source] hands on. *)
Lemma gp_message_value (c : CLI) (cmd : jsstring) (e : env) (r : bool)
    (u m : jsstring) :
  snd (message_source c cmd e r u) = inl m ->
  if nonempty u then m = u
  else cli_installed e = true /\ ai_exit e = 0 /\ ai_stdout e <> []
       /\ (if r
           then jseq (confirm e) (lit "n") || jseq (confirm e) (lit "N") = false
                /\ m = (if jseq (confirm e) (lit "e")
                            || jseq (confirm e) (lit "E")
                        then capture (edited e) else capture (ai_stdout e))
           else m = capture (ai_stdout e)).
Proof.
  unfold message_source. destruct (nonempty u).
  - rewrite ?snd_bind. cbn [snd echo emit ret]. intros H. now injection H as <-.
  - cbv zeta. rewrite snd_bind.
    destruct (cli_installed e);
      [|cbn [negb when]; rewrite ?snd_bind; cbn [snd echo emit return_];
        discriminate].
    cbn [negb when snd ret]. rewrite ?snd_bind. cbn [snd echo emit].
    destruct (ai_exit e =? 0) eqn:E1;
      [|cbn [negb orb when]; rewrite ?snd_bind; cbn [snd echo echo_n emit return_];
        discriminate].
    destruct (nonempty (ai_stdout e)) eqn:E2;
      [|cbn [negb orb when]; rewrite ?snd_bind; cbn [snd echo echo_n emit return_];
        discriminate].
    cbn [negb orb when snd ret]. rewrite ?snd_bind. cbn [snd echo emit].
    intros H. split; [reflexivity|]. split; [now apply N.eqb_eq|].
    split; [intros E; now rewrite E in E2|].
    destruct r.
    + now apply review_value.
    + cbn [snd ret] in H. now injection H as <-.
Qed.

Lemma stage_and_commit_in (e : env) (msg m : jsstring) :
  In (GitCommit m) (fst (stage_and_commit e msg)) -> m = msg.
Proof.
  unfold stage_and_commit. intros H.
  split_in H; [absurd_in commits H|].
  split_in H; [absurd_in commits H|].
  split_in H; [absurd_in commits H|].
  split_in H; [absurd_in commits H|].
  split_in H.
  - cbn [fst emit In] in H. destruct H as [H|[]]. now injection H as <-.
  - absurd_in commits H.
Qed.

Lemma before_push_commit (c : CLI) (model : jsstring) (e : env)
    (args : list jsstring) (m : jsstring) :
  In (GitCommit m) (fst (before_push c model e args)) ->
  exists msg,
    snd (message_source c (buildCLICommand c model) e (fst (parse_args args))
           (snd (parse_args args))) = inl msg
    /\ m = msg.
Proof.
  unfold before_push. destruct (parse_args args) as [r u]. cbn [fst snd].
  cbv zeta. intros H.
  split_in H; [absurd_in commits H|].
  split_in H; [absurd_in commits H|].
  split_in H; [absurd_in commits H|].
  split_in H; [absurd_in commits H|].
  split_in H; [absurd_in commits H|].
  split_in H; [absurd_in commits H|].
  split_in H; [absurd_in commits H|].
  split_in H.
  - eexists. split; [eassumption|]. now apply (stage_and_commit_in e).
  - absurd_in commits H.
Qed.

(** X14.  What the push function commits.  In every run, the message of
    a commit is the message the user gave, when there is one; otherwise
    the provider is installed, it ended with status 0 and wrote something,
    and the message is its output without the trailing newlines, or, in
    review mode, the edited text when the user answered e or E; in review
    mode the user did not answer n or N. *)
Theorem gp_commit_message
    (c : CLI) (model : jsstring) (e : env) (args : list jsstring)
    (m : jsstring) :
  In (GitCommit m) (fst (run (gp c model e args))) ->
  let review_mode := fst (parse_args args) in
  let user_message := snd (parse_args args) in
  if nonempty user_message then m = user_message
  else cli_installed e = true /\ ai_exit e = 0 /\ ai_stdout e <> []
       /\ (if review_mode
           then jseq (confirm e) (lit "n") || jseq (confirm e) (lit "N") = false
                /\ m = (if jseq (confirm e) (lit "e")
                            || jseq (confirm e) (lit "E")
                        then capture (edited e) else capture (ai_stdout e))
           else m = capture (ai_stdout e)).
Proof.
  rewrite fst_run. unfold gp. intros H. cbv zeta.
  split_in H.
  - apply before_push_commit in H. destruct H as [msg [Hv ->]].
    now apply gp_message_value in Hv.
  - exfalso. apply (never_in commits) in H; [discriminate H|].
    unfold push. hush.
Qed.

(** The working tree is clean: nothing staged, nothing changed, no
    untracked file. *)
Definition clean (e : env) : bool :=
  diff_cached_quiet e && diff_quiet e && negb (nonempty (capture (others e))).

Lemma noop_check_dirty (e : env) (b : jsstring) :
  clean e = false -> noop_check e b = ([], inl tt).
Proof.
  unfold clean, noop_check. intros H. rewrite !negb_involutive, H. reflexivity.
Qed.

(** What it takes to reach the push. *)
Lemma before_push_value (c : CLI) (model : jsstring) (e : env)
    (args : list jsstring) (b : jsstring) :
  snd (before_push c model e args) = inl b ->
  clean e = false /\ has_origin e = true
  /\ staged_after_add_quiet e = false /\ commit_ok e = true
  /\ exists m, In (GitCommit m) (fst (before_push c model e args)).
Proof.
  unfold before_push. destruct (parse_args args) as [r u]. cbv zeta.
  intros H. rewrite snd_bind in H.
  destruct (snd (preconditions e)) as [b0|] eqn:Epre; [|discriminate H].
  rewrite snd_bind in H.
  destruct (clean e) eqn:Ec.
  { exfalso. revert H. unfold noop_check. fold (clean e).
    unfold clean in Ec. rewrite !negb_involutive, Ec. cbn [when].
    rewrite ?snd_bind. cbn [snd echo emit].
    destruct (snd (when _ _)); cbn [snd return_]; discriminate. }
  rewrite (noop_check_dirty e b0 Ec) in H. cbn [snd] in H.
  rewrite snd_bind in H. unfold remote_check in H.
  destruct (has_origin e) eqn:Eo.
  2: { exfalso. revert H. cbn [negb]. rewrite ?snd_bind. cbn [snd echo emit ret].
       rewrite ?snd_bind. cbn [snd echo emit].
       destruct (snd (message_source _ _ _ _ _)); [|discriminate].
       rewrite snd_bind. destruct (snd (stage_and_commit _ _)); [|discriminate].
       cbn [when]. rewrite ?snd_bind. cbn [snd echo emit return_]. discriminate. }
  cbn [negb snd ret] in H. rewrite ?snd_bind in H. cbn [snd echo emit] in H.
  destruct (snd (message_source c (buildCLICommand c model) e r u))
    as [msg|] eqn:Ems; [|discriminate H].
  rewrite snd_bind in H.
  destruct (snd (stage_and_commit e msg)) as [[]|] eqn:Esc; [|discriminate H].
  assert (S : staged_after_add_quiet e = false /\ commit_ok e = true).
  { revert Esc. unfold stage_and_commit. rewrite ?snd_bind. cbn [snd echo emit].
    destruct (staged_after_add_quiet e);
      [cbn [when]; rewrite ?snd_bind; cbn [snd echo emit return_]; discriminate|].
    cbn [when snd ret]. rewrite ?snd_bind. cbn [snd echo echo_n emit].
    destruct (commit_ok e);
      [auto | cbn [negb when]; rewrite ?snd_bind; cbn [snd echo emit return_];
              discriminate]. }
  destruct S as [S1 S2]. repeat split; try assumption.
  exists msg.
  eapply in_bind_r; [exact Epre|]; cbv beta.
  rewrite (noop_check_dirty e b0 Ec).
  eapply in_bind_r; [reflexivity|]; cbv beta.
  unfold remote_check. rewrite Eo. cbn [negb].
  eapply in_bind_r; [reflexivity|]; cbv beta.
  eapply in_bind_r; [reflexivity|]; cbv beta.
  eapply in_bind_r; [reflexivity|]; cbv beta.
  eapply in_bind_r; [reflexivity|]; cbv beta.
  eapply in_bind_r; [exact Ems|]; cbv beta.
  apply in_bind_l. unfold stage_and_commit. rewrite S1. cbn [when].
  eapply in_bind_r; [reflexivity|]; cbv beta.
  eapply in_bind_r; [reflexivity|]; cbv beta.
  eapply in_bind_r; [reflexivity|]; cbv beta.
  eapply in_bind_r; [reflexivity|]; cbv beta.
  apply in_bind_l. left. reflexivity.
Qed.

Lemma before_push_pushes (c : CLI) (model : jsstring) (e : env)
    (args : list jsstring) (ev : event) :
  In ev (fst (before_push c model e args)) -> pushes ev = true ->
  clean e = true.
Proof.
  intros H Hp. destruct (clean e) eqn:Ec; [reflexivity|]. exfalso.
  apply (never_in pushes) in H; [congruence|].
  unfold before_push. destruct (parse_args args) as [r u]. cbv zeta.
  apply never_bind; [hush|]. intros b0.
  rewrite (noop_check_dirty e b0 Ec). hush.
Qed.

(** X15.  The push function pushes in two situations only.  Either the
    working tree is clean (it then offers to push the commits that exist),
    or the repository has a remote [origin], [git add -A] left something
    staged, and the commit, which is in the run, succeeded.  A run in which
    the commit failed or nothing was staged pushes nothing. *)
Theorem gp_pushes_after_commit
    (c : CLI) (model : jsstring) (e : env) (args : list jsstring)
    (ev : event) :
  In ev (fst (run (gp c model e args))) ->
  pushes ev = true ->
  clean e = true
  \/ (has_origin e = true /\ staged_after_add_quiet e = false
      /\ commit_ok e = true
      /\ exists m, In (GitCommit m) (fst (run (gp c model e args)))).
Proof.
  rewrite fst_run. unfold gp. intros H Hp.
  split_in H.
  - left. now apply (before_push_pushes c model e args ev).
  - right.
    match goal with
    | E : snd (before_push _ _ _ _) = inl ?b |- _ =>
        destruct (before_push_value c model e args b E)
          as [_ [H1 [H2 [H3 [m Hm]]]]]
    end.
    repeat split; try assumption. exists m. now apply in_bind_l.
Qed.

(** X16.  On a clean working tree, once the preconditions hold, the push
    function returns 0 and neither stages, nor commits, nor calls the
    provider; it pushes the current branch, once, exactly when there are
    unpushed commits and the answer of the user does not start with n or
    N. *)
Theorem gp_clean_tree
    (c : CLI) (model : jsstring) (e : env) (args : list jsstring)
    (b : jsstring) :
  preconditions e = ([], inl b) ->
  clean e = true ->
  snd (run (gp c model e args)) = 0
  /\ actions (fst (run (gp c model e args)))
     = if (0 <? wc_l (unpushed_log e))%nat && negb (declines (push_only e))
       then [GitPush b] else [].
Proof.
  intros Hpre Hc. unfold gp, before_push.
  destruct (parse_args args) as [r u]. rewrite Hpre.
  unfold noop_check. fold (clean e). unfold clean in Hc.
  rewrite !negb_involutive, Hc.
  destruct (0 <? wc_l (unpushed_log e))%nat;
    [|split; reflexivity].
  destruct (declines (push_only e)); [split; reflexivity|].
  destruct (push_existing_ok e); split; reflexivity.
Qed.

(** ** What the commit-only function commits *)

Lemma gc_message_value (c : CLI) (cmd : jsstring) (e : Gc.env) (r : bool)
    (u m : jsstring) :
  snd (Gc.message_source c cmd e r u) = inl m ->
  if nonempty u then m = u
  else Gc.cli_installed e = true /\ Gc.ai_exit e = 0 /\ Gc.ai_stdout e <> []
       /\ (if r
           then jseq (Gc.confirm e) (lit "n") || jseq (Gc.confirm e) (lit "N")
                = false
                /\ m = (if jseq (Gc.confirm e) (lit "e")
                            || jseq (Gc.confirm e) (lit "E")
                        then capture (Gc.edited e)
                        else capture (Gc.ai_stdout e))
           else m = capture (Gc.ai_stdout e)).
Proof.
  unfold Gc.message_source. destruct (nonempty u).
  - rewrite ?snd_bind. cbn [snd echo emit ret]. intros H. now injection H as <-.
  - cbv zeta. rewrite snd_bind.
    destruct (Gc.cli_installed e);
      [|cbn [negb when]; rewrite ?snd_bind; cbn [snd echo emit return_];
        discriminate].
    cbn [negb when snd ret]. rewrite ?snd_bind. cbn [snd echo emit].
    destruct (Gc.ai_exit e =? 0) eqn:E1;
      [|cbn [negb orb when]; rewrite ?snd_bind; cbn [snd echo echo_n emit return_];
        discriminate].
    destruct (nonempty (Gc.ai_stdout e)) eqn:E2;
      [|cbn [negb orb when]; rewrite ?snd_bind; cbn [snd echo echo_n emit return_];
        discriminate].
    cbn [negb orb when snd ret]. rewrite ?snd_bind. cbn [snd echo emit].
    intros H. split; [reflexivity|]. split; [now apply N.eqb_eq|].
    split; [intros E; now rewrite E in E2|].
    destruct r.
    + now apply review_value.
    + cbn [snd ret] in H. now injection H as <-.
Qed.

(** X17.  What the commit-only function commits: as for the push
    function, the message the user gave, or else the output of the provider
    when it is installed, ended with status 0 and wrote something, or the
    edited text; never after the user answered n or N in review mode. *)
Theorem gc_commit_message
    (c : CLI) (model : jsstring) (e : Gc.env) (args : list jsstring)
    (m : jsstring) :
  In (GitCommit m) (fst (run (Gc.gc c model e args))) ->
  let review_mode := fst (parse_args args) in
  let user_message := snd (parse_args args) in
  if nonempty user_message then m = user_message
  else Gc.cli_installed e = true /\ Gc.ai_exit e = 0 /\ Gc.ai_stdout e <> []
       /\ (if review_mode
           then jseq (Gc.confirm e) (lit "n") || jseq (Gc.confirm e) (lit "N")
                = false
                /\ m = (if jseq (Gc.confirm e) (lit "e")
                            || jseq (Gc.confirm e) (lit "E")
                        then capture (Gc.edited e)
                        else capture (Gc.ai_stdout e))
           else m = capture (Gc.ai_stdout e)).
Proof.
  rewrite fst_run. unfold Gc.gc.
  destruct (parse_args args) as [r u]. cbn [fst snd]. cbv zeta. intros H.
  split_in H; [absurd_in commits H|].
  split_in H; [absurd_in commits H|].
  split_in H; [absurd_in commits H|].
  split_in H; [absurd_in commits H|].
  split_in H; [absurd_in commits H|].
  split_in H; [absurd_in commits H|].
  split_in H; [absurd_in commits H|].
  match goal with
  | E : snd (Gc.message_source _ _ _ _ _) = inl ?x |- _ =>
      apply gc_message_value in E; rename x into msg
  end.
  split_in H; [absurd_in commits H|].
  split_in H; [absurd_in commits H|].
  split_in H.
  - cbn [fst emit In] in H. destruct H as [H|[]]. injection H as <-.
    assumption.
  - absurd_in commits H.
Qed.

(** ** Examples *)

Ltac pick := repeat first [left; reflexivity | right].

(** Not inside a work tree. *)
Definition not_a_repo : env :=
  {| git_installed := true; inside_work_tree := false; unmerged := [];
     branch := []; diff_cached_quiet := true; diff_quiet := true;
     others := []; unpushed_log := []; push_only := [];
     push_existing_ok := true; push_existing_output := [];
     has_origin := true; cli_installed := true;
     diff_cached := []; diff_worktree := []; others_again := [];
     ai_exit := 0; ai_stdout := []; ai_stderr := [];
     confirm := []; edited := [];
     staged_after_add_quiet := false;
     commit_ok := true; commit_output := [];
     push_exit := 0; push_out := []; retry_ok := true; retry_output := [] |}.

(** A clean working tree, one commit ahead of the remote. *)
Definition clean_ahead : env :=
  {| git_installed := true; inside_work_tree := true; unmerged := [];
     branch := lit "main
"; diff_cached_quiet := true; diff_quiet := true;
     others := []; unpushed_log := lit "1a2b3c4 fix typo
"; push_only := lit "y";
     push_existing_ok := true; push_existing_output := [];
     has_origin := true; cli_installed := true;
     diff_cached := []; diff_worktree := []; others_again := [];
     ai_exit := 0; ai_stdout := []; ai_stderr := [];
     confirm := []; edited := [];
     staged_after_add_quiet := false;
     commit_ok := true; commit_output := [];
     push_exit := 0; push_out := []; retry_ok := true; retry_output := [] |}.

(** Something staged, the provider answers, the user edits the message. *)
Definition staged_reviewed : Gc.env :=
  {| Gc.git_installed := true; Gc.inside_work_tree := true;
     Gc.diff_cached_quiet := false; Gc.cli_installed := true;
     Gc.diff_cached := lit "+x
"; Gc.ai_exit := 0; Gc.ai_stdout := lit "feat: add x
";
     Gc.ai_stderr := []; Gc.confirm := lit "e";
     Gc.edited := lit "feat: add the x flag
";
     Gc.commit_ok := true; Gc.commit_output := [] |}.

Lemma gp_fails_fast_witness :
  snd (run (gp aider (lit "gpt-5") not_a_repo [])) = 1
  /\ exists msg,
       fst (run (gp aider (lit "gpt-5") not_a_repo []))
       = [line (RED ++ lit "Error:" ++ NC ++ msg)].
Proof.
  apply (gp_fails_fast aider (lit "gpt-5") not_a_repo []). reflexivity.
Defined.

Lemma gp_commit_message_witness :
  In (GitCommit (lit "fix typo"))
     (fst (run (gp aider (lit "gpt-5") no_upstream [lit "fix typo"])))
  /\ lit "fix typo" = snd (parse_args [lit "fix typo"]).
Proof.
  assert (H : In (GitCommit (lit "fix typo"))
                (fst (run (gp aider (lit "gpt-5") no_upstream
                             [lit "fix typo"]))))
    by (vm_compute; pick).
  split; [exact H|].
  exact (gp_commit_message aider (lit "gpt-5") no_upstream [lit "fix typo"]
           (lit "fix typo") H).
Defined.

Lemma gp_pushes_after_commit_witness :
  In (GitPushSetUpstream (lit "topic"))
     (fst (run (gp aider (lit "gpt-5") no_upstream [lit "fix typo"])))
  /\ (clean no_upstream = true
      \/ (has_origin no_upstream = true
          /\ staged_after_add_quiet no_upstream = false
          /\ commit_ok no_upstream = true
          /\ exists m,
               In (GitCommit m)
                  (fst (run (gp aider (lit "gpt-5") no_upstream
                               [lit "fix typo"]))))).
Proof.
  assert (H : In (GitPushSetUpstream (lit "topic"))
                (fst (run (gp aider (lit "gpt-5") no_upstream
                             [lit "fix typo"]))))
    by (vm_compute; pick).
  split; [exact H|].
  exact (gp_pushes_after_commit aider (lit "gpt-5") no_upstream
           [lit "fix typo"] _ H eq_refl).
Defined.

Lemma gp_clean_tree_witness :
  snd (run (gp aider (lit "gpt-5") clean_ahead [])) = 0
  /\ actions (fst (run (gp aider (lit "gpt-5") clean_ahead [])))
     = [GitPush (lit "main")].
Proof.
  destruct (gp_clean_tree aider (lit "gpt-5") clean_ahead [] (lit "main"))
    as [H1 H2]; [vm_compute; reflexivity | reflexivity |].
  split; [exact H1|]. rewrite H2. reflexivity.
Defined.

Lemma gc_commit_message_witness :
  In (GitCommit (lit "feat: add the x flag"))
     (fst (run (Gc.gc aider (lit "gpt-5") staged_reviewed [lit "-r"])))
  /\ lit "feat: add the x flag" = capture (Gc.edited staged_reviewed).
Proof.
  assert (H : In (GitCommit (lit "feat: add the x flag"))
                (fst (run (Gc.gc aider (lit "gpt-5") staged_reviewed
                             [lit "-r"]))))
    by (vm_compute; pick).
  split; [exact H|].
  pose proof (gc_commit_message aider (lit "gpt-5") staged_reviewed
                [lit "-r"] (lit "feat: add the x flag") H) as G.
  cbv zeta in G.
  assert (E : nonempty (snd (parse_args [lit "-r"])) = false)
    by (vm_compute; reflexivity).
  rewrite E in G. destruct G as [_ [_ [_ G]]].
  assert (R : fst (parse_args [lit "-r"]) = true) by (vm_compute; reflexivity).
  rewrite R in G. destruct G as [_ G]. rewrite G. vm_compute. reflexivity.
Defined.

End Traces.

(* ===================================================================== *)
(** * The provider catalogue *)
(* ===================================================================== *)

Section DetectorFacts.

(** ** The command lines *)

Lemma escape_quotes_from (prev : option cu) (s : jsstring) :
  replace_from {| anchored := false; body := [Chr 34] |} [92; 34] O prev s
  = flat_map (fun c => if c =? 34 then [92; 34] else [c]) s.
Proof.
  revert prev. induction s as [|c t IH]; intros prev; [reflexivity|].
  cbn [replace_from match_at anchored body andb mtch chr flat_map].
  destruct (c =? 34).
  - replace (length (c :: t) - length t)%nat with 1%nat
      by (cbn [length]; lia).
    cbn [app]. now rewrite IH.
  - cbn [app]. now rewrite IH.
Qed.

(** X18.  [buildCommand] escapes the prompt by putting a backslash before
    each double quote and changing nothing else, and every provider of the
    catalogue puts the escaped prompt between two double quotes. *)
Theorem buildCommand_quotes_prompt :
  (forall prompt,
     escape_quotes prompt
     = flat_map (fun c => if c =? 34 then [92; 34] else [c]) prompt)
  /\ forall c, In c CLI_INFO ->
       exists before after : jsstring -> jsstring,
         forall prompt model,
           buildCommand c prompt model
           = before model ++ 34 :: escape_quotes prompt ++ 34 :: after model.
Proof.
  split.
  - intros prompt. unfold escape_quotes, replace.
    replace (lit "\`") with [92; 34] by (vm_compute; reflexivity).
    apply escape_quotes_from.
  - intros c Hin. unfold CLI_INFO in Hin. cbn [In] in Hin.
    destruct Hin as [<-|[<-|[<-|[<-|[<-|[]]]]]].
    + exists (fun model => lit "claude --print --model " ++ model
                           ++ lit " --dangerously-skip-permissions "),
        (fun _ => []).
      intros prompt model. cbv beta. rewrite <- ?app_assoc.
      vm_compute. reflexivity.
    + exists (fun _ => lit "gemini --prompt "),
        (fun model => lit " --model " ++ model).
      intros prompt model. cbv beta. rewrite <- ?app_assoc.
      vm_compute. reflexivity.
    + exists (fun _ => lit "copilot --prompt "), (fun _ => []).
      intros prompt model. cbv beta. rewrite <- ?app_assoc.
      vm_compute. reflexivity.
    + exists (fun _ => lit "opencode run "),
        (fun model => lit " --model " ++ model).
      intros prompt model. cbv beta. rewrite <- ?app_assoc.
      vm_compute. reflexivity.
    + exists (fun _ => lit "aider --message "),
        (fun model => lit " --model " ++ model
                      ++ lit " --yes-always --no-auto-commits").
      intros prompt model. cbv beta. rewrite <- ?app_assoc.
      vm_compute. reflexivity.
Qed.

Lemma buildCommand_quotes_prompt_witness :
  exists before after : jsstring -> jsstring,
    forall prompt model,
      buildCommand claude prompt model
      = before model ++ 34 :: escape_quotes prompt ++ 34 :: after model.
Proof.
  apply (proj2 buildCommand_quotes_prompt claude). left. reflexivity.
Defined.

(** X19.  The two tables of command lines agree: for every provider of
    the catalogue and every model, the command the templates write into
    the shell functions is the one [buildCommand] builds for the prompt
    [$prompt]. *)
Theorem buildCLICommand_is_buildCommand (c : CLI) (model : jsstring) :
  In c CLI_INFO ->
  buildCLICommand c model = buildCommand c (lit "$prompt") model.
Proof.
  intros Hin. unfold CLI_INFO in Hin. cbn [In] in Hin.
  destruct Hin as [<-|[<-|[<-|[<-|[<-|[]]]]]]; vm_compute; reflexivity.
Qed.

Lemma buildCLICommand_is_buildCommand_witness :
  buildCLICommand gemini (lit "gemini-3-pro")
  = buildCommand gemini (lit "$prompt") (lit "gemini-3-pro").
Proof.
  apply (buildCLICommand_is_buildCommand gemini (lit "gemini-3-pro")).
  right. left. reflexivity.
Defined.

(** ** The models of OpenCode *)

Section OpenCode.

Variable toLowerCase : jsstring -> jsstring.

Abbreviation rank := (Models.rank toLowerCase).
Abbreviation insert := (Models.insert toLowerCase).
Abbreviation sort := (Models.sort toLowerCase).

Lemma insert_perm (x : Models.entry) (l : list Models.entry) :
  Permutation (insert x l) (x :: l).
Proof.
  induction l as [|y t IH]; cbn [Models.insert]; [reflexivity|].
  destruct (rank y <? rank x); [|reflexivity].
  rewrite IH. apply perm_swap.
Qed.

Lemma sort_perm (l : list Models.entry) : Permutation (sort l) l.
Proof.
  induction l as [|x t IH]; [reflexivity|].
  unfold Models.sort. cbn [fold_right]. fold (sort t).
  rewrite insert_perm. now constructor.
Qed.

Definition by_rank (a b : Models.entry) : Prop := rank a <= rank b.

Lemma insert_sorted (x : Models.entry) (l : list Models.entry) :
  StronglySorted by_rank l -> StronglySorted by_rank (insert x l).
Proof.
  induction l as [|y t IH]; intros Hs; cbn [Models.insert].
  - repeat constructor.
  - apply StronglySorted_inv in Hs. destruct Hs as [Ht Hy].
    destruct (rank y <? rank x) eqn:E.
    + constructor; [now apply IH|].
      eapply Permutation_Forall; [symmetry; apply insert_perm|].
      constructor; [|exact Hy].
      unfold by_rank. apply N.ltb_lt in E. lia.
    + apply N.ltb_ge in E. constructor; [now constructor|].
      constructor; [exact E|].
      apply (List.Forall_impl (P := by_rank y)); [|exact Hy].
      unfold by_rank. intros z Hz. lia.
Qed.

Lemma sort_sorted (l : list Models.entry) : StronglySorted by_rank (sort l).
Proof.
  induction l as [|x t IH]; [constructor|].
  unfold Models.sort. cbn [fold_right]. now apply insert_sorted.
Qed.

Lemma mapi_value (i : nat) (l : list Models.entry) :
  map value (Models.mapi_from Models.describe i l) = map Models.name l.
Proof.
  revert i. induction l as [|m t IH]; intros i; [reflexivity|].
  cbn [Models.mapi_from map]. now rewrite IH.
Qed.

Lemma mapi_name (i : nat) (l : list Models.entry) :
  map preset_name (Models.mapi_from Models.describe i l) = map Models.name l.
Proof.
  revert i. induction l as [|m t IH]; intros i; [reflexivity|].
  cbn [Models.mapi_from map]. now rewrite IH.
Qed.

Lemma parse_name (line : jsstring) : Models.name (Models.parse line) = line.
Proof. unfold Models.parse. now destruct (includes line _). Qed.

Lemma map_parse_name (lines : list jsstring) :
  map Models.name (map Models.parse lines) = lines.
Proof.
  induction lines as [|l t IH]; [reflexivity|].
  cbn [map]. now rewrite parse_name, IH.
Qed.

(** The order of the menu: the models by the rank of their line. *)
Definition by_line (a b : preset) : Prop :=
  rank (Models.parse (value a)) <= rank (Models.parse (value b)).

Lemma mapi_sorted (i : nat) (l : list Models.entry) :
  Forall (fun m => Models.parse (Models.name m) = m) l ->
  StronglySorted by_rank l ->
  StronglySorted by_line (Models.mapi_from Models.describe i l).
Proof.
  revert i. induction l as [|m t IH]; intros i Hp Hs; [constructor|].
  apply Forall_cons_iff in Hp. destruct Hp as [Hm Hp].
  apply StronglySorted_inv in Hs. destruct Hs as [Ht Hy].
  cbn [Models.mapi_from]. constructor; [now apply IH|].
  clear IH Ht. revert Hy Hp. generalize (S i).
  induction t as [|z t IH]; intros j Hy Hp; [constructor|].
  apply Forall_cons_iff in Hp. destruct Hp as [Hz Hp].
  apply Forall_cons_iff in Hy. destruct Hy as [Hmz Hy].
  cbn [Models.mapi_from]. constructor; [|now apply IH].
  unfold by_line. cbn [value Models.describe]. now rewrite Hm, Hz.
Qed.

Lemma fetchOpenCodeModels_menu (stdout : jsstring) (l : list preset) :
  Models.fetchOpenCodeModels toLowerCase (Some stdout) = Some l ->
  Permutation (map value l) (Models.model_lines stdout)
  /\ map preset_name l = map value l
  /\ StronglySorted by_line l
  /\ l <> [].
Proof.
  unfold Models.fetchOpenCodeModels.
  destruct (Models.model_lines stdout) as [|l0 ls] eqn:E; [discriminate|].
  set (lines := l0 :: ls). intros H.
  assert (El : l = Models.mapi_from Models.describe 0
                     (sort (map Models.parse lines)))
    by (injection H as <-; reflexivity).
  assert (Hne : lines <> []) by discriminate.
  clearbody lines. clear H. subst l.
  assert (P : Permutation (sort (map Models.parse lines)) (map Models.parse lines))
    by apply sort_perm.
  split; [|split; [|split]].
  - rewrite mapi_value.
    transitivity (map Models.name (map Models.parse lines));
      [exact (Permutation_map Models.name P) | now rewrite map_parse_name].
  - now rewrite mapi_value, mapi_name.
  - apply mapi_sorted; [|apply sort_sorted].
    eapply Permutation_Forall; [symmetry; exact P|].
    apply List.Forall_forall. intros m Hm. apply List.in_map_iff in Hm.
    destruct Hm as [x [<- _]]. now rewrite parse_name.
  - intros H. apply (f_equal (map value)) in H. rewrite mapi_value in H.
    apply (f_equal (@length _)) in H.
    rewrite length_map, (Permutation_length P), length_map in H.
    destruct lines; [now apply Hne | discriminate H].
Qed.

(** X20.  When [opencode models] prints at least one line that is not
    blank, [fetchOpenCodeModels] returns a menu, and the menu holds exactly
    these lines, each once, as name and as value, ordered by the rank of
    the model in the list of preferred names: a model of a lower rank never
    follows one of a higher rank.  When the command fails, or prints
    nothing but blank lines, the result is null. *)
Theorem fetchOpenCodeModels_sorted (stdout : jsstring) :
  (Models.model_lines stdout <> [] ->
   exists l,
     Models.fetchOpenCodeModels toLowerCase (Some stdout) = Some l
     /\ Permutation (map value l) (Models.model_lines stdout)
     /\ map preset_name l = map value l
     /\ StronglySorted by_line l
     /\ l <> [])
  /\ (Models.model_lines stdout = [] ->
      Models.fetchOpenCodeModels toLowerCase (Some stdout) = None)
  /\ Models.fetchOpenCodeModels toLowerCase None = None.
Proof.
  split; [|split; [|reflexivity]].
  - intros Hne.
    destruct (Models.fetchOpenCodeModels toLowerCase (Some stdout))
      as [l|] eqn:E.
    + exists l. split; [reflexivity|]. now apply fetchOpenCodeModels_menu.
    + exfalso. unfold Models.fetchOpenCodeModels in E.
      destruct (Models.model_lines stdout); [now apply Hne | discriminate E].
  - intros E. unfold Models.fetchOpenCodeModels. now rewrite E.
Qed.

(** X21.  For OpenCode the menu of models is never missing and never
    empty: whatever [opencode models] prints, and when it fails, there is a
    first model to recommend; when the command fails or prints nothing but
    blank lines, the menu is the fallback list. *)
Theorem getModelsForCLI_opencode (exec : option jsstring) :
  (exists m l,
     Models.getModelsForCLI toLowerCase exec opencode = Some (m :: l))
  /\ ((exec = None \/ exists stdout,
         exec = Some stdout /\ Models.model_lines stdout = []) ->
      Models.getModelsForCLI toLowerCase exec opencode = Some Models.fallback).
Proof.
  unfold Models.getModelsForCLI.
  replace (bool_decide (id opencode = lit "opencode") && dynamicModels opencode)
    with true by (vm_compute; reflexivity).
  split.
  - destruct (Models.fetchOpenCodeModels toLowerCase exec) as [[|m l]|];
      eexists; eexists; reflexivity.
  - intros [->|[stdout [-> E]]]; [reflexivity|].
    unfold Models.fetchOpenCodeModels. now rewrite E.
Qed.

End OpenCode.

(** ** Examples *)

Definition two_models : jsstring := lit "
opencode/grok-code
zai/glm-4.7-free

".

Lemma fetchOpenCodeModels_sorted_witness :
  exists l,
    Models.fetchOpenCodeModels Tester.toLowerCase (Some two_models) = Some l
    /\ map value l = [lit "zai/glm-4.7-free"; lit "opencode/grok-code"]
    /\ Permutation (map value l) (Models.model_lines two_models).
Proof.
  destruct (proj1 (fetchOpenCodeModels_sorted Tester.toLowerCase two_models))
    as [l [E [P _]]]; [vm_compute; discriminate|].
  exists l. split; [exact E|]. split; [|exact P].
  vm_compute in E. injection E as <-. vm_compute. reflexivity.
Defined.

Lemma getModelsForCLI_opencode_witness :
  Models.getModelsForCLI Tester.toLowerCase None opencode
  = Some Models.fallback.
Proof.
  apply (getModelsForCLI_opencode Tester.toLowerCase None). now left.
Defined.

End DetectorFacts.

(* ===================================================================== *)
(** * The installation steps of the setup *)
(* ===================================================================== *)

Section SetupFacts.
Import Installer.

Lemma installAliases_detected
    (h : host) (clk : clock) (st st' : fs_state) (a : install_args)
    (sh : shell_kind) (p : jsstring) :
  alias_name (gpAlias a) = true -> alias_name (gcAlias a) = true ->
  installAliases h clk st a = (st', Success sh p) ->
  aliasExists st' p (gpAlias a) = true /\ aliasExists st' p (gcAlias a) = true.
Proof.
  intros Hgp Hgc H.
  destruct (installAliases_success h clk st st' a sh p H) as [Hp [X HX]].
  split; rewrite (aliasExists_file st' p _ _ HX), aliasContent_content.
  - now apply detected_gp.
  - now apply detected_gc.
Qed.

Lemma installAliases_conflict_inert
    (h : host) (clk : clock) (st st' : fs_state) (a : install_args)
    (l : list jsstring) (p : jsstring) :
  installAliases h clk st a = (st', Conflict l p) ->
  st' = st /\ overwrite a = false.
Proof.
  intros H.
  destruct ((aliasExists st (snd (detectShellProfile h st)) (gpAlias a)
             || aliasExists st (snd (detectShellProfile h st)) (gcAlias a))
            && negb (overwrite a)) eqn:Hc.
  - rewrite (installAliases_refuses h clk st a Hc) in H.
    injection H as <- _ _. split; [reflexivity|].
    apply andb_true_iff in Hc. destruct Hc as [_ Hc].
    now apply negb_true_iff in Hc.
  - rewrite (installAliases_steps h clk st a Hc) in H.
    destruct (denied st _); discriminate H.
Qed.

Lemma conflictLoop_cancelled
    (h : host) (c : CLI) (md : jsstring) (answers : list (Setup.action * clock))
    (st st' : fs_state) (gp gc : jsstring) (res : install_result) :
  Setup.conflictLoop h c md answers st gp gc res = (st', Setup.Cancelled) ->
  st' = st.
Proof.
  revert st gp gc res. induction answers as [|[a clk] rest IH];
    intros st gp gc res H.
  - destruct res; discriminate H.
  - destruct res as [sh p|l p|e]; [discriminate H| |discriminate H].
    cbn [Setup.conflictLoop] in H. destruct a as [|gp' gc'|].
    + destruct (installAliases h clk st _) as [st1 res1] eqn:E.
      destruct res1 as [sh1 p1|l1 p1|e1].
      * destruct rest as [|[? ?] ?]; discriminate H.
      * apply installAliases_conflict_inert in E. destruct E as [_ E].
        discriminate E.
      * destruct rest as [|[? ?] ?]; discriminate H.
    + destruct (installAliases h clk st _) as [st1 res1] eqn:E.
      destruct res1 as [sh1 p1|l1 p1|e1].
      * destruct rest as [|[? ?] ?]; discriminate H.
      * apply installAliases_conflict_inert in E. destruct E as [-> _].
        now apply IH in H.
      * destruct rest as [|[? ?] ?]; discriminate H.
    + now injection H as <-.
Qed.

(** X22.  When the installation step of the setup ends with a cancel,
    the file system is as it was before the step, whatever was answered
    before: every installation that conflicts writes nothing, and after an
    override or a rename that goes through there is no prompt to cancel. *)
Theorem setup_cancel_leaves_untouched
    (h : host) (clk : clock) (st st' : fs_state) (gp gc : jsstring)
    (c : CLI) (md : jsstring) (answers : list (Setup.action * clock)) :
  Setup.installStep h clk st gp gc c md answers = (st', Setup.Cancelled) ->
  st' = st.
Proof.
  unfold Setup.installStep.
  destruct (installAliases h clk st _) as [st1 res1] eqn:E. intros H.
  destruct res1 as [sh1 p1|l1 p1|e1].
  - destruct answers as [|[? ?] ?]; discriminate H.
  - apply installAliases_conflict_inert in E. destruct E as [-> _].
    now apply conflictLoop_cancelled in H.
  - destruct answers as [|[? ?] ?]; discriminate H.
Qed.

(** X23.  An override ends the conflict loop: the installation with
    [overwrite] is never refused, so the step ends with the aliases
    installed under the current names or with the error of the
    installation; the answers that may follow are not read. *)
Theorem setup_override_ends_loop
    (h : host) (c : CLI) (md : jsstring) (clk : clock)
    (rest : list (Setup.action * clock)) (st : fs_state) (gp gc : jsstring)
    (l : list jsstring) (p : jsstring) :
  let r := installAliases h clk st
             {| gpAlias := gp; gcAlias := gc; cli := c; model := md;
                overwrite := true |} in
  Setup.conflictLoop h c md ((Setup.Override, clk) :: rest) st gp gc
    (Conflict l p)
  = (fst r, Setup.Installed (snd (detectShellProfile h st)) gp gc)
  \/ exists e,
       Setup.conflictLoop h c md ((Setup.Override, clk) :: rest) st gp gc
         (Conflict l p)
       = (fst r, Setup.Failed e).
Proof.
  cbv zeta. cbn [Setup.conflictLoop].
  destruct (installAliases h clk st _) as [st1 res1] eqn:E. cbn [fst].
  destruct res1 as [sh1 p1|l1 p1|e1].
  - left. apply installAliases_success in E. destruct E as [-> _].
    now destruct rest as [|[? ?] ?].
  - apply installAliases_conflict_inert in E. destruct E as [_ E].
    discriminate E.
  - right. exists e1. now destruct rest as [|[? ?] ?].
Qed.

Definition plain_names (answers : list (Setup.action * clock)) : Prop :=
  Forall (fun a => match fst a with
                   | Setup.Rename gp gc =>
                       alias_name gp = true /\ alias_name gc = true
                   | _ => True
                   end) answers.

Lemma conflictLoop_installed
    (h : host) (c : CLI) (md : jsstring) (answers : list (Setup.action * clock))
    (st st' : fs_state) (gp gc : jsstring) (res : install_result)
    (p gp' gc' : jsstring) :
  alias_name gp = true -> alias_name gc = true -> plain_names answers ->
  (forall sh q, res = Success sh q ->
     aliasExists st q gp = true /\ aliasExists st q gc = true) ->
  Setup.conflictLoop h c md answers st gp gc res
  = (st', Setup.Installed p gp' gc') ->
  aliasExists st' p gp' = true /\ aliasExists st' p gc' = true.
Proof.
  revert st gp gc res. induction answers as [|[a clk] rest IH];
    intros st gp gc res Hgp Hgc Hn Hres H.
  - destruct res as [sh q|l q|e]; try discriminate H.
    cbn [Setup.conflictLoop] in H. injection H as <- <- <- <-.
    now apply (Hres sh).
  - apply Forall_cons_iff in Hn. destruct Hn as [Ha Hn].
    destruct res as [sh q|l q|e]; [|
      |discriminate H].
    + cbn [Setup.conflictLoop] in H. injection H as <- <- <- <-.
      now apply (Hres sh).
    + cbn [Setup.conflictLoop] in H. destruct a as [|x y|]; [| |discriminate H].
      * destruct (installAliases h clk st _) as [st1 res1] eqn:E.
        apply (IH st1 gp gc res1); try assumption.
        intros sh1 q1 ->.
        refine (installAliases_detected h clk st st1 _ sh1 q1 _ _ E);
          assumption.
      * cbn [fst] in Ha. destruct Ha as [Hx Hy].
        destruct (installAliases h clk st _) as [st1 res1] eqn:E.
        apply (IH st1 x y res1); try assumption.
        intros sh1 q1 ->.
        refine (installAliases_detected h clk st st1 _ sh1 q1 _ _ E);
          assumption.
Qed.

(** X24.  When the names typed at the prompts, the first two and those of
    every rename, are plain shell names (not empty; no white space, no
    syntax character of regular expressions, no [#]), and the installation
    step of the setup reports the aliases as installed, the two names it
    shows to the user (the last ones chosen) are detected in the profile it
    names, whatever was answered on the way. *)
Theorem setup_installed_is_detected
    (h : host) (clk : clock) (st st' : fs_state) (gp gc : jsstring)
    (c : CLI) (md : jsstring) (answers : list (Setup.action * clock))
    (p gp' gc' : jsstring) :
  alias_name gp = true -> alias_name gc = true -> plain_names answers ->
  Setup.installStep h clk st gp gc c md answers
  = (st', Setup.Installed p gp' gc') ->
  aliasExists st' p gp' = true /\ aliasExists st' p gc' = true.
Proof.
  intros Hgp Hgc Hn. unfold Setup.installStep.
  destruct (installAliases h clk st _) as [st1 res1] eqn:E.
  apply conflictLoop_installed; try assumption.
  intros sh q ->.
  refine (installAliases_detected h clk st st1 _ sh q _ _ E); assumption.
Qed.

(** X25.  The installation step of the reload setup.  A cancel leaves the
    file system as it was and the override is never refused, whatever the
    name is; and for a plain shell name, when the step reports the alias as
    installed, the name is detected in the profile it names. *)
Theorem reload_setup_outcomes
    (h : host) (clk : clock) (st st' : fs_state) (name : jsstring)
    (answer : option (bool * clock)) (o : Setup.reload_outcome) :
  Setup.reloadStep h clk st name answer = (st', o) ->
  (o = Setup.ReloadCancelled -> st' = st)
  /\ o <> Setup.ReloadFailed None
  /\ (alias_name name = true ->
      forall p, o = Setup.ReloadInstalled p ->
        Reload.aliasExists st' p name = true).
Proof.
  unfold Setup.reloadStep.
  destruct (Reload.installReloadAlias h clk st name false) as [st1 r1] eqn:E1.
  assert (D : alias_name name = true ->
             forall clk0 s s' ov sh q,
             Reload.installReloadAlias h clk0 s name ov
             = (s', Reload.Success sh q) ->
             Reload.aliasExists s' q name = true).
  { intros Hn clk0 s s' ov sh q H.
    destruct (Reload.aliasExists s (snd (detectShellProfile h s)) name
              && negb ov) eqn:Hc.
    - rewrite (installReloadAlias_refuses h clk0 s name ov Hc) in H.
      discriminate H.
    - rewrite (installReloadAlias_steps h clk0 s name ov Hc) in H.
      destruct (denied s _); [discriminate H|].
      injection H as <- _ <-.
      unfold Reload.aliasExists, readFile. rewrite set_file_lookup.
      now rewrite alias_line_detected. }
  destruct r1 as [sh1 p1|p1|e1].
  - intros H. injection H as <- <-.
    split; [discriminate|]. split; [discriminate|].
    intros Hn p H. injection H as <-. now apply (D Hn clk st st1 false sh1).
  - assert (S1 : st1 = st /\ p1 = snd (detectShellProfile h st)).
    { destruct (Reload.aliasExists st (snd (detectShellProfile h st)) name
                && negb false) eqn:Hc.
      - rewrite (installReloadAlias_refuses h clk st name false Hc) in E1.
        now injection E1 as <- <-.
      - rewrite (installReloadAlias_steps h clk st name false Hc) in E1.
        destruct (denied st _); discriminate E1. }
    destruct S1 as [-> ->].
    destruct answer as [[[|] clk']|].
    + destruct (Reload.installReloadAlias h clk' st name true)
        as [st2 r2] eqn:E2.
      assert (Hc : Reload.aliasExists st (snd (detectShellProfile h st)) name
                   && negb true = false) by apply andb_false_r.
      pose proof (installReloadAlias_steps h clk' st name true Hc) as S.
      rewrite E2 in S.
      destruct (denied st (snd (detectShellProfile h st))).
      * injection S as -> ->. intros H. injection H as <- <-.
        split; [discriminate|]. split; [discriminate|]. discriminate.
      * injection S as -> ->. intros H. injection H as <- <-.
        split; [discriminate|]. split; [discriminate|].
        intros Hn p H. injection H as <-.
        unfold Reload.aliasExists, readFile. rewrite set_file_lookup.
        now rewrite alias_line_detected.
    + intros H. injection H as <- <-.
      split; [reflexivity|]. split; discriminate.
    + intros H. injection H as <- <-.
      split; [discriminate|]. split; discriminate.
  - intros H. injection H as <- <-.
    split; [discriminate|]. split; discriminate.
Qed.

(** ** Examples *)

Lemma setup_cancel_leaves_untouched_witness :
  fst (Setup.installStep zsh_host noon own_gp (lit "gp") (lit "gc") aider
         (lit "gpt-5")
         [(Setup.Rename (lit "gp") (lit "gca"), later); (Setup.Cancel, later)])
  = own_gp.
Proof.
  apply (setup_cancel_leaves_untouched zsh_host noon own_gp _ (lit "gp")
           (lit "gc") aider (lit "gpt-5")
           [(Setup.Rename (lit "gp") (lit "gca"), later);
            (Setup.Cancel, later)]).
  vm_compute. reflexivity.
Defined.

Lemma setup_installed_is_detected_witness :
  let r := Setup.installStep zsh_host noon own_gp (lit "gp") (lit "gc") aider
             (lit "gpt-5") [(Setup.Rename (lit "gpa") (lit "gca"), later)] in
  snd r = Setup.Installed (lit "/home/u/.zshrc") (lit "gpa") (lit "gca")
  /\ aliasExists (fst r) (lit "/home/u/.zshrc") (lit "gpa") = true
  /\ aliasExists (fst r) (lit "/home/u/.zshrc") (lit "gca") = true.
Proof.
  cbv zeta. split; [vm_compute; reflexivity|].
  apply (setup_installed_is_detected zsh_host noon own_gp _ (lit "gp")
           (lit "gc") aider (lit "gpt-5")
           [(Setup.Rename (lit "gpa") (lit "gca"), later)]).
  - vm_compute. reflexivity.
  - vm_compute. reflexivity.
  - constructor; [|constructor]. cbn [fst].
    split; vm_compute; reflexivity.
  - vm_compute. reflexivity.
Defined.

Lemma reload_setup_outcomes_witness :
  let r := Setup.reloadStep zsh_host noon rl_function (lit "rl")
             (Some (true, later)) in
  snd r = Setup.ReloadInstalled (lit "/home/u/.zshrc")
  /\ Reload.aliasExists (fst r) (lit "/home/u/.zshrc") (lit "rl") = true.
Proof.
  cbv zeta.
  assert (E : snd (Setup.reloadStep zsh_host noon rl_function (lit "rl")
                     (Some (true, later)))
              = Setup.ReloadInstalled (lit "/home/u/.zshrc"))
    by (vm_compute; reflexivity).
  split; [exact E|].
  destruct (reload_setup_outcomes zsh_host noon rl_function
              (fst (Setup.reloadStep zsh_host noon rl_function (lit "rl")
                      (Some (true, later))))
              (lit "rl") (Some (true, later))
              (Setup.ReloadInstalled (lit "/home/u/.zshrc")))
    as [_ [_ H]]; [vm_compute; reflexivity|].
  apply H; [vm_compute; reflexivity | reflexivity].
Defined.

End SetupFacts.

(* ===================================================================== *)
(** * The reload alias, installed twice *)
(* ===================================================================== *)

Section ReloadTwice.
Import Installer.

(** ** Matching at a position, with the character before it *)

Definition NoMatchAt (re : regex) (prev : option cu) (U V : jsstring) : Prop :=
  forall a b, U = a ++ b -> b <> [] ->
    match_at re (prev_after prev a) (b ++ V) = None.

Lemma NoMatchAt_tail (re : regex) (prev : option cu) (c : cu) (U V : jsstring) :
  NoMatchAt re prev (c :: U) V -> NoMatchAt re (Some c) U V.
Proof.
  intros H a b Hab Hb.
  specialize (H (c :: a) b). cbn [prev_after fold_left app] in H.
  apply H; [now rewrite Hab | exact Hb].
Qed.

Lemma NoMatchAt_head (re : regex) (prev : option cu) (c : cu) (U V : jsstring) :
  NoMatchAt re prev (c :: U) V -> match_at re prev (c :: U ++ V) = None.
Proof. intros H. apply (H [] (c :: U)); [reflexivity | discriminate]. Qed.

Lemma NoMatchAt_app (re : regex) (prev : option cu) (U1 U2 V : jsstring) :
  NoMatchAt re prev U1 (U2 ++ V) ->
  NoMatchAt re (prev_after prev U1) U2 V ->
  NoMatchAt re prev (U1 ++ U2) V.
Proof.
  revert prev. induction U1 as [|c U1 IH]; intros prev H1 H2; [exact H2|].
  intros a b Hab Hb. destruct a as [|x a].
  - cbn [app] in Hab. subst b. cbn [prev_after fold_left].
    change ((c :: U1 ++ U2) ++ V) with (((c :: U1) ++ U2) ++ V).
    rewrite <- app_assoc. apply (H1 [] (c :: U1)); [reflexivity | discriminate].
  - injection Hab as <- Hab. cbn [prev_after fold_left].
    apply (IH (Some c) (NoMatchAt_tail _ _ _ _ _ H1) H2 a b Hab Hb).
Qed.

Lemma replace_skip_at (re : regex) (by_ U V : jsstring) (prev : option cu) :
  NoMatchAt re prev U V ->
  replace_from re by_ O prev (U ++ V)
  = U ++ replace_from re by_ O (prev_after prev U) V.
Proof.
  revert prev. induction U as [|c U IH]; intros prev H; [reflexivity|].
  cbn [app replace_from]. rewrite (NoMatchAt_head _ _ _ _ _ H).
  f_equal. apply IH. eapply NoMatchAt_tail, H.
Qed.

Lemma count_skip_at (re : regex) (U V : jsstring) (prev : option cu) :
  NoMatchAt re prev U V ->
  count_from re prev (U ++ V) = count_from re (prev_after prev U) V.
Proof.
  revert prev. induction U as [|c U IH]; intros prev H; [reflexivity|].
  cbn [app count_from]. rewrite (NoMatchAt_head _ _ _ _ _ H).
  apply IH. eapply NoMatchAt_tail, H.
Qed.

(** ** The alias line of a name *)

Variable n : jsstring.
Hypothesis Hn : alias_name n = true.

(** [alias\s+name=] read from left to right. *)
Definition ascan (s : jsstring) : option jsstring :=
  match strip (lit "alias") s with
  | Some (c :: t) =>
      if isSpace c then
        match strip n (skip Space t) with
        | Some u => expect equals u
        | None => None
        end
      else None
  | _ => None
  end.

Lemma mtch_alias (r : list item) (s : jsstring) :
  mtch (body (Reload.aliasPattern n) ++ r) s
  = match ascan s with
    | Some u => mtch r u
    | None => None
    end.
Proof.
  unfold Reload.aliasPattern, ascan. cbn [body]. rewrite <- !app_assoc.
  rewrite mtch_str.
  destruct (strip (lit "alias") s) as [[|c t]|]; try reflexivity.
  cbn [app mtch exactly in_class].
  destruct (isSpace c); [|reflexivity].
  destruct (alias_name_inv n Hn) as [c0 [n0 [En [Hc0 Hn0]]]].
  rewrite En. cbn [str map app mtch].
  rewrite star_skip by (cbn [in_class]; now apply name_char_space).
  change (chr c0 (mtch (map Chr n0 ++ Chr equals :: r)))
    with (mtch (str (c0 :: n0) ++ Chr equals :: r)).
  rewrite mtch_str. destruct (strip (c0 :: n0) (skip Space t)); [|reflexivity].
  cbn [mtch]. apply chr_expect.
Qed.

Lemma match_at_alias (prev : option cu) (s : jsstring) :
  match_at (Reload.aliasPattern n) prev s
  = if at_bol prev then ascan s else None.
Proof.
  unfold match_at. change (anchored (Reload.aliasPattern n)) with true.
  cbn [andb]. rewrite <- (app_nil_r (body _)), mtch_alias.
  destruct (at_bol prev); cbn [negb]; [|reflexivity].
  now destruct (ascan s).
Qed.

Lemma star_total (cl : cclass) (k : cont) (s : jsstring) :
  (forall x, k x <> None) -> star cl k s = k (skip cl s).
Proof.
  intros Hk. induction s as [|c t IH]; [reflexivity|].
  cbn [star skip]. destruct (in_class cl c); [|reflexivity].
  rewrite IH. destruct (k (skip cl t)) eqn:E; [reflexivity|].
  now apply Hk in E.
Qed.

(** What is left of the line after the equals sign. *)
Definition line_rest (u : jsstring) : jsstring :=
  match skip NotNL u with
  | c :: w => w
  | [] => []
  end.

Lemma skip_NotNL_head (u : jsstring) :
  match skip NotNL u with
  | c :: _ => c = nl
  | [] => True
  end.
Proof.
  induction u as [|c t IH]; [exact I|]. cbn [skip in_class NotNL].
  destruct (c =? 10) eqn:E; cbn [negb]; [|exact IH].
  now apply N.eqb_eq in E.
Qed.

Lemma match_at_line (prev : option cu) (s : jsstring) :
  match_at (Reload.aliasLinePattern n) prev s
  = if at_bol prev
    then match ascan s with
         | Some u => Some (line_rest u)
         | None => None
         end
    else None.
Proof.
  unfold match_at. change (anchored (Reload.aliasLinePattern n)) with true.
  cbn [andb].
  assert (E : body (Reload.aliasLinePattern n)
              = body (Reload.aliasPattern n) ++ [Greedy 0 NotNL; Opt nl]).
  { unfold Reload.aliasLinePattern, Reload.aliasPattern. cbn [body].
    now rewrite <- !app_assoc. }
  rewrite E, mtch_alias.
  destruct (at_bol prev); cbn [negb]; [|reflexivity].
  destruct (ascan s) as [u|]; [|reflexivity].
  cbn [mtch exactly]. rewrite star_total.
  - unfold line_rest. pose proof (skip_NotNL_head u) as Hh.
    destruct (skip NotNL u) as [|c w]; [reflexivity|]. subst c.
    cbn [opt]. now rewrite N.eqb_refl.
  - intros x. destruct x as [|c w]; cbn [opt]; [discriminate|].
    destruct (c =? nl); discriminate.
Qed.

Lemma ascan_nil : ascan [] = None.
Proof. reflexivity. Qed.

Lemma ascan_first (c : cu) (t : jsstring) :
  (c =? 97) = false -> ascan (c :: t) = None.
Proof.
  intros Hc. unfold ascan.
  replace (strip (lit "alias") (c :: t)) with (@None jsstring); [reflexivity|].
  change (lit "alias") with (97 :: lit "lias"). cbn [strip expect].
  now rewrite Hc.
Qed.

(** ** What cannot hold an alias line *)

(** No position of the text is at the start of a line and holds an [a];
    [bol] tells whether the text starts a line. *)
Fixpoint bol_safe (bol : bool) (s : jsstring) : bool :=
  match s with
  | [] => true
  | c :: t => negb (bol && (c =? 97)) && bol_safe (isLineTerminator c) t
  end.

Definition bol_end (bol : bool) (s : jsstring) : bool :=
  match rev s with
  | c :: _ => isLineTerminator c
  | [] => bol
  end.

Lemma bol_safe_app (bol : bool) (X Y : jsstring) :
  bol_safe bol (X ++ Y) = bol_safe bol X && bol_safe (bol_end bol X) Y.
Proof.
  revert bol. induction X as [|c X IH]; intros bol; [reflexivity|].
  cbn [app bol_safe]. rewrite IH, <- andb_assoc. do 2 f_equal.
  unfold bol_end. cbn [rev].
  destruct (rev X) as [|x r] eqn:E; [reflexivity|]. reflexivity.
Qed.

Definition one_line (v : jsstring) : bool :=
  forallb (fun c => negb (isLineTerminator c)) v.

Lemma bol_safe_one_line (v : jsstring) :
  one_line v = true -> bol_safe false v = true /\ bol_end false v = false.
Proof.
  intros Hv. split.
  - induction v as [|c v IH]; [reflexivity|].
    cbn [one_line forallb] in Hv. apply andb_true_iff in Hv.
    destruct Hv as [Hc Hv]. apply negb_true_iff in Hc.
    cbn [bol_safe andb negb]. rewrite Hc. now apply IH.
  - unfold bol_end. destruct (rev v) as [|c r] eqn:E; [reflexivity|].
    assert (Hin : In c v) by (apply in_rev; rewrite E; now left).
    unfold one_line in Hv. rewrite forallb_forall in Hv.
    apply Hv in Hin. now apply negb_true_iff in Hin.
Qed.

Lemma bol_safe_mono (s : jsstring) :
  bol_safe true s = true -> forall b, bol_safe b s = true.
Proof.
  destruct s as [|c t]; [reflexivity|]. cbn [bol_safe]. intros H [|]; [exact H|].
  apply andb_true_iff in H. destruct H as [_ H]. exact H.
Qed.

Lemma bol_safe_NoMatchAt (X V : jsstring) (prev : option cu) :
  bol_safe (at_bol prev) X = true ->
  NoMatchAt (Reload.aliasPattern n) prev X V.
Proof.
  revert prev. induction X as [|c X IH]; intros prev H a b Hab Hb.
  - destruct a; [|discriminate Hab]. cbn [app] in Hab. now subst b.
  - cbn [bol_safe] in H. apply andb_true_iff in H. destruct H as [H1 H2].
    destruct a as [|x a].
    + cbn [app] in Hab. subst b. cbn [prev_after fold_left app].
      rewrite match_at_alias. destruct (at_bol prev); [|reflexivity].
      apply ascan_first. cbn [andb] in H1. now apply negb_true_iff in H1.
    + injection Hab as <- Hab. cbn [prev_after fold_left].
      apply (IH (Some c)); [exact H2 | exact Hab | exact Hb].
Qed.

Lemma bol_safe_count (X : jsstring) (prev : option cu) :
  bol_safe (at_bol prev) X = true ->
  count_from (Reload.aliasPattern n) prev X = 0%nat.
Proof.
  revert prev. induction X as [|c X IH]; intros prev H.
  - cbn [count_from]. rewrite match_at_alias, ascan_nil.
    now destruct (at_bol prev).
  - cbn [bol_safe] in H. apply andb_true_iff in H. destruct H as [H1 H2].
    cbn [count_from]. rewrite (IH (Some c)) by exact H2.
    rewrite match_at_alias. destruct (at_bol prev); [|reflexivity].
    rewrite ascan_first; [reflexivity|].
    cbn [andb] in H1. now apply negb_true_iff in H1.
Qed.

(** ** The profile of the user *)

Lemma name_head_not_hash :
  forall r, strip n (hash :: r) = None.
Proof.
  intros r. destruct (alias_name_inv n Hn) as [c0 [n0 [-> [Hc0 _]]]].
  cbn [strip expect].
  replace (hash =? c0) with false; [reflexivity|].
  symmetry. apply N.eqb_neq. intros <-. discriminate Hc0.
Qed.

(** A match that starts before a comment line ends before it. *)
Lemma ascan_cut (b r u : jsstring) :
  ascan (b ++ nl :: hash :: r) = Some u -> ascan b <> None.
Proof.
  unfold ascan. intros H.
  destruct (strip (lit "alias") (b ++ nl :: hash :: r)) as [t|] eqn:E1;
    [|discriminate H].
  destruct (strip_cut (lit "alias") b (nl :: hash :: r) t) as [t' [E1' ->]];
    [vm_compute; reflexivity | apply blocking_nl_hash | exact E1|].
  rewrite E1'. destruct t' as [|c t''].
  - exfalso. cbn [app] in H. change (isSpace nl) with true in H. cbv iota in H.
    change (skip Space (hash :: r)) with (hash :: r) in H.
    now rewrite name_head_not_hash in H.
  - cbn [app] in H. destruct (isSpace c); [|discriminate H].
    destruct (skip Space t'') as [|d v] eqn:E2.
    + exfalso. rewrite (skip_all Space t'' _ E2) in H.
      change (skip Space (nl :: hash :: r)) with (hash :: r) in H.
      now rewrite name_head_not_hash in H.
    + rewrite (skip_app Space t'' _ d v E2) in H.
      destruct (strip n (d :: v ++ nl :: hash :: r)) as [u0|] eqn:E3;
        [|discriminate H].
      destruct (strip_cut n (d :: v) (nl :: hash :: r) u0) as [u0' [E3' ->]];
        [now apply alias_name_chars | apply blocking_nl_hash | exact E3|].
      rewrite E3'. destruct u0' as [|e w]; [discriminate H|].
      cbn [app expect] in *. destruct (e =? equals); [discriminate|discriminate H].
Qed.

Lemma user_NoMatchAt (P r : jsstring) (prev : option cu) :
  search (Reload.aliasPattern n) prev P = false ->
  NoMatchAt (Reload.aliasPattern n) prev P (nl :: hash :: r).
Proof.
  intros Hs a b Hab Hb. rewrite match_at_alias.
  destruct (at_bol (prev_after prev a)) eqn:Eb; [|reflexivity].
  destruct (ascan (b ++ nl :: hash :: r)) as [u|] eqn:E; [|reflexivity].
  exfalso. apply ascan_cut in E.
  pose proof (search_false _ _ _ Hs a b Hab) as M.
  rewrite match_at_alias, Eb in M. now apply E.
Qed.

(** *** Runs of newlines do not matter to the alias line *)

Lemma ascan_nleq (s s' z : jsstring) :
  nleq s s' -> ascan s = Some z -> ascan s' <> None.
Proof.
  unfold ascan. intros H E.
  destruct (strip (lit "alias") s) as [t|] eqn:E1; [|discriminate E].
  destruct (strip_nleq (lit "alias") s s' t) as [t' [-> Ht]];
    [vm_compute; reflexivity | exact H | exact E1|].
  destruct t as [|c t0]; [discriminate E|].
  destruct (isSpace c) eqn:Ec; [|discriminate E].
  assert (Hsk : nleq (skip Space t0) (skip Space t')).
  { pose proof (skip_space_nleq _ _ Ht) as K. cbn [skip in_class] in K.
    now rewrite Ec in K. }
  assert (Hh : exists c' t0', t' = c' :: t0' /\ isSpace c' = true
                              /\ skip Space t' = skip Space t0').
  { destruct (c =? nl) eqn:Enl.
    - apply N.eqb_eq in Enl. subst c.
      destruct (nleq_nl_head t0 t' Ht) as [t0' ->].
      exists nl, t0'. repeat split.
    - destruct (nleq_cons_inv c t0 t' Enl Ht) as [t0' [-> _]].
      exists c, t0'. split; [reflexivity|]. split; [exact Ec|].
      cbn [skip in_class]. now rewrite Ec. }
  destruct Hh as [c' [t0' [-> [Ec' Es]]]]. rewrite Ec'. rewrite Es in Hsk.
  destruct (strip n (skip Space t0)) as [u|] eqn:E2; [|discriminate E].
  destruct (strip_nleq n _ _ u (alias_name_chars n Hn) Hsk E2) as [u' [-> Hu]].
  destruct (expect_nleq equals u u' z eq_refl Hu E) as [z' [-> _]].
  discriminate.
Qed.

Lemma asearch_nl_head (prev : option cu) (t : jsstring) :
  search (Reload.aliasPattern n) prev (nl :: t)
  = search (Reload.aliasPattern n) (Some nl) t.
Proof.
  cbn [search]. rewrite match_at_alias.
  rewrite ascan_first by reflexivity. now destruct (at_bol prev).
Qed.

Lemma asearch_nleq (s s' : jsstring) :
  nleq s s' ->
  forall prev, search (Reload.aliasPattern n) prev s = true ->
               search (Reload.aliasPattern n) prev s' = true.
Proof.
  intros H.
  induction H as [|c s s' H IH|s s' H IH|s s' H IH]; intros prev Hs.
  - exact Hs.
  - cbn [search] in *. rewrite match_at_alias in *.
    destruct (at_bol prev).
    + destruct (ascan (c :: s)) as [z|] eqn:E.
      * pose proof (ascan_nleq (c :: s) (c :: s') z (nleq_keep c s s' H) E) as K.
        now destruct (ascan (c :: s')).
      * destruct (ascan (c :: s')); [reflexivity | now apply IH].
    + now apply IH.
  - rewrite asearch_nl_head in Hs.
    destruct (nleq_nl_head s s' H) as [t' ->].
    rewrite asearch_nl_head.
    specialize (IH (Some nl) Hs). now rewrite asearch_nl_head in IH.
  - do 2 rewrite asearch_nl_head.
    specialize (IH prev Hs). now rewrite asearch_nl_head in IH.
Qed.

(** ** The text of an installation *)

(** The texts of the template literal of [installReloadAlias], cut after
    the first two characters, before [alias ] and after the equals
    sign. *)
Definition reload_banner : jsstring := skipn 2 (lit "
# ━━━━━━━━━━━━━━━━━━━━━━━━━━━━━━━━━━━━━━━━━━━━━━━━━━━
# Shell Reload Alias - Added by @lvmk/quick-alias
# Generated: ").

Definition reload_rule : jsstring := lit "
# ━━━━━━━━━━━━━━━━━━━━━━━━━━━━━━━━━━━━━━━━━━━━━━━━━━━
".

Definition reload_source : jsstring := lit "`source ".

Definition reload_close : jsstring := lit "`
".

(** The comment lines of an installation, after [\n#]. *)
Definition banner_rest (ts : jsstring) : jsstring :=
  reload_banner ++ ts ++ reload_rule.

(** The alias line, after [alias ]. *)
Definition line_tail (p : jsstring) : jsstring :=
  n ++ equals :: reload_source ++ p ++ reload_close.

Lemma aliasContent_view (p ts : jsstring) :
  Reload.aliasContent n p ts
  = nl :: hash :: banner_rest ts ++ lit "alias " ++ line_tail p.
Proof.
  unfold banner_rest, line_tail. rewrite <- !app_assoc. vm_compute. reflexivity.
Qed.

Lemma one_line_app (x y : jsstring) :
  one_line (x ++ y) = one_line x && one_line y.
Proof. apply forallb_app. Qed.

Lemma one_line_name : one_line n = true.
Proof.
  pose proof (alias_name_chars n Hn) as H. unfold one_line.
  rewrite forallb_forall in *. intros c Hc. apply H in Hc.
  apply name_char_space in Hc. apply negb_true_iff.
  unfold isSpace, isLineTerminator in *.
  destruct (c =? 10) eqn:E1.
  { apply N.eqb_eq in E1. subst c. discriminate Hc. }
  destruct (c =? 13) eqn:E2.
  { apply N.eqb_eq in E2. subst c. discriminate Hc. }
  destruct (c =? 8232) eqn:E3.
  { apply N.eqb_eq in E3. subst c. discriminate Hc. }
  destruct (c =? 8233) eqn:E4.
  { apply N.eqb_eq in E4. subst c. discriminate Hc. }
  reflexivity.
Qed.

Lemma one_line_no_nl (v : jsstring) :
  one_line v = true -> forallb (in_class NotNL) v = true.
Proof.
  unfold one_line. rewrite !forallb_forall. intros H c Hc. apply H in Hc.
  cbn [in_class NotNL]. apply negb_true_iff in Hc. apply negb_true_iff.
  unfold isLineTerminator in Hc. now destruct (c =? 10).
Qed.

Lemma calm_one_line (v Y : jsstring) :
  one_line v = true -> calm 0 Y = true -> calm 0 (v ++ Y) = true.
Proof.
  intros Hv HY. apply one_line_no_nl in Hv.
  induction v as [|c v IH]; [exact HY|].
  cbn [forallb in_class NotNL] in Hv. apply andb_true_iff in Hv.
  destruct Hv as [Hc Hv]. apply negb_true_iff in Hc.
  cbn [app calm]. unfold nl. rewrite Hc. now apply IH.
Qed.

Section Texts.

Variables p ts : jsstring.
Hypothesis Hp : one_line p = true.
Hypothesis Hts : one_line ts = true.

Lemma banner_calm : calm 0 (banner_rest ts) = true.
Proof.
  unfold banner_rest. rewrite calm_app.
  replace (calm 0 reload_banner) with true by (vm_compute; reflexivity).
  replace (run_end 0 reload_banner) with 0%nat by (vm_compute; reflexivity).
  cbn [andb]. apply calm_one_line; [exact Hts | vm_compute; reflexivity].
Qed.

Lemma banner_safe (b : bool) :
  bol_safe b (nl :: hash :: banner_rest ts) = true.
Proof.
  apply bol_safe_mono. unfold banner_rest.
  rewrite !app_comm_cons, !bol_safe_app.
  destruct (bol_safe_one_line ts Hts) as [S1 S2].
  replace (bol_end true (nl :: hash :: reload_banner)) with false
    by (vm_compute; reflexivity).
  rewrite S1, S2.
  replace (bol_safe true (nl :: hash :: reload_banner)) with true
    by (vm_compute; reflexivity).
  vm_compute. reflexivity.
Qed.

Lemma banner_ends (prev : option cu) :
  prev_after prev (nl :: hash :: banner_rest ts) = Some nl.
Proof.
  unfold banner_rest. rewrite !app_comm_cons, !prev_after_app.
  generalize (prev_after (prev_after prev (nl :: hash :: reload_banner)) ts).
  intros q. vm_compute. reflexivity.
Qed.

Lemma ascan_line (V : jsstring) :
  ascan (lit "alias " ++ line_tail p ++ V)
  = Some (reload_source ++ p ++ reload_close ++ V).
Proof.
  pose proof (alias_line_matches n (reload_source ++ p ++ reload_close ++ V) Hn)
    as M.
  rewrite <- (app_nil_r (body _)), mtch_alias in M.
  unfold line_tail. rewrite <- !app_assoc, <- app_comm_cons, <- !app_assoc.
  destruct (ascan _); [exact M | discriminate M].
Qed.

Lemma line_rest_source :
  line_rest (reload_source ++ p ++ reload_close ++ []) = [].
Proof.
  unfold line_rest.
  assert (E : skip NotNL (reload_source ++ p ++ reload_close ++ []) = [nl]).
  { rewrite (skip_all NotNL reload_source) by (vm_compute; reflexivity).
    rewrite (skip_all NotNL p).
    - vm_compute. reflexivity.
    - pose proof (one_line_no_nl p Hp) as H.
      clear Hp. induction p as [|c v IH]; [reflexivity|].
      cbn [forallb] in H. apply andb_true_iff in H. destruct H as [Hc Hv].
      cbn [skip]. rewrite Hc. now apply IH. }
  now rewrite E.
Qed.

Lemma line_tail_safe :
  bol_safe false (lit "lias " ++ line_tail p) = true.
Proof.
  assert (O : one_line (lit "lias " ++ n ++ equals :: reload_source ++ p
                        ++ [34]) = true).
  { rewrite !one_line_app, one_line_name.
    change (equals :: reload_source ++ p ++ [34])
      with ([equals] ++ reload_source ++ p ++ [34]).
    rewrite !one_line_app, Hp. vm_compute. reflexivity. }
  destruct (bol_safe_one_line _ O) as [S1 S2].
  assert (E : lit "lias " ++ line_tail p
              = (lit "lias " ++ n ++ equals :: reload_source ++ p ++ [34])
                ++ [nl]).
  { unfold line_tail.
    replace reload_close with ([34] ++ [nl]) by (vm_compute; reflexivity).
    generalize (lit "lias ") reload_source. intros a b.
    rewrite <- !app_assoc. cbn [app]. rewrite <- !app_assoc. reflexivity. }
  rewrite E, bol_safe_app, S1, S2. reflexivity.
Qed.

End Texts.

(** ** Install, then install again with overwrite *)

(** The removal takes the alias line of the first installation away and
    leaves its comment lines. *)
Lemma remove_installed (P0 p ts : jsstring) :
  one_line p = true -> one_line ts = true ->
  test (Reload.aliasPattern n) P0 = false ->
  exists Q, nleq P0 Q
    /\ Reload.removeFromContent n (P0 ++ Reload.aliasContent n p ts)
       = Q ++ nl :: hash :: banner_rest ts.
Proof.
  intros Hp Hts H0. unfold Reload.removeFromContent.
  fold (collapse (replace (Reload.aliasLinePattern n) []
                    (P0 ++ Reload.aliasContent n p ts))).
  assert (R : replace (Reload.aliasLinePattern n) []
                (P0 ++ Reload.aliasContent n p ts)
              = P0 ++ nl :: hash :: banner_rest ts).
  { rewrite aliasContent_view. unfold replace.
    assert (E : P0 ++ nl :: hash :: banner_rest ts ++ lit "alias " ++ line_tail p
                = (P0 ++ nl :: hash :: banner_rest ts)
                  ++ (lit "alias " ++ line_tail p) ++ []).
    { generalize (banner_rest ts) (lit "alias ") (line_tail p). intros B A L.
      rewrite app_nil_r, <- ?app_assoc. cbn [app]. reflexivity. }
    rewrite E, replace_skip_at.
    - rewrite replace_match.
      + rewrite replace_nil; [now rewrite !app_nil_r|].
        rewrite match_at_line, ascan_nil. now destruct (at_bol _).
      + change (lit "alias ") with (97 :: lit "lias "). discriminate.
      + rewrite match_at_line, prev_after_app, banner_ends by exact Hts.
        change (at_bol (Some nl)) with true. cbv iota.
        rewrite <- app_assoc, (ascan_line p []).
        now rewrite (line_rest_source p Hp).
    - intros a b Hab Hb. apply aliasLine_none. revert a b Hab Hb.
      change (NoMatchAt (Reload.aliasPattern n) None
                (P0 ++ nl :: hash :: banner_rest ts)
                ((lit "alias " ++ line_tail p) ++ [])).
      apply NoMatchAt_app.
      + rewrite <- !app_comm_cons. now apply user_NoMatchAt.
      + apply bol_safe_NoMatchAt. now apply banner_safe. }
  rewrite R.
  destruct (collapse_user P0 (banner_rest ts) (banner_calm ts Hts))
    as [Q [HQ EQ]].
  exists Q. split; [exact HQ | exact EQ].
Qed.

(** After the second installation the alias line is there once. *)
Lemma count_installed (Q p ts1 ts2 : jsstring) :
  one_line p = true -> one_line ts1 = true -> one_line ts2 = true ->
  test (Reload.aliasPattern n) Q = false ->
  count (Reload.aliasPattern n)
    ((Q ++ nl :: hash :: banner_rest ts1) ++ Reload.aliasContent n p ts2)
  = 1%nat.
Proof.
  intros Hp H1 H2 HQ. rewrite aliasContent_view. unfold count.
  assert (E : (Q ++ nl :: hash :: banner_rest ts1)
              ++ nl :: hash :: banner_rest ts2 ++ lit "alias " ++ line_tail p
              = ((Q ++ nl :: hash :: banner_rest ts1)
                 ++ nl :: hash :: banner_rest ts2)
                ++ 97 :: lit "lias " ++ line_tail p).
  { replace (lit "alias ") with (97 :: lit "lias ") by (vm_compute; reflexivity).
    generalize (banner_rest ts1) (banner_rest ts2) (lit "lias ") (line_tail p).
    intros B1 B2 A L.
    rewrite <- ?app_assoc. cbn [app]. rewrite <- ?app_assoc. reflexivity. }
  rewrite E, count_skip_at.
  - cbn [count_from]. rewrite match_at_alias, prev_after_app, banner_ends
      by exact H2.
    change (at_bol (Some nl)) with true. cbv iota.
    change (97 :: lit "lias " ++ line_tail p)
      with ((97 :: lit "lias ") ++ line_tail p).
    replace (97 :: lit "lias ") with (lit "alias ") by (vm_compute; reflexivity).
    rewrite <- (app_nil_r (line_tail p)), (ascan_line p []).
    rewrite app_nil_r.
    now rewrite (bol_safe_count _ (Some 97) (line_tail_safe p Hp)).
  - apply NoMatchAt_app; [apply NoMatchAt_app|].
    + rewrite <- !app_comm_cons. now apply user_NoMatchAt.
    + apply bol_safe_NoMatchAt. now apply banner_safe.
    + apply bol_safe_NoMatchAt. now apply banner_safe.
Qed.

End ReloadTwice.

Section ReloadTwiceInstall.
Import Installer.

(** X26.  The reload alias, installed on a profile that does not define
    the name and then installed again with overwrite: both installations
    succeed, and the final profile holds one alias line of the name.  The
    name is a plain shell name; the path of the profile and the time
    stamps hold no line terminator. *)
Theorem reload_twice_one_alias_line
    (h : host) (clk1 clk2 : clock) (st : fs_state) (name : jsstring) :
  let shell := fst (detectShellProfile h st) in
  let profile := snd (detectShellProfile h st) in
  path_join h = posix_join ->
  alias_name name = true ->
  one_line profile = true ->
  one_line (toISOString clk1) = true -> one_line (toISOString clk2) = true ->
  Reload.aliasExists st profile name = false ->
  denied st profile = false ->
  exists st1 st2 final,
    Reload.installReloadAlias h clk1 st name false
    = (st1, Reload.Success shell profile)
    /\ Reload.installReloadAlias h clk2 st1 name true
       = (st2, Reload.Success shell profile)
    /\ files st2 !! profile = Some final
    /\ count (Reload.aliasPattern name) final = 1%nat.
Proof.
  cbv zeta. intros Hj Hn Hp H1 H2 Hex Hd.
  set (profile := snd (detectShellProfile h st)) in *.
  set (shell := fst (detectShellProfile h st)) in *.
  set (P0 := default [] (files st !! profile)).
  assert (H0 : test (Reload.aliasPattern name) P0 = false).
  { unfold P0. revert Hex. unfold Reload.aliasExists, readFile.
    destruct (files st !! profile) as [d|]; cbn [default].
    - intros H. now apply orb_false_iff in H.
    - intros _. unfold test. cbn [search].
      now rewrite (match_at_alias name Hn). }
  set (A1 := Reload.aliasContent name profile (toISOString clk1)).
  set (A2 := Reload.aliasContent name profile (toISOString clk2)).
  (* the first installation *)
  pose proof (installReloadAlias_steps h clk1 st name false) as S1.
  cbv zeta in S1. fold profile shell in S1.
  rewrite Hex, Hd in S1. cbn [andb] in S1. specialize (S1 eq_refl).
  fold P0 A1 in S1.
  set (st1 := set_file st profile (P0 ++ A1)) in *.
  assert (Hf1 : files st1 !! profile = Some (P0 ++ A1)) by apply set_file_lookup.
  assert (Hdet : detectShellProfile h st1 = detectShellProfile h st).
  { pose proof (installReloadAlias_same_profile h clk1 st name false Hj) as D.
    now rewrite S1 in D. }
  assert (Hex1 : Reload.aliasExists st1 profile name = true).
  { unfold Reload.aliasExists, readFile. rewrite Hf1.
    unfold A1. now rewrite alias_line_detected. }
  (* the second installation *)
  destruct (remove_installed name Hn P0 profile (toISOString clk1) Hp H1 H0)
    as [Q [HQ ER]].
  fold A1 in ER.
  pose proof (installReloadAlias_steps h clk2 st1 name true) as S2.
  cbv zeta in S2. rewrite Hdet in S2. fold profile shell in S2.
  rewrite Hex1 in S2. cbn [andb negb] in S2. specialize (S2 eq_refl).
  assert (Hd1 : denied st1 profile = false) by exact Hd.
  rewrite Hd1 in S2.
  assert (Hrm : fst (Reload.removeExistingAlias st1 profile name)
                = set_file st1 profile
                    (Q ++ nl :: hash :: banner_rest (toISOString clk1))).
  { unfold Reload.removeExistingAlias, readFile, writeFile.
    rewrite Hf1, Hd1. cbn [fst]. now rewrite ER. }
  rewrite Hrm, set_file_lookup in S2. cbn [default] in S2. fold A2 in S2.
  eexists. eexists. eexists.
  split; [exact S1|]. split; [exact S2|].
  split; [apply set_file_lookup|].
  apply count_installed; try assumption.
  destruct (test (Reload.aliasPattern name) Q) eqn:E; [|reflexivity].
  unfold test in *.
  now rewrite (asearch_nleq name Hn Q P0 (nleq_sym _ _ HQ) None E) in H0.
Qed.

Lemma reload_twice_one_alias_line_witness :
  let profile := snd (detectShellProfile bash_host only_bash_profile) in
  exists st1 st2 final,
    Reload.installReloadAlias bash_host noon only_bash_profile (lit "rl") false
    = (st1, Reload.Success
              (fst (detectShellProfile bash_host only_bash_profile)) profile)
    /\ Reload.installReloadAlias bash_host later st1 (lit "rl") true
       = (st2, Reload.Success
                 (fst (detectShellProfile bash_host only_bash_profile))
                 profile)
    /\ files st2 !! profile = Some final
    /\ count (Reload.aliasPattern (lit "rl")) final = 1%nat.
Proof.
  apply (reload_twice_one_alias_line bash_host noon later only_bash_profile
           (lit "rl"));
    [reflexivity | vm_compute; reflexivity | vm_compute; reflexivity
    | vm_compute; reflexivity | vm_compute; reflexivity
    | vm_compute; reflexivity | reflexivity].
Defined.

End ReloadTwiceInstall.
